(** * ERA decision-arbitration layer: a shallow embedding of the core pipeline

    The development follows the Python sources:
    - [src/stability.py]       Wilson interval and the stability analyser,
    - [src/early_stopping.py]  the early stopper and the adaptive run manager,
    - [src/schemas.py]         the solver schema and its validator,
    - [src/rebuttal.py]        the rebuttal round,
    - [src/orchestrator.py]    the single-run pipeline and the multi-run loop,
    - [src/solver_pool.py]     the solver round,
    - [src/consensus.py]       the consensus synthesizer,
    - [src/arbiter.py]         the arbiter and its schema,
    - [src/model_memory.py]    the reliability memory,
    - [src/utils.py]           the clean-up before JSON parsing,
    - [app.py]                 the arguments of the command line.

    Conventions of the embedding.
    - Python [int] is [Z].  Python [float] has two readings.  The first
      part of the file reads a float as the real number it denotes ([R]),
      with [/], [math.sqrt], [max] and [min] the exact operations: rounding
      and NaN are outside that reading, and it is used for what does not
      depend on them.  Module [B64] embeds the paths where rounding, the
      order of the operations or NaN matter (the Wilson functions, the
      schema validator, the solver and rebuttal rounds, [run_single]) over
      IEEE binary64, the kernel's [float].
    - A Python call that may raise returns [result A]; exceptions are values
      of [exn].  [try ... except Exception] is a case analysis on the
      result ([try_exceptM] where the body has effects).
    - [str] is [string]; a [dict] keyed by strings is a [gmap string _];
      a [Counter] keeps its insertion order and is an association list.
    - Remote model calls and the parsing of their replies are the
      environment: they appear as fields of oracle records, and so does the
      arbiter, whose output is taken as [Arbiter.rank] returns it.
    - Writes to the stores (reliability memory, run log, final snapshot)
      are recorded as events of a trace and are taken to succeed; log
      lines are left out unless evaluating them can raise. *)

From Stdlib Require Import PrimFloat.
From Stdlib Require FloatOps FloatAxioms SpecFloat Uint63.
From Stdlib Require Import ZArith List String Ascii Bool Lia Lra Psatz.
From Stdlib Require Import DecimalString.
From Stdlib Require Import Reals.
From stdpp Require Import base gmap strings list.

Local Open Scope Z_scope.

#[local] Set Warnings "-register-all,-inexact-float".

(** ** Exceptions and the error monad *)

Inductive exn : Type :=
  | ZeroDivisionError
  | ValueError (msg : string)
  | IndexError
  | KeyError (key : string)
  | TypeError
  | AttributeError
  | ProviderError (msg : string).

Inductive result (A : Type) : Type :=
  | Ok (a : A)
  | Raise (e : exn).

Arguments Ok {A} a.
Arguments Raise {A} e.

#[global] Instance result_ret : MRet result := fun A a => Ok a.

#[global] Instance result_bind : MBind result := fun A B k m =>
  match m with
  | Ok a => k a
  | Raise e => Raise e
  end.

(** ** Python arithmetic on ints and floats *)

(** [a / b] on two ints: true division, [ZeroDivisionError] on [b = 0]. *)
Definition int_truediv (a b : Z) : result R :=
  if Z.eq_dec b 0 then Raise ZeroDivisionError else Ok (IZR a / IZR b)%R.

(** [x / n] for a float [x] and an int [n]. *)
Definition float_div_int (x : R) (n : Z) : result R :=
  if Z.eq_dec n 0 then Raise ZeroDivisionError else Ok (x / IZR n)%R.

(** [x / y] for two floats. *)
Definition float_div (x y : R) : result R :=
  if Req_dec_T y 0 then Raise ZeroDivisionError else Ok (x / y)%R.

(** [math.sqrt]: a negative argument is a [ValueError]. *)
Definition math_sqrt (x : R) : result R :=
  if Rlt_dec x 0 then Raise (ValueError "math domain error") else Ok (sqrt x).

(** [round(x, 3)]: the nearest multiple of [1/1000], ties to the even one. *)
Definition round_half_even (y : R) : Z :=
  let f := (up y - 1)%Z in
  let d := (y - IZR f)%R in
  if Rlt_dec d (1/2) then f
  else if Rlt_dec (1/2) d then f + 1
  else if Z.even f then f else f + 1.

Definition round3 (x : R) : R := (IZR (round_half_even (x * 1000)) / 1000)%R.

(** [clamp(x, lo, hi)] of the specification's formula. *)
Definition clamp (x lo hi : R) : R := Rmax lo (Rmin hi x).

(** Float comparisons as they appear in [if] conditions. *)
Definition float_ge (x y : R) : bool := if Rge_dec x y then true else false.
Definition float_lt (x y : R) : bool := if Rlt_dec x y then true else false.
Definition float_eq (x y : R) : bool := if Req_dec_T x y then true else false.

(** ** [collections.Counter] over strings

    A [Counter] is a [dict]: iteration follows first insertion.
    [most_common(1)] is [max] over the items by count, which returns the
    first maximal item, so ties go to the label seen first. *)

Module Counter.

Definition t : Type := list (string * Z).

Fixpoint incr (c : t) (x : string) : t :=
  match c with
  | [] => [(x, 1)]
  | (y, n) :: c' =>
      if String.eqb y x then (y, n + 1) :: c' else (y, n) :: incr c' x
  end.

Definition of_list (l : list string) : t := fold_left incr l [].

Fixpoint max_from (best : string * Z) (c : t) : string * Z :=
  match c with
  | [] => best
  | kv :: c' => max_from (if Z.ltb (snd best) (snd kv) then kv else best) c'
  end.

(** [most_common(1)]: a list with at most one item. *)
Definition most_common1 (c : t) : list (string * Z) :=
  match c with
  | [] => []
  | kv :: c' => [max_from kv c']
  end.

End Counter.

(** [l[0]]. *)
Definition index0 {A : Type} (l : list A) : result A :=
  match l with
  | [] => Raise IndexError
  | a :: _ => Ok a
  end.

(** [l[-1]]. *)
Definition index_last {A : Type} (l : list A) : result A :=
  match last l with
  | None => Raise IndexError
  | Some a => Ok a
  end.

(** [len(l)]. *)
Definition len {A : Type} (l : list A) : Z := Z.of_nat (length l).

(** ** JSON values *)

(** What [json.loads] returns: objects are dicts keyed by strings. *)
Inductive json : Type :=
  | JNull
  | JBool (b : bool)
  | JInt (n : Z)
  | JFloat (x : R)
  | JStr (s : string)
  | JArr (items : list json)
  | JObj (fields : gmap string json).

(** ** [src/stability.py]: class [WilsonCI] *)

Module WilsonCI.

Definition calculate (successes trials : Z) (confidence : R) : result (R * R) :=
  if Z.eq_dec trials 0 then Ok (0, 0)%R
  else
    let z := 1.96%R in
    p_hat ← int_truediv successes trials;
    t1 ← float_div_int (z * z) trials;
    let denominator := (1 + t1)%R in
    t2 ← float_div_int (z * z) (2 * trials);
    centre_adjusted ← float_div (p_hat + t2) denominator;
    t3 ← float_div_int (z * z) (4 * trials);
    t4 ← float_div_int (p_hat * (1 - p_hat) + t3) trials;
    root ← math_sqrt t4;
    adjusted_sd ← float_div root denominator;
    let lower := Rmax 0 (centre_adjusted - z * adjusted_sd) in
    let upper := Rmin 1 (centre_adjusted + z * adjusted_sd) in
    Ok (lower, upper).

End WilsonCI.

(** The default of the [confidence] keyword of both Wilson functions. *)
Definition default_confidence : R := 0.95%R.

(** ** [src/stability.py]: class [StabilityAnalyzer] *)

(** One entry of [results_per_run], as [run_multi] builds it. *)
Record RunOutcome : Type := mkRunOutcome {
  ro_decision_mode : string;
  ro_used_candidates : list string;
  ro_final_answer : json
}.

(** The dictionary returned by [analyze]; the empty-input branch has no
    ["total_runs"] key and [None] as majority mode. *)
Record StabilityResult : Type := mkStabilityResult {
  majority_rate : R;
  ci_lower : R;
  ci_upper : R;
  majority_mode : option string;
  mode_distribution : Counter.t;
  total_runs : option Z
}.

Module StabilityAnalyzer.

Definition analyze (results_per_run : list RunOutcome) : result StabilityResult :=
  match results_per_run with
  | [] =>
      Ok {| majority_rate := 0; ci_lower := 0; ci_upper := 0;
            majority_mode := None; mode_distribution := [];
            total_runs := None |}
  | _ =>
      let modes := map ro_decision_mode results_per_run in
      let mode_counter := Counter.of_list modes in
      top ← index0 (Counter.most_common1 mode_counter);
      let majority_mode := fst top in
      top' ← index0 (Counter.most_common1 mode_counter);
      let majority_count := snd top' in
      majority_rate ← int_truediv majority_count (len results_per_run);
      '(ci_lower, ci_upper) ←
        WilsonCI.calculate majority_count (len results_per_run)
          default_confidence;
      Ok {| majority_rate := round3 majority_rate;
            ci_lower := round3 ci_lower;
            ci_upper := round3 ci_upper;
            majority_mode := Some majority_mode;
            mode_distribution := mode_counter;
            total_runs := Some (len results_per_run) |}
  end.

End StabilityAnalyzer.

(** ** Python string methods used by the stopper

    Strings are read as sequences of one-byte characters; [lower] and
    [strip] act on the ASCII range as Python does on those characters. *)

Definition ascii_lower (c : ascii) : ascii :=
  let n := nat_of_ascii c in
  if (65 <=? n)%nat && (n <=? 90)%nat then ascii_of_nat (n + 32) else c.

Definition is_space (c : ascii) : bool :=
  let n := nat_of_ascii c in
  ((9 <=? n)%nat && (n <=? 13)%nat) || ((28 <=? n)%nat && (n <=? 32)%nat).

Fixpoint str_lower (s : string) : string :=
  match s with
  | EmptyString => EmptyString
  | String c s' => String (ascii_lower c) (str_lower s')
  end.

Fixpoint lstrip (s : string) : string :=
  match s with
  | EmptyString => EmptyString
  | String c s' => if is_space c then lstrip s' else s
  end.

(** Drops the trailing whitespace: a character is kept when it is not a
    space or when something non-blank follows it. *)
Fixpoint rstrip (s : string) : string :=
  match s with
  | EmptyString => EmptyString
  | String c s' =>
      match rstrip s' with
      | EmptyString => if is_space c then EmptyString else String c EmptyString
      | r => String c r
      end
  end.

Definition str_strip (s : string) : string := rstrip (lstrip s).

(** [s[:n]] *)
Definition str_prefix (n : nat) (s : string) : string := String.substring 0 n s.

(** ** [src/early_stopping.py] *)

(** The [reason] texts.  Each constructor stands for one f-string of the
    source and carries the values that string interpolates. *)
Inductive Reason : Type :=
  | ContinuingRuns
  | MinimumRunsNotReached (current_run min_runs : Z)
  | HighConfidenceAchieved (ci_lower confidence_threshold : R)
  | StableConvergence (convergence : R) (stability_streak : Z)
  | AdaptiveStop (convergence : R) (current_run : Z)
  | MaximumRunsReached (max_runs : Z).

Record StoppingDecision : Type := mkStoppingDecision {
  should_stop : bool;
  reason : Reason;
  current_run : Z;
  total_planned_runs : Z;
  convergence_score : R;
  confidence_interval : R * R;
  dominant_answer : option string;
  dominant_count : Z;
  saved_runs : Z
}.

Module EarlyStoppingConfig.

Record t : Type := mk {
  min_runs : Z;
  confidence_threshold : R;
  convergence_threshold : R;
  stability_window : Z;
  enable_adaptive : bool
}.

(** The dataclass defaults. *)
Definition default : t :=
  {| min_runs := 3;
     confidence_threshold := 0.85;
     convergence_threshold := 0.8;
     stability_window := 2;
     enable_adaptive := true |}.

End EarlyStoppingConfig.

Module EarlyStopper.

Record t : Type := mk {
  config : EarlyStoppingConfig.t;
  run_history : list string;
  stability_streak : Z;
  last_dominant : option string
}.

Definition init (cfg : EarlyStoppingConfig.t) : t :=
  {| config := cfg; run_history := []; stability_streak := 0;
     last_dominant := None |}.

Definition reset (self : t) : t :=
  {| config := config self; run_history := []; stability_streak := 0;
     last_dominant := None |}.

Definition _wilson_ci (successes total : Z) (confidence : R) : result (R * R) :=
  if Z.eq_dec total 0 then Ok (0, 0)%R
  else
    let z := if float_eq confidence 0.95 then 1.96%R else 1.645%R in
    p ← int_truediv successes total;
    t1 ← float_div_int (z * z) total;
    let denominator := (1 + t1)%R in
    t2 ← float_div_int (z * z) (2 * total);
    let center := (p + t2)%R in
    t3 ← float_div_int (z * z) (4 * total);
    t4 ← float_div_int (p * (1 - p) + t3) total;
    root ← math_sqrt t4;
    let spread := (z * root)%R in
    lower ← float_div (center - spread) denominator;
    upper ← float_div (center + spread) denominator;
    Ok (Rmax 0 lower, Rmin 1 upper).

Definition _get_answer_signature (answer : string) : string :=
  match answer with
  | EmptyString => EmptyString
  | _ => str_strip (str_lower (str_prefix 200 answer))
  end.

Definition record_run (self : t) (answer : string)
  : result (t * StoppingDecision) :=
  let signature := _get_answer_signature answer in
  let history := run_history self ++ [signature] in
  let current_run := len history in
  let counter := Counter.of_list history in
  '(dominant_answer, dominant_count) ← index0 (Counter.most_common1 counter);
  convergence ← int_truediv dominant_count current_run;
  '(ci_lower, ci_upper) ←
    _wilson_ci dominant_count current_run default_confidence;
  let '(streak, last) :=
    if decide (Some dominant_answer = last_dominant self)
    then (stability_streak self + 1, last_dominant self)
    else (1, Some dominant_answer) in
  let cfg := config self in
  let '(stop, why) :=
    if current_run <? EarlyStoppingConfig.min_runs cfg then
      (false,
       MinimumRunsNotReached current_run (EarlyStoppingConfig.min_runs cfg))
    else if float_ge ci_lower (EarlyStoppingConfig.confidence_threshold cfg)
    then
      (true,
       HighConfidenceAchieved ci_lower
         (EarlyStoppingConfig.confidence_threshold cfg))
    else if float_ge convergence
              (EarlyStoppingConfig.convergence_threshold cfg)
            && (EarlyStoppingConfig.stability_window cfg <=? streak) then
      (true, StableConvergence convergence streak)
    else if EarlyStoppingConfig.enable_adaptive cfg && (5 <=? current_run) then
      if float_ge convergence 0.8
      then (true, AdaptiveStop convergence current_run)
      else (false, ContinuingRuns)
    else (false, ContinuingRuns) in
  Ok ({| config := cfg; run_history := history; stability_streak := streak;
         last_dominant := last |},
      {| should_stop := stop;
         reason := why;
         current_run := current_run;
         total_planned_runs := 0;
         convergence_score := convergence;
         confidence_interval := (ci_lower, ci_upper);
         dominant_answer := Some dominant_answer;
         dominant_count := dominant_count;
         saved_runs := 0 |}).

End EarlyStopper.

Module AdaptiveRunManager.

Record t : Type := mk {
  max_runs : Z;
  min_runs : Z;
  target_confidence : R;
  stopper : EarlyStopper.t
}.

Definition init (max_runs min_runs : Z) (target_confidence : R) : t :=
  {| max_runs := max_runs;
     min_runs := min_runs;
     target_confidence := target_confidence;
     stopper := EarlyStopper.init
       (EarlyStoppingConfig.mk min_runs target_confidence
          (EarlyStoppingConfig.convergence_threshold EarlyStoppingConfig.default)
          (EarlyStoppingConfig.stability_window EarlyStoppingConfig.default)
          true) |}.

(** [AdaptiveRunManager()] *)
Definition default : t := init 10 3 0.85.

Definition start_problem (self : t) : t :=
  {| max_runs := max_runs self; min_runs := min_runs self;
     target_confidence := target_confidence self;
     stopper := EarlyStopper.reset (stopper self) |}.

Definition with_stopper (self : t) (s : EarlyStopper.t) : t :=
  {| max_runs := max_runs self; min_runs := min_runs self;
     target_confidence := target_confidence self; stopper := s |}.

Definition should_continue (self : t) (answer : string) (planned_total : Z)
  : result (t * (bool * StoppingDecision)) :=
  '(stopper', d) ← EarlyStopper.record_run (stopper self) answer;
  let self' := with_stopper self stopper' in
  let decision :=
    {| should_stop := should_stop d; reason := reason d;
       current_run := current_run d; total_planned_runs := planned_total;
       convergence_score := convergence_score d;
       confidence_interval := confidence_interval d;
       dominant_answer := dominant_answer d;
       dominant_count := dominant_count d; saved_runs := saved_runs d |} in
  let current := current_run decision in
  if current <? min_runs self then Ok (self', (true, decision))
  else if max_runs self <=? current then
    Ok (self', (false,
      {| should_stop := true; reason := MaximumRunsReached (max_runs self);
         current_run := current_run decision;
         total_planned_runs := total_planned_runs decision;
         convergence_score := convergence_score decision;
         confidence_interval := confidence_interval decision;
         dominant_answer := dominant_answer decision;
         dominant_count := dominant_count decision;
         saved_runs := saved_runs decision |}))
  else if should_stop decision then
    Ok (self', (false,
      {| should_stop := should_stop decision; reason := reason decision;
         current_run := current_run decision;
         total_planned_runs := total_planned_runs decision;
         convergence_score := convergence_score decision;
         confidence_interval := confidence_interval decision;
         dominant_answer := dominant_answer decision;
         dominant_count := dominant_count decision;
         saved_runs := planned_total - current |}))
  else Ok (self', (true, decision)).

End AdaptiveRunManager.

(** ** [src/schemas.py] *)

Inductive json_type : Type := TObject | TArray | TString | TNumber.

(** A schema dictionary, restricted to the keywords that [SOLVER_SCHEMA] and
    [ARBITER_SCHEMA] use.  An absent keyword is [None] (or the empty list);
    [additionalProperties] defaults to [true]. *)
Inductive schema : Type :=
  Schema (s_type : option json_type)
         (s_required : list string)
         (s_additionalProperties : bool)
         (s_properties : list (string * schema))
         (s_items : option schema)
         (s_minimum s_maximum : option R).

Definition string_schema : schema :=
  Schema (Some TString) [] true [] None None None.

Definition string_array_schema : schema :=
  Schema (Some TArray) [] true [] (Some string_schema) None None.

Definition unit_number_schema : schema :=
  Schema (Some TNumber) [] true [] None (Some 0%R) (Some 1%R).

Definition SOLVER_SCHEMA : schema :=
  Schema (Some TObject)
    ["model_id"; "task_id"; "final_answer"; "confidence";
     "assumptions"; "risks"; "evidence"; "self_checks"]%string
    false
    [("model_id", string_schema);
     ("task_id", string_schema);
     ("final_answer", string_schema);
     ("confidence", unit_number_schema);
     ("assumptions", string_array_schema);
     ("risks", string_array_schema);
     ("evidence", string_array_schema);
     ("self_checks", string_array_schema)]%string
    None None None.

(** The [type] keyword; a JSON boolean is not a number. *)
Definition has_type (ty : json_type) (j : json) : bool :=
  match ty, j with
  | TObject, JObj _ => true
  | TArray, JArr _ => true
  | TString, JStr _ => true
  | TNumber, JInt _ => true
  | TNumber, JFloat _ => true
  | _, _ => false
  end.

Definition number_value (j : json) : option R :=
  match j with
  | JInt n => Some (IZR n)
  | JFloat x => Some x
  | _ => None
  end.

Definition float_le (x y : R) : bool := if Rle_dec x y then true else false.

Definition str_in (k : string) (l : list string) : bool :=
  existsb (String.eqb k) l.

(** [jsonschema.validate], as a checker: [true] when no [ValidationError]
    is raised.  Every keyword constrains only instances of its own kind. *)
Fixpoint valid (s : schema) (j : json) {struct s} : bool :=
  match s with
  | Schema ty required additional properties items minimum maximum =>
      match ty with Some t => has_type t j | None => true end
      && match j with
         | JObj m =>
             forallb (fun k => bool_decide (is_Some (m !! k))) required
             && (additional
                 || forallb (fun k => str_in k (map fst properties))
                      (map fst (map_to_list m)))
             && (fix props (ps : list (string * schema)) : bool :=
                   match ps with
                   | [] => true
                   | (k, sub) :: ps' =>
                       match m !! k with
                       | Some v => valid sub v
                       | None => true
                       end && props ps'
                   end) properties
         | _ => true
         end
      && match items, j with
         | Some sub, JArr l => forallb (valid sub) l
         | _, _ => true
         end
      && match minimum, number_value j with
         | Some lo, Some x => float_le lo x
         | _, _ => true
         end
      && match maximum, number_value j with
         | Some hi, Some x => float_le x hi
         | _, _ => true
         end
  end.

Definition validate_solver_json (obj : json) : result unit :=
  if valid SOLVER_SCHEMA obj then Ok tt
  else Raise (ValueError "Solver JSON validation error").

(** ** [src/models.py] *)

Record SolverOutput : Type := mkSolverOutput {
  model_id : string;
  task_id : string;
  final_answer : string;
  confidence : R;
  assumptions : list string;
  risks : list string;
  evidence : list string;
  self_checks : list string;
  latency_ms : Z;
  timestamp : string
}.

Record ArbiterRanking : Type := mkArbiterRanking {
  rk_model_id : string;
  rk_score : R
}.

Record ArbiterOutput : Type := mkArbiterOutput {
  ao_task_id : string;
  ao_selected_model_id : string;
  ao_ranking : list ArbiterRanking;
  ao_final_answer : string;
  ao_arbiter_notes : list string;
  ao_decision_mode : string;
  ao_used_candidates : list string;
  ao_timestamp : string
}.

(** [ArbiterOutput.to_dict()] after the orchestrator has overwritten
    [final_answer], [decision_mode] and [used_candidates] in place: the
    final answer may then be the consensus reply's value, of any JSON kind. *)
Record ArbiterOutputDict : Type := mkArbiterOutputDict {
  d_task_id : string;
  d_selected_model_id : string;
  d_ranking : list ArbiterRanking;
  d_final_answer : json;
  d_arbiter_notes : list string;
  d_decision_mode : string;
  d_used_candidates : list string;
  d_timestamp : string
}.

Record RunRecord : Type := mkRunRecord {
  rr_pool : string;
  rr_iter_index : Z;
  rr_round_number : Z;
  rr_solver_model_id : string;
  rr_latency_ms : Z;
  rr_confidence : R;
  rr_arbiter_score : option R;
  rr_decision_mode : string;
  rr_used_candidates : string;
  rr_final_answer : json;
  rr_notes : string;
  rr_timestamp : string
}.

(** ** Reading a parsed reply *)

(** [obj[key]] *)
Definition getitem (obj : json) (key : string) : result json :=
  match obj with
  | JObj m =>
      match m !! key with
      | Some v => Ok v
      | None => Raise (KeyError key)
      end
  | _ => Raise TypeError
  end.

(** [obj.get(key, dflt)] *)
Definition dict_get (obj : json) (key : string) (dflt : json) : result json :=
  match obj with
  | JObj m => Ok (default dflt (m !! key))
  | _ => Raise AttributeError
  end.

(** Projections of a reply into the typed fields of [SolverOutput].  They
    are applied after [validate_solver_json], which leaves only the first
    branch of each reachable ([build_after_validation] below). *)
Definition as_str (j : json) : result string :=
  match j with
  | JStr s => Ok s
  | _ => Raise TypeError
  end.

(** [float(x)] *)
Definition py_float (j : json) : result R :=
  match j with
  | JInt n => Ok (IZR n)
  | JFloat x => Ok x
  | JBool b => Ok (if b then 1%R else 0%R)
  | _ => Raise TypeError
  end.

(** [list(x)] into a list of strings *)
Definition as_str_list (j : json) : result (list string) :=
  match j with
  | JArr l => mapM (M := result) as_str l
  | _ => Raise TypeError
  end.

(** The constructor call [SolverOutput(model_id=..., task_id=...,
    final_answer=parsed["final_answer"], ...)] shared by the solver pool and
    the rebuttal round. *)
Definition build_solver_output (mid tid : string) (parsed : json)
    (latency : Z) (stamp : string) : result SolverOutput :=
  fa ← getitem parsed "final_answer" ≫= as_str;
  conf ← getitem parsed "confidence" ≫= py_float;
  asm ← getitem parsed "assumptions" ≫= as_str_list;
  rsk ← getitem parsed "risks" ≫= as_str_list;
  evd ← getitem parsed "evidence" ≫= as_str_list;
  chk ← getitem parsed "self_checks" ≫= as_str_list;
  Ok {| model_id := mid; task_id := tid; final_answer := fa;
        confidence := conf; assumptions := asm; risks := rsk;
        evidence := evd; self_checks := chk; latency_ms := latency;
        timestamp := stamp |}.

(** ** [src/solver_pool.py] *)

(** One finished worker call, in completion order: the worker, what
    [provider.generate] followed by [safe_parse_json] produced (or the
    exception either raised), the measured latency and the clock reading. *)
Record SolverReply : Type := mkSolverReply {
  sr_model_id : string;
  sr_parsed : result json;
  sr_latency_ms : Z;
  sr_timestamp : string
}.

Module SolverPool.

Definition call_solver (tid : string) (r : SolverReply) : result SolverOutput :=
  parsed ← sr_parsed r;
  _ ← validate_solver_json parsed;
  build_solver_output (sr_model_id r) tid parsed (sr_latency_ms r)
    (sr_timestamp r).

(** The [as_completed] loop: a failed future is logged and skipped. *)
Fixpoint run_parallel (tid : string) (futures : list SolverReply)
  : list SolverOutput :=
  match futures with
  | [] => []
  | r :: rest =>
      match call_solver tid r with
      | Ok out => out :: run_parallel tid rest
      | Raise _ => run_parallel tid rest
      end
  end.

End SolverPool.

(** ** [src/rebuttal.py] *)

(** The environment of one rebuttal round: for the worker at position [i]
    of the loop, its own output and the others' outputs, the parsed reply of
    [provider.generate] (or the exception), and the clock reading. *)
Record RebuttalOracle : Type := mkRebuttalOracle {
  rebuttal_reply : nat -> SolverOutput -> list SolverOutput -> result json;
  rebuttal_clock : nat -> string
}.

Module RebuttalRound.

Definition other_outputs (all_outputs : list SolverOutput) (own : SolverOutput)
  : list SolverOutput :=
  filter (fun o => model_id o ≠ model_id own) all_outputs.

(** The body of the [try] for one worker. *)
Definition attempt (env : RebuttalOracle) (tid : string)
    (all_outputs : list SolverOutput) (i : nat) (own_output : SolverOutput)
  : result SolverOutput :=
  parsed ← rebuttal_reply env i own_output (other_outputs all_outputs own_output);
  _ ← validate_solver_json parsed;
  build_solver_output (model_id own_output) tid parsed
    (latency_ms own_output) (rebuttal_clock env i).

(** One iteration, [try: ... except Exception: ...]: what is appended to
    [improved], in either branch. *)
Definition step (env : RebuttalOracle) (tid : string)
    (all_outputs : list SolverOutput) (i : nat) (own_output : SolverOutput)
  : SolverOutput :=
  match attempt env tid all_outputs i own_output with
  | Ok out => out
  | Raise _ => own_output
  end.

Definition run (env : RebuttalOracle) (tid : string)
    (all_outputs : list SolverOutput) : list SolverOutput :=
  imap (step env tid all_outputs) all_outputs.

End RebuttalRound.

(** ** [src/consensus.py] *)

Record ConsensusResult : Type := mkConsensusResult {
  cr_final_answer : json;
  cr_synthesis_notes : json;
  cr_sources : list string
}.

(** [l[:k]] for an int [k] of either sign. *)
Definition slice_to {A : Type} (k : Z) (l : list A) : list A :=
  if 0 <=? k then take (Z.to_nat k) l
  else take (Z.to_nat (len l + k)) l.

Module ConsensusSynthesizer.

(** [reply] is what [provider.generate] followed by [safe_parse_json] gives
    for the serialised top answers; any exception is logged and re-raised. *)
Definition synthesize (reply : list SolverOutput -> Z -> result json)
    (top_candidates : list SolverOutput) (topk : Z) : result ConsensusResult :=
  parsed ← reply (slice_to topk top_candidates) topk;
  fa ← dict_get parsed "final_answer" (JStr "");
  notes ← dict_get parsed "synthesis_notes" (JArr []);
  Ok {| cr_final_answer := fa;
        cr_synthesis_notes := notes;
        cr_sources := map model_id (slice_to topk top_candidates) |}.

End ConsensusSynthesizer.

(** ** Effects of the orchestrator

    A run is observed through the calls it makes to its components and to
    the stores; [M A] pairs that trace with the value or the exception. *)

Inductive Event : Type :=
  | CallSolverPool
  | CallArbiter (candidates : list SolverOutput)
  | CallRebuttal (candidates : list SolverOutput)
  | CallConsensus (top_candidates : list SolverOutput) (topk : Z)
  | UpdateReliability (worker : string) (reward : R)
  | WriteRunRecord (record : RunRecord)
  | WriteFinalJson
  | SaveModelMemory.

Record M (A : Type) : Type := mkM {
  trace : list Event;
  outcome : result A
}.

Arguments mkM {A} trace outcome.
Arguments trace {A} m.
Arguments outcome {A} m.

#[global] Instance M_ret : MRet M := fun A a => mkM [] (Ok a).

#[global] Instance M_bind : MBind M := fun A B k m =>
  match outcome m with
  | Ok a => mkM (trace m ++ trace (k a)) (outcome (k a))
  | Raise e => mkM (trace m) (Raise e)
  end.

Definition emit (e : Event) : M unit := mkM [e] (Ok tt).

Definition lift {A : Type} (r : result A) : M A := mkM [] r.

(** [try: body except Exception: handler] with effects. *)
Definition try_exceptM {A : Type} (body : M A) (handler : exn -> M A) : M A :=
  match outcome body with
  | Ok a => body
  | Raise e => mkM (trace body ++ trace (handler e)) (outcome (handler e))
  end.

(** [for x in l: body x] *)
Fixpoint for_each {A : Type} (l : list A) (body : A -> M unit) : M unit :=
  match l with
  | [] => mret tt
  | x :: l' => _ ← body x; for_each l' body
  end.

(** ** [src/orchestrator.py] *)

(** Everything one run receives from outside: the finished worker calls,
    the arbiter's output for its first and second call, the rebuttal
    replies, the consensus reply and the clock of the run records. *)
Record RunEnv : Type := mkRunEnv {
  solver_futures : list SolverReply;
  arbiter_rank : nat -> list SolverOutput -> result ArbiterOutput;
  rebuttal_env : RebuttalOracle;
  consensus_reply : list SolverOutput -> Z -> result json;
  record_clock : nat -> string
}.

(** The dictionary returned by [run_single]. *)
Record RunResult : Type := mkRunResult {
  res_task_id : string;
  res_arbiter_output : ArbiterOutputDict;
  res_decision_mode : string;
  res_used_candidates : list string;
  res_final_answer : json;
  res_disagreement_rate : R
}.

(** [final_data] of [run_multi]. *)
Record FinalData : Type := mkFinalData {
  fd_task_id : string;
  fd_final_answer : json;
  fd_decision_mode : string;
  fd_used_candidates : list string;
  fd_stability : StabilityResult;
  fd_config_pool : string;
  fd_config_domain : string;
  fd_config_repeats : Z;
  fd_config_consensus_topk : Z;
  fd_config_epsilon : R;
  fd_config_rebuttal : bool
}.

(** [len(set(c.final_answer for c in candidates))] *)
Definition unique_count (candidates : list SolverOutput) : Z :=
  Z.of_nat (size (list_to_set (map final_answer candidates) : gset string)).

(** [str(n)] for an int *)
Definition str_of_int (n : Z) : string := NilZero.string_of_int (Z.to_int n).

(** [len(x)] on a dynamically typed value *)
Definition py_len (j : json) : result Z :=
  match j with
  | JStr s => Ok (Z.of_nat (String.length s))
  | JArr l => Ok (len l)
  | JObj m => Ok (Z.of_nat (size m))
  | _ => Raise TypeError
  end.

(** [x[:100] + "..." if len(x) > 100 else x] *)
Definition truncate_answer (x : json) : result json :=
  n ← py_len x;
  if 100 <? n then
    match x with
    | JStr s => Ok (JStr (String.append (str_prefix 100 s) "..."))
    | _ => Raise TypeError
    end
  else Ok x.

(** [",".join(l)] *)
Definition join_comma (l : list string) : string := String.concat "," l.

(** [next((r.score for r in ranking if r.model_id == mid), None)] *)
Definition score_of (ranking : list ArbiterRanking) (mid : string) : option R :=
  rk_score <$> List.find (fun r => String.eqb (rk_model_id r) mid) ranking.

Module MultiLLMOrchestrator.

Record t : Type := mk {
  pool_name : string;
  domain : string
}.

(** The keyword defaults of [run_single] and [run_multi]. *)
Definition default_consensus_topk : Z := 3.
Definition default_epsilon : R := 0.07.
Definition default_enable_rebuttal : bool := true.
Definition default_disagreement_threshold : R := 0.55.
Definition default_repeats : Z := 5.

(** The body of the [try] around the consensus synthesis. *)
Definition try_consensus (env : RunEnv) (consensus_topk : Z)
    (candidates_current : list SolverOutput) (arbiter_current : ArbiterOutput)
  : M (string * list string * json) :=
  let top_k := Z.min consensus_topk (len candidates_current) in
  let ranked := map rk_model_id (slice_to top_k (ao_ranking arbiter_current)) in
  let top_models :=
    map model_id
      (filter (fun c => str_in (model_id c) ranked = true) candidates_current) in
  let top_candidates :=
    filter (fun c => str_in (model_id c) top_models = true) candidates_current in
  _ ← emit (CallConsensus top_candidates top_k);
  consensus_result ←
    lift (ConsensusSynthesizer.synthesize (consensus_reply env)
            top_candidates top_k);
  mret (String.append "consensus_top" (str_of_int top_k),
        cr_sources consensus_result,
        cr_final_answer consensus_result).

(** [len(set(c.final_answer for c in cs)) / len(cs)], computed after the
    solver round and again after the rebuttal round. *)
Definition disagreement_rate (candidates : list SolverOutput) : result R :=
  let unique_answers := unique_count candidates in
  int_truediv unique_answers (len candidates).

(** Rounds 1 and 2: the solver pool, the disagreement check, the arbiter.
    The log line after the arbiter call reads [ranking[0].score]. *)
Definition first_rounds (env : RunEnv) (tid : string)
  : M (list SolverOutput * R * ArbiterOutput) :=
  _ ← emit CallSolverPool;
  let candidates_r1 := SolverPool.run_parallel tid (solver_futures env) in
  rate ← lift (disagreement_rate candidates_r1);
  _ ← emit (CallArbiter candidates_r1);
  arbiter_out ← lift (arbiter_rank env 0 candidates_r1);
  _ ← lift (index0 (ao_ranking arbiter_out));
  mret (candidates_r1, rate, arbiter_out).

(** The rebuttal block: the current candidates, the current arbiter output,
    the round number and the disagreement rate after it. *)
Definition rebuttal_block (env : RunEnv) (tid : string)
    (enable_rebuttal : bool) (disagreement_threshold : R)
    (candidates_r1 : list SolverOutput) (rate : R) (arbiter_out : ArbiterOutput)
  : M (list SolverOutput * ArbiterOutput * Z * R) :=
  if enable_rebuttal && float_ge rate disagreement_threshold then
    _ ← emit (CallRebuttal candidates_r1);
    let candidates_r2 :=
      RebuttalRound.run (rebuttal_env env) tid candidates_r1 in
    rate2 ← lift (disagreement_rate candidates_r2);
    _ ← emit (CallArbiter candidates_r2);
    arbiter2 ← lift (arbiter_rank env 1 candidates_r2);
    mret (candidates_r2, arbiter2, 2, rate2)
  else mret (candidates_r1, arbiter_out, 1, rate).

(** The result computed before the consensus check. *)
Definition hard_select (arbiter_current : ArbiterOutput)
  : string * list string * json :=
  ("hard_select"%string, [ao_selected_model_id arbiter_current],
   JStr (ao_final_answer arbiter_current)).

(** The consensus block; [first :: second :: _] is
    [len(arbiter_current.ranking) >= 2] with [ranking[0]] and [ranking[1]]. *)
Definition consensus_block (env : RunEnv) (consensus_topk : Z) (epsilon : R)
    (candidates_current : list SolverOutput) (arbiter_current : ArbiterOutput)
  : M (string * list string * json) :=
  match ao_ranking arbiter_current with
  | first :: second :: _ =>
      let gap := (rk_score first - rk_score second)%R in
      if float_lt gap epsilon then
        try_exceptM
          (try_consensus env consensus_topk candidates_current arbiter_current)
          (fun _ => mret (hard_select arbiter_current))
      else mret (hard_select arbiter_current)
  | _ => mret (hard_select arbiter_current)
  end.

(** The tail of [run_single]: the arbiter output is updated in place, the
    reliabilities are updated, the run records are written and the result
    dictionary is returned. *)
Definition bookkeeping (self : t) (env : RunEnv) (tid : string)
    (candidates_current : list SolverOutput) (arbiter_current : ArbiterOutput)
    (round_number : Z) (rate : R)
    (decision_mode : string) (used_candidates : list string)
    (final_answer : json) : M RunResult :=
  let arbiter_final :=
    {| d_task_id := ao_task_id arbiter_current;
       d_selected_model_id := ao_selected_model_id arbiter_current;
       d_ranking := ao_ranking arbiter_current;
       d_final_answer := final_answer;
       d_arbiter_notes := ao_arbiter_notes arbiter_current;
       d_decision_mode := decision_mode;
       d_used_candidates := used_candidates;
       d_timestamp := ao_timestamp arbiter_current |} in
  _ ← for_each used_candidates (fun mid => emit (UpdateReliability mid 1));
  _ ← for_each candidates_current (fun c =>
        if str_in (model_id c) used_candidates then mret tt
        else emit (UpdateReliability (model_id c) 0));
  _ ← for_each (imap pair candidates_current) (fun '(i, candidate) =>
        shown ← lift (truncate_answer final_answer);
        emit (WriteRunRecord
          {| rr_pool := pool_name self;
             rr_iter_index := 0;
             rr_round_number := round_number;
             rr_solver_model_id := model_id candidate;
             rr_latency_ms := latency_ms candidate;
             rr_confidence := confidence candidate;
             rr_arbiter_score :=
               score_of (d_ranking arbiter_final) (model_id candidate);
             rr_decision_mode := decision_mode;
             rr_used_candidates := join_comma used_candidates;
             rr_final_answer := shown;
             rr_notes := "";
             rr_timestamp := record_clock env i |}));
  mret {| res_task_id := tid;
          res_arbiter_output := arbiter_final;
          res_decision_mode := decision_mode;
          res_used_candidates := used_candidates;
          res_final_answer := final_answer;
          res_disagreement_rate := rate |}.

Definition run_single (self : t) (env : RunEnv) (tid : string)
    (consensus_topk : Z) (epsilon : R) (enable_rebuttal : bool)
    (disagreement_threshold : R) : M RunResult :=
  '(candidates_r1, rate1, arbiter_out) ← first_rounds env tid;
  '(candidates_current, arbiter_current, round_number, rate) ←
    rebuttal_block env tid enable_rebuttal disagreement_threshold
      candidates_r1 rate1 arbiter_out;
  '(decision_mode, used_candidates, final_answer) ←
    consensus_block env consensus_topk epsilon
      candidates_current arbiter_current;
  bookkeeping self env tid candidates_current arbiter_current round_number
    rate decision_mode used_candidates final_answer.

(** The [for i in range(repeats)] loop, from run [i], [n] runs to go. *)
Fixpoint run_loop (self : t) (envs : nat -> RunEnv) (tid : string)
    (consensus_topk : Z) (epsilon : R) (enable_rebuttal : bool)
    (i n : nat) (results_per_run : list RunOutcome) : M (list RunOutcome) :=
  match n with
  | O => mret results_per_run
  | S n' =>
      result ← run_single self (envs i) tid consensus_topk epsilon
                 enable_rebuttal default_disagreement_threshold;
      run_loop self envs tid consensus_topk epsilon enable_rebuttal (S i) n'
        (results_per_run ++
           [{| ro_decision_mode := res_decision_mode result;
               ro_used_candidates := res_used_candidates result;
               ro_final_answer := res_final_answer result |}])
  end.

Definition run_multi (self : t) (envs : nat -> RunEnv) (tid : string)
    (repeats consensus_topk : Z) (epsilon : R) (enable_rebuttal : bool)
  : M FinalData :=
  results_per_run ←
    run_loop self envs tid consensus_topk epsilon enable_rebuttal
      0%nat (Z.to_nat repeats) [];
  stability ← lift (StabilityAnalyzer.analyze results_per_run);
  final_result ← lift (index_last results_per_run);
  let final_data :=
    {| fd_task_id := tid;
       fd_final_answer := ro_final_answer final_result;
       fd_decision_mode := ro_decision_mode final_result;
       fd_used_candidates := ro_used_candidates final_result;
       fd_stability := stability;
       fd_config_pool := pool_name self;
       fd_config_domain := domain self;
       fd_config_repeats := repeats;
       fd_config_consensus_topk := consensus_topk;
       fd_config_epsilon := epsilon;
       fd_config_rebuttal := enable_rebuttal |} in
  _ ← emit WriteFinalJson;
  _ ← emit SaveModelMemory;
  mret final_data.

End MultiLLMOrchestrator.

(** ** The Wilson interval as the specification writes it *)

Definition wilson_center (z p n : R) : R :=
  ((p + z * z / (2 * n)) / (1 + z * z / n))%R.

Definition wilson_spread (z p n : R) : R :=
  (z * sqrt ((p * (1 - p) + z * z / (4 * n)) / n) / (1 + z * z / n))%R.

Definition wilson_interval (successes trials : Z) : R * R :=
  let z := 1.96%R in
  let n := IZR trials in
  let p := (IZR successes / n)%R in
  (clamp (wilson_center z p n - wilson_spread z p n) 0 1,
   clamp (wilson_center z p n + wilson_spread z p n) 0 1).

(** ** The stopper as the specification describes it *)

(** The dominant signature of a non-empty history and its count. *)
Definition dominant (history : list string) : string * Z :=
  match Counter.of_list history with
  | [] => (EmptyString, 0)
  | kv :: c => Counter.max_from kv c
  end.

(** The number of items a counter has counted. *)
Definition counter_total (c : Counter.t) : Z :=
  fold_right (fun kv acc => snd kv + acc) 0 c.

(** The decision of section 4.7, rules (a) to (e) in that order. *)
Definition stopping_rule (cfg : EarlyStoppingConfig.t) (n : Z)
    (ci_lower convergence : R) (streak : Z) : bool * Reason :=
  if n <? EarlyStoppingConfig.min_runs cfg then
    (false, MinimumRunsNotReached n (EarlyStoppingConfig.min_runs cfg))
  else if float_ge ci_lower (EarlyStoppingConfig.confidence_threshold cfg) then
    (true, HighConfidenceAchieved ci_lower
             (EarlyStoppingConfig.confidence_threshold cfg))
  else if float_ge convergence (EarlyStoppingConfig.convergence_threshold cfg)
          && (EarlyStoppingConfig.stability_window cfg <=? streak) then
    (true, StableConvergence convergence streak)
  else if EarlyStoppingConfig.enable_adaptive cfg && (5 <=? n)
          && float_ge convergence 0.8 then
    (true, AdaptiveStop convergence n)
  else (false, ContinuingRuns).

(** The streak update: incremented while the dominant signature stays,
    reset to 1 when it changes. *)
Definition next_streak (st : EarlyStopper.t) (dom : string)
  : Z * option string :=
  if decide (Some dom = EarlyStopper.last_dominant st)
  then (EarlyStopper.stability_streak st + 1, EarlyStopper.last_dominant st)
  else (1, Some dom).

Definition next_history (st : EarlyStopper.t) (answer : string) : list string :=
  EarlyStopper.run_history st ++ [EarlyStopper._get_answer_signature answer].

Definition next_state (st : EarlyStopper.t) (answer : string) : EarlyStopper.t :=
  let history := next_history st answer in
  let step := next_streak st (fst (dominant history)) in
  {| EarlyStopper.config := EarlyStopper.config st;
     EarlyStopper.run_history := history;
     EarlyStopper.stability_streak := fst step;
     EarlyStopper.last_dominant := snd step |}.

Definition next_decision (st : EarlyStopper.t) (answer : string)
  : StoppingDecision :=
  let history := next_history st answer in
  let n := len history in
  let dom := dominant history in
  let convergence := (IZR (snd dom) / IZR n)%R in
  let ci := wilson_interval (snd dom) n in
  let streak := fst (next_streak st (fst dom)) in
  let verdict :=
    stopping_rule (EarlyStopper.config st) n (fst ci) convergence streak in
  {| should_stop := fst verdict;
     reason := snd verdict;
     current_run := n;
     total_planned_runs := 0;
     convergence_score := convergence;
     confidence_interval := ci;
     dominant_answer := Some (fst dom);
     dominant_count := snd dom;
     saved_runs := 0 |}.

(** [for ans in answers: decision = stopper.record_run(ans)], as the tests
    of the stopper drive it. *)
Fixpoint record_runs (st : EarlyStopper.t) (answers : list string)
    (decision : option StoppingDecision)
  : result (EarlyStopper.t * option StoppingDecision) :=
  match answers with
  | [] => Ok (st, decision)
  | answer :: rest =>
      '(st', d) ← EarlyStopper.record_run st answer;
      record_runs st' rest (Some d)
  end.

(** ** Observing a run *)

Definition is_rebuttal_call (e : Event) : bool :=
  match e with CallRebuttal _ => true | _ => false end.

Definition is_consensus_call (e : Event) : bool :=
  match e with CallConsensus _ _ => true | _ => false end.

Definition is_solver_round (e : Event) : bool :=
  match e with CallSolverPool => true | _ => false end.

(** Whether a computation made a call of the given kind. *)
Definition invoked {A : Type} (p : Event -> bool) (m : M A) : bool :=
  existsb p (trace m).

(** How many solver rounds a computation started, that is how many single
    runs it executed. *)
Definition runs_executed {A : Type} (m : M A) : nat :=
  length (filter (fun e => is_solver_round e = true) (trace m)).

(** ** The solver contract, as a predicate

    The objects that [SOLVER_SCHEMA] describes: exactly the eight listed
    fields, each of its declared kind. *)

Definition solver_fields : list string :=
  ["model_id"; "task_id"; "final_answer"; "confidence";
   "assumptions"; "risks"; "evidence"; "self_checks"]%string.

(** The six fields that the specification's contract lists. *)
Definition contract_fields : list string :=
  ["final_answer"; "confidence";
   "assumptions"; "risks"; "evidence"; "self_checks"]%string.

Definition is_string (j : json) : Prop := exists s, j = JStr s.

Definition is_string_list (j : json) : Prop :=
  exists l, j = JArr l /\ Forall is_string l.

Definition is_unit_number (j : json) : Prop :=
  exists x, number_value j = Some x /\ (0 <= x <= 1)%R.

Definition field_is (m : gmap string json) (k : string) (P : json -> Prop)
  : Prop :=
  exists v, m !! k = Some v /\ P v.

Definition has_exactly (m : gmap string json) (names : list string) : Prop :=
  forall k, is_Some (m !! k) <-> In k names.

Definition solver_contract (obj : json) : Prop :=
  exists m,
    obj = JObj m
    /\ has_exactly m solver_fields
    /\ field_is m "model_id" is_string
    /\ field_is m "task_id" is_string
    /\ field_is m "final_answer" is_string
    /\ field_is m "confidence" is_unit_number
    /\ field_is m "assumptions" is_string_list
    /\ field_is m "risks" is_string_list
    /\ field_is m "evidence" is_string_list
    /\ field_is m "self_checks" is_string_list.

(** ** Sample data used in the examples *)

(** A reply with the six contract fields and nothing else. *)
Definition six_field_reply : json :=
  JObj (list_to_map
    [("final_answer", JStr "Test answer");
     ("confidence", JFloat 0.85);
     ("assumptions", JArr [JStr "A1"]);
     ("risks", JArr [JStr "R1"]);
     ("evidence", JArr [JStr "E1"]);
     ("self_checks", JArr [JStr "S1"])]%string).

(** The reply of [tests/test_schemas.py], [test_valid_solver_json]. *)
Definition eight_field_reply : json :=
  JObj (list_to_map
    [("model_id", JStr "test-model");
     ("task_id", JStr "task_001");
     ("final_answer", JStr "Test answer");
     ("confidence", JFloat 0.85);
     ("assumptions", JArr [JStr "A1"]);
     ("risks", JArr [JStr "R1"]);
     ("evidence", JArr [JStr "E1"]);
     ("self_checks", JArr [JStr "S1"])]%string).


Definition hard_select_run : RunOutcome :=
  {| ro_decision_mode := "hard_select";
     ro_used_candidates := ["model_01"%string];
     ro_final_answer := JStr "42" |}.

(** A candidate of worker [mid] with answer [answer]. *)
Definition candidate (mid answer : string) : SolverOutput :=
  {| model_id := mid; task_id := "task_001"; final_answer := answer;
     confidence := 0.85; assumptions := []; risks := []; evidence := [];
     self_checks := []; latency_ms := 120; timestamp := "t0" |}.

(** A well-formed worker reply with answer [answer]. *)
Definition solver_json (answer : string) : json :=
  JObj (list_to_map
    [("model_id", JStr "your_model_id");
     ("task_id", JStr "task_001");
     ("final_answer", JStr answer);
     ("confidence", JFloat 0.85);
     ("assumptions", JArr []);
     ("risks", JArr []);
     ("evidence", JArr []);
     ("self_checks", JArr [])]%string).

Definition good_reply (mid answer : string) : SolverReply :=
  {| sr_model_id := mid; sr_parsed := Ok (solver_json answer);
     sr_latency_ms := 120; sr_timestamp := "t0" |}.

Definition failed_reply (mid : string) : SolverReply :=
  {| sr_model_id := mid; sr_parsed := Raise (ProviderError "timeout");
     sr_latency_ms := 0; sr_timestamp := "t0" |}.

(** An arbiter output with the given ranking. *)
Definition verdict (ranking : list ArbiterRanking) (selected : string)
    (answer : string) : ArbiterOutput :=
  {| ao_task_id := "task_001"; ao_selected_model_id := selected;
     ao_ranking := ranking; ao_final_answer := answer;
     ao_arbiter_notes := []; ao_decision_mode := "hard_select";
     ao_used_candidates := [selected]; ao_timestamp := "t1" |}.

(** An arbiter that always answers with the given ranking. *)
Definition fixed_arbiter (ranking : list ArbiterRanking) (selected : string)
    (answer : string) : nat -> list SolverOutput -> result ArbiterOutput :=
  fun _ _ => Ok (verdict ranking selected answer).

(** The ranking of two workers with the given scores. *)
Definition two_worker_ranking (score1 score2 : R) : list ArbiterRanking :=
  [{| rk_model_id := "solver_01"; rk_score := score1 |};
   {| rk_model_id := "solver_02"; rk_score := score2 |}].

Definition silent_rebuttal : RebuttalOracle :=
  {| rebuttal_reply := fun _ _ _ => Raise (ProviderError "timeout");
     rebuttal_clock := fun _ => "t2"%string |}.

(** Two workers that disagree, an arbiter that ranks them with the given
    scores and picks the first, and a consensus call that times out. *)
Definition two_worker_env (score1 score2 : R) : RunEnv :=
  {| solver_futures :=
       [good_reply "solver_01" "yes"; good_reply "solver_02" "no"];
     arbiter_rank :=
       fixed_arbiter (two_worker_ranking score1 score2) "solver_01" "yes";
     rebuttal_env := silent_rebuttal;
     consensus_reply := fun _ _ => Raise (ProviderError "timeout");
     record_clock := fun _ => "t3"%string |}.

(** A run in which every worker call fails. *)
Definition no_worker_env : RunEnv :=
  {| solver_futures := [failed_reply "solver_01"; failed_reply "solver_02"];
     arbiter_rank := fixed_arbiter [] "solver_01" "yes";
     rebuttal_env := silent_rebuttal;
     consensus_reply := fun _ _ => Raise (ProviderError "timeout");
     record_clock := fun _ => "t3"%string |}.

Definition science : MultiLLMOrchestrator.t :=
  {| MultiLLMOrchestrator.pool_name := "science";
     MultiLLMOrchestrator.domain := "science" |}.

(** ** Reading a counter *)

(** [c[x]]: the count of [x], zero when [x] was never counted. *)
Fixpoint counter_get (c : Counter.t) (x : string) : Z :=
  match c with
  | [] => 0
  | (y, n) :: c' => if String.eqb y x then n else counter_get c' x
  end.

(** The number of occurrences of [x] in a list of labels. *)
Definition occurrences (l : list string) (x : string) : Z :=
  Z.of_nat (count_occ string_dec l x).

(** ** [src/early_stopping.py]: [get_stats] and [check_early_stop] *)

(** The two dictionaries that [EarlyStopper.get_stats] can return: the one
    of an empty history ([runs = 0], [convergence = 0.0], [dominant = None])
    and the one of a history with runs. *)
Inductive Stats : Type :=
  | NoRunStats (runs : Z) (convergence : R)
  | RunStats (runs : Z) (convergence : R) (dominant_count unique_answers : Z)
             (stability_streak : Z) (ci : R * R).

Definition get_stats (self : EarlyStopper.t) : result Stats :=
  match EarlyStopper.run_history self with
  | [] => Ok (NoRunStats 0 0)
  | _ =>
      let counter := Counter.of_list (EarlyStopper.run_history self) in
      '(dominant, count) ← index0 (Counter.most_common1 counter);
      convergence ← int_truediv count (len (EarlyStopper.run_history self));
      ci ← EarlyStopper._wilson_ci count (len (EarlyStopper.run_history self))
             default_confidence;
      Ok (RunStats (len (EarlyStopper.run_history self)) convergence count
            (len counter) (EarlyStopper.stability_streak self) ci)
  end.

(** [check_early_stop], with the module-level [early_stopper] passed in and
    handed back; [run_number] is its [current_run] argument. *)
Definition check_early_stop (early_stopper : EarlyStopper.t) (answer : string)
    (run_number total_runs : Z) : result (EarlyStopper.t * StoppingDecision) :=
  let stopper :=
    if run_number =? 1 then EarlyStopper.reset early_stopper
    else early_stopper in
  '(stopper', d) ← EarlyStopper.record_run stopper answer;
  Ok (stopper',
      {| should_stop := should_stop d; reason := reason d;
         current_run := current_run d;
         total_planned_runs := total_runs;
         convergence_score := convergence_score d;
         confidence_interval := confidence_interval d;
         dominant_answer := dominant_answer d;
         dominant_count := dominant_count d;
         saved_runs := if should_stop d then total_runs - run_number else 0 |}).

(** Consecutive calls [check_early_stop(a, k, total)], [k = first_run,
    first_run + 1, ...], one per answer. *)
Fixpoint check_sequence (early_stopper : EarlyStopper.t) (answers : list string)
    (first_run total_runs : Z) (decision : option StoppingDecision)
  : result (EarlyStopper.t * option StoppingDecision) :=
  match answers with
  | [] => Ok (early_stopper, decision)
  | answer :: rest =>
      '(stopper', d) ← check_early_stop early_stopper answer first_run
                         total_runs;
      check_sequence stopper' rest (first_run + 1) total_runs (Some d)
  end.

(** ** Invariants of the stopper *)

(** The streak never exceeds the number of recorded runs. *)
Definition stopper_invariant (st : EarlyStopper.t) : Prop :=
  0 <= EarlyStopper.stability_streak st
       <= len (EarlyStopper.run_history st).

(** A decision that describes the history of the state it was returned
    with. *)
Definition describes (st : EarlyStopper.t) (d : StoppingDecision) : Prop :=
  let h := EarlyStopper.run_history st in
  current_run d = len h
  /\ dominant_answer d = Some (fst (dominant h))
  /\ dominant_count d = snd (dominant h)
  /\ convergence_score d = (IZR (snd (dominant h)) / IZR (len h))%R
  /\ confidence_interval d = wilson_interval (snd (dominant h)) (len h)
  /\ EarlyStopper.last_dominant st = dominant_answer d
  /\ 1 <= EarlyStopper.stability_streak st.

(** A manager whose stopper has the manager's own floor, as the constructor
    builds it. *)
Definition manager_invariant (m : AdaptiveRunManager.t) : Prop :=
  EarlyStoppingConfig.min_runs (EarlyStopper.config (AdaptiveRunManager.stopper m))
  = AdaptiveRunManager.min_runs m.

(** The first character of a string, when it has one, is not blank. *)
Definition starts_solid (s : string) : Prop :=
  match s with
  | EmptyString => True
  | String c _ => is_space c = false
  end.

(** ** Kinds of events *)

(** A call of a model-backed component. *)
Definition is_call (e : Event) : bool :=
  match e with
  | CallSolverPool | CallArbiter _ | CallRebuttal _ | CallConsensus _ _ => true
  | _ => false
  end.

Definition is_update (e : Event) : bool :=
  match e with UpdateReliability _ _ => true | _ => false end.

Definition is_record (e : Event) : bool :=
  match e with WriteRunRecord _ => true | _ => false end.

(** [write_final_json] or [model_memory.save]. *)
Definition is_final_write (e : Event) : bool :=
  match e with WriteFinalJson | SaveModelMemory => true | _ => false end.

(** The entry that [run_multi] appends to [results_per_run] for one run. *)
Definition run_outcome (result : RunResult) : RunOutcome :=
  {| ro_decision_mode := res_decision_mode result;
     ro_used_candidates := res_used_candidates result;
     ro_final_answer := res_final_answer result |}.

(** ** [src/schemas.py]: the arbiter schema *)

Definition ranking_item_schema : schema :=
  Schema (Some TObject) ["model_id"; "score"]%string false
    [("model_id", string_schema); ("score", unit_number_schema)]%string
    None None None.

Definition ranking_schema : schema :=
  Schema (Some TArray) [] true [] (Some ranking_item_schema) None None.

Definition ARBITER_SCHEMA : schema :=
  Schema (Some TObject)
    ["task_id"; "selected_model_id"; "ranking"; "final_answer";
     "arbiter_notes"]%string
    true
    [("task_id", string_schema);
     ("selected_model_id", string_schema);
     ("ranking", ranking_schema);
     ("final_answer", string_schema);
     ("arbiter_notes", string_array_schema)]%string
    None None None.

Definition validate_arbiter_json (obj : json) : result unit :=
  if valid ARBITER_SCHEMA obj then Ok tt
  else Raise (ValueError "Arbiter JSON validation error").

(** ** [src/arbiter.py] *)

(** [for r in x] on a parsed value that the schema has checked to be an
    array. *)
Definition as_list (j : json) : result (list json) :=
  match j with
  | JArr l => Ok l
  | _ => Raise TypeError
  end.

Module Arbiter.

(** The [ArbiterOutput] that [rank] constructs.  Its [decision_mode] is
    whatever the reply holds under that key, of any JSON kind; the
    orchestrator overwrites it before anything reads it. *)
Record Output : Type := mkOutput {
  ar_task_id : string;
  ar_selected_model_id : string;
  ar_ranking : list ArbiterRanking;
  ar_final_answer : string;
  ar_arbiter_notes : list string;
  ar_decision_mode : json;
  ar_used_candidates : list string;
  ar_timestamp : string
}.

(** [ArbiterRanking(model_id=r["model_id"], score=float(r["score"]))] *)
Definition ranking_entry (r : json) : result ArbiterRanking :=
  mid ← getitem r "model_id" ≫= as_str;
  score ← getitem r "score" ≫= py_float;
  Ok {| rk_model_id := mid; rk_score := score |}.

(** [ranking.sort(key=lambda x: x.score, reverse=True)]: the stable sort by
    decreasing score, entries of equal score keeping their order.  An entry
    goes in front of the first entry whose score is not larger. *)
Fixpoint insert_desc (x : ArbiterRanking) (l : list ArbiterRanking)
  : list ArbiterRanking :=
  match l with
  | [] => [x]
  | y :: l' =>
      if float_le (rk_score y) (rk_score x) then x :: l
      else y :: insert_desc x l'
  end.

Definition sort_desc (l : list ArbiterRanking) : list ArbiterRanking :=
  foldr insert_desc [] l.

(** [reply] is what [provider.generate] followed by [safe_parse_json]
    gives (or the exception either raised); any exception is logged and
    re-raised. *)
Definition rank (reply : result json) (tid : string) (stamp : string)
  : result Output :=
  parsed ← reply;
  _ ← validate_arbiter_json parsed;
  items ← getitem parsed "ranking" ≫= as_list;
  ranking ← mapM ranking_entry items;
  let ranking := sort_desc ranking in
  selected ← getitem parsed "selected_model_id" ≫= as_str;
  fa ← getitem parsed "final_answer" ≫= as_str;
  notes ← getitem parsed "arbiter_notes" ≫= as_str_list;
  mode ← dict_get parsed "decision_mode" (JStr "hard_select");
  selected' ← getitem parsed "selected_model_id" ≫= as_str;
  Ok {| ar_task_id := tid;
        ar_selected_model_id := selected;
        ar_ranking := ranking;
        ar_final_answer := fa;
        ar_arbiter_notes := notes;
        ar_decision_mode := mode;
        ar_used_candidates := [selected'];
        ar_timestamp := stamp |}.

End Arbiter.

(** ** The arbiter contract, as a predicate *)

Definition is_ranking_item (j : json) : Prop :=
  exists m,
    j = JObj m
    /\ has_exactly m ["model_id"; "score"]%string
    /\ field_is m "model_id" is_string
    /\ field_is m "score" is_unit_number.

Definition is_ranking (j : json) : Prop :=
  exists l, j = JArr l /\ Forall is_ranking_item l.

(** The five required fields, each of its declared kind; any other field
    is allowed. *)
Definition arbiter_contract (obj : json) : Prop :=
  exists m,
    obj = JObj m
    /\ field_is m "task_id" is_string
    /\ field_is m "selected_model_id" is_string
    /\ field_is m "ranking" is_ranking
    /\ field_is m "final_answer" is_string
    /\ field_is m "arbiter_notes" is_string_list.

(** The entries of equal score [s], in list order. *)
Definition with_score (s : R) (l : list ArbiterRanking) : list ArbiterRanking :=
  List.filter (fun r => float_eq (rk_score r) s) l.

(** No entry has a smaller score than an entry after it. *)
Fixpoint descending (l : list ArbiterRanking) : Prop :=
  match l with
  | [] => True
  | a :: l' =>
      Forall (fun b => (rk_score b <= rk_score a)%R) l' /\ descending l'
  end.

(** An arbiter reply that ranks two workers, the better one last. *)
Definition arbiter_json : json :=
  JObj (list_to_map
    [("task_id", JStr "task_001");
     ("selected_model_id", JStr "solver_02");
     ("ranking", JArr
        [JObj (list_to_map [("model_id", JStr "solver_01");
                            ("score", JFloat 0.5)]%string);
         JObj (list_to_map [("model_id", JStr "solver_02");
                            ("score", JFloat 0.9)]%string)]);
     ("final_answer", JStr "no");
     ("arbiter_notes", JArr [])]%string).

(** ** [app.py]

    The keyword arguments that [main] passes to [run_multi]:
    [consensus_topk if not hard_only else 1],
    [epsilon if not hard_only else 0.0] and [rebuttal and not hard_only]. *)
Definition cli_arguments (consensus_topk : Z) (epsilon : R)
    (rebuttal hard_only : bool) : Z * R * bool :=
  (if negb hard_only then consensus_topk else 1,
   if negb hard_only then epsilon else 0%R,
   rebuttal && negb hard_only).

(** An arbiter whose rankings are ordered as [Arbiter.rank] orders them. *)
Definition ranks_descending (env : RunEnv) : Prop :=
  forall n cs arb,
    arbiter_rank env n cs = Ok arb -> descending (ao_ranking arb).

(** ** [src/model_memory.py] *)

(** [float(x)] on a value read from the quality file; [parse] stands for
    Python's reading of a float literal, applied when the value is a
    string. *)
Definition to_float (parse : string -> option R) (j : json) : result R :=
  match j with
  | JStr s =>
      match parse s with
      | Some x => Ok x
      | None => Raise (ValueError "could not convert string to float")
      end
  | _ => py_float j
  end.

(** [x + 1] *)
Definition add_one (j : json) : result json :=
  match j with
  | JInt n => Ok (JInt (n + 1))
  | JFloat x => Ok (JFloat (x + 1))
  | JBool b => Ok (JInt (Z.b2z b + 1))
  | _ => Raise TypeError
  end.

(** [obj[key] = v] *)
Definition setitem (obj : json) (key : string) (v : json) : result json :=
  match obj with
  | JObj m => Ok (JObj (<[key := v]> m))
  | _ => Raise TypeError
  end.

Module ModelMemory.

(** [self.state]: the object read from the quality file, one entry per
    worker. *)
Abbreviation t := (gmap string json).

(** [{"n": 0, "reliability": 0.5}] *)
Definition fresh_entry : json :=
  JObj (<["n"%string := JInt 0]> (<["reliability"%string := JFloat 0.5]> ∅)).

Definition default_lr : R := 0.05.

(** The state is updated in place: the result is the state the call leaves
    behind, together with [Ok tt] or the exception.  An exception raised
    after [s["n"] += 1] leaves the incremented count in the state. *)
Definition update_reliability (parse : string -> option R) (state : t)
    (model_id : string) (reward lr : R) : t * result unit :=
  let state0 :=
    match state !! model_id with
    | Some _ => state
    | None => <[model_id := fresh_entry]> state
    end in
  match state0 !! model_id with
  | None => (state0, Raise (KeyError model_id))
  | Some s =>
      match (n ← getitem s "n"; n' ← add_one n; setitem s "n" n') with
      | Raise e => (state0, Raise e)
      | Ok s1 =>
          let state1 := <[model_id := s1]> state0 in
          match (old ← getitem s1 "reliability" ≫= to_float parse;
                 setitem s1 "reliability"
                   (JFloat ((1 - lr) * old + lr * reward))) with
          | Raise e => (state1, Raise e)
          | Ok s2 => (<[model_id := s2]> state1, Ok tt)
          end
      end
  end.

Definition get_reliability (parse : string -> option R) (state : t)
    (model_id : string) : result R :=
  match state !! model_id with
  | Some s => dict_get s "reliability" (JFloat 0.5) ≫= to_float parse
  | None => Ok 0.5%R
  end.

(** The calls [update_reliability(model_id, reward)] that a trace stands
    for, made in order on the memory; the first exception ends them. *)
Fixpoint replay (parse : string -> option R) (events : list Event)
    (state : t) : t * result unit :=
  match events with
  | [] => (state, Ok tt)
  | UpdateReliability w reward :: rest =>
      match update_reliability parse state w reward default_lr with
      | (state', Ok _) => replay parse rest state'
      | failed => failed
      end
  | _ :: rest => replay parse rest state
  end.

End ModelMemory.

(** ** Reading the memory *)

(** The count and the reliability that a well-formed entry holds. *)
Definition count_of (state : ModelMemory.t) (w : string) : option Z :=
  match state !! w with
  | Some (JObj m) =>
      match m !! "n"%string with
      | Some (JInt n) => Some n
      | _ => None
      end
  | _ => None
  end.

Definition reliability_of (state : ModelMemory.t) (w : string) : option R :=
  match state !! w with
  | Some (JObj m) =>
      match m !! "reliability"%string with
      | Some v => number_value v
      | None => None
      end
  | _ => None
  end.

(** The worker is unseen, or its entry holds an integer count and a
    numeric reliability, as [update_reliability] writes them. *)
Definition entry_ok (state : ModelMemory.t) (w : string) : Prop :=
  state !! w = None
  \/ (is_Some (count_of state w) /\ is_Some (reliability_of state w)).

(** The reliability the memory reports: 0.5 for an unseen worker. *)
Definition reported (state : ModelMemory.t) (w : string) : R :=
  match state !! w with
  | None => 0.5%R
  | Some _ => default 0.5%R (reliability_of state w)
  end.

(** The count the memory holds: 0 for an unseen worker. *)
Definition counted (state : ModelMemory.t) (w : string) : Z :=
  default 0 (count_of state w).


(** Every entry is well formed and holds a reliability in [[0,1]]. *)
Definition memory_ok (state : ModelMemory.t) : Prop :=
  forall w, entry_ok state w /\ (0 <= reported state w <= 1)%R.

(** A finished worker call whose reply was parsed and passes the schema. *)
Definition accepted (r : SolverReply) : bool :=
  match sr_parsed r with
  | Ok parsed => valid SOLVER_SCHEMA parsed
  | Raise _ => false
  end.

(** ** [src/utils.py] *)

(** [s.startswith(prefix)] *)
Definition startswith (prefix s : string) : bool := String.prefix prefix s.

(** [s.endswith(suffix)]: some tail of [s] is [suffix]. *)
Fixpoint endswith (suffix s : string) : bool :=
  String.eqb s suffix
  || match s with
     | EmptyString => false
     | String _ s' => endswith suffix s'
     end.

(** [s[n:]] *)
Definition str_drop (n : nat) (s : string) : string :=
  String.substring n (String.length s - n) s.

(** [s[:-n]] for a positive [n] *)
Definition str_drop_last (n : nat) (s : string) : string :=
  String.substring 0 (String.length s - n) s.

(** The clean-up that [safe_parse_json] makes before [json.loads]. *)
Definition strip_fences (raw_str : string) : string :=
  let raw_str := str_strip raw_str in
  let raw_str :=
    if startswith "```json" raw_str then str_drop 7 raw_str else raw_str in
  let raw_str :=
    if startswith "```" raw_str then str_drop 3 raw_str else raw_str in
  let raw_str :=
    if endswith "```" raw_str then str_drop_last 3 raw_str else raw_str in
  str_strip raw_str.

(** [loads] stands for [json.loads]; [None] is its [JSONDecodeError]. *)
Definition safe_parse_json (loads : string -> option json) (raw_str : string)
  : result json :=
  match loads (strip_fences raw_str) with
  | Some parsed => Ok parsed
  | None => Raise (ValueError "Failed to parse JSON")
  end.

(** A string of whitespace only. *)
Fixpoint is_blank (s : string) : bool :=
  match s with
  | EmptyString => true
  | String c s' => is_space c && is_blank s'
  end.

(** The text of a JSON object or array: it opens with a brace or a bracket
    and closes with one. *)
Definition json_delimited (body : string) : Prop :=
  exists a mid b,
    body = String a (mid +:+ String b EmptyString)
    /\ (a = "{" \/ a = "[")%char
    /\ (b = "}" \/ b = "]")%char.

(** A stopper that has only seen the signature [sig], on every run. *)
Definition unanimous_state (sig : string) (st : EarlyStopper.t) : Prop :=
  Forall (eq sig) (EarlyStopper.run_history st)
  /\ EarlyStopper.stability_streak st = len (EarlyStopper.run_history st)
  /\ (EarlyStopper.run_history st <> [] ->
      EarlyStopper.last_dominant st = Some sig).

(** A rebuttal round in which every worker answers [answer]. *)
Definition agreeing_rebuttal (answer : string) : RebuttalOracle :=
  {| rebuttal_reply := fun _ _ _ => Ok (solver_json answer);
     rebuttal_clock := fun _ => "t2"%string |}.

(** * The code over IEEE doubles

    A Python [float] is an IEEE 754 binary64 number.  The definitions above
    read it as the real number it denotes; that reading says too much where
    a property depends on rounding, on the order of the operations or on
    NaN.  Module [B64] embeds those paths of the code once more over
    [float], the binary64 numbers of the kernel: [+], [-], [*], [/] and
    [sqrt] round to nearest, ties to even, as the hardware does; a
    comparison with NaN is false; and [json.loads] can deliver NaN and the
    infinities.  Everything in [B64] evaluates, so that a run of the code on
    concrete data can be replayed. *)

Module B64.

(** ** Python arithmetic on ints and floats *)

(** [float(n)], also the coercion of an int operand: the nearest double,
    ties to even.  Below [2^62] this is the kernel's conversion of a 63-bit
    integer; above, the integer is rounded as a binary64 mantissa.  (From
    [2^1024] on CPython raises [OverflowError] where this is infinite.) *)
Definition of_int (n : Z) : float :=
  if Z.abs n <? 2 ^ 62 then
    if n <? 0 then (- PrimFloat.of_uint63 (Uint63.of_Z (- n)))%float
    else PrimFloat.of_uint63 (Uint63.of_Z n)
  else
    FloatOps.SF2Prim
      (SpecFloat.binary_normalize FloatOps.prec FloatOps.emax n 0 false).

(** [a / b] on two ints: true division, [ZeroDivisionError] on [b = 0].
    CPython returns the double nearest to the quotient; for operands up to
    [2^53], which convert exactly, that is the quotient of the doubles. *)
Definition int_truediv (a b : Z) : result float :=
  if Z.eq_dec b 0 then Raise ZeroDivisionError
  else Ok (of_int a / of_int b)%float.

(** [x / n] for a float [x] and an int [n]. *)
Definition float_div_int (x : float) (n : Z) : result float :=
  if Z.eq_dec n 0 then Raise ZeroDivisionError else Ok (x / of_int n)%float.

(** [x / y] for two floats; both zeros are zero divisors. *)
Definition float_div (x y : float) : result float :=
  if (y =? 0)%float then Raise ZeroDivisionError else Ok (x / y)%float.

(** [math.sqrt]: a negative argument is a [ValueError]; [-0.0] and NaN
    pass. *)
Definition math_sqrt (x : float) : result float :=
  if (x <? 0)%float then Raise (ValueError "math domain error")
  else Ok (PrimFloat.sqrt x).

(** [max(a, b)] and [min(a, b)] keep the first argument unless the second
    is strictly greater, respectively smaller. *)
Definition float_max (a b : float) : float := if (a <? b)%float then b else a.
Definition float_min (a b : float) : float := if (b <? a)%float then b else a.

(** Float comparisons as they appear in [if] conditions. *)
Definition float_ge (x y : float) : bool := (y <=? x)%float.
Definition float_lt (x y : float) : bool := (x <? y)%float.

(** ** [src/stability.py]: [WilsonCI.calculate]

    [z**2] is written [z * z]: for [z = 1.96] both are the double
    [3.8415999999999997]. *)

Module WilsonCI.

Definition calculate (successes trials : Z) (confidence : float)
  : result (float * float) :=
  if Z.eq_dec trials 0 then Ok (0, 0)%float
  else
    let z := 1.96%float in
    p_hat ← int_truediv successes trials;
    t1 ← float_div_int (z * z) trials;
    let denominator := (1 + t1)%float in
    t2 ← float_div_int (z * z) (2 * trials);
    centre_adjusted ← float_div (p_hat + t2) denominator;
    t3 ← float_div_int (z * z) (4 * trials);
    t4 ← float_div_int (p_hat * (1 - p_hat) + t3) trials;
    root ← math_sqrt t4;
    adjusted_sd ← float_div root denominator;
    let lower := float_max 0 (centre_adjusted - z * adjusted_sd) in
    let upper := float_min 1 (centre_adjusted + z * adjusted_sd) in
    Ok (lower, upper).

End WilsonCI.

(** ** [src/early_stopping.py]: [EarlyStopper._wilson_ci] *)

Module EarlyStopper.

Definition _wilson_ci (successes total : Z) (confidence : float)
  : result (float * float) :=
  if Z.eq_dec total 0 then Ok (0, 0)%float
  else
    let z := if (confidence =? 0.95)%float then 1.96%float else 1.645%float in
    p ← int_truediv successes total;
    t1 ← float_div_int (z * z) total;
    let denominator := (1 + t1)%float in
    t2 ← float_div_int (z * z) (2 * total);
    let center := (p + t2)%float in
    t3 ← float_div_int (z * z) (4 * total);
    t4 ← float_div_int (p * (1 - p) + t3) total;
    root ← math_sqrt t4;
    let spread := (z * root)%float in
    lower ← float_div (center - spread) denominator;
    upper ← float_div (center + spread) denominator;
    Ok (float_max 0 lower, float_min 1 upper).

End EarlyStopper.

(** The default of the [confidence] keyword of both Wilson functions. *)
Definition default_confidence : float := 0.95%float.

(** *** Checking the interval on a range of counts *)









(** ** JSON values *)

(** What [json.loads] returns.  A number with a fraction or an exponent,
    and each of the literals [NaN], [Infinity] and [-Infinity], is a
    [float]. *)
Inductive json : Type :=
  | JNull
  | JBool (b : bool)
  | JInt (n : Z)
  | JFloat (x : float)
  | JStr (s : string)
  | JArr (items : list json)
  | JObj (fields : gmap string json).

(** ** [src/schemas.py] *)

(** A schema dictionary, restricted to the keywords that [SOLVER_SCHEMA]
    uses; [minimum] and [maximum] are the integer literals of the source. *)
Inductive schema : Type :=
  Schema (s_type : option json_type)
         (s_required : list string)
         (s_additionalProperties : bool)
         (s_properties : list (string * schema))
         (s_items : option schema)
         (s_minimum s_maximum : option Z).

Definition string_schema : schema :=
  Schema (Some TString) [] true [] None None None.

Definition string_array_schema : schema :=
  Schema (Some TArray) [] true [] (Some string_schema) None None.

Definition unit_number_schema : schema :=
  Schema (Some TNumber) [] true [] None (Some 0) (Some 1).

Definition SOLVER_SCHEMA : schema :=
  Schema (Some TObject)
    ["model_id"; "task_id"; "final_answer"; "confidence";
     "assumptions"; "risks"; "evidence"; "self_checks"]%string
    false
    [("model_id", string_schema);
     ("task_id", string_schema);
     ("final_answer", string_schema);
     ("confidence", unit_number_schema);
     ("assumptions", string_array_schema);
     ("risks", string_array_schema);
     ("evidence", string_array_schema);
     ("self_checks", string_array_schema)]%string
    None None None.

(** The [type] keyword; a JSON boolean is not a number, NaN is one. *)
Definition has_type (ty : json_type) (j : json) : bool :=
  match ty, j with
  | TObject, JObj _ => true
  | TArray, JArr _ => true
  | TString, JStr _ => true
  | TNumber, JInt _ => true
  | TNumber, JFloat _ => true
  | _, _ => false
  end.

(** [instance < bound] and [instance > bound] of the [minimum] and
    [maximum] keywords, which look at numbers only.  Python compares a
    float with an int by value (the bounds [0] and [1] are doubles too), and
    every comparison with NaN is false. *)
Definition below (j : json) (bound : Z) : bool :=
  match j with
  | JInt n => n <? bound
  | JFloat x => (x <? of_int bound)%float
  | _ => false
  end.

Definition above (j : json) (bound : Z) : bool :=
  match j with
  | JInt n => bound <? n
  | JFloat x => (of_int bound <? x)%float
  | _ => false
  end.

(** [jsonschema.validate], as a checker: [true] when no [ValidationError]
    is raised.  Every keyword constrains only instances of its own kind;
    [minimum] fails on [instance < minimum] and [maximum] on
    [instance > maximum]. *)
Fixpoint valid (s : schema) (j : json) {struct s} : bool :=
  match s with
  | Schema ty required additional properties items minimum maximum =>
      match ty with Some t => has_type t j | None => true end
      && match j with
         | JObj m =>
             forallb (fun k => bool_decide (is_Some (m !! k))) required
             && (additional
                 || forallb (fun k => str_in k (map fst properties))
                      (map fst (map_to_list m)))
             && (fix props (ps : list (string * schema)) : bool :=
                   match ps with
                   | [] => true
                   | (k, sub) :: ps' =>
                       match m !! k with
                       | Some v => valid sub v
                       | None => true
                       end && props ps'
                   end) properties
         | _ => true
         end
      && match items, j with
         | Some sub, JArr l => forallb (valid sub) l
         | _, _ => true
         end
      && match minimum with
         | Some lo => negb (below j lo)
         | None => true
         end
      && match maximum with
         | Some hi => negb (above j hi)
         | None => true
         end
  end.

Definition validate_solver_json (obj : json) : result unit :=
  if valid SOLVER_SCHEMA obj then Ok tt
  else Raise (ValueError "Solver JSON validation error").

(** ** [src/models.py] *)

Record SolverOutput : Type := mkSolverOutput {
  model_id : string;
  task_id : string;
  final_answer : string;
  confidence : float;
  assumptions : list string;
  risks : list string;
  evidence : list string;
  self_checks : list string;
  latency_ms : Z;
  timestamp : string
}.

Record ArbiterRanking : Type := mkArbiterRanking {
  rk_model_id : string;
  rk_score : float
}.

Record ArbiterOutput : Type := mkArbiterOutput {
  ao_task_id : string;
  ao_selected_model_id : string;
  ao_ranking : list ArbiterRanking;
  ao_final_answer : string;
  ao_arbiter_notes : list string;
  ao_decision_mode : string;
  ao_used_candidates : list string;
  ao_timestamp : string
}.

(** [ArbiterOutput.to_dict()] after the orchestrator has overwritten
    [final_answer], [decision_mode] and [used_candidates] in place. *)
Record ArbiterOutputDict : Type := mkArbiterOutputDict {
  d_task_id : string;
  d_selected_model_id : string;
  d_ranking : list ArbiterRanking;
  d_final_answer : json;
  d_arbiter_notes : list string;
  d_decision_mode : string;
  d_used_candidates : list string;
  d_timestamp : string
}.

Record RunRecord : Type := mkRunRecord {
  rr_pool : string;
  rr_iter_index : Z;
  rr_round_number : Z;
  rr_solver_model_id : string;
  rr_latency_ms : Z;
  rr_confidence : float;
  rr_arbiter_score : option float;
  rr_decision_mode : string;
  rr_used_candidates : string;
  rr_final_answer : json;
  rr_notes : string;
  rr_timestamp : string
}.

(** ** Reading a parsed reply *)

(** [obj[key]] *)
Definition getitem (obj : json) (key : string) : result json :=
  match obj with
  | JObj m =>
      match m !! key with
      | Some v => Ok v
      | None => Raise (KeyError key)
      end
  | _ => Raise TypeError
  end.

(** [obj.get(key, dflt)] *)
Definition dict_get (obj : json) (key : string) (dflt : json) : result json :=
  match obj with
  | JObj m => Ok (default dflt (m !! key))
  | _ => Raise AttributeError
  end.

(** Projections of a reply into the typed fields of [SolverOutput].  They
    are applied after [validate_solver_json], which leaves only the first
    branch of each reachable ([as_str] and the list case), respectively the
    two number branches of [py_float]. *)
Definition as_str (j : json) : result string :=
  match j with
  | JStr s => Ok s
  | _ => Raise TypeError
  end.

(** [float(x)] *)
Definition py_float (j : json) : result float :=
  match j with
  | JInt n => Ok (of_int n)
  | JFloat x => Ok x
  | JBool b => Ok (if b then 1%float else 0%float)
  | _ => Raise TypeError
  end.

(** [list(x)] into a list of strings *)
Definition as_str_list (j : json) : result (list string) :=
  match j with
  | JArr l => mapM (M := result) as_str l
  | _ => Raise TypeError
  end.

(** The constructor call [SolverOutput(model_id=..., task_id=...,
    final_answer=parsed["final_answer"], ...)] shared by the solver pool and
    the rebuttal round. *)
Definition build_solver_output (mid tid : string) (parsed : json)
    (latency : Z) (stamp : string) : result SolverOutput :=
  fa ← getitem parsed "final_answer" ≫= as_str;
  conf ← getitem parsed "confidence" ≫= py_float;
  asm ← getitem parsed "assumptions" ≫= as_str_list;
  rsk ← getitem parsed "risks" ≫= as_str_list;
  evd ← getitem parsed "evidence" ≫= as_str_list;
  chk ← getitem parsed "self_checks" ≫= as_str_list;
  Ok {| model_id := mid; task_id := tid; final_answer := fa;
        confidence := conf; assumptions := asm; risks := rsk;
        evidence := evd; self_checks := chk; latency_ms := latency;
        timestamp := stamp |}.

(** ** [src/solver_pool.py] *)

(** One finished worker call, in completion order: the worker, what
    [provider.generate] followed by [safe_parse_json] produced (or the
    exception either raised), the measured latency and the clock reading. *)
Record SolverReply : Type := mkSolverReply {
  sr_model_id : string;
  sr_parsed : result json;
  sr_latency_ms : Z;
  sr_timestamp : string
}.

Module SolverPool.

Definition call_solver (tid : string) (r : SolverReply) : result SolverOutput :=
  parsed ← sr_parsed r;
  _ ← validate_solver_json parsed;
  build_solver_output (sr_model_id r) tid parsed (sr_latency_ms r)
    (sr_timestamp r).

(** The [as_completed] loop: a failed future is logged and skipped. *)
Fixpoint run_parallel (tid : string) (futures : list SolverReply)
  : list SolverOutput :=
  match futures with
  | [] => []
  | r :: rest =>
      match call_solver tid r with
      | Ok out => out :: run_parallel tid rest
      | Raise _ => run_parallel tid rest
      end
  end.

End SolverPool.

(** ** [src/rebuttal.py] *)

(** The environment of one rebuttal round: for the worker at position [i]
    of the loop, its own output and the others' outputs, the parsed reply of
    [provider.generate] (or the exception), and the clock reading. *)
Record RebuttalOracle : Type := mkRebuttalOracle {
  rebuttal_reply : nat -> SolverOutput -> list SolverOutput -> result json;
  rebuttal_clock : nat -> string
}.

Module RebuttalRound.

Definition other_outputs (all_outputs : list SolverOutput) (own : SolverOutput)
  : list SolverOutput :=
  filter (fun o => model_id o ≠ model_id own) all_outputs.

(** The body of the [try] for one worker. *)
Definition attempt (env : RebuttalOracle) (tid : string)
    (all_outputs : list SolverOutput) (i : nat) (own_output : SolverOutput)
  : result SolverOutput :=
  parsed ← rebuttal_reply env i own_output (other_outputs all_outputs own_output);
  _ ← validate_solver_json parsed;
  build_solver_output (model_id own_output) tid parsed
    (latency_ms own_output) (rebuttal_clock env i).

(** One iteration, [try: ... except Exception: ...]: what is appended to
    [improved], in either branch. *)
Definition step (env : RebuttalOracle) (tid : string)
    (all_outputs : list SolverOutput) (i : nat) (own_output : SolverOutput)
  : SolverOutput :=
  match attempt env tid all_outputs i own_output with
  | Ok out => out
  | Raise _ => own_output
  end.

Definition run (env : RebuttalOracle) (tid : string)
    (all_outputs : list SolverOutput) : list SolverOutput :=
  imap (step env tid all_outputs) all_outputs.

End RebuttalRound.

(** ** [src/consensus.py] *)

Record ConsensusResult : Type := mkConsensusResult {
  cr_final_answer : json;
  cr_synthesis_notes : json;
  cr_sources : list string
}.

Module ConsensusSynthesizer.

(** [reply] is what [provider.generate] followed by [safe_parse_json] gives
    for the serialised top answers; any exception is logged and re-raised. *)
Definition synthesize (reply : list SolverOutput -> Z -> result json)
    (top_candidates : list SolverOutput) (topk : Z) : result ConsensusResult :=
  parsed ← reply (slice_to topk top_candidates) topk;
  fa ← dict_get parsed "final_answer" (JStr "");
  notes ← dict_get parsed "synthesis_notes" (JArr []);
  Ok {| cr_final_answer := fa;
        cr_synthesis_notes := notes;
        cr_sources := map model_id (slice_to topk top_candidates) |}.

End ConsensusSynthesizer.

(** ** Effects of the orchestrator *)

Inductive Event : Type :=
  | CallSolverPool
  | CallArbiter (candidates : list SolverOutput)
  | CallRebuttal (candidates : list SolverOutput)
  | CallConsensus (top_candidates : list SolverOutput) (topk : Z)
  | UpdateReliability (worker : string) (reward : float)
  | WriteRunRecord (record : RunRecord).

(** The calls and writes made so far, with the value or the exception. *)
Record M (A : Type) : Type := mkM {
  trace : list Event;
  outcome : result A
}.

Arguments mkM {A} trace outcome.
Arguments trace {A} m.
Arguments outcome {A} m.

#[global] Instance M_ret : MRet M := fun A a => mkM [] (Ok a).

#[global] Instance M_bind : MBind M := fun A B k m =>
  match outcome m with
  | Ok a => mkM (trace m ++ trace (k a)) (outcome (k a))
  | Raise e => mkM (trace m) (Raise e)
  end.

Definition emit (e : Event) : M unit := mkM [e] (Ok tt).

Definition lift {A : Type} (r : result A) : M A := mkM [] r.

(** [try: body except Exception: handler] with effects. *)
Definition try_exceptM {A : Type} (body : M A) (handler : exn -> M A) : M A :=
  match outcome body with
  | Ok a => body
  | Raise e => mkM (trace body ++ trace (handler e)) (outcome (handler e))
  end.

(** [for x in l: body x] *)
Fixpoint for_each {A : Type} (l : list A) (body : A -> M unit) : M unit :=
  match l with
  | [] => mret tt
  | x :: l' => _ ← body x; for_each l' body
  end.

(** ** [src/orchestrator.py]: [run_single] *)

(** Everything one run receives from outside: the finished worker calls,
    the arbiter's output for its first and second call, the rebuttal
    replies, the consensus reply and the clock of the run records. *)
Record RunEnv : Type := mkRunEnv {
  solver_futures : list SolverReply;
  arbiter_rank : nat -> list SolverOutput -> result ArbiterOutput;
  rebuttal_env : RebuttalOracle;
  consensus_reply : list SolverOutput -> Z -> result json;
  record_clock : nat -> string
}.

(** The dictionary returned by [run_single]. *)
Record RunResult : Type := mkRunResult {
  res_task_id : string;
  res_arbiter_output : ArbiterOutputDict;
  res_decision_mode : string;
  res_used_candidates : list string;
  res_final_answer : json;
  res_disagreement_rate : float
}.

(** [len(set(c.final_answer for c in candidates))] *)
Definition unique_count (candidates : list SolverOutput) : Z :=
  Z.of_nat (size (list_to_set (map final_answer candidates) : gset string)).

(** [len(x)] on a dynamically typed value *)
Definition py_len (j : json) : result Z :=
  match j with
  | JStr s => Ok (Z.of_nat (String.length s))
  | JArr l => Ok (len l)
  | JObj m => Ok (Z.of_nat (size m))
  | _ => Raise TypeError
  end.

(** [x[:100] + "..." if len(x) > 100 else x] *)
Definition truncate_answer (x : json) : result json :=
  n ← py_len x;
  if 100 <? n then
    match x with
    | JStr s => Ok (JStr (String.append (str_prefix 100 s) "..."))
    | _ => Raise TypeError
    end
  else Ok x.

(** [next((r.score for r in ranking if r.model_id == mid), None)] *)
Definition score_of (ranking : list ArbiterRanking) (mid : string)
  : option float :=
  rk_score <$> List.find (fun r => String.eqb (rk_model_id r) mid) ranking.

Module MultiLLMOrchestrator.

Record t : Type := mk {
  pool_name : string;
  domain : string
}.

(** The keyword defaults of [run_single]. *)
Definition default_consensus_topk : Z := 3.
Definition default_epsilon : float := 0.07%float.
Definition default_enable_rebuttal : bool := true.
Definition default_disagreement_threshold : float := 0.55%float.

(** The body of the [try] around the consensus synthesis. *)
Definition try_consensus (env : RunEnv) (consensus_topk : Z)
    (candidates_current : list SolverOutput) (arbiter_current : ArbiterOutput)
  : M (string * list string * json) :=
  let top_k := Z.min consensus_topk (len candidates_current) in
  let ranked := map rk_model_id (slice_to top_k (ao_ranking arbiter_current)) in
  let top_models :=
    map model_id
      (filter (fun c => str_in (model_id c) ranked = true) candidates_current) in
  let top_candidates :=
    filter (fun c => str_in (model_id c) top_models = true) candidates_current in
  _ ← emit (CallConsensus top_candidates top_k);
  consensus_result ←
    lift (ConsensusSynthesizer.synthesize (consensus_reply env)
            top_candidates top_k);
  mret (String.append "consensus_top" (str_of_int top_k),
        cr_sources consensus_result,
        cr_final_answer consensus_result).

(** [len(set(c.final_answer for c in cs)) / len(cs)], computed after the
    solver round and again after the rebuttal round. *)
Definition disagreement_rate (candidates : list SolverOutput) : result float :=
  let unique_answers := unique_count candidates in
  int_truediv unique_answers (len candidates).

(** Rounds 1 and 2: the solver pool, the disagreement check, the arbiter.
    The log line after the arbiter call reads [ranking[0].score]. *)
Definition first_rounds (env : RunEnv) (tid : string)
  : M (list SolverOutput * float * ArbiterOutput) :=
  _ ← emit CallSolverPool;
  let candidates_r1 := SolverPool.run_parallel tid (solver_futures env) in
  rate ← lift (disagreement_rate candidates_r1);
  _ ← emit (CallArbiter candidates_r1);
  arbiter_out ← lift (arbiter_rank env 0 candidates_r1);
  _ ← lift (index0 (ao_ranking arbiter_out));
  mret (candidates_r1, rate, arbiter_out).

(** The rebuttal block,
    [if enable_rebuttal and disagreement_rate >= disagreement_threshold]:
    the current candidates, the current arbiter output, the round number
    and the disagreement rate after it. *)
Definition rebuttal_block (env : RunEnv) (tid : string)
    (enable_rebuttal : bool) (disagreement_threshold : float)
    (candidates_r1 : list SolverOutput) (rate : float)
    (arbiter_out : ArbiterOutput)
  : M (list SolverOutput * ArbiterOutput * Z * float) :=
  if enable_rebuttal && float_ge rate disagreement_threshold then
    _ ← emit (CallRebuttal candidates_r1);
    let candidates_r2 :=
      RebuttalRound.run (rebuttal_env env) tid candidates_r1 in
    rate2 ← lift (disagreement_rate candidates_r2);
    _ ← emit (CallArbiter candidates_r2);
    arbiter2 ← lift (arbiter_rank env 1 candidates_r2);
    mret (candidates_r2, arbiter2, 2, rate2)
  else mret (candidates_r1, arbiter_out, 1, rate).

(** The result computed before the consensus check. *)
Definition hard_select (arbiter_current : ArbiterOutput)
  : string * list string * json :=
  ("hard_select"%string, [ao_selected_model_id arbiter_current],
   JStr (ao_final_answer arbiter_current)).

(** The consensus block; [first :: second :: _] is
    [len(arbiter_current.ranking) >= 2] with [ranking[0]] and [ranking[1]],
    and [gap] is the difference of the two doubles, rounded. *)
Definition consensus_block (env : RunEnv) (consensus_topk : Z)
    (epsilon : float)
    (candidates_current : list SolverOutput) (arbiter_current : ArbiterOutput)
  : M (string * list string * json) :=
  match ao_ranking arbiter_current with
  | first :: second :: _ =>
      let gap := (rk_score first - rk_score second)%float in
      if float_lt gap epsilon then
        try_exceptM
          (try_consensus env consensus_topk candidates_current arbiter_current)
          (fun _ => mret (hard_select arbiter_current))
      else mret (hard_select arbiter_current)
  | _ => mret (hard_select arbiter_current)
  end.

(** The tail of [run_single]: the arbiter output is updated in place, the
    reliabilities are updated, the run records are written and the result
    dictionary is returned. *)
Definition bookkeeping (self : t) (env : RunEnv) (tid : string)
    (candidates_current : list SolverOutput) (arbiter_current : ArbiterOutput)
    (round_number : Z) (rate : float)
    (decision_mode : string) (used_candidates : list string)
    (final_answer : json) : M RunResult :=
  let arbiter_final :=
    {| d_task_id := ao_task_id arbiter_current;
       d_selected_model_id := ao_selected_model_id arbiter_current;
       d_ranking := ao_ranking arbiter_current;
       d_final_answer := final_answer;
       d_arbiter_notes := ao_arbiter_notes arbiter_current;
       d_decision_mode := decision_mode;
       d_used_candidates := used_candidates;
       d_timestamp := ao_timestamp arbiter_current |} in
  _ ← for_each used_candidates (fun mid => emit (UpdateReliability mid 1));
  _ ← for_each candidates_current (fun c =>
        if str_in (model_id c) used_candidates then mret tt
        else emit (UpdateReliability (model_id c) 0));
  _ ← for_each (imap pair candidates_current) (fun '(i, candidate) =>
        shown ← lift (truncate_answer final_answer);
        emit (WriteRunRecord
          {| rr_pool := pool_name self;
             rr_iter_index := 0;
             rr_round_number := round_number;
             rr_solver_model_id := model_id candidate;
             rr_latency_ms := latency_ms candidate;
             rr_confidence := confidence candidate;
             rr_arbiter_score :=
               score_of (d_ranking arbiter_final) (model_id candidate);
             rr_decision_mode := decision_mode;
             rr_used_candidates := join_comma used_candidates;
             rr_final_answer := shown;
             rr_notes := "";
             rr_timestamp := record_clock env i |}));
  mret {| res_task_id := tid;
          res_arbiter_output := arbiter_final;
          res_decision_mode := decision_mode;
          res_used_candidates := used_candidates;
          res_final_answer := final_answer;
          res_disagreement_rate := rate |}.

Definition run_single (self : t) (env : RunEnv) (tid : string)
    (consensus_topk : Z) (epsilon : float) (enable_rebuttal : bool)
    (disagreement_threshold : float) : M RunResult :=
  '(candidates_r1, rate1, arbiter_out) ← first_rounds env tid;
  '(candidates_current, arbiter_current, round_number, rate) ←
    rebuttal_block env tid enable_rebuttal disagreement_threshold
      candidates_r1 rate1 arbiter_out;
  '(decision_mode, used_candidates, final_answer) ←
    consensus_block env consensus_topk epsilon
      candidates_current arbiter_current;
  bookkeeping self env tid candidates_current arbiter_current round_number
    rate decision_mode used_candidates final_answer.

End MultiLLMOrchestrator.

(** ** Observing a run *)

Definition is_rebuttal_call (e : Event) : bool :=
  match e with CallRebuttal _ => true | _ => false end.

Definition is_consensus_call (e : Event) : bool :=
  match e with CallConsensus _ _ => true | _ => false end.

(** Whether a computation made a call of the given kind. *)
Definition invoked {A : Type} (p : Event -> bool) (m : M A) : bool :=
  existsb p (trace m).

(** ** The solver contract, as a predicate

    The objects that [SOLVER_SCHEMA] describes: exactly the eight listed
    fields, each of its declared kind. *)

Definition is_string (j : json) : Prop := exists s, j = JStr s.

Definition is_string_list (j : json) : Prop :=
  exists l, j = JArr l /\ Forall is_string l.

(** A double that is neither below 0 nor above 1: a double of the interval
    from 0 to 1, or NaN. *)
Definition unit_or_nan (x : float) : Prop :=
  (x <? 0)%float = false /\ (1 <? x)%float = false.

(** A number that passes [minimum: 0] and [maximum: 1]. *)
Definition is_unit_number (j : json) : Prop :=
  match j with
  | JInt n => 0 <= n <= 1
  | JFloat x => unit_or_nan x
  | _ => False
  end.

Definition field_is (m : gmap string json) (k : string) (P : json -> Prop)
  : Prop :=
  exists v, m !! k = Some v /\ P v.

Definition has_exactly (m : gmap string json) (names : list string) : Prop :=
  forall k, is_Some (m !! k) <-> In k names.

Definition solver_contract (obj : json) : Prop :=
  exists m,
    obj = JObj m
    /\ has_exactly m solver_fields
    /\ field_is m "model_id" is_string
    /\ field_is m "task_id" is_string
    /\ field_is m "final_answer" is_string
    /\ field_is m "confidence" is_unit_number
    /\ field_is m "assumptions" is_string_list
    /\ field_is m "risks" is_string_list
    /\ field_is m "evidence" is_string_list
    /\ field_is m "self_checks" is_string_list.

(** A worker call whose reply was parsed and passes the schema. *)
Definition accepted (r : SolverReply) : bool :=
  match sr_parsed r with
  | Ok parsed => valid SOLVER_SCHEMA parsed
  | Raise _ => false
  end.

(** ** Sample data used in the examples *)

(** A reply of the eight fields with the given confidence. *)
Definition reply_with_confidence (c : json) : json :=
  JObj (list_to_map
    [("model_id", JStr "test-model");
     ("task_id", JStr "task_001");
     ("final_answer", JStr "Test answer");
     ("confidence", c);
     ("assumptions", JArr [JStr "A1"]);
     ("risks", JArr [JStr "R1"]);
     ("evidence", JArr [JStr "E1"]);
     ("self_checks", JArr [JStr "S1"])]%string).

(** The reply of [tests/test_schemas.py], [test_valid_solver_json]. *)
Definition eight_field_reply : json := reply_with_confidence (JFloat 0.85).

(** A reply with the six contract fields and nothing else. *)
Definition six_field_reply : json :=
  JObj (list_to_map
    [("final_answer", JStr "Test answer");
     ("confidence", JFloat 0.85);
     ("assumptions", JArr [JStr "A1"]);
     ("risks", JArr [JStr "R1"]);
     ("evidence", JArr [JStr "E1"]);
     ("self_checks", JArr [JStr "S1"])]%string).

(** A candidate of worker [mid] with answer [answer]. *)
Definition candidate (mid answer : string) : SolverOutput :=
  {| model_id := mid; task_id := "task_001"; final_answer := answer;
     confidence := 0.85; assumptions := []; risks := []; evidence := [];
     self_checks := []; latency_ms := 120; timestamp := "t0" |}.

(** A well-formed worker reply with answer [answer]. *)
Definition solver_json (answer : string) : json :=
  JObj (list_to_map
    [("model_id", JStr "your_model_id");
     ("task_id", JStr "task_001");
     ("final_answer", JStr answer);
     ("confidence", JFloat 0.85);
     ("assumptions", JArr []);
     ("risks", JArr []);
     ("evidence", JArr []);
     ("self_checks", JArr [])]%string).

Definition good_reply (mid answer : string) : SolverReply :=
  {| sr_model_id := mid; sr_parsed := Ok (solver_json answer);
     sr_latency_ms := 120; sr_timestamp := "t0" |}.

(** An arbiter output with the given ranking. *)
Definition verdict (ranking : list ArbiterRanking) (selected : string)
    (answer : string) : ArbiterOutput :=
  {| ao_task_id := "task_001"; ao_selected_model_id := selected;
     ao_ranking := ranking; ao_final_answer := answer;
     ao_arbiter_notes := []; ao_decision_mode := "hard_select";
     ao_used_candidates := [selected]; ao_timestamp := "t1" |}.

(** The ranking of two workers with the given scores. *)
Definition two_worker_ranking (score1 score2 : float) : list ArbiterRanking :=
  [{| rk_model_id := "solver_01"; rk_score := score1 |};
   {| rk_model_id := "solver_02"; rk_score := score2 |}].

Definition silent_rebuttal : RebuttalOracle :=
  {| rebuttal_reply := fun _ _ _ => Raise (ProviderError "timeout");
     rebuttal_clock := fun _ => "t2"%string |}.

(** A rebuttal in which every worker answers [answer]. *)
Definition agreeing_rebuttal (answer : string) : RebuttalOracle :=
  {| rebuttal_reply := fun _ _ _ => Ok (solver_json answer);
     rebuttal_clock := fun _ => "t2"%string |}.

(** Two workers that disagree, an arbiter that ranks them with the given
    scores and picks the first, and a consensus call that answers
    ["both"]. *)
Definition two_worker_env (score1 score2 : float) : RunEnv :=
  {| solver_futures :=
       [good_reply "solver_01" "yes"; good_reply "solver_02" "no"];
     arbiter_rank :=
       fun _ _ =>
         Ok (verdict (two_worker_ranking score1 score2) "solver_01" "yes");
     rebuttal_env := silent_rebuttal;
     consensus_reply :=
       fun _ _ => Ok (JObj (list_to_map [("final_answer", JStr "both")]%string));
     record_clock := fun _ => "t3"%string |}.

Definition science : MultiLLMOrchestrator.t :=
  {| MultiLLMOrchestrator.pool_name := "science";
     MultiLLMOrchestrator.domain := "science" |}.

End B64.

(** * Properties *)

(** ** Arithmetic primitives that succeed *)

Lemma int_truediv_ok (a b : Z) :
  b <> 0 -> int_truediv a b = Ok (IZR a / IZR b)%R.
Proof. intros Hb. unfold int_truediv. now destruct (Z.eq_dec b 0). Qed.

Lemma float_div_int_ok (x : R) (n : Z) :
  n <> 0 -> float_div_int x n = Ok (x / IZR n)%R.
Proof. intros Hn. unfold float_div_int. now destruct (Z.eq_dec n 0). Qed.

Lemma float_div_ok (x y : R) : y <> 0%R -> float_div x y = Ok (x / y)%R.
Proof. intros Hy. unfold float_div. now destruct (Req_dec_T y 0). Qed.

Lemma math_sqrt_ok (x : R) : (0 <= x)%R -> math_sqrt x = Ok (sqrt x).
Proof.
  intros Hx. unfold math_sqrt. destruct (Rlt_dec x 0) as [E|_]; [lra|easy].
Qed.

(** Running the first call of a sequence. *)
Lemma bind_run {A B : Type} (m : result A) (a : A) (k : A -> result B)
    (rhs : result B) :
  m = Ok a -> k a = rhs -> m ≫= k = rhs.
Proof. intros -> <-. reflexivity. Qed.

Ltac run_call tac := eapply bind_run; [solve [tac] | cbv beta zeta].
Ltac run_int_truediv := run_call ltac:(apply int_truediv_ok; lia).
Ltac run_float_div_int := run_call ltac:(apply float_div_int_ok; lia).

(** ** The Wilson interval *)

Section Wilson.

Local Open Scope R_scope.

Lemma radicand_nonneg (z p n : R) :
  0 < n -> 0 <= p <= 1 -> 0 <= (p * (1 - p) + z * z / (4 * n)) / n.
Proof.
  intros Hn Hp.
  apply Rmult_le_pos; [|left; now apply Rinv_0_lt_compat].
  apply Rplus_le_le_0_compat; [nra|].
  apply Rmult_le_pos; [nra|].
  left; apply Rinv_0_lt_compat; lra.
Qed.

Lemma denominator_pos (z n : R) : 0 < n -> 0 < 1 + z * z / n.
Proof.
  intros Hn.
  assert (0 <= z * z / n).
  { apply Rmult_le_pos; [nra|]. left; now apply Rinv_0_lt_compat. }
  lra.
Qed.

(** The half-width dominates the shift of the centre: the interval always
    contains the observed rate. *)
Lemma spread_dominates (z p n : R) :
  0 < z -> 0 < n -> 0 <= p <= 1 ->
  Rabs (z * z / (2 * n) - p * (z * z / n))
  <= z * sqrt ((p * (1 - p) + z * z / (4 * n)) / n).
Proof.
  intros Hz Hn Hp.
  set (rad := (p * (1 - p) + z * z / (4 * n)) / n).
  assert (Hrad : 0 <= rad) by (apply radicand_nonneg; assumption).
  assert (Heq : z * z / (2 * n) - p * (z * z / n)
                = z * (z * (1 - 2 * p) / (2 * n))) by (field; lra).
  rewrite Heq, Rabs_mult, (Rabs_pos_eq z) by lra.
  apply Rmult_le_compat_l; [lra|].
  rewrite <- (sqrt_Rsqr_abs (z * (1 - 2 * p) / (2 * n))).
  apply sqrt_le_1_alt.
  unfold Rsqr, rad.
  assert (Hn' : / n > 0) by (now apply Rinv_0_lt_compat).
  replace (z * (1 - 2 * p) / (2 * n) * (z * (1 - 2 * p) / (2 * n)))
    with ((z * / n) * (z * / n) * ((1 - 2 * p) * (1 - 2 * p) / 4))
    by (field; lra).
  replace ((p * (1 - p) + z * z / (4 * n)) / n)
    with (p * (1 - p) * / n + (z * / n) * (z * / n) / 4) by (field; lra).
  assert (0 <= p * (1 - p) * / n) by (apply Rmult_le_pos; nra).
  assert (0 <= (z * / n) * (z * / n)) by nra.
  nra.
Qed.

Lemma rate_in_unit (s t : Z) :
  (0 <= s <= t)%Z -> (0 < t)%Z -> 0 <= IZR s / IZR t <= 1.
Proof.
  intros [Hs Hst] Ht.
  apply IZR_le in Hs, Hst. apply IZR_lt in Ht.
  split.
  - apply Rmult_le_pos; [lra|]. left; now apply Rinv_0_lt_compat.
  - apply (Rmult_le_reg_r (IZR t)); [lra|].
    unfold Rdiv. rewrite Rmult_assoc, Rinv_l by lra. lra.
Qed.

(** The two source functions, evaluated on a positive number of trials. *)
Lemma calculate_eval (s t : Z) (conf : R) :
  (0 <= s <= t)%Z -> (0 < t)%Z ->
  let z := 1.96 in
  let n := IZR t in
  let p := IZR s / n in
  WilsonCI.calculate s t conf
  = Ok (Rmax 0 (wilson_center z p n - wilson_spread z p n),
        Rmin 1 (wilson_center z p n + wilson_spread z p n)).
Proof.
  intros Hs Ht z n p.
  assert (Hn : 0 < n) by (now apply IZR_lt in Ht).
  assert (Hp : 0 <= p <= 1) by (now apply rate_in_unit).
  pose proof (denominator_pos z n Hn) as Hd.
  pose proof (radicand_nonneg z p n Hn Hp) as Hr.
  unfold WilsonCI.calculate.
  destruct (Z.eq_dec t 0%Z) as [E|_]; [lia|].
  run_int_truediv. do 2 run_float_div_int.
  run_call ltac:(apply float_div_ok; fold z n; lra).
  do 2 run_float_div_int.
  rewrite !mult_IZR. fold z n p.
  run_call ltac:(apply math_sqrt_ok; exact Hr).
  run_call ltac:(apply float_div_ok; lra).
  unfold wilson_center, wilson_spread.
  assert (Hassoc : forall a d, z * (a / d) = z * a / d)
    by (intros; unfold Rdiv; ring).
  now rewrite Hassoc.
Qed.

Lemma wilson_ci_eval (s t : Z) :
  (0 <= s <= t)%Z -> (0 < t)%Z ->
  let z := 1.96 in
  let n := IZR t in
  let p := IZR s / n in
  EarlyStopper._wilson_ci s t default_confidence
  = Ok (Rmax 0 (wilson_center z p n - wilson_spread z p n),
        Rmin 1 (wilson_center z p n + wilson_spread z p n)).
Proof.
  intros Hs Ht z n p.
  assert (Hn : 0 < n) by (now apply IZR_lt in Ht).
  assert (Hp : 0 <= p <= 1) by (now apply rate_in_unit).
  pose proof (denominator_pos z n Hn) as Hd.
  pose proof (radicand_nonneg z p n Hn Hp) as Hr.
  unfold EarlyStopper._wilson_ci, float_eq, default_confidence.
  destruct (Z.eq_dec t 0%Z) as [E|_]; [lia|].
  destruct (Req_dec_T 0.95 0.95) as [_|E]; [|lra].
  run_int_truediv. do 4 run_float_div_int.
  rewrite !mult_IZR. fold z n p.
  run_call ltac:(apply math_sqrt_ok; exact Hr).
  do 2 run_call ltac:(apply float_div_ok; lra).
  unfold wilson_center, wilson_spread.
  assert (Hsub : forall a b d, (a - b) / d = a / d - b / d)
    by (intros; unfold Rdiv; ring).
  assert (Hadd : forall a b d, (a + b) / d = a / d + b / d)
    by (intros; unfold Rdiv; ring).
  rewrite Hsub. rewrite (Hadd _ (z * sqrt _)). reflexivity.
Qed.

Lemma wilson_brackets (z p n : R) :
  0 < z -> 0 < n -> 0 <= p <= 1 ->
  wilson_center z p n - wilson_spread z p n <= p
  <= wilson_center z p n + wilson_spread z p n.
Proof.
  intros Hz Hn Hp.
  pose proof (denominator_pos z n Hn) as Hd.
  pose proof (spread_dominates z p n Hz Hn Hp) as Habs.
  unfold wilson_center, wilson_spread.
  set (d := 1 + z * z / n) in *.
  set (w := z * sqrt ((p * (1 - p) + z * z / (4 * n)) / n)) in *.
  set (m := p + z * z / (2 * n)).
  assert (Hm : Rabs (m - p * d) <= w).
  { replace (m - p * d) with (z * z / (2 * n) - p * (z * z / n))
      by (unfold m, d; ring).
    exact Habs. }
  pose proof (Rle_abs (m - p * d)) as Hm1.
  pose proof (Rle_abs (- (m - p * d))) as Hm2.
  rewrite Rabs_Ropp in Hm2.
  assert (Hinv : 0 < / d) by (now apply Rinv_0_lt_compat).
  assert (Hp' : p * d * / d = p) by (field; lra).
  unfold Rdiv. split.
  - rewrite <- Rmult_minus_distr_r, <- Hp'.
    apply Rmult_le_compat_r; lra.
  - rewrite <- Rmult_plus_distr_r, <- Hp' at 1.
    apply Rmult_le_compat_r; lra.
Qed.

Lemma clamp_unit (x : R) : 0 <= clamp x 0 1 <= 1.
Proof.
  unfold clamp. split.
  - apply Rmax_l.
  - apply Rmax_lub; [lra|apply Rmin_l].
Qed.

Lemma clamp_lower (x : R) : x <= 1 -> Rmax 0 x = clamp x 0 1.
Proof. intros Hx. unfold clamp. now rewrite (Rmin_right 1 x). Qed.

Lemma clamp_upper (x : R) : 0 <= x -> Rmin 1 x = clamp x 0 1.
Proof.
  intros Hx. unfold clamp. rewrite Rmax_right; [reflexivity|].
  apply Rmin_glb; lra.
Qed.

(** On valid counts the one-sided [max] and [min] of the source are the
    two-sided clamp of the formula. *)
Lemma wilson_interval_unclamped (s t : Z) :
  (0 <= s <= t)%Z -> (0 < t)%Z ->
  let z := 1.96 in
  let n := IZR t in
  let p := IZR s / n in
  wilson_interval s t
  = (Rmax 0 (wilson_center z p n - wilson_spread z p n),
     Rmin 1 (wilson_center z p n + wilson_spread z p n)).
Proof.
  intros Hs Ht z n p.
  assert (Hn : 0 < n) by (now apply IZR_lt in Ht).
  pose proof (rate_in_unit s t Hs Ht) as Hp.
  assert (Hz : 0 < z) by (unfold z; lra).
  pose proof (wilson_brackets z p n Hz Hn Hp) as [Hlo Hhi].
  unfold wilson_interval. fold z n p.
  change (IZR s / IZR t) with p in Hp.
  f_equal; symmetry; [apply clamp_lower|apply clamp_upper]; lra.
Qed.

Lemma calculate_interval (s t : Z) (conf : R) :
  (0 <= s <= t)%Z -> (0 < t)%Z ->
  WilsonCI.calculate s t conf = Ok (wilson_interval s t).
Proof.
  intros Hs Ht. rewrite wilson_interval_unclamped by assumption.
  now apply calculate_eval.
Qed.

Lemma wilson_ci_interval (s t : Z) :
  (0 <= s <= t)%Z -> (0 < t)%Z ->
  EarlyStopper._wilson_ci s t default_confidence = Ok (wilson_interval s t).
Proof.
  intros Hs Ht. rewrite wilson_interval_unclamped by assumption.
  now apply wilson_ci_eval.
Qed.

(** The interval lies in the unit square and contains the rate. *)
Lemma wilson_interval_bounds (s t : Z) :
  (0 <= s <= t)%Z -> (0 < t)%Z ->
  0 <= fst (wilson_interval s t) <= 1
  /\ 0 <= snd (wilson_interval s t) <= 1
  /\ fst (wilson_interval s t) <= IZR s / IZR t <= snd (wilson_interval s t).
Proof.
  intros Hs Ht.
  split; [apply clamp_unit|]. split; [apply clamp_unit|].
  assert (Hn : 0 < IZR t) by (now apply IZR_lt in Ht).
  pose proof (rate_in_unit s t Hs Ht) as Hp.
  assert (Hz : 0 < 1.96) by lra.
  pose proof (wilson_brackets 1.96 _ _ Hz Hn Hp) as [Hlo Hhi].
  rewrite wilson_interval_unclamped by assumption. cbn [fst snd]. split.
  - apply Rmax_lub; lra.
  - apply Rmin_glb; lra.
Qed.

End Wilson.

(** Read over the reals, that is without the rounding of the doubles:
    for [0 <= successes <= trials], [WilsonCI.calculate] and
    [EarlyStopper._wilson_ci] (at its default confidence) both evaluate to
    the interval of the specification's formula with [z = 1.96],
    [clamp(center - spread, 0, 1)] and [clamp(center + spread, 0, 1)]; both
    bounds lie in [[0,1]] and the rate [successes / trials] lies between
    them.  What the doubles do to this is the subject of the last part. *)
Lemma wilson_interval_exact (successes trials : Z) (confidence : R) :
  0 <= successes <= trials ->
  (trials = 0 ->
     WilsonCI.calculate successes trials confidence = Ok (0, 0)%R
     /\ EarlyStopper._wilson_ci successes trials default_confidence
        = Ok (0, 0)%R)
  /\ (0 < trials ->
       let lower := fst (wilson_interval successes trials) in
       let upper := snd (wilson_interval successes trials) in
       WilsonCI.calculate successes trials confidence = Ok (lower, upper)
       /\ EarlyStopper._wilson_ci successes trials default_confidence
          = Ok (lower, upper)
       /\ (0 <= lower <= 1)%R /\ (0 <= upper <= 1)%R
       /\ (lower <= IZR successes / IZR trials <= upper)%R).
Proof.
  intros Hs. split.
  - intros ->. split; reflexivity.
  - intros Ht lower upper.
    replace (lower, upper) with (wilson_interval successes trials)
      by (unfold lower, upper; now destruct (wilson_interval _ _)).
    split; [now apply calculate_interval|].
    split; [now apply wilson_ci_interval|].
    now apply wilson_interval_bounds.
Qed.

(** The exact reading at 3 successes out of 5 trials. *)
Lemma wilson_interval_exact_3_of_5 :
  (0 <= 3 <= 5)
  /\ WilsonCI.calculate 3 5 default_confidence
     = Ok (fst (wilson_interval 3 5), snd (wilson_interval 3 5)).
Proof.
  split; [lia|].
  apply (wilson_interval_exact 3 5 default_confidence); lia.
Qed.

(** ** Rounding to three decimals *)

Section Rounding.

Local Open Scope R_scope.

Lemma floor_bounds (y : R) : IZR (up y - 1) <= y < IZR (up y - 1) + 1.
Proof.
  destruct (archimed y) as [Hgt Hle].
  rewrite minus_IZR. lra.
Qed.

Lemma round_half_even_near (y : R) :
  y - 1 / 2 <= IZR (round_half_even y) <= y + 1 / 2.
Proof.
  pose proof (floor_bounds y) as [Hlo Hhi].
  unfold round_half_even.
  destruct (Rlt_dec (y - IZR (up y - 1)) (1 / 2)) as [Hd|Hd]; [lra|].
  destruct (Rlt_dec (1 / 2) (y - IZR (up y - 1))) as [Hd'|Hd'].
  - rewrite plus_IZR. lra.
  - destruct (Z.even (up y - 1)); [lra|]. rewrite plus_IZR. lra.
Qed.

Lemma round_half_even_int (n : Z) : round_half_even (IZR n) = n.
Proof.
  assert (Hup : up (IZR n) = (n + 1)%Z).
  { symmetry. apply tech_up; rewrite plus_IZR; lra. }
  unfold round_half_even. rewrite Hup.
  replace (n + 1 - 1)%Z with n by lia.
  destruct (Rlt_dec (IZR n - IZR n) (1 / 2)) as [_|Hd]; [reflexivity|lra].
Qed.

Lemma round3_near (x : R) : x - 0.0005 <= round3 x <= x + 0.0005.
Proof.
  pose proof (round_half_even_near (x * 1000)) as [Hlo Hhi].
  unfold round3. lra.
Qed.

Lemma round3_one : round3 1 = 1.
Proof.
  unfold round3. rewrite Rmult_1_l, round_half_even_int. lra.
Qed.

End Rounding.

(** ** Counters *)

Lemma incr_same (x : string) (n : Z) : Counter.incr [(x, n)] x = [(x, n + 1)].
Proof. cbn. now rewrite String.eqb_refl. Qed.

Lemma of_list_constant_from (x : string) (l : list string) (n : Z) :
  Forall (eq x) l -> fold_left Counter.incr l [(x, n)] = [(x, n + len l)].
Proof.
  revert n. induction l as [|y l IH]; intros n Hall.
  - cbn. f_equal. f_equal. unfold len. cbn. lia.
  - inversion Hall as [|? ? <- Hall']; subst.
    cbn [fold_left]. rewrite incr_same, IH by assumption.
    f_equal. f_equal. unfold len. cbn [length]. lia.
Qed.

(** A non-empty history with a single label counts to one entry. *)
Lemma of_list_constant (x : string) (l : list string) :
  l <> [] -> Forall (eq x) l -> Counter.of_list l = [(x, len l)].
Proof.
  destruct l as [|y l]; [congruence|]. intros _ Hall.
  inversion Hall as [|? ? <- Hall']; subst.
  unfold Counter.of_list. cbn [fold_left Counter.incr].
  rewrite of_list_constant_from by assumption.
  f_equal. f_equal. unfold len. cbn [length]. lia.
Qed.

(** ** The stability analyser on unanimous runs *)

Section Unanimous.

Local Open Scope R_scope.

(** With every trial a success the lower end is [n / (n + z^2)]. *)
Lemma wilson_lower_all_successes (z n : R) :
  0 < z -> 0 < n ->
  wilson_center z 1 n - wilson_spread z 1 n = n / (n + z * z).
Proof.
  intros Hz Hn.
  unfold wilson_center, wilson_spread.
  assert (Hroot : sqrt ((1 * (1 - 1) + z * z / (4 * n)) / n) = z / (2 * n)).
  { replace ((1 * (1 - 1) + z * z / (4 * n)) / n)
      with (z / (2 * n) * (z / (2 * n))) by (field; lra).
    apply sqrt_square.
    apply Rmult_le_pos; [lra|]. left. apply Rinv_0_lt_compat. lra. }
  rewrite Hroot.
  assert (0 < n + z * z) by nra.
  field. split; lra.
Qed.

Lemma IZR_len_pos {A : Type} (l : list A) : l <> [] -> 0 < IZR (len l).
Proof.
  intros Hne. apply IZR_lt. unfold len.
  destruct l; [congruence|]. cbn [length]. lia.
Qed.

(** What [analyze] returns when every run carries the same label. *)
Lemma analyze_unanimous (results : list RunOutcome) (label : string) :
  results <> [] ->
  Forall (fun o => ro_decision_mode o = label) results ->
  exists r,
    StabilityAnalyzer.analyze results = Ok r
    /\ majority_rate r = 1
    /\ majority_mode r = Some label
    /\ ci_lower r
       = round3 (IZR (len results) / (IZR (len results) + 1.96 * 1.96))
    /\ total_runs r = Some (len results).
Proof.
  intros Hne Hall.
  pose proof (IZR_len_pos results Hne) as Hn.
  assert (Hlen : (0 < len results)%Z) by (now apply lt_IZR).
  assert (Hmodes : Counter.of_list (map ro_decision_mode results)
                   = [(label, len results)]).
  { replace (len results) with (len (map ro_decision_mode results))
      by (unfold len; now rewrite length_map).
    apply of_list_constant.
    - destruct results; [congruence|discriminate].
    - apply Forall_map. eapply Forall_impl; [exact Hall|].
      intros o Ho. now symmetry. }
  unfold StabilityAnalyzer.analyze.
  destruct results as [|o results']; [congruence|].
  set (results := o :: results') in *.
  rewrite Hmodes. cbn [Counter.most_common1 Counter.max_from index0].
  eexists. split.
  { do 2 (eapply bind_run; [reflexivity|cbv beta zeta]).
    cbn [fst snd].
    run_int_truediv.
    rewrite (calculate_eval (len results) (len results)) by lia.
    reflexivity. }
  cbn [majority_rate majority_mode ci_lower total_runs].
  replace (IZR (len results) / IZR (len results)) with 1 by (field; lra).
  split; [apply round3_one|].
  split; [reflexivity|]. split; [|reflexivity].
  f_equal.
  rewrite wilson_lower_all_successes by lra.
  apply Rmax_right. left. apply Rdiv_lt_0_compat; nra.
Qed.

Lemma lower_bound_from_four (n : R) : 4 <= n -> 0.51 <= n / (n + 1.96 * 1.96).
Proof.
  intros Hn.
  apply (Rmult_le_reg_r (n + 1.96 * 1.96)); [lra|].
  unfold Rdiv. rewrite Rmult_assoc, Rinv_l by lra. lra.
Qed.

End Unanimous.

(** C2, as the code has it.  For every [N >= 4] and every list of [N]
    outcomes that all carry the same decision-mode label,
    [StabilityAnalyzer.analyze] returns [majority_rate = 1.0], that label as
    [majority_mode], and a Wilson lower bound strictly above [0.5]. *)
Theorem analyze_unanimous_stable (results : list RunOutcome) (label : string) :
  4 <= len results ->
  Forall (fun o => ro_decision_mode o = label) results ->
  exists r,
    StabilityAnalyzer.analyze results = Ok r
    /\ majority_rate r = 1%R
    /\ majority_mode r = Some label
    /\ (ci_lower r > 0.5)%R.
Proof.
  intros Hlen Hall.
  assert (Hne : results <> []) by (destruct results; [unfold len in Hlen; cbn in Hlen; lia|easy]).
  destruct (analyze_unanimous results label Hne Hall)
    as (r & Hr & Hrate & Hmode & Hlow & _).
  exists r. repeat split; try assumption.
  rewrite Hlow.
  pose proof (lower_bound_from_four (IZR (len results))
                (IZR_le 4 _ Hlen)) as Hb.
  pose proof (round3_near
                (IZR (len results) / (IZR (len results) + 1.96 * 1.96)))
    as [Hr3 _].
  lra.
Qed.

(** Four runs that all resolve to [hard_select]. *)
Lemma analyze_unanimous_stable_witness :
  exists r,
    StabilityAnalyzer.analyze (replicate 4 hard_select_run) = Ok r
    /\ majority_rate r = 1%R
    /\ majority_mode r = Some "hard_select"%string
    /\ (ci_lower r > 0.5)%R.
Proof.
  apply (analyze_unanimous_stable (replicate 4 hard_select_run) "hard_select").
  - unfold len. cbn. lia.
  - repeat constructor.
Defined.

(** C2 fails at [N = 3]: three unanimous runs give the lower bound
    [round(3 / (3 + 1.96^2), 3)], which is below one half. *)
Lemma analyze_three_unanimous_runs :
  exists r,
    StabilityAnalyzer.analyze (replicate 3 hard_select_run) = Ok r
    /\ majority_rate r = 1%R
    /\ majority_mode r = Some "hard_select"%string
    /\ ~ (ci_lower r > 0.5)%R.
Proof.
  destruct (analyze_unanimous (replicate 3 hard_select_run) "hard_select")
    as (r & Hr & Hrate & Hmode & Hlow & _).
  - discriminate.
  - repeat constructor.
  - exists r. repeat split; try assumption.
    rewrite Hlow.
    pose proof (round3_near (IZR (len (replicate 3 hard_select_run))
                             / (IZR (len (replicate 3 hard_select_run))
                                + 1.96 * 1.96))) as [_ Hup].
    change (len (replicate 3 hard_select_run)) with 3 in *.
    assert (Hx : (3 / (3 + 1.96 * 1.96) <= 0.44)%R).
    { apply (Rmult_le_reg_r (3 + 1.96 * 1.96)); [lra|].
      unfold Rdiv. rewrite Rmult_assoc, Rinv_l by lra. lra. }
    lra.
Qed.

(** ** The disagreement rate *)

Lemma unique_count_nodup (cs : list SolverOutput) :
  NoDup (map final_answer cs) -> unique_count cs = len cs.
Proof.
  intros Hnd. unfold unique_count, len.
  rewrite size_list_to_set by assumption. now rewrite length_map.
Qed.

Lemma list_to_set_constant (a : string) (l : list string) :
  l <> [] -> Forall (eq a) l -> (list_to_set l : gset string) = {[ a ]}.
Proof.
  induction l as [|b l IH]; [congruence|]. intros _ Hall.
  inversion Hall as [|? ? <- Hall']; subst.
  rewrite list_to_set_cons.
  destruct l as [|c l].
  - rewrite list_to_set_nil. apply (right_id_L ∅ (∪)).
  - rewrite IH by (assumption || discriminate). apply (idemp_L (∪)).
Qed.

Lemma unique_count_identical (cs : list SolverOutput) (a : string) :
  cs <> [] -> Forall (fun c => final_answer c = a) cs -> unique_count cs = 1.
Proof.
  intros Hne Hall. unfold unique_count.
  rewrite (list_to_set_constant a).
  - now rewrite size_singleton.
  - destruct cs; [congruence|discriminate].
  - apply Forall_map. eapply Forall_impl; [exact Hall|].
    intros c Hc. now symmetry.
Qed.

Lemma len_nonempty {A : Type} (l : list A) : l <> [] -> 0 < len l.
Proof. destruct l; [congruence|]. intros _. unfold len. cbn. lia. Qed.

Lemma disagreement_rate_nonempty (cs : list SolverOutput) :
  cs <> [] ->
  MultiLLMOrchestrator.disagreement_rate cs
  = Ok (IZR (unique_count cs) / IZR (len cs))%R.
Proof.
  intros Hne. pose proof (len_nonempty cs Hne) as Hlen.
  unfold MultiLLMOrchestrator.disagreement_rate.
  now rewrite int_truediv_ok by lia.
Qed.

Lemma disagreement_rate_identical (cs : list SolverOutput) (a : string) :
  cs <> [] -> Forall (fun c => final_answer c = a) cs ->
  MultiLLMOrchestrator.disagreement_rate cs = Ok (1 / IZR (len cs))%R.
Proof.
  intros Hne Hall. rewrite disagreement_rate_nonempty by assumption.
  now rewrite (unique_count_identical cs a).
Qed.

Lemma disagreement_rate_distinct (cs : list SolverOutput) :
  cs <> [] -> NoDup (map final_answer cs) ->
  MultiLLMOrchestrator.disagreement_rate cs = Ok 1%R.
Proof.
  intros Hne Hnd. pose proof (len_nonempty cs Hne) as Hlen.
  rewrite disagreement_rate_nonempty, unique_count_nodup by assumption.
  f_equal. apply Rinv_r. apply IZR_lt in Hlen. lra.
Qed.

(** C3, as the code has it.  For every non-empty candidate set the
    disagreement rate is [(number of distinct final answers) / (number of
    candidates)]; it is [1 / (number of candidates)] when all final answers
    are identical and [1] when they are pairwise distinct. *)
Theorem disagreement_rate_formula (cs : list SolverOutput) :
  cs <> [] ->
  MultiLLMOrchestrator.disagreement_rate cs
  = Ok (IZR (unique_count cs) / IZR (len cs))%R
  /\ (forall a, Forall (fun c => final_answer c = a) cs ->
      MultiLLMOrchestrator.disagreement_rate cs = Ok (1 / IZR (len cs))%R)
  /\ (NoDup (map final_answer cs) ->
      MultiLLMOrchestrator.disagreement_rate cs = Ok 1%R).
Proof.
  intros Hne. split; [|split].
  - now apply disagreement_rate_nonempty.
  - intros a. now apply disagreement_rate_identical.
  - now apply disagreement_rate_distinct.
Qed.

(** Two workers with two different answers. *)
Lemma disagreement_rate_formula_witness :
  MultiLLMOrchestrator.disagreement_rate
    [candidate "solver_01" "yes"; candidate "solver_02" "no"]
  = Ok (IZR (unique_count
               [candidate "solver_01" "yes"; candidate "solver_02" "no"])
        / IZR (len [candidate "solver_01" "yes"; candidate "solver_02" "no"]))%R.
Proof.
  apply (disagreement_rate_formula
           [candidate "solver_01" "yes"; candidate "solver_02" "no"]).
  discriminate.
Defined.

(** C3 fails on identical answers: two workers that both answer ["yes"]
    have disagreement rate [1/2], not [0]. *)
Lemma disagreement_rate_identical_answers :
  MultiLLMOrchestrator.disagreement_rate
    [candidate "solver_01" "yes"; candidate "solver_02" "yes"]
  = Ok (1 / 2)%R
  /\ MultiLLMOrchestrator.disagreement_rate
       [candidate "solver_01" "yes"; candidate "solver_02" "yes"]
     <> Ok 0%R.
Proof.
  assert (H : MultiLLMOrchestrator.disagreement_rate
                [candidate "solver_01" "yes"; candidate "solver_02" "yes"]
              = Ok (1 / 2)%R).
  { rewrite (disagreement_rate_identical _ "yes")
      by (first [discriminate | repeat constructor]).
    reflexivity. }
  split; [exact H|]. rewrite H. intros [= E]. lra.
Qed.

(** ** The rebuttal round *)

Lemma build_solver_output_model_id (mid tid : string) (parsed : json)
    (latency : Z) (stamp : string) (out : SolverOutput) :
  build_solver_output mid tid parsed latency stamp = Ok out ->
  model_id out = mid.
Proof.
  unfold build_solver_output. intros H.
  repeat match type of H with
         | (?m ≫= _) = Ok _ => destruct m; [cbn in H|discriminate H]
         end.
  now inversion H.
Qed.

Lemma attempt_model_id (env : RebuttalOracle) (tid : string)
    (all_outputs : list SolverOutput) (i : nat) (own out : SolverOutput) :
  RebuttalRound.attempt env tid all_outputs i own = Ok out ->
  model_id out = model_id own.
Proof.
  unfold RebuttalRound.attempt. intros H.
  destruct (rebuttal_reply env i own _) as [parsed|e]; [cbn in H|discriminate].
  destruct (validate_solver_json parsed); [cbn in H|discriminate].
  eapply build_solver_output_model_id. exact H.
Qed.

Lemma step_model_id (env : RebuttalOracle) (tid : string)
    (all_outputs : list SolverOutput) (i : nat) (own : SolverOutput) :
  model_id (RebuttalRound.step env tid all_outputs i own) = model_id own.
Proof.
  unfold RebuttalRound.step.
  destruct (RebuttalRound.attempt env tid all_outputs i own) eqn:E.
  - eapply attempt_model_id. exact E.
  - reflexivity.
Qed.

Lemma map_imap_ext {A B : Type} (g : A -> B) (f : nat -> A -> A) (l : list A) :
  (forall i x, g (f i x) = g x) -> map g (imap f l) = map g l.
Proof.
  revert f. induction l as [|x l IH]; intros f Hf; [reflexivity|].
  cbn. rewrite Hf. f_equal. apply IH. intros i y. apply Hf.
Qed.

(** C6.  [RebuttalRound.run] returns one candidate per input candidate, in
    the same positions and for the same workers; at a position where the
    worker's call raises, or where its reply does not pass
    [validate_solver_json], or where the attempt raises for any other
    reason, the output is the input candidate itself. *)
Theorem rebuttal_keeps_every_worker (env : RebuttalOracle) (tid : string)
    (all_outputs : list SolverOutput) :
  length (RebuttalRound.run env tid all_outputs) = length all_outputs
  /\ map model_id (RebuttalRound.run env tid all_outputs)
     = map model_id all_outputs
  /\ forall (i : nat) (own : SolverOutput),
       all_outputs !! i = Some own ->
       let reply :=
         rebuttal_reply env i own
           (RebuttalRound.other_outputs all_outputs own) in
       (forall e, reply = Raise e ->
          RebuttalRound.run env tid all_outputs !! i = Some own)
       /\ (forall parsed, reply = Ok parsed ->
             valid SOLVER_SCHEMA parsed = false ->
             RebuttalRound.run env tid all_outputs !! i = Some own)
       /\ (forall e, RebuttalRound.attempt env tid all_outputs i own = Raise e ->
             RebuttalRound.run env tid all_outputs !! i = Some own).
Proof.
  unfold RebuttalRound.run. split; [apply length_imap|]. split.
  - apply map_imap_ext. intros i x. apply step_model_id.
  - intros i own Hown.
    rewrite list_lookup_imap, Hown. cbn [fmap option_fmap option_map].
    unfold RebuttalRound.step. split; [|split].
    + intros e He. unfold RebuttalRound.attempt. now rewrite He.
    + intros parsed Hp Hbad. unfold RebuttalRound.attempt. rewrite Hp.
      cbn. unfold validate_solver_json. rewrite Hbad. reflexivity.
    + intros e ->. reflexivity.
Qed.

(** ** The solver schema *)

Lemma valid_string_schema (v : json) :
  valid string_schema v = true <-> is_string v.
Proof.
  unfold is_string. split.
  - destruct v; cbn; try discriminate. eauto.
  - intros [s ->]. reflexivity.
Qed.

Lemma valid_string_array_schema (v : json) :
  valid string_array_schema v = true <-> is_string_list v.
Proof.
  unfold is_string_list. split.
  - destruct v as [| | | | |l|]; cbn; try discriminate.
    rewrite !andb_true_r. intros H. exists l. split; [reflexivity|].
    apply Forall_forall. intros x Hx%list_elem_of_In.
    rewrite forallb_forall in H. apply valid_string_schema. now apply H.
  - intros (l & -> & Hall). cbn. rewrite !andb_true_r.
    apply forallb_forall. intros x Hx%list_elem_of_In.
    rewrite Forall_forall in Hall. apply valid_string_schema. now apply Hall.
Qed.

Lemma valid_unit_number_schema (v : json) :
  valid unit_number_schema v = true <-> is_unit_number v.
Proof.
  unfold is_unit_number, float_le. split.
  - destruct v as [| |n|x| | |]; cbn; try discriminate; unfold float_le;
      repeat match goal with
             | |- context [Rle_dec ?a ?b] => destruct (Rle_dec a b)
             end; cbn; try discriminate; eauto.
  - intros (x & Hv & Hlo & Hhi).
    destruct v as [| |n|y| | |]; cbn in Hv; try discriminate;
      injection Hv as <-; cbn; unfold float_le;
      repeat match goal with
             | |- context [Rle_dec ?a ?b] => destruct (Rle_dec a b)
             end; cbn; try reflexivity; lra.
Qed.

(** The object keywords, with the property loop written as [forallb]. *)
Lemma valid_object (required : list string) (additional : bool)
    (properties : list (string * schema)) (m : gmap string json) :
  valid (Schema (Some TObject) required additional properties None None None)
    (JObj m)
  = forallb (fun k => bool_decide (is_Some (m !! k))) required
    && (additional
        || forallb (fun k => str_in k (map fst properties))
             (map fst (map_to_list m)))
    && forallb (fun ks => match m !! fst ks with
                          | Some v => valid (snd ks) v
                          | None => true
                          end) properties.
Proof.
  cbn. rewrite !andb_true_r. f_equal.
  induction properties as [|[k sub] ps IH]; [reflexivity|].
  cbn [forallb fst snd]. now rewrite IH.
Qed.

Lemma str_in_In (k : string) (l : list string) : str_in k l = true <-> In k l.
Proof.
  unfold str_in. rewrite existsb_exists. split.
  - intros (x & Hx & ->%String.eqb_eq). exact Hx.
  - intros Hk. exists k. split; [exact Hk|apply String.eqb_refl].
Qed.

Lemma required_present (m : gmap string json) (names : list string) :
  forallb (fun k => bool_decide (is_Some (m !! k))) names = true
  <-> forall k, In k names -> is_Some (m !! k).
Proof.
  rewrite forallb_forall. split; intros H k Hk.
  - eapply bool_decide_eq_true_1. now apply H.
  - apply bool_decide_eq_true_2. now apply H.
Qed.

Lemma only_listed_keys (m : gmap string json) (names : list string) :
  forallb (fun k => str_in k names) (map fst (map_to_list m)) = true
  <-> forall k, is_Some (m !! k) -> In k names.
Proof.
  rewrite forallb_forall. split.
  - intros H k [v Hv]. apply str_in_In, H.
    apply in_map_iff. exists (k, v). split; [reflexivity|].
    apply list_elem_of_In, elem_of_map_to_list. exact Hv.
  - intros H k Hk. apply str_in_In, H.
    apply in_map_iff in Hk as ([k' v] & <- & Hin).
    apply list_elem_of_In, elem_of_map_to_list in Hin. now exists v.
Qed.

(** A present, required property passes its sub-schema. *)
Lemma property_check (m : gmap string json) (k : string) (sub : schema)
    (P : json -> Prop) :
  (forall v, valid sub v = true <-> P v) ->
  is_Some (m !! k) ->
  (match m !! k with Some v => valid sub v | None => true end = true
   <-> field_is m k P).
Proof.
  intros Hsub [v Hv]. unfold field_is. rewrite Hv. split.
  - intros H. exists v. split; [reflexivity|now apply Hsub].
  - intros (v' & [= <-] & HP). now apply Hsub.
Qed.

(** [SOLVER_SCHEMA] accepts exactly the objects of the solver contract. *)
Lemma valid_solver_schema (obj : json) :
  valid SOLVER_SCHEMA obj = true <-> solver_contract obj.
Proof.
  unfold solver_contract. split.
  - destruct obj as [| | | | | |m]; try discriminate.
    unfold SOLVER_SCHEMA. rewrite valid_object.
    rewrite !andb_true_iff. cbn [orb].
    intros [[Hreq Hadd] Hprops].
    rewrite required_present in Hreq. rewrite only_listed_keys in Hadd.
    change (map fst _) with solver_fields in Hadd.
    exists m. split; [reflexivity|]. split.
    { intros k. split; [apply Hadd|apply Hreq]. }
    cbn [forallb fst snd] in Hprops. rewrite !andb_true_iff in Hprops.
    destruct Hprops as (H1 & H2 & H3 & H4 & H5 & H6 & H7 & H8 & _).
    repeat split;
      (eapply property_check;
       [first [apply valid_string_schema | apply valid_string_array_schema
              | apply valid_unit_number_schema]
       | apply Hreq; cbn; tauto
       | eassumption]).
  - intros (m & -> & Hex & F1 & F2 & F3 & F4 & F5 & F6 & F7 & F8).
    unfold SOLVER_SCHEMA. rewrite valid_object.
    rewrite !andb_true_iff. cbn [orb]. split; [split|].
    + apply required_present. intros k Hk. now apply Hex.
    + apply only_listed_keys. intros k Hk. now apply Hex.
    + cbn [forallb fst snd]. rewrite !andb_true_iff.
      repeat split;
        (eapply property_check;
         [first [apply valid_string_schema | apply valid_string_array_schema
                | apply valid_unit_number_schema]
         | apply Hex; cbn; tauto
         | eassumption]).
Qed.

Lemma has_exactly_list_to_map (l : list (string * json)) :
  has_exactly (list_to_map l) (map fst l).
Proof.
  intros k. rewrite <- elem_of_dom, dom_list_to_map_L, elem_of_list_to_set.
  apply list_elem_of_In.
Qed.

(** Decides [is_string], [is_unit_number] and [is_string_list] on a literal. *)
Ltac check_field :=
  first
    [ eexists; reflexivity
    | eexists; split; [reflexivity|lra]
    | eexists; split;
      [reflexivity|repeat constructor; eexists; reflexivity] ].

Lemma as_str_list_strings (l : list json) :
  Forall is_string l -> exists ss, as_str_list (JArr l) = Ok ss.
Proof.
  cbn [as_str_list]. induction 1 as [|j l [s ->] _ [ss IH]].
  - now exists [].
  - exists (s :: ss). cbn. cbn in IH. now rewrite IH.
Qed.

(** After validation the constructor call cannot raise. *)
Lemma build_after_validation (mid tid : string) (parsed : json)
    (latency : Z) (stamp : string) :
  validate_solver_json parsed = Ok tt ->
  exists out, build_solver_output mid tid parsed latency stamp = Ok out.
Proof.
  unfold validate_solver_json.
  destruct (valid SOLVER_SCHEMA parsed) eqn:Hvalid; [intros _|discriminate].
  apply valid_solver_schema in Hvalid
    as (m & -> & _ & _ & _ & (fa & Hfa & s & ->) & (c & Hc & x & Hx & _)
        & (a1 & H1 & l1 & -> & Hl1) & (a2 & H2 & l2 & -> & Hl2)
        & (a3 & H3 & l3 & -> & Hl3) & (a4 & H4 & l4 & -> & Hl4)).
  destruct (as_str_list_strings l1 Hl1) as [s1 E1].
  destruct (as_str_list_strings l2 Hl2) as [s2 E2].
  destruct (as_str_list_strings l3 Hl3) as [s3 E3].
  destruct (as_str_list_strings l4 Hl4) as [s4 E4].
  assert (Hconf : exists conf, py_float c = Ok conf).
  { destruct c; cbn in Hx; try discriminate; eexists; reflexivity. }
  destruct Hconf as [conf Hconf].
  unfold build_solver_output, getitem.
  rewrite Hfa, Hc, H1, H2, H3, H4. cbn [mbind result_bind as_str].
  rewrite Hconf, E1, E2, E3, E4. eexists. reflexivity.
Qed.

(** The reply of the repository's schema test is accepted. *)
Example eight_field_reply_accepted :
  validate_solver_json eight_field_reply = Ok tt.
Proof.
  unfold validate_solver_json.
  assert (H : valid SOLVER_SCHEMA eight_field_reply = true);
    [|now rewrite H].
  apply valid_solver_schema. eexists. split; [reflexivity|].
  split; [apply has_exactly_list_to_map|].
  unfold field_is, is_string, is_string_list, is_unit_number.
  repeat split; eexists; (split; [vm_compute; reflexivity|]);
    check_field.
Qed.

(** ** Traces *)

Lemma bindM_ok {A B : Type} (m : M A) (k : A -> M B) (a : A) :
  outcome m = Ok a ->
  m ≫= k = mkM (trace m ++ trace (k a)) (outcome (k a)).
Proof. intros H. unfold mbind, M_bind. now rewrite H. Qed.

Lemma bindM_raise {A B : Type} (m : M A) (k : A -> M B) (e : exn) :
  outcome m = Raise e -> m ≫= k = mkM (trace m) (Raise e).
Proof. intros H. unfold mbind, M_bind. now rewrite H. Qed.

(** ** An empty candidate set *)

Lemma run_parallel_all_failed (tid : string) (futures : list SolverReply) :
  Forall (fun r => exists e, SolverPool.call_solver tid r = Raise e) futures ->
  SolverPool.run_parallel tid futures = [].
Proof.
  induction 1 as [|r rest [e He] _ IH]; [reflexivity|].
  cbn. now rewrite He.
Qed.

Lemma first_rounds_no_candidates (env : RunEnv) (tid : string) :
  SolverPool.run_parallel tid (solver_futures env) = [] ->
  MultiLLMOrchestrator.first_rounds env tid
  = mkM [CallSolverPool] (Raise ZeroDivisionError).
Proof.
  intros Hnone. unfold MultiLLMOrchestrator.first_rounds. rewrite Hnone.
  reflexivity.
Qed.

Lemma call_solver_good (mid answer : string) :
  SolverPool.call_solver "task_001" (good_reply mid answer)
  = Ok (candidate mid answer).
Proof.
  unfold SolverPool.call_solver, good_reply. cbn [sr_parsed].
  eapply bind_run; [reflexivity|]. cbv beta.
  assert (Hvalid : validate_solver_json (solver_json answer) = Ok tt).
  { unfold validate_solver_json.
    assert (H : valid SOLVER_SCHEMA (solver_json answer) = true);
      [|now rewrite H].
    apply valid_solver_schema. eexists. split; [reflexivity|].
    split; [apply has_exactly_list_to_map|].
    unfold field_is, is_string, is_string_list, is_unit_number.
    repeat split; eexists; (split; [vm_compute; reflexivity|]);
      check_field. }
  rewrite Hvalid. vm_compute. reflexivity.
Qed.

(** C10.  When every worker call of the solver round fails,
    [SolverPool.run_parallel] returns the empty list and [run_single] raises
    [ZeroDivisionError] at the disagreement-rate division: the solver pool
    is the only component that was called and no decision is returned. *)
Theorem run_single_no_candidates (self : MultiLLMOrchestrator.t)
    (env : RunEnv) (tid : string) (consensus_topk : Z) (epsilon : R)
    (enable_rebuttal : bool) (disagreement_threshold : R) :
  Forall (fun r => exists e, SolverPool.call_solver tid r = Raise e)
    (solver_futures env) ->
  SolverPool.run_parallel tid (solver_futures env) = []
  /\ MultiLLMOrchestrator.run_single self env tid consensus_topk epsilon
       enable_rebuttal disagreement_threshold
     = mkM [CallSolverPool] (Raise ZeroDivisionError).
Proof.
  intros Hfail.
  pose proof (run_parallel_all_failed tid _ Hfail) as Hnone.
  split; [exact Hnone|].
  unfold MultiLLMOrchestrator.run_single.
  rewrite (first_rounds_no_candidates env tid Hnone).
  reflexivity.
Qed.

(** ** Which components a single run calls *)

Lemma invoked_bind {A B : Type} (p : Event -> bool) (m : M A) (k : A -> M B) :
  invoked p (m ≫= k)
  = invoked p m
    || match outcome m with
       | Ok a => invoked p (k a)
       | Raise _ => false
       end.
Proof.
  unfold invoked, mbind, M_bind.
  destruct (outcome m) as [a|e]; cbn [trace].
  - apply existsb_app.
  - now rewrite orb_false_r.
Qed.

Lemma for_each_quiet {A : Type} (p : Event -> bool) (l : list A)
    (body : A -> M unit) :
  (forall x, invoked p (body x) = false) ->
  invoked p (for_each l body) = false.
Proof.
  intros Hbody. induction l as [|x l IH]; [reflexivity|].
  cbn [for_each]. rewrite invoked_bind, Hbody.
  destruct (outcome (body x)); [exact IH|reflexivity].
Qed.

Lemma for_each_ok {A : Type} (l : list A) (body : A -> M unit) :
  (forall x, outcome (body x) = Ok tt) ->
  outcome (for_each l body) = Ok tt.
Proof.
  intros Hbody. induction l as [|x l IH]; [reflexivity|].
  cbn [for_each]. rewrite (bindM_ok _ _ tt) by apply Hbody. exact IH.
Qed.

Section Quiet.

Variable p : Event -> bool.
Hypothesis p_solver_pool : p CallSolverPool = false.
Hypothesis p_arbiter : forall cs, p (CallArbiter cs) = false.
Hypothesis p_reliability : forall w r, p (UpdateReliability w r) = false.
Hypothesis p_record : forall r, p (WriteRunRecord r) = false.

Lemma first_rounds_quiet (env : RunEnv) (tid : string) :
  invoked p (MultiLLMOrchestrator.first_rounds env tid) = false.
Proof.
  unfold MultiLLMOrchestrator.first_rounds, invoked, mbind, M_bind, emit, lift.
  cbn [outcome trace].
  destruct (MultiLLMOrchestrator.disagreement_rate _); cbn;
    rewrite ?p_solver_pool; [|reflexivity].
  destruct (arbiter_rank env 0 _) as [arb|]; cbn; rewrite ?p_arbiter;
    [|reflexivity].
  destruct (index0 (ao_ranking arb)); cbn; rewrite ?p_arbiter; reflexivity.
Qed.

Lemma bookkeeping_quiet (self : MultiLLMOrchestrator.t) (env : RunEnv)
    (tid : string) (cs : list SolverOutput) (arb : ArbiterOutput) (round : Z)
    (rate : R) (mode : string) (used : list string) (answer : json) :
  invoked p (MultiLLMOrchestrator.bookkeeping self env tid cs arb round rate
               mode used answer) = false.
Proof.
  unfold MultiLLMOrchestrator.bookkeeping.
  rewrite invoked_bind, for_each_quiet.
  2:{ intros x. cbn. now rewrite p_reliability. }
  destruct (outcome (for_each used _)); [|reflexivity].
  rewrite invoked_bind, for_each_quiet.
  2:{ intros x. destruct (str_in _ _); cbn; now rewrite ?p_reliability. }
  destruct (outcome (for_each cs _)); [|reflexivity].
  rewrite invoked_bind, for_each_quiet.
  2:{ intros [i c]. unfold invoked, mbind, M_bind, lift, emit. cbn.
      destruct (truncate_answer answer); cbn; now rewrite ?p_record. }
  destruct (outcome (for_each _ _)); reflexivity.
Qed.

End Quiet.

Lemma rebuttal_block_calls_rebuttal (env : RunEnv) (tid : string)
    (enable : bool) (threshold : R) (cs : list SolverOutput) (rate : R)
    (arb : ArbiterOutput) :
  invoked is_rebuttal_call
    (MultiLLMOrchestrator.rebuttal_block env tid enable threshold cs rate arb)
  = enable && float_ge rate threshold.
Proof.
  unfold MultiLLMOrchestrator.rebuttal_block.
  destruct (enable && float_ge rate threshold); reflexivity.
Qed.

Lemma rebuttal_block_no_consensus (env : RunEnv) (tid : string)
    (enable : bool) (threshold : R) (cs : list SolverOutput) (rate : R)
    (arb : ArbiterOutput) :
  invoked is_consensus_call
    (MultiLLMOrchestrator.rebuttal_block env tid enable threshold cs rate arb)
  = false.
Proof.
  unfold MultiLLMOrchestrator.rebuttal_block.
  destruct (enable && float_ge rate threshold); [|reflexivity].
  unfold invoked, mbind, M_bind, emit, lift. cbn [outcome trace].
  destruct (MultiLLMOrchestrator.disagreement_rate _); cbn; [|reflexivity].
  destruct (arbiter_rank env 1 _); reflexivity.
Qed.

(** The test of the consensus block on the current ranking. *)
Lemma consensus_block_calls_consensus (env : RunEnv) (topk : Z) (epsilon : R)
    (cs : list SolverOutput) (arb : ArbiterOutput) :
  invoked is_consensus_call
    (MultiLLMOrchestrator.consensus_block env topk epsilon cs arb)
  = match ao_ranking arb with
    | first :: second :: _ =>
        float_lt (rk_score first - rk_score second) epsilon
    | _ => false
    end.
Proof.
  unfold MultiLLMOrchestrator.consensus_block.
  destruct (ao_ranking arb) as [|first [|second rest]]; try reflexivity.
  destruct (float_lt _ epsilon); [|reflexivity].
  unfold try_exceptM, MultiLLMOrchestrator.try_consensus, invoked,
    mbind, M_bind, emit, lift. cbn [outcome trace].
  destruct (ConsensusSynthesizer.synthesize _ _ _); reflexivity.
Qed.

Lemma consensus_block_no_rebuttal (env : RunEnv) (topk : Z) (epsilon : R)
    (cs : list SolverOutput) (arb : ArbiterOutput) :
  invoked is_rebuttal_call
    (MultiLLMOrchestrator.consensus_block env topk epsilon cs arb) = false.
Proof.
  unfold MultiLLMOrchestrator.consensus_block.
  destruct (ao_ranking arb) as [|first [|second rest]]; try reflexivity.
  destruct (float_lt _ epsilon); [|reflexivity].
  unfold try_exceptM, MultiLLMOrchestrator.try_consensus, invoked,
    mbind, M_bind, emit, lift. cbn [outcome trace].
  destruct (ConsensusSynthesizer.synthesize _ _ _); reflexivity.
Qed.

(** The consensus block never raises: a failed synthesis is absorbed. *)
Lemma consensus_block_returns (env : RunEnv) (topk : Z) (epsilon : R)
    (cs : list SolverOutput) (arb : ArbiterOutput) :
  exists r,
    outcome (MultiLLMOrchestrator.consensus_block env topk epsilon cs arb)
    = Ok r.
Proof.
  unfold MultiLLMOrchestrator.consensus_block.
  destruct (ao_ranking arb) as [|first [|second rest]]; try (eexists; reflexivity).
  destruct (float_lt _ epsilon); [|eexists; reflexivity].
  unfold try_exceptM, MultiLLMOrchestrator.try_consensus,
    mbind, M_bind, emit, lift. cbn [outcome trace].
  destruct (ConsensusSynthesizer.synthesize _ _ _); eexists; reflexivity.
Qed.

(** In a run whose first two rounds complete, the rebuttal round is called
    exactly when it is enabled and the rate reaches the threshold. *)
Lemma run_single_calls_rebuttal (self : MultiLLMOrchestrator.t) (env : RunEnv)
    (tid : string) (topk : Z) (epsilon : R) (enable : bool) (threshold : R)
    (cs : list SolverOutput) (rate : R) (arb : ArbiterOutput) :
  outcome (MultiLLMOrchestrator.first_rounds env tid) = Ok (cs, rate, arb) ->
  invoked is_rebuttal_call
    (MultiLLMOrchestrator.run_single self env tid topk epsilon enable threshold)
  = enable && float_ge rate threshold.
Proof.
  intros Hfirst. unfold MultiLLMOrchestrator.run_single.
  rewrite invoked_bind, Hfirst, first_rounds_quiet by reflexivity.
  cbn [orb]. rewrite invoked_bind, rebuttal_block_calls_rebuttal.
  destruct (outcome (MultiLLMOrchestrator.rebuttal_block _ _ _ _ _ _ _))
    as [[[[cs' arb'] round] rate']|]; [|now rewrite orb_false_r].
  rewrite invoked_bind, consensus_block_no_rebuttal.
  destruct (outcome (MultiLLMOrchestrator.consensus_block _ _ _ _ _))
    as [[[mode used] answer]|]; [|now rewrite orb_false_r].
  rewrite bookkeeping_quiet by reflexivity. now rewrite orb_false_r.
Qed.

(** In a run that gets past the rebuttal block, the consensus synthesizer is
    called exactly when the current ranking has two entries whose score gap
    is below epsilon. *)
Lemma run_single_calls_consensus (self : MultiLLMOrchestrator.t) (env : RunEnv)
    (tid : string) (topk : Z) (epsilon : R) (enable : bool) (threshold : R)
    (cs : list SolverOutput) (rate : R) (arb : ArbiterOutput)
    (cs' : list SolverOutput) (arb' : ArbiterOutput) (round : Z) (rate' : R) :
  outcome (MultiLLMOrchestrator.first_rounds env tid) = Ok (cs, rate, arb) ->
  outcome (MultiLLMOrchestrator.rebuttal_block env tid enable threshold
             cs rate arb) = Ok (cs', arb', round, rate') ->
  invoked is_consensus_call
    (MultiLLMOrchestrator.run_single self env tid topk epsilon enable threshold)
  = match ao_ranking arb' with
    | first :: second :: _ =>
        float_lt (rk_score first - rk_score second) epsilon
    | _ => false
    end.
Proof.
  intros Hfirst Hblock. unfold MultiLLMOrchestrator.run_single.
  rewrite invoked_bind, Hfirst, first_rounds_quiet by reflexivity.
  cbn [orb]. rewrite invoked_bind, Hblock, rebuttal_block_no_consensus.
  cbn [orb]. rewrite invoked_bind, consensus_block_calls_consensus.
  destruct (outcome (MultiLLMOrchestrator.consensus_block _ _ _ _ _))
    as [[[mode used] answer]|]; [|now rewrite orb_false_r].
  rewrite bookkeeping_quiet by reflexivity. now rewrite orb_false_r.
Qed.

Lemma float_ge_true (x y : R) : float_ge x y = true <-> (x >= y)%R.
Proof. unfold float_ge. destruct (Rge_dec x y); split; easy. Qed.

Lemma float_lt_true (x y : R) : float_lt x y = true <-> (x < y)%R.
Proof. unfold float_lt. destruct (Rlt_dec x y); split; easy. Qed.

(** What a completed pair of first rounds has computed. *)
Lemma first_rounds_outcome (env : RunEnv) (tid : string)
    (cs : list SolverOutput) (rate : R) (arb : ArbiterOutput) :
  outcome (MultiLLMOrchestrator.first_rounds env tid) = Ok (cs, rate, arb) ->
  cs = SolverPool.run_parallel tid (solver_futures env)
  /\ MultiLLMOrchestrator.disagreement_rate cs = Ok rate
  /\ arbiter_rank env 0 cs = Ok arb.
Proof.
  unfold MultiLLMOrchestrator.first_rounds, mbind, M_bind, emit, lift.
  cbn [outcome trace].
  destruct (MultiLLMOrchestrator.disagreement_rate _) as [r|] eqn:Hrate;
    cbn [outcome trace]; [|discriminate].
  destruct (arbiter_rank env 0 _) as [a|] eqn:Harb; cbn [outcome trace];
    [|discriminate].
  destruct (index0 (ao_ranking a)); cbn [outcome trace]; [|discriminate].
  intros [= <- <- <-]. auto.
Qed.

(** ** Consensus failure *)

Lemma truncate_answer_string (s : string) :
  exists shown, truncate_answer (JStr s) = Ok shown.
Proof.
  unfold truncate_answer. cbn.
  destruct (100 <? Z.of_nat (String.length s)); eexists; reflexivity.
Qed.

(** With a textual final answer the tail of the run cannot raise. *)
Lemma bookkeeping_outcome (self : MultiLLMOrchestrator.t) (env : RunEnv)
    (tid : string) (cs : list SolverOutput) (arb : ArbiterOutput) (round : Z)
    (rate : R) (mode : string) (used : list string) (s : string) :
  outcome (MultiLLMOrchestrator.bookkeeping self env tid cs arb round rate
             mode used (JStr s))
  = Ok {| res_task_id := tid;
          res_arbiter_output :=
            {| d_task_id := ao_task_id arb;
               d_selected_model_id := ao_selected_model_id arb;
               d_ranking := ao_ranking arb;
               d_final_answer := JStr s;
               d_arbiter_notes := ao_arbiter_notes arb;
               d_decision_mode := mode;
               d_used_candidates := used;
               d_timestamp := ao_timestamp arb |};
          res_decision_mode := mode;
          res_used_candidates := used;
          res_final_answer := JStr s;
          res_disagreement_rate := rate |}.
Proof.
  unfold MultiLLMOrchestrator.bookkeeping.
  rewrite (bindM_ok _ _ tt) by (apply for_each_ok; reflexivity).
  cbn [outcome].
  rewrite (bindM_ok _ _ tt)
    by (apply for_each_ok; intros c; now destruct (str_in _ _)).
  cbn [outcome].
  rewrite (bindM_ok _ _ tt).
  - reflexivity.
  - apply for_each_ok. intros [i c].
    destruct (truncate_answer_string s) as [shown Hshown].
    unfold mbind, M_bind, lift, emit. cbn [outcome trace].
    now rewrite Hshown.
Qed.

(** A failed synthesis leaves the hard-select triple. *)
Lemma consensus_block_fallback (env : RunEnv) (topk : Z) (epsilon : R)
    (cs : list SolverOutput) (arb : ArbiterOutput) (e : exn) :
  outcome (MultiLLMOrchestrator.try_consensus env topk cs arb) = Raise e ->
  outcome (MultiLLMOrchestrator.consensus_block env topk epsilon cs arb)
  = Ok (MultiLLMOrchestrator.hard_select arb).
Proof.
  intros Hfail. unfold MultiLLMOrchestrator.consensus_block.
  destruct (ao_ranking arb) as [|first [|second rest]]; try reflexivity.
  destruct (float_lt _ epsilon); [|reflexivity].
  unfold try_exceptM. now rewrite Hfail.
Qed.

(** C7.  In a single run that reaches the consensus check with a ranking of
    at least two entries whose top gap is below epsilon, the Consensus
    Synthesizer is invoked; when that call raises, [run_single] does not
    raise and returns the hard-select result: decision mode [hard_select],
    used candidates [[selected_model_id]] and the arbiter's final answer,
    both in the returned dictionary and in the arbiter output it carries. *)
Theorem consensus_failure_falls_back (self : MultiLLMOrchestrator.t)
    (env : RunEnv) (tid : string) (topk : Z) (epsilon : R) (enable : bool)
    (threshold : R) (cs : list SolverOutput) (rate : R) (arb : ArbiterOutput)
    (cs' : list SolverOutput) (arb' : ArbiterOutput) (round : Z) (rate' : R)
    (first second : ArbiterRanking) (rest : list ArbiterRanking) (e : exn) :
  outcome (MultiLLMOrchestrator.first_rounds env tid) = Ok (cs, rate, arb) ->
  outcome (MultiLLMOrchestrator.rebuttal_block env tid enable threshold
             cs rate arb) = Ok (cs', arb', round, rate') ->
  ao_ranking arb' = first :: second :: rest ->
  (rk_score first - rk_score second < epsilon)%R ->
  outcome (MultiLLMOrchestrator.try_consensus env topk cs' arb') = Raise e ->
  invoked is_consensus_call
    (MultiLLMOrchestrator.run_single self env tid topk epsilon enable threshold)
  = true
  /\ exists res,
       outcome (MultiLLMOrchestrator.run_single self env tid topk epsilon
                  enable threshold) = Ok res
       /\ res_decision_mode res = "hard_select"%string
       /\ res_used_candidates res = [ao_selected_model_id arb']
       /\ res_final_answer res = JStr (ao_final_answer arb')
       /\ d_decision_mode (res_arbiter_output res) = "hard_select"%string
       /\ d_used_candidates (res_arbiter_output res)
          = [ao_selected_model_id arb']
       /\ d_final_answer (res_arbiter_output res)
          = JStr (ao_final_answer arb').
Proof.
  intros Hfirst Hblock Hrank Hgap Hfail. split.
  - rewrite (run_single_calls_consensus _ _ _ _ _ _ _ _ _ _ _ _ _ _
               Hfirst Hblock), Hrank.
    now apply float_lt_true.
  - pose proof (consensus_block_fallback env topk epsilon cs' arb' e Hfail)
      as Hcons.
    unfold MultiLLMOrchestrator.run_single.
    rewrite (bindM_ok _ _ _ Hfirst). cbn [outcome].
    rewrite (bindM_ok _ _ _ Hblock). cbn [outcome].
    rewrite (bindM_ok _ _ _ Hcons). cbn [outcome].
    unfold MultiLLMOrchestrator.hard_select.
    rewrite bookkeeping_outcome. eexists. split; [reflexivity|].
    cbn. auto 10.
Qed.

(** ** Sample runs *)

(** Both workers time out. *)
Lemma run_single_no_candidates_witness :
  SolverPool.run_parallel "task_001" (solver_futures no_worker_env) = []
  /\ MultiLLMOrchestrator.run_single science no_worker_env "task_001"
       MultiLLMOrchestrator.default_consensus_topk
       MultiLLMOrchestrator.default_epsilon
       MultiLLMOrchestrator.default_enable_rebuttal
       MultiLLMOrchestrator.default_disagreement_threshold
     = mkM [CallSolverPool] (Raise ZeroDivisionError).
Proof.
  apply (run_single_no_candidates science no_worker_env "task_001").
  repeat constructor; eexists; reflexivity.
Defined.

Lemma two_worker_candidates (s1 s2 : R) :
  SolverPool.run_parallel "task_001" (solver_futures (two_worker_env s1 s2))
  = [candidate "solver_01" "yes"; candidate "solver_02" "no"].
Proof.
  cbn [solver_futures two_worker_env SolverPool.run_parallel].
  now rewrite !call_solver_good.
Qed.

Lemma two_worker_rate :
  MultiLLMOrchestrator.disagreement_rate
    [candidate "solver_01" "yes"; candidate "solver_02" "no"] = Ok 1%R.
Proof.
  apply disagreement_rate_distinct; [discriminate|].
  cbn. apply NoDup_cons. split; [|apply NoDup_singleton].
  intros [=]%list_elem_of_singleton.
Qed.

Lemma two_worker_first_rounds (s1 s2 : R) :
  MultiLLMOrchestrator.first_rounds (two_worker_env s1 s2) "task_001"
  = mkM [CallSolverPool;
         CallArbiter [candidate "solver_01" "yes"; candidate "solver_02" "no"]]
      (Ok ([candidate "solver_01" "yes"; candidate "solver_02" "no"], 1%R,
           verdict (two_worker_ranking s1 s2) "solver_01" "yes")).
Proof.
  unfold MultiLLMOrchestrator.first_rounds.
  rewrite two_worker_candidates, two_worker_rate. reflexivity.
Qed.

(** With scores 0.9 and 0.5 and rebuttal off the run ends in a hard
    selection. *)
Lemma two_worker_run_completes :
  exists res,
    outcome (MultiLLMOrchestrator.run_single science (two_worker_env 0.9 0.5)
               "task_001" 3 0.07 false 0.55) = Ok res
    /\ res_decision_mode res = "hard_select"%string
    /\ res_final_answer res = JStr "yes".
Proof.
  unfold MultiLLMOrchestrator.run_single.
  rewrite (bindM_ok _ _ _
             (f_equal outcome (two_worker_first_rounds 0.9 0.5))).
  cbn [outcome MultiLLMOrchestrator.rebuttal_block andb].
  erewrite bindM_ok by reflexivity. cbn [outcome].
  unfold MultiLLMOrchestrator.consensus_block.
  cbn [ao_ranking verdict two_worker_ranking rk_score].
  assert (Hgap : float_lt (0.9 - 0.5) 0.07 = false).
  { unfold float_lt. destruct (Rlt_dec _ _); [lra|reflexivity]. }
  rewrite Hgap.
  erewrite bindM_ok by reflexivity. cbn [outcome].
  unfold MultiLLMOrchestrator.hard_select.
  rewrite bookkeeping_outcome. eexists. repeat split; reflexivity.
Qed.

(** Scores 0.91 and 0.85 with epsilon 0.07: the gap 0.06 triggers the
    consensus call, which times out. *)
Lemma consensus_failure_falls_back_witness :
  exists res,
    outcome (MultiLLMOrchestrator.run_single science
               (two_worker_env 0.91 0.85) "task_001" 3 0.07 false 0.55)
    = Ok res
    /\ res_decision_mode res = "hard_select"%string
    /\ res_used_candidates res = ["solver_01"%string]
    /\ res_final_answer res = JStr "yes".
Proof.
  destruct (consensus_failure_falls_back science (two_worker_env 0.91 0.85)
              "task_001" 3 0.07 false 0.55
              [candidate "solver_01" "yes"; candidate "solver_02" "no"] 1%R
              (verdict (two_worker_ranking 0.91 0.85) "solver_01" "yes")
              [candidate "solver_01" "yes"; candidate "solver_02" "no"]
              (verdict (two_worker_ranking 0.91 0.85) "solver_01" "yes")
              1 1%R
              {| rk_model_id := "solver_01"; rk_score := 0.91 |}
              {| rk_model_id := "solver_02"; rk_score := 0.85 |}
              [] (ProviderError "timeout"))
    as (_ & res & Hres & Hmode & Hused & Hanswer & _).
  - rewrite two_worker_first_rounds. reflexivity.
  - reflexivity.
  - reflexivity.
  - cbn. lra.
  - reflexivity.
  - exists res. auto.
Defined.

(** ** The early stopper *)

Lemma counter_total_cons (kv : string * Z) (c : Counter.t) :
  counter_total (kv :: c) = snd kv + counter_total c.
Proof. reflexivity. Qed.

Lemma incr_total (c : Counter.t) (x : string) :
  counter_total (Counter.incr c x) = counter_total c + 1.
Proof.
  induction c as [|[y n] c IH]; [reflexivity|].
  cbn [Counter.incr]. destruct (String.eqb y x);
    rewrite !counter_total_cons; cbn [snd]; lia.
Qed.

Lemma incr_positive (c : Counter.t) (x : string) :
  Forall (fun kv => 1 <= snd kv) c ->
  Forall (fun kv => 1 <= snd kv) (Counter.incr c x).
Proof.
  induction 1 as [|[y n] c Hn Hc IH]; cbn [Counter.incr].
  - constructor; [cbn; lia|constructor].
  - destruct (String.eqb y x); constructor; cbn [snd] in *;
      first [assumption | lia].
Qed.

Lemma incr_nonempty (c : Counter.t) (x : string) : Counter.incr c x <> [].
Proof. destruct c as [|[y n] c]; cbn; [|destruct (String.eqb y x)]; easy. Qed.

Lemma fold_incr_invariant (l : list string) (c : Counter.t) :
  Forall (fun kv => 1 <= snd kv) c ->
  Forall (fun kv => 1 <= snd kv) (fold_left Counter.incr l c)
  /\ counter_total (fold_left Counter.incr l c) = counter_total c + len l
  /\ (c <> [] \/ l <> [] -> fold_left Counter.incr l c <> []).
Proof.
  revert c. induction l as [|x l IH]; intros c Hc.
  - cbn [fold_left]. split; [assumption|].
    split; [change (len (@nil string)) with 0; lia|].
    intros [H|H]; congruence.
  - cbn [fold_left].
    destruct (IH (Counter.incr c x) (incr_positive c x Hc)) as (H1 & H2 & H3).
    split; [assumption|]. split.
    + rewrite H2, incr_total. unfold len. cbn [length]. lia.
    + intros _. apply H3. left. apply incr_nonempty.
Qed.

Lemma max_from_In (best : string * Z) (c : Counter.t) :
  In (Counter.max_from best c) (best :: c).
Proof.
  revert best. induction c as [|kv c IH]; intros best; cbn [Counter.max_from].
  - now left.
  - destruct (IH (if snd best <? snd kv then kv else best)) as [H|H].
    + rewrite <- H. destruct (snd best <? snd kv); [right; now left|now left].
    + right. now right.
Qed.

Lemma count_le_total (c : Counter.t) (kv : string * Z) :
  Forall (fun kv => 1 <= snd kv) c -> In kv c -> snd kv <= counter_total c.
Proof.
  induction 1 as [|kv' c Hn Hc IH]; intros Hin; [easy|].
  assert (0 <= counter_total c).
  { clear -Hc. induction Hc; rewrite ?counter_total_cons; [easy|lia]. }
  rewrite counter_total_cons.
  destruct Hin as [->|Hin]; [lia|]. specialize (IH Hin). lia.
Qed.

(** The dominant count of a non-empty history lies between 1 and the number
    of runs, and it is what [most_common(1)[0]] returns. *)
Lemma dominant_spec (history : list string) :
  history <> [] ->
  index0 (Counter.most_common1 (Counter.of_list history))
  = Ok (dominant history)
  /\ 1 <= snd (dominant history) <= len history.
Proof.
  intros Hne. unfold dominant, Counter.of_list.
  destruct (fold_incr_invariant history [] (Forall_nil_2 _))
    as (Hpos & Htot & Hnon).
  specialize (Hnon (or_intror Hne)).
  destruct (fold_left Counter.incr history []) as [|kv c]; [congruence|].
  split; [reflexivity|].
  pose proof (max_from_In kv c) as Hin.
  rewrite Forall_forall in Hpos. split.
  - apply Hpos. now apply list_elem_of_In.
  - change (counter_total []) with 0 in Htot.
    replace (len history) with (counter_total (kv :: c)) by lia.
    apply count_le_total; [|exact Hin]. now apply Forall_forall.
Qed.

Lemma next_history_nonempty (st : EarlyStopper.t) (answer : string) :
  next_history st answer <> [] /\ 0 < len (next_history st answer).
Proof.
  unfold next_history, len. rewrite length_app. cbn [length].
  split; [|lia]. now destruct (EarlyStopper.run_history st).
Qed.

(** [record_run] never raises, and it computes the state and the decision
    that the specification describes. *)
Lemma record_run_spec (st : EarlyStopper.t) (answer : string) :
  EarlyStopper.record_run st answer
  = Ok (next_state st answer, next_decision st answer).
Proof.
  destruct (next_history_nonempty st answer) as [Hne Hlen].
  destruct (dominant_spec _ Hne) as [Hdom Hcount].
  unfold EarlyStopper.record_run, next_state, next_decision.
  fold (next_history st answer). cbv zeta.
  set (history := next_history st answer) in *.
  eapply bind_run; [exact Hdom|].
  destruct (dominant history) as [dom cnt]. cbn [fst snd] in *.
  run_int_truediv.
  eapply bind_run; [apply wilson_ci_interval; lia|].
  destruct (wilson_interval cnt (len history)) as [lo hi]. cbn [fst snd].
  unfold next_streak, stopping_rule.
  destruct (decide (Some dom = EarlyStopper.last_dominant st));
    cbn [fst snd];
    destruct (len history <? _); [reflexivity| |reflexivity|];
    destruct (float_ge lo _); try reflexivity;
    destruct (float_ge _ (EarlyStoppingConfig.convergence_threshold _));
    cbn [andb];
    try (destruct (_ <=? _); [reflexivity|]);
    destruct (EarlyStoppingConfig.enable_adaptive _); cbn [andb];
    try reflexivity;
    destruct (5 <=? len history); cbn [andb]; try reflexivity;
    destruct (float_ge _ 0.8); reflexivity.
Qed.

Lemma stopping_rule_below_minimum (cfg : EarlyStoppingConfig.t) (n : Z)
    (lo conv : R) (streak : Z) :
  n < EarlyStoppingConfig.min_runs cfg ->
  stopping_rule cfg n lo conv streak
  = (false, MinimumRunsNotReached n (EarlyStoppingConfig.min_runs cfg)).
Proof.
  intros Hn. unfold stopping_rule.
  destruct (Z.ltb_spec n (EarlyStoppingConfig.min_runs cfg)); [reflexivity|lia].
Qed.

(** The manager's verdict once the floor is passed and the ceiling reached. *)
Lemma should_continue_at_ceiling (m : AdaptiveRunManager.t) (answer : string)
    (planned_total : Z) :
  let n := len (next_history (AdaptiveRunManager.stopper m) answer) in
  AdaptiveRunManager.min_runs m <= n ->
  AdaptiveRunManager.max_runs m <= n ->
  exists m' d,
    AdaptiveRunManager.should_continue m answer planned_total
    = Ok (m', (false, d))
    /\ current_run d = n
    /\ should_stop d = true
    /\ reason d = MaximumRunsReached (AdaptiveRunManager.max_runs m).
Proof.
  intros n Hmin Hmax. unfold AdaptiveRunManager.should_continue.
  rewrite record_run_spec.
  eapply ex_intro, ex_intro. split.
  - eapply bind_run; [reflexivity|]. cbn [current_run next_decision].
    fold n.
    destruct (Z.ltb_spec n (AdaptiveRunManager.min_runs m)); [lia|].
    destruct (Z.leb_spec (AdaptiveRunManager.max_runs m) n); [|lia].
    reflexivity.
  - cbn. auto.
Qed.

(** Below the floor the manager continues whatever the count. *)
Lemma should_continue_below_floor (m : AdaptiveRunManager.t) (answer : string)
    (planned_total : Z) :
  let n := len (next_history (AdaptiveRunManager.stopper m) answer) in
  n < AdaptiveRunManager.min_runs m ->
  exists m' d,
    AdaptiveRunManager.should_continue m answer planned_total
    = Ok (m', (true, d))
    /\ current_run d = n
    /\ AdaptiveRunManager.stopper m'
       = next_state (AdaptiveRunManager.stopper m) answer
    /\ AdaptiveRunManager.max_runs m' = AdaptiveRunManager.max_runs m
    /\ AdaptiveRunManager.min_runs m' = AdaptiveRunManager.min_runs m.
Proof.
  intros n Hmin. unfold AdaptiveRunManager.should_continue.
  rewrite record_run_spec.
  eapply ex_intro, ex_intro. split.
  - eapply bind_run; [reflexivity|]. cbn [current_run next_decision].
    fold n.
    destruct (Z.ltb_spec n (AdaptiveRunManager.min_runs m)); [|lia].
    reflexivity.
  - cbn. auto.
Qed.

(** The history of [test_mixed_answers], run through the stopper. *)
Lemma mixed_history_convergence :
  exists st d,
    record_runs (EarlyStopper.init EarlyStoppingConfig.default)
      ["a"; "a"; "b"; "a"; "c"]%string None = Ok (st, Some d)
    /\ convergence_score d = 0.6%R
    /\ dominant_count d = 3.
Proof.
  eapply ex_intro, ex_intro. split.
  - cbn [record_runs].
    do 5 (eapply bind_run; [apply record_run_spec|cbv beta iota]).
    reflexivity.
  - set (st4 := next_state _ "a"%string).
    assert (Hh : next_history st4 "c" = ["a"; "a"; "b"; "a"; "c"]%string)
      by reflexivity.
    unfold next_decision. cbn [convergence_score dominant_count].
    rewrite Hh.
    assert (Hd : dominant ["a"; "a"; "b"; "a"; "c"]%string = ("a"%string, 3))
      by reflexivity.
    rewrite Hd. cbn [snd]. change (len _) with 5. split; [lra|reflexivity].
Qed.

(** X29.  [record_run] always returns; its verdict is that of the rules
    (a) minimum runs, (b) Wilson lower bound against the confidence
    threshold, (c) convergence with stability streak, (d) the adaptive rule
    of adaptive mode, tried in that order, so it never signals stop while
    the history is shorter than [min_runs].  The Adaptive Run Manager stops
    with reason "maximum runs reached" whenever the run count has reached
    both [min_runs] and [max_runs].  The history a, a, b, a, c has
    convergence 0.6 with dominant count 3. *)
Theorem early_stopper_rules :
  (forall st answer,
     exists st' d,
       EarlyStopper.record_run st answer = Ok (st', d)
       /\ EarlyStopper.run_history st'
          = EarlyStopper.run_history st
            ++ [EarlyStopper._get_answer_signature answer]
       /\ current_run d = len (EarlyStopper.run_history st')
       /\ (should_stop d, reason d)
          = stopping_rule (EarlyStopper.config st) (current_run d)
              (fst (confidence_interval d)) (convergence_score d)
              (EarlyStopper.stability_streak st')
       /\ (current_run d < EarlyStoppingConfig.min_runs (EarlyStopper.config st)
           -> should_stop d = false))
  /\ (forall m answer planned_total,
        let n := len (next_history (AdaptiveRunManager.stopper m) answer) in
        AdaptiveRunManager.min_runs m <= n ->
        AdaptiveRunManager.max_runs m <= n ->
        exists m' d,
          AdaptiveRunManager.should_continue m answer planned_total
          = Ok (m', (false, d))
          /\ current_run d = n
          /\ should_stop d = true
          /\ reason d = MaximumRunsReached (AdaptiveRunManager.max_runs m))
  /\ (exists st d,
        record_runs (EarlyStopper.init EarlyStoppingConfig.default)
          ["a"; "a"; "b"; "a"; "c"]%string None = Ok (st, Some d)
        /\ convergence_score d = 0.6%R
        /\ dominant_count d = 3).
Proof.
  split; [|split].
  - intros st answer.
    exists (next_state st answer), (next_decision st answer).
    split; [apply record_run_spec|]. split; [reflexivity|].
    split; [reflexivity|]. split.
    + unfold next_decision, next_state.
      cbn [should_stop reason current_run confidence_interval
           convergence_score EarlyStopper.stability_streak].
      now destruct (stopping_rule _ _ _ _ _).
    + intros Hn. unfold next_decision in *.
      cbn [should_stop current_run] in *.
      now rewrite stopping_rule_below_minimum.
  - exact should_continue_at_ceiling.
  - exact mixed_history_convergence.
Qed.


(** ** The multi-run loop *)

Lemma runs_executed_bind {A B : Type} (m : M A) (k : A -> M B) :
  runs_executed (m ≫= k)
  = (runs_executed m
     + match outcome m with
       | Ok a => runs_executed (k a)
       | Raise _ => 0
       end)%nat.
Proof.
  unfold runs_executed, mbind, M_bind.
  destruct (outcome m) as [a|e]; cbn [trace].
  - now rewrite filter_app, length_app.
  - lia.
Qed.

Lemma quiet_runs_executed {A : Type} (m : M A) :
  invoked is_solver_round m = false -> runs_executed m = 0%nat.
Proof.
  unfold invoked, runs_executed.
  induction (trace m) as [|e l IH]; [reflexivity|].
  cbn [existsb]. intros [He Hl]%orb_false_iff. rewrite filter_cons.
  destruct (decide (is_solver_round e = true)); [congruence|]. now apply IH.
Qed.

Lemma first_rounds_one_round (env : RunEnv) (tid : string) :
  runs_executed (MultiLLMOrchestrator.first_rounds env tid) = 1%nat.
Proof.
  unfold MultiLLMOrchestrator.first_rounds, runs_executed, mbind, M_bind,
    emit, lift.
  cbn [outcome trace].
  destruct (MultiLLMOrchestrator.disagreement_rate _); cbn [outcome trace];
    [|reflexivity].
  destruct (arbiter_rank env 0 _) as [arb|]; cbn [outcome trace];
    [|reflexivity].
  destruct (index0 (ao_ranking arb)); reflexivity.
Qed.

Lemma rebuttal_block_no_solver_round (env : RunEnv) (tid : string)
    (enable : bool) (threshold : R) (cs : list SolverOutput) (rate : R)
    (arb : ArbiterOutput) :
  invoked is_solver_round
    (MultiLLMOrchestrator.rebuttal_block env tid enable threshold cs rate arb)
  = false.
Proof.
  unfold MultiLLMOrchestrator.rebuttal_block.
  destruct (enable && float_ge rate threshold); [|reflexivity].
  unfold invoked, mbind, M_bind, emit, lift. cbn [outcome trace].
  destruct (MultiLLMOrchestrator.disagreement_rate _); cbn; [|reflexivity].
  destruct (arbiter_rank env 1 _); reflexivity.
Qed.

Lemma consensus_block_no_solver_round (env : RunEnv) (topk : Z) (epsilon : R)
    (cs : list SolverOutput) (arb : ArbiterOutput) :
  invoked is_solver_round
    (MultiLLMOrchestrator.consensus_block env topk epsilon cs arb) = false.
Proof.
  unfold MultiLLMOrchestrator.consensus_block.
  destruct (ao_ranking arb) as [|first [|second rest]]; try reflexivity.
  destruct (float_lt _ epsilon); [|reflexivity].
  unfold try_exceptM, MultiLLMOrchestrator.try_consensus, invoked,
    mbind, M_bind, emit, lift. cbn [outcome trace].
  destruct (ConsensusSynthesizer.synthesize _ _ _); reflexivity.
Qed.

(** One call of [run_single] is one solver round, however it ends. *)
Lemma run_single_one_round (self : MultiLLMOrchestrator.t) (env : RunEnv)
    (tid : string) (topk : Z) (epsilon : R) (enable : bool) (threshold : R) :
  runs_executed
    (MultiLLMOrchestrator.run_single self env tid topk epsilon enable threshold)
  = 1%nat.
Proof.
  unfold MultiLLMOrchestrator.run_single.
  rewrite runs_executed_bind, first_rounds_one_round.
  destruct (outcome (MultiLLMOrchestrator.first_rounds env tid))
    as [[[cs rate] arb]|]; [|reflexivity].
  rewrite runs_executed_bind,
    (quiet_runs_executed _ (rebuttal_block_no_solver_round _ _ _ _ _ _ _)).
  destruct (outcome (MultiLLMOrchestrator.rebuttal_block _ _ _ _ _ _ _))
    as [[[[cs' arb'] round] rate']|]; [|reflexivity].
  rewrite runs_executed_bind,
    (quiet_runs_executed _ (consensus_block_no_solver_round _ _ _ _ _)).
  destruct (outcome (MultiLLMOrchestrator.consensus_block _ _ _ _ _))
    as [[[mode used] answer]|]; [|reflexivity].
  rewrite (quiet_runs_executed _
             (bookkeeping_quiet is_solver_round
                ltac:(reflexivity) ltac:(reflexivity) _ _ _ _ _ _ _ _ _ _)).
  reflexivity.
Qed.

(** On at least one run the analyser returns, counting every run. *)
Lemma analyze_total (results : list RunOutcome) :
  results <> [] ->
  exists r,
    StabilityAnalyzer.analyze results = Ok r
    /\ total_runs r = Some (len results).
Proof.
  intros Hne.
  assert (Hmodes : map ro_decision_mode results <> [])
    by (destruct results; [congruence|discriminate]).
  destruct (dominant_spec _ Hmodes) as [Hdom [Hlo Hhi]].
  assert (Hlen : len (map ro_decision_mode results) = len results)
    by (unfold len; now rewrite length_map).
  rewrite Hlen in Hhi.
  unfold StabilityAnalyzer.analyze.
  destruct results as [|o results']; [congruence|].
  set (results := o :: results') in *.
  pose proof (calculate_interval
                (snd (dominant (map ro_decision_mode results)))
                (len results) default_confidence ltac:(lia) ltac:(lia))
    as Hci.
  destruct (wilson_interval _ _) as [lo hi].
  eexists. split.
  - do 2 (eapply bind_run; [exact Hdom|cbv beta zeta]).
    run_int_truediv.
    eapply bind_run; [exact Hci|]. reflexivity.
  - reflexivity.
Qed.

Lemma index_last_snoc {A : Type} (l : list A) (x : A) :
  index_last (l ++ [x]) = Ok x.
Proof. unfold index_last. now rewrite last_snoc. Qed.

Section Loop.

Variable self : MultiLLMOrchestrator.t.
Variable envs : nat -> RunEnv.
Variable tid : string.
Variable topk : Z.
Variable epsilon : R.
Variable enable : bool.

(** When none of the next [n] runs raises, the loop executes all of them
    and appends one outcome per run. *)
Lemma run_loop_all (n i : nat) (acc : list RunOutcome) :
  (forall j, (j < n)%nat ->
     exists res,
       outcome (MultiLLMOrchestrator.run_single self (envs (i + j)) tid topk
                  epsilon enable
                  MultiLLMOrchestrator.default_disagreement_threshold)
       = Ok res) ->
  runs_executed
    (MultiLLMOrchestrator.run_loop self envs tid topk epsilon enable i n acc)
  = n
  /\ exists results,
       outcome
         (MultiLLMOrchestrator.run_loop self envs tid topk epsilon enable
            i n acc) = Ok results
       /\ length results = (length acc + n)%nat.
Proof.
  revert i acc. induction n as [|n IH]; intros i acc Hok.
  - cbn. split; [reflexivity|]. exists acc. split; [reflexivity|lia].
  - cbn [MultiLLMOrchestrator.run_loop].
    destruct (Hok 0%nat ltac:(lia)) as [res Hres].
    rewrite Nat.add_0_r in Hres.
    destruct (IH (S i) (acc ++
                [{| ro_decision_mode := res_decision_mode res;
                    ro_used_candidates := res_used_candidates res;
                    ro_final_answer := res_final_answer res |}]))
      as [Hruns (results & Hresults & Hlength)].
    { intros j Hj. replace (S i + j)%nat with (i + S j)%nat by lia.
      apply Hok. lia. }
    split.
    + rewrite runs_executed_bind, run_single_one_round, Hres, Hruns.
      reflexivity.
    + exists results. rewrite (bindM_ok _ _ _ Hres). cbn [outcome].
      split; [exact Hresults|].
      rewrite Hlength, length_app. cbn [length]. lia.
Qed.

End Loop.

Lemma nonempty_snoc {A : Type} (l : list A) :
  l <> [] -> exists l' x, l = l' ++ [x].
Proof.
  destruct l as [|y l] using rev_ind; [congruence|]. intros _. now exists l, y.
Qed.

Section MultiRun.

Variable self : MultiLLMOrchestrator.t.
Variable envs : nat -> RunEnv.
Variable tid : string.
Variables repeats topk : Z.
Variable epsilon : R.
Variable enable : bool.

Hypothesis repeats_positive : 0 < repeats.
Hypothesis runs_return :
  forall i, (i < Z.to_nat repeats)%nat ->
    exists res,
      outcome (MultiLLMOrchestrator.run_single self (envs i) tid topk epsilon
                 enable MultiLLMOrchestrator.default_disagreement_threshold)
      = Ok res.

(** What the loop, the analyser and [results_per_run[-1]] produce. *)
Lemma run_multi_stages :
  exists results r x,
    runs_executed
      (MultiLLMOrchestrator.run_loop self envs tid topk epsilon enable
         0 (Z.to_nat repeats) []) = Z.to_nat repeats
    /\ outcome
         (MultiLLMOrchestrator.run_loop self envs tid topk epsilon enable
            0 (Z.to_nat repeats) []) = Ok results
    /\ StabilityAnalyzer.analyze results = Ok r
    /\ total_runs r = Some repeats
    /\ index_last results = Ok x.
Proof.
  destruct (run_loop_all self envs tid topk epsilon enable
              (Z.to_nat repeats) 0 [] runs_return)
    as [Hruns (results & Hresults & Hlength)].
  assert (Hne : results <> []).
  { intros ->. cbn in Hlength. lia. }
  destruct (analyze_total results Hne) as (r & Hr & Htotal).
  destruct (nonempty_snoc results Hne) as (l' & x & Hsnoc).
  exists results, r, x. repeat split; try assumption.
  - rewrite Htotal. f_equal. unfold len. rewrite Hlength. cbn [length]. lia.
  - rewrite Hsnoc. apply index_last_snoc.
Qed.

Lemma run_multi_runs_executed :
  runs_executed
    (MultiLLMOrchestrator.run_multi self envs tid repeats topk epsilon enable)
  = Z.to_nat repeats.
Proof.
  destruct run_multi_stages as (results & r & x & Hruns & Hres & Hr & _ & Hx).
  unfold MultiLLMOrchestrator.run_multi.
  rewrite runs_executed_bind, Hruns, Hres.
  unfold runs_executed, mbind, M_bind, lift, emit. cbn [outcome trace].
  rewrite Hr. cbn [outcome trace]. rewrite Hx.
  match goal with
  | |- (_ + ?k)%nat = _ => replace k with 0%nat by reflexivity
  end.
  lia.
Qed.

Lemma run_multi_returns :
  exists final_data,
    outcome (MultiLLMOrchestrator.run_multi self envs tid repeats topk
               epsilon enable) = Ok final_data
    /\ total_runs (fd_stability final_data) = Some repeats.
Proof.
  destruct run_multi_stages as (results & r & x & _ & Hres & Hr & Htot & Hx).
  unfold MultiLLMOrchestrator.run_multi.
  rewrite (bindM_ok _ _ _ Hres). cbn [outcome].
  unfold mbind, M_bind, lift, emit. cbn [outcome trace].
  rewrite Hr. cbn [outcome trace]. rewrite Hx. cbn [outcome trace].
  eexists. split; [reflexivity|]. exact Htot.
Qed.

End MultiRun.

(** C1, as the code has it.  For every problem and every positive repeat
    count, when no single run raises, [run_multi] executes exactly the
    requested number of runs, whatever their final answers are (the Early
    Stopper is not consulted), and computes the Stability Result over all of
    them. *)
Theorem run_multi_runs_every_repeat (self : MultiLLMOrchestrator.t)
    (envs : nat -> RunEnv) (tid : string) (repeats topk : Z) (epsilon : R)
    (enable : bool) :
  0 < repeats ->
  (forall i, (i < Z.to_nat repeats)%nat ->
     exists res,
       outcome (MultiLLMOrchestrator.run_single self (envs i) tid topk epsilon
                  enable MultiLLMOrchestrator.default_disagreement_threshold)
       = Ok res) ->
  runs_executed
    (MultiLLMOrchestrator.run_multi self envs tid repeats topk epsilon enable)
  = Z.to_nat repeats
  /\ exists final_data,
       outcome (MultiLLMOrchestrator.run_multi self envs tid repeats topk
                  epsilon enable) = Ok final_data
       /\ total_runs (fd_stability final_data) = Some repeats.
Proof.
  intros Hpos Hok. split.
  - now apply run_multi_runs_executed.
  - now apply run_multi_returns.
Qed.

(** Five runs of the two-worker environment, rebuttal off. *)
Lemma run_multi_runs_every_repeat_witness :
  runs_executed
    (MultiLLMOrchestrator.run_multi science (fun _ => two_worker_env 0.9 0.5)
       "task_001" 5 3 0.07 false) = 5%nat.
Proof.
  apply (run_multi_runs_every_repeat science (fun _ => two_worker_env 0.9 0.5)
           "task_001" 5 3 0.07 false); [lia|].
  intros i _. destruct two_worker_run_completes as (res & Hres & _).
  exists res. exact Hres.
Defined.

(** ** What the stopper would have said *)

Section StopperVerdict.

Local Open Scope R_scope.

Lemma wilson_lower_unanimous (n : Z) :
  (0 < n)%Z ->
  fst (wilson_interval n n) = Rmax 0 (IZR n / (IZR n + 1.96 * 1.96)).
Proof.
  intros Hn. assert (Hr : 0 < IZR n) by (now apply IZR_lt in Hn).
  rewrite wilson_interval_unclamped by lia. cbn [fst].
  replace (IZR n / IZR n) with 1 by (field; lra).
  now rewrite wilson_lower_all_successes by lra.
Qed.

Lemma wilson_lower_three : fst (wilson_interval 3 3) < 0.85.
Proof.
  rewrite wilson_lower_unanimous by lia.
  apply Rmax_lub_lt; [lra|].
  apply (Rmult_lt_reg_r (3 + 1.96 * 1.96)); [lra|].
  unfold Rdiv. rewrite Rmult_assoc, Rinv_l by lra. lra.
Qed.

End StopperVerdict.

(** Between floor and ceiling the manager follows the stopper. *)
Lemma should_continue_early_stop (m : AdaptiveRunManager.t) (answer : string)
    (planned_total : Z) :
  let n := len (next_history (AdaptiveRunManager.stopper m) answer) in
  AdaptiveRunManager.min_runs m <= n < AdaptiveRunManager.max_runs m ->
  should_stop (next_decision (AdaptiveRunManager.stopper m) answer) = true ->
  exists m' d,
    AdaptiveRunManager.should_continue m answer planned_total
    = Ok (m', (false, d))
    /\ current_run d = n
    /\ saved_runs d = planned_total - n.
Proof.
  intros n Hn Hstop. unfold AdaptiveRunManager.should_continue.
  rewrite record_run_spec.
  eapply ex_intro, ex_intro. split.
  - eapply bind_run; [reflexivity|].
    cbn [current_run should_stop]. rewrite Hstop.
    cbn [current_run next_decision]. fold n.
    destruct (Z.ltb_spec n (AdaptiveRunManager.min_runs m)); [lia|].
    destruct (Z.leb_spec (AdaptiveRunManager.max_runs m) n); [lia|].
    reflexivity.
  - cbn. auto.
Qed.

(** Three identical answers: the default manager continues twice and then
    reports an early stop, saving two of five planned runs. *)
Lemma manager_stops_after_three :
  exists m1 d1 m2 d2 m3 d3,
    AdaptiveRunManager.should_continue
      (AdaptiveRunManager.start_problem AdaptiveRunManager.default) "yes" 5
    = Ok (m1, (true, d1))
    /\ AdaptiveRunManager.should_continue m1 "yes" 5 = Ok (m2, (true, d2))
    /\ AdaptiveRunManager.should_continue m2 "yes" 5 = Ok (m3, (false, d3))
    /\ current_run d3 = 3
    /\ saved_runs d3 = 2.
Proof.
  destruct (should_continue_below_floor
              (AdaptiveRunManager.start_problem AdaptiveRunManager.default)
              "yes" 5)
    as (m1 & d1 & H1 & _ & Hst1 & Hmax1 & Hmin1); [vm_compute; reflexivity|].
  assert (Hn1 : len (next_history (AdaptiveRunManager.stopper m1) "yes") = 2)
    by (rewrite Hst1; reflexivity).
  destruct (should_continue_below_floor m1 "yes" 5)
    as (m2 & d2 & H2 & _ & Hst2 & Hmax2 & Hmin2);
    [rewrite Hn1, Hmin1; vm_compute; reflexivity|].
  assert (Hn2 : len (next_history (AdaptiveRunManager.stopper m2) "yes") = 3)
    by (rewrite Hst2, Hst1; reflexivity).
  destruct (should_continue_early_stop m2 "yes" 5)
    as (m3 & d3 & H3 & Hcur & Hsaved).
  - rewrite Hn2, Hmin2, Hmax2, Hmin1, Hmax1. vm_compute.
    split; [discriminate|reflexivity].
  - rewrite Hst2, Hst1. unfold next_decision. cbn [should_stop].
    set (st2 := next_state _ "yes"%string).
    assert (Hh : next_history st2 "yes" = ["yes"; "yes"; "yes"]%string)
      by reflexivity.
    rewrite Hh.
    assert (Hd : dominant ["yes"; "yes"; "yes"]%string = ("yes"%string, 3))
      by reflexivity.
    rewrite Hd. cbn [fst snd]. change (len _) with 3.
    assert (Hs : fst (next_streak st2 "yes") = 3) by reflexivity.
    rewrite Hs. unfold stopping_rule.
    change (EarlyStopper.config st2)
      with (EarlyStoppingConfig.mk 3 0.85 0.8 2 true).
    cbn [EarlyStoppingConfig.min_runs EarlyStoppingConfig.confidence_threshold
         EarlyStoppingConfig.convergence_threshold
         EarlyStoppingConfig.stability_window].
    change (3 <? 3) with false. cbv iota.
    pose proof wilson_lower_three as Hlow.
    unfold float_ge.
    destruct (Rge_dec (fst (wilson_interval 3 3)) 0.85); [lra|].
    destruct (Rge_dec (3 / 3) 0.8); [reflexivity|lra].
  - exists m1, d1, m2, d2, m3, d3. rewrite Hcur, Hsaved, Hn2.
    repeat split; first [assumption | reflexivity].
Qed.

(** C1 fails on five runs that all answer ["yes"]: the Adaptive Run Manager
    fed with these answers signals stop at the third run, and [run_multi]
    still executes all five. *)
Lemma run_multi_ignores_stopper :
  (forall i : nat,
     exists res,
       outcome (MultiLLMOrchestrator.run_single science
                  ((fun _ => two_worker_env 0.9 0.5) i) "task_001" 3 0.07
                  false MultiLLMOrchestrator.default_disagreement_threshold)
       = Ok res
       /\ res_final_answer res = JStr "yes")
  /\ (exists m1 d1 m2 d2 m3 d3,
        AdaptiveRunManager.should_continue
          (AdaptiveRunManager.start_problem AdaptiveRunManager.default) "yes" 5
        = Ok (m1, (true, d1))
        /\ AdaptiveRunManager.should_continue m1 "yes" 5 = Ok (m2, (true, d2))
        /\ AdaptiveRunManager.should_continue m2 "yes" 5 = Ok (m3, (false, d3))
        /\ current_run d3 = 3)
  /\ runs_executed
       (MultiLLMOrchestrator.run_multi science
          (fun _ => two_worker_env 0.9 0.5) "task_001" 5 3 0.07 false)
     = 5%nat.
Proof.
  split; [|split].
  - intros i. destruct two_worker_run_completes as (res & Hres & _ & Hans).
    exists res. split; assumption.
  - destruct manager_stops_after_three
      as (m1 & d1 & m2 & d2 & m3 & d3 & H1 & H2 & H3 & Hcur & _).
    exists m1, d1, m2, d2, m3, d3. auto.
  - apply (run_multi_runs_executed science (fun _ => two_worker_env 0.9 0.5)
             "task_001" 5 3 0.07 false); [lia|].
    intros i _. destruct two_worker_run_completes as (res & Hres & _).
    exists res. exact Hres.
Qed.

(** * Further properties of the code *)

(** ** Wilson functions outside their domain *)

Section WilsonDomain.

Local Open Scope R_scope.




End WilsonDomain.



(** ** Rounding keeps order *)

Section RoundingOrder.

Local Open Scope R_scope.

Lemma round_half_even_mono (x y : R) :
  x <= y -> (round_half_even x <= round_half_even y)%Z.
Proof.
  intros Hxy.
  pose proof (round_half_even_near x) as [Hx1 Hx2].
  pose proof (round_half_even_near y) as [Hy1 Hy2].
  destruct (Z_le_gt_dec (round_half_even x) (round_half_even y)) as [H|H];
    [exact H|exfalso].
  assert (Hstep : (round_half_even x <= round_half_even y + 1)%Z).
  { apply le_IZR. rewrite plus_IZR. lra. }
  assert (Hm : round_half_even x = (round_half_even y + 1)%Z) by lia.
  rewrite Hm, plus_IZR in Hx2.
  assert (Heq : x = y) by lra.
  subst y. lia.
Qed.

Lemma round3_mono (x y : R) : x <= y -> round3 x <= round3 y.
Proof.
  intros Hxy. unfold round3.
  apply Rmult_le_compat_r; [lra|].
  apply IZR_le, round_half_even_mono. lra.
Qed.

Lemma round3_zero : round3 0 = 0.
Proof.
  unfold round3. rewrite Rmult_0_l, round_half_even_int. lra.
Qed.

Lemma round3_unit (x : R) : 0 <= x <= 1 -> 0 <= round3 x <= 1.
Proof.
  intros [H0 H1]. split.
  - rewrite <- round3_zero. now apply round3_mono.
  - rewrite <- round3_one. now apply round3_mono.
Qed.

End RoundingOrder.

(** ** What a counter holds *)

Lemma counter_get_incr (c : Counter.t) (x y : string) :
  counter_get (Counter.incr c x) y
  = counter_get c y + (if String.eqb x y then 1 else 0).
Proof.
  induction c as [|[k n] c IH]; cbn [Counter.incr counter_get].
  - destruct (String.eqb x y); lia.
  - destruct (String.eqb_spec k x) as [->|Hkx]; cbn [counter_get].
    + destruct (String.eqb x y); lia.
    + destruct (String.eqb_spec k y) as [->|Hky].
      * destruct (String.eqb_spec x y) as [->|_]; [congruence|lia].
      * exact IH.
Qed.

Lemma counter_get_fold (l : list string) (c : Counter.t) (y : string) :
  counter_get (fold_left Counter.incr l c) y = counter_get c y + occurrences l y.
Proof.
  revert c. induction l as [|x l IH]; intros c.
  - unfold occurrences. cbn. lia.
  - cbn [fold_left]. rewrite IH, counter_get_incr. unfold occurrences.
    cbn [count_occ].
    destruct (String.eqb_spec x y) as [->|Hxy];
      destruct (string_dec _ _) as [E|E]; try congruence; lia.
Qed.

(** A counter built from a list holds, for every label, its number of
    occurrences. *)
Lemma counter_get_of_list (l : list string) (y : string) :
  counter_get (Counter.of_list l) y = occurrences l y.
Proof. unfold Counter.of_list. now rewrite counter_get_fold. Qed.

Lemma incr_keys_nodup (c : Counter.t) (x : string) :
  NoDup (map fst c) -> NoDup (map fst (Counter.incr c x)).
Proof.
  induction c as [|[k n] c IH]; cbn [Counter.incr map fst]; intros Hnd.
  - apply NoDup_singleton.
  - apply NoDup_cons in Hnd as [Hk Hc].
    destruct (String.eqb_spec k x) as [->|Hkx]; cbn [map fst].
    + now apply NoDup_cons.
    + apply NoDup_cons. split; [|now apply IH].
      intros Hin. apply Hk. clear -Hin Hkx.
      induction c as [|[k' n'] c IH]; cbn [Counter.incr map fst] in *.
      * apply list_elem_of_singleton in Hin. congruence.
      * destruct (String.eqb k' x); cbn [map fst] in *;
          apply elem_of_cons in Hin as [->|Hin];
          first [now left | right; auto].
Qed.

Lemma of_list_keys_nodup (l : list string) :
  NoDup (map fst (Counter.of_list l)).
Proof.
  unfold Counter.of_list.
  assert (H : forall c, NoDup (map fst c) ->
                        NoDup (map fst (fold_left Counter.incr l c))).
  { induction l as [|x l IH]; intros c Hc; [exact Hc|].
    cbn [fold_left]. apply IH. now apply incr_keys_nodup. }
  apply H. constructor.
Qed.

Lemma counter_get_entry (c : Counter.t) (k : string) (n : Z) :
  NoDup (map fst c) -> In (k, n) c -> counter_get c k = n.
Proof.
  induction c as [|[k' n'] c IH]; cbn [map fst counter_get]; intros Hnd Hin.
  - destruct Hin.
  - apply NoDup_cons in Hnd as [Hk Hc].
    destruct Hin as [[= -> ->]|Hin]; [now rewrite String.eqb_refl|].
    destruct (String.eqb_spec k' k) as [->|_]; [|now apply IH].
    exfalso. apply Hk. apply list_elem_of_In, in_map_iff. now exists (k, n).
Qed.

Lemma max_from_bounds (best : string * Z) (c : Counter.t) :
  snd best <= snd (Counter.max_from best c)
  /\ forall kv, In kv c -> snd kv <= snd (Counter.max_from best c).
Proof.
  revert best. induction c as [|kv' c IH]; intros best;
    cbn [Counter.max_from].
  - split; [lia|]. intros kv [].
  - destruct (IH (if snd best <? snd kv' then kv' else best)) as [Hb Hc].
    destruct (Z.ltb_spec (snd best) (snd kv')) as [Hlt|Hge].
    + split; [lia|]. intros kv [->|Hin]; [exact Hb|now apply Hc].
    + split; [exact Hb|]. intros kv [->|Hin]; [lia|now apply Hc].
Qed.

Lemma max_from_maximal (best : string * Z) (c : Counter.t) (kv : string * Z) :
  In kv (best :: c) -> snd kv <= snd (Counter.max_from best c).
Proof.
  destruct (max_from_bounds best c) as [Hb Hc].
  intros [->|Hin]; [exact Hb|now apply Hc].
Qed.

Lemma counter_get_positive_entry (c : Counter.t) (x : string) :
  0 < counter_get c x -> In (x, counter_get c x) c.
Proof.
  induction c as [|[k n] c IH]; cbn [counter_get]; intros Hpos; [lia|].
  destruct (String.eqb_spec k x) as [->|_]; [now left|right; now apply IH].
Qed.

(** The dominant label of a non-empty list: it occurs in the list, its count
    is its number of occurrences, and no label occurs more often. *)
Lemma dominant_counts (l : list string) :
  l <> [] ->
  In (fst (dominant l)) l
  /\ snd (dominant l) = occurrences l (fst (dominant l))
  /\ forall x, occurrences l x <= snd (dominant l).
Proof.
  intros Hne. destruct (dominant_spec l Hne) as [_ [Hlo _]].
  pose proof (of_list_keys_nodup l) as Hnd.
  unfold dominant in *.
  destruct (Counter.of_list l) as [|kv c] eqn:Hc; [cbn in Hlo; lia|].
  pose proof (max_from_In kv c) as Hin.
  assert (Hget : counter_get (kv :: c) (fst (Counter.max_from kv c))
                 = snd (Counter.max_from kv c)).
  { apply counter_get_entry; [exact Hnd|].
    now destruct (Counter.max_from kv c). }
  rewrite <- Hc, counter_get_of_list in Hget.
  split; [|split].
  - unfold occurrences in Hget.
    apply (count_occ_In string_dec). lia.
  - now symmetry.
  - intros x. destruct (Z_le_gt_dec (occurrences l x) 0) as [H0|Hpos]; [lia|].
    rewrite <- counter_get_of_list in Hpos |- *.
    rewrite Hc in *.
    apply (max_from_maximal kv c (x, counter_get (kv :: c) x)).
    apply counter_get_positive_entry. lia.
Qed.

(** ** The stability analyser on any non-empty list of runs *)

Lemma analyze_eval (results : list RunOutcome) :
  results <> [] ->
  let modes := map ro_decision_mode results in
  let n := len results in
  StabilityAnalyzer.analyze results
  = Ok {| majority_rate := round3 (IZR (snd (dominant modes)) / IZR n);
          ci_lower := round3 (fst (wilson_interval (snd (dominant modes)) n));
          ci_upper := round3 (snd (wilson_interval (snd (dominant modes)) n));
          majority_mode := Some (fst (dominant modes));
          mode_distribution := Counter.of_list modes;
          total_runs := Some n |}.
Proof.
  intros Hne modes n.
  assert (Hmodes : modes <> [])
    by (unfold modes; destruct results; [congruence|discriminate]).
  destruct (dominant_spec _ Hmodes) as [Hdom [Hlo Hhi]].
  assert (Hlen : len modes = n)
    by (unfold len, modes, n, len; now rewrite length_map).
  rewrite Hlen in Hhi.
  pose proof (calculate_interval (snd (dominant modes)) n default_confidence
                ltac:(lia) ltac:(lia)) as Hci.
  unfold StabilityAnalyzer.analyze.
  destruct results as [|o results']; [congruence|].
  fold modes. cbv zeta.
  do 2 (eapply bind_run; [exact Hdom|cbv beta zeta]).
  run_call ltac:(apply int_truediv_ok; fold n; lia).
  eapply bind_run; [exact Hci|].
  destruct (wilson_interval _ _). reflexivity.
Qed.

(** X2.  For every non-empty list of runs [StabilityAnalyzer.analyze]
    returns, and in its result the bounds and the rate are ordered and lie in
    the unit interval: [0 <= ci_lower <= majority_rate <= ci_upper <= 1],
    also after the rounding to three decimals. *)
Theorem analyze_interval_ordered (results : list RunOutcome) :
  results <> [] ->
  exists r,
    StabilityAnalyzer.analyze results = Ok r
    /\ (0 <= ci_lower r)%R
    /\ (ci_lower r <= majority_rate r)%R
    /\ (majority_rate r <= ci_upper r)%R
    /\ (ci_upper r <= 1)%R.
Proof.
  intros Hne. eexists. split; [now apply analyze_eval|].
  cbn [ci_lower majority_rate ci_upper].
  set (modes := map ro_decision_mode results).
  assert (Hmodes : modes <> [])
    by (unfold modes; destruct results; [congruence|discriminate]).
  destruct (dominant_spec _ Hmodes) as [_ [Hlo Hhi]].
  assert (Hlen : len modes = len results)
    by (unfold len, modes; now rewrite length_map).
  rewrite Hlen in Hhi.
  destruct (wilson_interval_bounds (snd (dominant modes)) (len results)
              ltac:(lia) ltac:(lia)) as (Hl & Hu & Hb).
  split; [apply round3_unit, Hl|].
  split; [apply round3_mono, Hb|].
  split; [apply round3_mono, Hb|apply round3_unit, Hu].
Qed.

(** Three runs, two of them hard selections. *)
Lemma analyze_interval_ordered_witness :
  exists r,
    StabilityAnalyzer.analyze
      [hard_select_run; hard_select_run;
       {| ro_decision_mode := "consensus_top3";
          ro_used_candidates := ["model_01"%string];
          ro_final_answer := JStr "42" |}] = Ok r
    /\ (0 <= ci_lower r)%R
    /\ (ci_lower r <= majority_rate r)%R
    /\ (majority_rate r <= ci_upper r)%R
    /\ (ci_upper r <= 1)%R.
Proof.
  apply analyze_interval_ordered. discriminate.
Defined.

(** X3.  For every non-empty list of runs the majority mode that
    [StabilityAnalyzer.analyze] reports is the label of one of the runs, no
    label occurs in more runs, the reported rate is within 0.001 of its
    share of the runs (the code rounds the quotient to three places), and
    the counts of the mode distribution add up to the number of runs. *)
Theorem analyze_majority_is_most_frequent (results : list RunOutcome) :
  results <> [] ->
  exists r mode,
    StabilityAnalyzer.analyze results = Ok r
    /\ majority_mode r = Some mode
    /\ In mode (map ro_decision_mode results)
    /\ (forall label,
          occurrences (map ro_decision_mode results) label
          <= occurrences (map ro_decision_mode results) mode)
    /\ (Rabs (majority_rate r
               - IZR (occurrences (map ro_decision_mode results) mode)
                 / IZR (len results)) <= 1 / 1000)%R
    /\ counter_total (mode_distribution r) = len results
    /\ (forall label,
          counter_get (mode_distribution r) label
          = occurrences (map ro_decision_mode results) label).
Proof.
  intros Hne.
  set (modes := map ro_decision_mode results).
  assert (Hmodes : modes <> [])
    by (unfold modes; destruct results; [congruence|discriminate]).
  destruct (dominant_counts modes Hmodes) as (Hin & Hcount & Hmax).
  eexists. exists (fst (dominant modes)).
  split; [now apply analyze_eval|].
  cbn [majority_mode majority_rate mode_distribution]. fold modes.
  split; [reflexivity|]. split; [exact Hin|].
  split; [intros label; rewrite <- Hcount; apply Hmax|].
  split.
  { rewrite <- Hcount.
    pose proof (round3_near (IZR (snd (dominant modes)) / IZR (len results)))
      as [Hlo Hhi].
    apply Rabs_le. lra. }
  split.
  - unfold Counter.of_list.
    destruct (fold_incr_invariant modes [] (Forall_nil_2 _)) as (_ & Htot & _).
    rewrite Htot. change (counter_total []) with 0.
    unfold len, modes. rewrite length_map. lia.
  - intros label. apply counter_get_of_list.
Qed.

Lemma analyze_majority_is_most_frequent_witness :
  exists r mode,
    StabilityAnalyzer.analyze [hard_select_run] = Ok r
    /\ majority_mode r = Some mode
    /\ In mode (map ro_decision_mode [hard_select_run]).
Proof.
  destruct (analyze_majority_is_most_frequent [hard_select_run])
    as (r & mode & Hr & Hm & Hin & _); [discriminate|].
  exists r, mode. auto.
Defined.

(** ** Sequences of recorded runs *)

Lemma next_step_describes (st : EarlyStopper.t) (answer : string) :
  stopper_invariant st ->
  describes (next_state st answer) (next_decision st answer)
  /\ stopper_invariant (next_state st answer).
Proof.
  intros [Hlo Hhi].
  assert (Hlen : len (next_history st answer)
                 = len (EarlyStopper.run_history st) + 1).
  { unfold next_history, len. rewrite length_app. cbn [length]. lia. }
  unfold describes, stopper_invariant, next_state, next_decision.
  cbn [EarlyStopper.run_history EarlyStopper.stability_streak
       EarlyStopper.last_dominant current_run dominant_answer dominant_count
       convergence_score confidence_interval].
  rewrite Hlen. unfold next_streak.
  destruct (decide (Some (fst (dominant (next_history st answer)))
                    = EarlyStopper.last_dominant st)) as [E|E];
    cbn [fst snd]; repeat split; try reflexivity; try lia.
  now symmetry.
Qed.

Lemma record_runs_from (st : EarlyStopper.t) (answers : list string)
    (dec : option StoppingDecision) :
  stopper_invariant st ->
  exists st' dec',
    record_runs st answers dec = Ok (st', dec')
    /\ stopper_invariant st'
    /\ EarlyStopper.config st' = EarlyStopper.config st
    /\ EarlyStopper.run_history st'
       = EarlyStopper.run_history st
         ++ map EarlyStopper._get_answer_signature answers
    /\ match answers with
       | [] => dec' = dec
       | _ => exists d, dec' = Some d /\ describes st' d
       end.
Proof.
  revert st dec. induction answers as [|a rest IH]; intros st dec Hinv.
  - exists st, dec. cbn. rewrite app_nil_r. auto.
  - destruct (next_step_describes st a Hinv) as [Hdesc Hinv'].
    destruct (IH (next_state st a) (Some (next_decision st a)) Hinv')
      as (st' & dec' & Hrun & Hinv'' & Hcfg & Hhist & Hdec).
    exists st', dec'. split.
    { cbn [record_runs]. eapply bind_run; [apply record_run_spec|]. exact Hrun. }
    split; [exact Hinv''|]. split; [exact Hcfg|]. split.
    { rewrite Hhist. cbn [next_state EarlyStopper.run_history map].
      unfold next_history. now rewrite <- app_assoc. }
    destruct rest as [|b rest'].
    + injection Hrun as <- <-. exists (next_decision st a). auto.
    + exact Hdec.
Qed.

Lemma init_invariant (cfg : EarlyStoppingConfig.t) :
  stopper_invariant (EarlyStopper.init cfg).
Proof. unfold stopper_invariant. cbn. unfold len. cbn. lia. Qed.

(** X4.  Fed any non-empty sequence of answers, a fresh stopper never raises
    and ends in a decision that describes the whole sequence: the run count
    is the number of answers, the dominant answer is a signature that was
    recorded, its count is its number of occurrences and no signature occurs
    more often, the convergence score lies in (0, 1], the stability streak
    lies between 1 and the run count, and the history holds one signature
    per answer, in order. *)
Theorem stopper_describes_history (cfg : EarlyStoppingConfig.t)
    (answers : list string) :
  answers <> [] ->
  let history := map EarlyStopper._get_answer_signature answers in
  exists st d dom,
    record_runs (EarlyStopper.init cfg) answers None = Ok (st, Some d)
    /\ EarlyStopper.run_history st = history
    /\ current_run d = len answers
    /\ dominant_answer d = Some dom
    /\ EarlyStopper.last_dominant st = Some dom
    /\ In dom history
    /\ dominant_count d = occurrences history dom
    /\ (forall x, occurrences history x <= dominant_count d)
    /\ 1 <= dominant_count d <= current_run d
    /\ (0 < convergence_score d <= 1)%R
    /\ 1 <= EarlyStopper.stability_streak st <= current_run d.
Proof.
  intros Hne history.
  destruct (record_runs_from (EarlyStopper.init cfg) answers None
              (init_invariant cfg))
    as (st & dec & Hrun & [_ Hstreak] & _ & Hhist & Hdec).
  cbn [EarlyStopper.init EarlyStopper.run_history app] in Hhist.
  fold history in Hhist.
  destruct answers as [|a rest]; [congruence|].
  destruct Hdec as (d & -> & Hcur & Hdom & Hcnt & Hconv & _ & Hlast & Hone).
  rewrite Hhist in *.
  assert (Hh : history <> []) by (unfold history; discriminate).
  assert (Hlen : len history = len (a :: rest))
    by (unfold len, history; now rewrite length_map).
  destruct (dominant_counts history Hh) as (Hin & Hocc & Hmax).
  destruct (dominant_spec history Hh) as [_ [Hlo Hhi]].
  exists st, d, (fst (dominant history)).
  rewrite Hcur, Hcnt, Hlen in *.
  split; [exact Hrun|]. split; [exact Hhist|]. split; [reflexivity|].
  split; [exact Hdom|]. split; [now rewrite Hlast|]. split; [exact Hin|].
  split; [exact Hocc|]. split; [exact Hmax|]. split; [lia|]. split; [|lia].
  rewrite Hconv.
  assert (Hn : (0 < IZR (len (a :: rest)))%R) by (apply IZR_lt; lia).
  assert (Hc : (1 <= IZR (snd (dominant history)))%R) by (now apply IZR_le).
  assert (Hc' : (IZR (snd (dominant history)) <= IZR (len (a :: rest)))%R)
    by (now apply IZR_le).
  split.
  - apply Rdiv_lt_0_compat; lra.
  - apply (Rmult_le_reg_r (IZR (len (a :: rest)))); [lra|].
    unfold Rdiv. rewrite Rmult_assoc, Rinv_l by lra. lra.
Qed.

Lemma stopper_describes_history_witness :
  exists st d dom,
    record_runs (EarlyStopper.init EarlyStoppingConfig.default)
      ["yes"; "no"; "yes"]%string None = Ok (st, Some d)
    /\ EarlyStopper.run_history st
       = map EarlyStopper._get_answer_signature ["yes"; "no"; "yes"]%string
    /\ current_run d = len ["yes"; "no"; "yes"]%string
    /\ dominant_answer d = Some dom.
Proof.
  destruct (stopper_describes_history EarlyStoppingConfig.default
              ["yes"; "no"; "yes"]%string)
    as (st & d & dom & H1 & H2 & H3 & H4 & _); [discriminate|].
  exists st, d, dom. auto.
Defined.

(** ** Statistics of the stopper *)

Lemma counter_key_counted (c : Counter.t) (x : string) :
  Forall (fun kv => 1 <= snd kv) c ->
  (In x (map fst c) <-> 0 < counter_get c x).
Proof.
  induction 1 as [|[k n] c Hn Hc IH]; cbn [map fst counter_get].
  - split; [intros []|lia].
  - cbn [snd] in Hn. destruct (String.eqb_spec k x) as [->|Hkx].
    + split; [lia|now left].
    + rewrite <- IH. split; [intros [E|Hin]; [congruence|exact Hin]|now right].
Qed.

(** The keys of a counter are the distinct items of the list. *)
Lemma of_list_distinct (l : list string) :
  len (Counter.of_list l)
  = Z.of_nat (size (list_to_set l : gset string)).
Proof.
  pose proof (of_list_keys_nodup l) as Hnd.
  destruct (fold_incr_invariant l [] (Forall_nil_2 _)) as (Hpos & _ & _).
  fold (Counter.of_list l) in Hpos.
  assert (Hset : (list_to_set (map fst (Counter.of_list l)) : gset string)
                 = list_to_set l).
  { apply set_eq. intros x. rewrite !elem_of_list_to_set, !list_elem_of_In.
    rewrite (counter_key_counted _ x Hpos), counter_get_of_list.
    unfold occurrences. rewrite (count_occ_In string_dec). lia. }
  rewrite <- Hset, size_list_to_set by exact Hnd.
  unfold len. now rewrite length_map.
Qed.

Lemma get_stats_eval (st : EarlyStopper.t) :
  EarlyStopper.run_history st <> [] ->
  let h := EarlyStopper.run_history st in
  get_stats st
  = Ok (RunStats (len h) (IZR (snd (dominant h)) / IZR (len h))%R
          (snd (dominant h)) (len (Counter.of_list h))
          (EarlyStopper.stability_streak st)
          (wilson_interval (snd (dominant h)) (len h))).
Proof.
  intros Hne h. destruct (dominant_spec h Hne) as [Hdom [Hlo Hhi]].
  unfold get_stats. fold h. fold h in Hne. clearbody h.
  destruct h as [|x h']; [congruence|]. set (h := x :: h') in *.
  eapply bind_run; [exact Hdom|].
  destruct (dominant h) as [dom cnt]. cbn [fst snd] in *.
  run_int_truediv.
  eapply bind_run; [apply wilson_ci_interval; lia|]. reflexivity.
Qed.

(** X5.  After any recorded run, [get_stats] reports the figures of the
    decision that run returned: the same run count, convergence, dominant
    count and Wilson interval, the state's stability streak, and as
    [unique_answers] the number of distinct signatures in the history, which
    lies between 1 and the run count. *)
Theorem get_stats_agrees_with_decision (st st' : EarlyStopper.t)
    (answer : string) (d : StoppingDecision) :
  EarlyStopper.record_run st answer = Ok (st', d) ->
  exists unique,
    get_stats st'
    = Ok (RunStats (current_run d) (convergence_score d) (dominant_count d)
            unique (EarlyStopper.stability_streak st') (confidence_interval d))
    /\ unique
       = Z.of_nat (size (list_to_set (EarlyStopper.run_history st')
                         : gset string))
    /\ 1 <= unique <= current_run d.
Proof.
  rewrite record_run_spec. intros [= <- <-].
  destruct (next_history_nonempty st answer) as [Hne Hlen].
  exists (len (Counter.of_list (next_history st answer))).
  split; [|split].
  - rewrite get_stats_eval by exact Hne. reflexivity.
  - apply of_list_distinct.
  - cbn [current_run next_decision].
    destruct (fold_incr_invariant (next_history st answer) []
                (Forall_nil_2 _)) as (Hpos & Htot & Hnon).
    fold (Counter.of_list (next_history st answer)) in *.
    change (counter_total []) with 0 in Htot.
    specialize (Hnon (or_intror Hne)).
    assert (Hle : forall c : Counter.t,
              Forall (fun kv => 1 <= snd kv) c -> len c <= counter_total c).
    { induction 1 as [|kv c Hkv Hc IH]; [reflexivity|].
      rewrite counter_total_cons. unfold len in *. cbn [length]. lia. }
    specialize (Hle _ Hpos).
    destruct (Counter.of_list (next_history st answer)); [congruence|].
    unfold len in *. cbn [length] in *. lia.
Qed.

Lemma get_stats_agrees_with_decision_witness :
  exists unique,
    get_stats (next_state (EarlyStopper.init EarlyStoppingConfig.default) "yes")
    = Ok (RunStats
            (current_run
               (next_decision (EarlyStopper.init EarlyStoppingConfig.default)
                  "yes"))
            (convergence_score
               (next_decision (EarlyStopper.init EarlyStoppingConfig.default)
                  "yes"))
            (dominant_count
               (next_decision (EarlyStopper.init EarlyStoppingConfig.default)
                  "yes"))
            unique
            (EarlyStopper.stability_streak
               (next_state (EarlyStopper.init EarlyStoppingConfig.default)
                  "yes"))
            (confidence_interval
               (next_decision (EarlyStopper.init EarlyStoppingConfig.default)
                  "yes")))
    /\ 1 <= unique.
Proof.
  destruct (get_stats_agrees_with_decision
              (EarlyStopper.init EarlyStoppingConfig.default)
              (next_state (EarlyStopper.init EarlyStoppingConfig.default) "yes")
              "yes"
              (next_decision (EarlyStopper.init EarlyStoppingConfig.default)
                 "yes"))
    as (u & Hu & _ & Hlo & _).
  - apply record_run_spec.
  - exists u. auto.
Defined.

(** ** The convenience function over the shared stopper *)

Lemma check_early_stop_eval (st : EarlyStopper.t) (answer : string)
    (k total : Z) :
  let stopper := if k =? 1 then EarlyStopper.reset st else st in
  exists d,
    check_early_stop st answer k total = Ok (next_state stopper answer, d)
    /\ current_run d = len (next_history stopper answer)
    /\ total_planned_runs d = total
    /\ should_stop d = should_stop (next_decision stopper answer)
    /\ saved_runs d = (if should_stop d then total - k else 0).
Proof.
  intros stopper. unfold check_early_stop. fold stopper.
  rewrite record_run_spec. eexists. split; [reflexivity|]. cbn. auto.
Qed.

Lemma check_sequence_from (st : EarlyStopper.t) (answers : list string)
    (k total : Z) (dec : option StoppingDecision) :
  k <> 1 -> len (EarlyStopper.run_history st) = k - 1 ->
  exists st' dec',
    check_sequence st answers k total dec = Ok (st', dec')
    /\ EarlyStopper.run_history st'
       = EarlyStopper.run_history st
         ++ map EarlyStopper._get_answer_signature answers
    /\ match answers with
       | [] => dec' = dec
       | _ =>
           exists d,
             dec' = Some d
             /\ current_run d = k + len answers - 1
             /\ total_planned_runs d = total
             /\ saved_runs d
                = (if should_stop d then total - current_run d else 0)
       end.
Proof.
  revert st k dec. induction answers as [|a rest IH]; intros st k dec Hk Hlen.
  - exists st, dec. cbn. rewrite app_nil_r. auto.
  - destruct (check_early_stop_eval st a k total)
      as (d & Hd & Hcur & Htot & _ & Hsaved).
    destruct (Z.eqb_spec k 1) as [E|_]; [congruence|].
    assert (Hlen' : len (EarlyStopper.run_history (next_state st a))
                    = (k + 1) - 1).
    { cbn [next_state EarlyStopper.run_history]. unfold next_history, len in *.
      rewrite length_app. cbn [length]. lia. }
    assert (Hk' : k + 1 <> 1) by (unfold len in Hlen; lia).
    destruct (IH (next_state st a) (k + 1) (Some d) Hk' Hlen')
      as (st' & dec' & Hrun & Hhist & Hdec).
    exists st', dec'. split.
    { cbn [check_sequence]. eapply bind_run; [exact Hd|]. exact Hrun. }
    split.
    { rewrite Hhist. cbn [next_state EarlyStopper.run_history map].
      unfold next_history. now rewrite <- app_assoc. }
    destruct rest as [|b rest'].
    + injection Hrun as <- <-. exists d.
      assert (Hn : current_run d = k).
      { rewrite Hcur. unfold next_history, len in *. rewrite length_app.
        cbn [length]. lia. }
      rewrite Hn. unfold len. cbn [length].
      repeat split; try assumption; lia.
    + destruct Hdec as (d' & -> & Hc' & Ht' & Hs'). exists d'.
      repeat split; try assumption.
      rewrite Hc'. unfold len. cbn [length]. lia.
Qed.

(** X6.  Called with the run numbers 1, 2, 3, ... in order,
    [check_early_stop] forgets whatever the shared stopper held before run 1
    and never raises; the last decision counts exactly the answers of this
    sequence, carries the planned total, and its [saved_runs] is
    [total - current_run] when it signals stop and 0 otherwise. *)
Theorem check_early_stop_sequence (stale : EarlyStopper.t)
    (answers : list string) (total : Z) :
  answers <> [] ->
  exists st d,
    check_sequence stale answers 1 total None = Ok (st, Some d)
    /\ EarlyStopper.run_history st
       = map EarlyStopper._get_answer_signature answers
    /\ current_run d = len answers
    /\ total_planned_runs d = total
    /\ saved_runs d = (if should_stop d then total - current_run d else 0).
Proof.
  destruct answers as [|a rest]; [congruence|]. intros _.
  destruct (check_early_stop_eval stale a 1 total)
    as (d & Hd & Hcur & Htot & _ & Hsaved).
  cbn [Z.eqb Pos.eqb] in Hd, Hcur.
  destruct (check_sequence_from (next_state (EarlyStopper.reset stale) a)
              rest 2 total (Some d) ltac:(lia) ltac:(reflexivity))
    as (st' & dec' & Hrun & Hhist & Hdec).
  cbn [check_sequence]. 
  destruct rest as [|b rest'].
  - injection Hrun as <- <-. exists (next_state (EarlyStopper.reset stale) a), d.
    split; [eapply bind_run; [exact Hd|reflexivity]|].
    split; [reflexivity|]. split; [exact Hcur|]. split; [exact Htot|].
    rewrite Hsaved, Hcur. reflexivity.
  - destruct Hdec as (d' & -> & Hc' & Ht' & Hs'). exists st', d'.
    split; [eapply bind_run; [exact Hd|exact Hrun]|].
    split; [exact Hhist|]. split; [|auto].
    rewrite Hc'. unfold len. cbn [length]. lia.
Qed.

(** The loop of [test_saved_runs_calculation], on a stopper that still holds
    an earlier problem's answers. *)
Lemma check_early_stop_sequence_witness :
  exists st d,
    check_sequence
      (next_state (EarlyStopper.init EarlyStoppingConfig.default) "old")
      ["same"; "same"; "same"]%string 1 10 None = Ok (st, Some d)
    /\ current_run d = 3.
Proof.
  destruct (check_early_stop_sequence
              (next_state (EarlyStopper.init EarlyStoppingConfig.default) "old")
              ["same"; "same"; "same"]%string 10)
    as (st & d & H1 & _ & H3 & _); [discriminate|].
  exists st, d. auto.
Defined.

(** ** The manager's answer and its decision *)

Lemma manager_invariant_init (max_runs min_runs : Z) (target : R) :
  manager_invariant (AdaptiveRunManager.init max_runs min_runs target)
  /\ manager_invariant
       (AdaptiveRunManager.start_problem
          (AdaptiveRunManager.init max_runs min_runs target)).
Proof. split; reflexivity. Qed.

(** X7.  For a manager built by its constructor, [should_continue] never
    raises, and the flag it returns is the negation of the decision's
    [should_stop]: it answers "continue" exactly when the decision it hands
    back does not signal stop.  The decision carries the planned total, and
    its [saved_runs] is [planned_total - current_run] on an early stop
    (before the ceiling) and 0 in every other case, also at the ceiling. *)
Theorem should_continue_matches_decision (m : AdaptiveRunManager.t)
    (answer : string) (planned_total : Z) :
  manager_invariant m ->
  exists m' d,
    AdaptiveRunManager.should_continue m answer planned_total
    = Ok (m', (negb (should_stop d), d))
    /\ manager_invariant m'
    /\ AdaptiveRunManager.max_runs m' = AdaptiveRunManager.max_runs m
    /\ total_planned_runs d = planned_total
    /\ current_run d
       = len (EarlyStopper.run_history (AdaptiveRunManager.stopper m'))
    /\ saved_runs d
       = (if should_stop d && (current_run d <? AdaptiveRunManager.max_runs m)
          then planned_total - current_run d else 0).
Proof.
  intros Hinv.
  cut (exists m' b d,
    AdaptiveRunManager.should_continue m answer planned_total
    = Ok (m', (b, d))
    /\ b = negb (should_stop d)
    /\ manager_invariant m'
    /\ AdaptiveRunManager.max_runs m' = AdaptiveRunManager.max_runs m
    /\ total_planned_runs d = planned_total
    /\ current_run d
       = len (EarlyStopper.run_history (AdaptiveRunManager.stopper m'))
    /\ saved_runs d
       = (if should_stop d && (current_run d <? AdaptiveRunManager.max_runs m)
          then planned_total - current_run d else 0)).
  { intros (m' & b & d & Hrun & -> & Hrest). exists m', d. auto. }
  unfold AdaptiveRunManager.should_continue.
  rewrite record_run_spec.
  set (st := AdaptiveRunManager.stopper m) in *.
  set (n := len (next_history st answer)).
  assert (Hcur : current_run (next_decision st answer) = n) by reflexivity.
  assert (Hsaved : saved_runs (next_decision st answer) = 0) by reflexivity.
  destruct (Z.ltb_spec n (AdaptiveRunManager.min_runs m)) as [Hfloor|Hfloor].
  - assert (Hstop : should_stop (next_decision st answer) = false).
    { unfold next_decision. cbn [should_stop]. fold n.
      rewrite stopping_rule_below_minimum; [reflexivity|].
      unfold manager_invariant in Hinv. fold st in Hinv. lia. }
    eapply ex_intro, ex_intro, ex_intro. split.
    + eapply bind_run; [reflexivity|]. cbn [current_run]. rewrite Hcur.
      destruct (Z.ltb_spec n (AdaptiveRunManager.min_runs m)); [|lia].
      reflexivity.
    + cbn [should_stop current_run total_planned_runs saved_runs negb
           AdaptiveRunManager.with_stopper AdaptiveRunManager.stopper
           AdaptiveRunManager.max_runs next_state EarlyStopper.run_history].
      rewrite Hstop, Hsaved. repeat split. exact Hinv.
  - destruct (Z.leb_spec (AdaptiveRunManager.max_runs m) n) as [Hceil|Hceil].
    + eapply ex_intro, ex_intro, ex_intro. split.
      * eapply bind_run; [reflexivity|]. cbn [current_run]. rewrite Hcur.
        destruct (Z.ltb_spec n (AdaptiveRunManager.min_runs m)); [lia|].
        destruct (Z.leb_spec (AdaptiveRunManager.max_runs m) n); [|lia].
        reflexivity.
      * cbn [should_stop current_run total_planned_runs saved_runs negb
             AdaptiveRunManager.with_stopper AdaptiveRunManager.stopper
             AdaptiveRunManager.max_runs next_state EarlyStopper.run_history
             andb].
        rewrite ?Hcur, ?Hsaved.
        destruct (Z.ltb_spec n (AdaptiveRunManager.max_runs m)); [lia|].
        repeat split. exact Hinv.
    + destruct (should_stop (next_decision st answer)) eqn:Hstop.
      * eapply ex_intro, ex_intro, ex_intro. split.
        -- eapply bind_run; [reflexivity|]. cbn [current_run]. rewrite Hcur.
           destruct (Z.ltb_spec n (AdaptiveRunManager.min_runs m)); [lia|].
           destruct (Z.leb_spec (AdaptiveRunManager.max_runs m) n); [lia|].
           cbn [should_stop]. rewrite Hstop. reflexivity.
        -- cbn [should_stop current_run total_planned_runs saved_runs negb
                AdaptiveRunManager.with_stopper AdaptiveRunManager.stopper
                AdaptiveRunManager.max_runs next_state
                EarlyStopper.run_history].
           rewrite ?Hstop, ?Hcur.
           destruct (Z.ltb_spec n (AdaptiveRunManager.max_runs m)); [|lia].
           repeat split. exact Hinv.
      * eapply ex_intro, ex_intro, ex_intro. split.
        -- eapply bind_run; [reflexivity|]. cbn [current_run]. rewrite Hcur.
           destruct (Z.ltb_spec n (AdaptiveRunManager.min_runs m)); [lia|].
           destruct (Z.leb_spec (AdaptiveRunManager.max_runs m) n); [lia|].
           cbn [should_stop]. rewrite Hstop. reflexivity.
        -- cbn [should_stop current_run total_planned_runs saved_runs negb
                AdaptiveRunManager.with_stopper AdaptiveRunManager.stopper
                AdaptiveRunManager.max_runs next_state
                EarlyStopper.run_history].
           rewrite ?Hstop, ?Hsaved. repeat split. exact Hinv.
Qed.

Lemma should_continue_matches_decision_witness :
  exists m' d,
    AdaptiveRunManager.should_continue AdaptiveRunManager.default "yes" 5
    = Ok (m', (negb (should_stop d), d))
    /\ total_planned_runs d = 5.
Proof.
  destruct (should_continue_matches_decision AdaptiveRunManager.default "yes" 5)
    as (m' & d & H & _ & _ & Ht & _); [reflexivity|].
  exists m', d. auto.
Defined.

(** ** The answer signature *)

Lemma ascii_lower_idem (c : ascii) : ascii_lower (ascii_lower c) = ascii_lower c.
Proof. destruct c as [[] [] [] [] [] [] [] []]; vm_compute; reflexivity. Qed.

Lemma is_space_lower (c : ascii) : is_space (ascii_lower c) = is_space c.
Proof. destruct c as [[] [] [] [] [] [] [] []]; vm_compute; reflexivity. Qed.

Lemma str_lower_idem (s : string) : str_lower (str_lower s) = str_lower s.
Proof.
  induction s as [|c s IH]; cbn; [reflexivity|].
  now rewrite ascii_lower_idem, IH.
Qed.

Lemma str_lower_length (s : string) :
  String.length (str_lower s) = String.length s.
Proof. induction s as [|c s IH]; cbn; congruence. Qed.

Lemma str_lower_lstrip (s : string) :
  str_lower (lstrip s) = lstrip (str_lower s).
Proof.
  induction s as [|c s IH]; cbn; [reflexivity|].
  rewrite is_space_lower. destruct (is_space c); [exact IH|reflexivity].
Qed.

Lemma str_lower_rstrip (s : string) :
  str_lower (rstrip s) = rstrip (str_lower s).
Proof.
  induction s as [|c s IH]; cbn; [reflexivity|].
  rewrite <- IH, is_space_lower.
  destruct (rstrip s); cbn; [destruct (is_space c)|]; reflexivity.
Qed.

Lemma str_lower_strip (s : string) :
  str_lower (str_strip s) = str_strip (str_lower s).
Proof. unfold str_strip. now rewrite str_lower_rstrip, str_lower_lstrip. Qed.

Lemma str_prefix_length (n : nat) (s : string) :
  (String.length (str_prefix n s) <= n)%nat.
Proof.
  unfold str_prefix. revert s.
  induction n as [|n IH]; intros [|c s]; cbn; try lia.
  specialize (IH s). lia.
Qed.

Lemma str_prefix_short (n : nat) (s : string) :
  (String.length s <= n)%nat -> str_prefix n s = s.
Proof.
  unfold str_prefix. revert s.
  induction n as [|n IH]; intros [|c s]; cbn; intros H; try reflexivity;
    try lia.
  rewrite IH; [reflexivity|lia].
Qed.

Lemma str_prefix_lower (n : nat) (s : string) :
  str_prefix n (str_lower s) = str_lower (str_prefix n s).
Proof.
  unfold str_prefix. revert s.
  induction n as [|n IH]; intros [|c s]; cbn; try reflexivity.
  now rewrite IH.
Qed.

Lemma lstrip_length (s : string) :
  (String.length (lstrip s) <= String.length s)%nat.
Proof.
  induction s as [|c s IH]; cbn; [lia|].
  destruct (is_space c); cbn; lia.
Qed.

Lemma rstrip_length (s : string) :
  (String.length (rstrip s) <= String.length s)%nat.
Proof.
  induction s as [|c s IH]; cbn; [lia|].
  destruct (rstrip s); [destruct (is_space c)|]; cbn in *; lia.
Qed.

Lemma str_strip_length (s : string) :
  (String.length (str_strip s) <= String.length s)%nat.
Proof.
  unfold str_strip. pose proof (rstrip_length (lstrip s)).
  pose proof (lstrip_length s). lia.
Qed.

Lemma lstrip_starts_solid (s : string) : starts_solid (lstrip s).
Proof.
  induction s as [|c s IH]; cbn; [exact I|].
  destruct (is_space c) eqn:E; [exact IH|exact E].
Qed.

Lemma lstrip_solid (s : string) : starts_solid s -> lstrip s = s.
Proof. destruct s as [|c s]; cbn; [reflexivity|]. now intros ->. Qed.

Lemma rstrip_starts_solid (s : string) :
  starts_solid s -> starts_solid (rstrip s).
Proof.
  destruct s as [|c s]; cbn; [exact (fun H => H)|]. intros H.
  destruct (rstrip s); [rewrite H|]; exact H.
Qed.

Lemma rstrip_cons (c : ascii) (s : string) :
  rstrip (String c s)
  = match rstrip s with
    | EmptyString => if is_space c then EmptyString else String c EmptyString
    | r => String c r
    end.
Proof. reflexivity. Qed.

Lemma rstrip_idem (s : string) : rstrip (rstrip s) = rstrip s.
Proof.
  induction s as [|c s IH]; [reflexivity|].
  rewrite rstrip_cons.
  destruct (rstrip s) as [|c' r] eqn:E.
  - destruct (is_space c) eqn:Ec; cbn; [reflexivity|]. now rewrite Ec.
  - rewrite rstrip_cons, IH. reflexivity.
Qed.

Lemma str_strip_idem (s : string) : str_strip (str_strip s) = str_strip s.
Proof.
  unfold str_strip.
  rewrite (lstrip_solid (rstrip (lstrip s))).
  - apply rstrip_idem.
  - apply rstrip_starts_solid, lstrip_starts_solid.
Qed.

Lemma signature_eval (a : string) :
  EarlyStopper._get_answer_signature a
  = str_strip (str_lower (str_prefix 200 a)).
Proof. destruct a; reflexivity. Qed.

(** X8.  On text of one-byte characters the answer signature has at most
    200 characters, is a fixed point of the signature function (signing a
    signature changes nothing), and does not depend on the ASCII case of
    the answer: an answer and its lower-cased form are recorded as the same
    history entry. *)
Theorem signature_normal_form (answer : string) :
  let s := EarlyStopper._get_answer_signature answer in
  (String.length s <= 200)%nat
  /\ EarlyStopper._get_answer_signature s = s
  /\ EarlyStopper._get_answer_signature (str_lower answer) = s
  /\ starts_solid s.
Proof.
  cbn zeta. rewrite !signature_eval.
  set (p := str_prefix 200 answer).
  assert (Hlen : (String.length (str_strip (str_lower p)) <= 200)%nat).
  { pose proof (str_strip_length (str_lower p)).
    pose proof (str_lower_length p).
    pose proof (str_prefix_length 200 answer). fold p in H1. lia. }
  repeat split.
  - exact Hlen.
  - rewrite (str_prefix_short 200 _ Hlen).
    rewrite str_lower_strip, str_lower_idem. apply str_strip_idem.
  - rewrite str_prefix_lower. fold p. now rewrite str_lower_idem.
  - unfold str_strip. apply rstrip_starts_solid, lstrip_starts_solid.
Qed.

(** ** The effects of a single run, in order *)

Lemma trace_bind {A B : Type} (m : M A) (k : A -> M B) :
  trace (m ≫= k)
  = trace m ++ match outcome m with
               | Ok a => trace (k a)
               | Raise _ => []
               end.
Proof.
  unfold mbind, M_bind. destruct (outcome m); cbn [trace];
    [reflexivity|now rewrite app_nil_r].
Qed.

Lemma outcome_bind {A B : Type} (m : M A) (k : A -> M B) :
  outcome (m ≫= k)
  = match outcome m with
    | Ok a => outcome (k a)
    | Raise e => Raise e
    end.
Proof. unfold mbind, M_bind. destruct (outcome m); reflexivity. Qed.

Lemma for_each_emit {A : Type} (f : A -> Event) (l : list A) :
  for_each l (fun x => emit (f x)) = mkM (map f l) (Ok tt).
Proof.
  induction l as [|x l IH]; [reflexivity|].
  cbn [for_each]. rewrite (bindM_ok _ _ tt) by reflexivity.
  rewrite IH. reflexivity.
Qed.

Lemma for_each_penalties (used : list string) (cs : list SolverOutput) :
  for_each cs (fun c =>
    if str_in (model_id c) used then mret tt
    else emit (UpdateReliability (model_id c) 0))
  = mkM (map (fun c => UpdateReliability (model_id c) 0)
           (filter (fun c => str_in (model_id c) used = false) cs))
        (Ok tt).
Proof.
  induction cs as [|c cs IH]; [reflexivity|].
  cbn [for_each]. rewrite filter_cons.
  destruct (str_in (model_id c) used) eqn:E.
  - rewrite (bindM_ok _ _ tt) by reflexivity. rewrite IH.
    destruct (decide (true = false)); [discriminate|]. reflexivity.
  - rewrite (bindM_ok _ _ tt) by reflexivity. rewrite IH.
    destruct (decide (false = false)); [|congruence]. reflexivity.
Qed.

Lemma for_each_imap {A B : Type} (h : nat -> A -> B) (body : B -> M unit)
    (f : nat -> A -> Event) (l : list A) :
  (forall i x, body (h i x) = emit (f i x)) ->
  for_each (imap h l) body = mkM (imap f l) (Ok tt).
Proof.
  revert h f. induction l as [|x l IH]; intros h f Hbody; [reflexivity|].
  cbn [imap for_each]. rewrite Hbody.
  rewrite (bindM_ok _ _ tt) by reflexivity.
  rewrite (IH (h ∘ S) (f ∘ S)) by (intros i y; apply Hbody).
  reflexivity.
Qed.

Lemma for_each_imap_raise {A B : Type} (h : nat -> A -> B)
    (body : B -> M unit) (e : exn) (l : list A) :
  (forall i x, body (h i x) = mkM [] (Raise e)) ->
  l <> [] ->
  for_each (imap h l) body = mkM [] (Raise e).
Proof.
  intros Hbody Hne. destruct l as [|x l]; [congruence|].
  cbn [imap for_each]. rewrite Hbody. reflexivity.
Qed.

Lemma Forall_imap {A B : Type} (P : B -> Prop) (f : nat -> A -> B)
    (l : list A) :
  (forall i x, P (f i x)) -> Forall P (imap f l).
Proof.
  revert f. induction l as [|x l IH]; intros f Hf; [constructor|].
  cbn [imap]. constructor; [apply Hf|]. apply IH. intros i y. apply Hf.
Qed.

Lemma map_imap_const {A B C : Type} (g : B -> C) (g' : A -> C)
    (f : nat -> A -> B) (l : list A) :
  (forall i x, g (f i x) = g' x) -> map g (imap f l) = map g' l.
Proof.
  revert f. induction l as [|x l IH]; intros f Hf; [reflexivity|].
  cbn. rewrite Hf. f_equal. apply IH. intros i y. apply Hf.
Qed.

Lemma imap_records {A : Type} (rec : nat -> A -> RunRecord) (l : list A) :
  imap (fun i x => WriteRunRecord (rec i x)) l
  = map WriteRunRecord (imap rec l).
Proof.
  revert rec. induction l as [|x l IH]; intros rec; [reflexivity|].
  cbn [imap map]. f_equal. apply (IH (rec ∘ S)).
Qed.

(** The rewards, the penalties and the records of a run whose final answer
    can be shown. *)
Lemma bookkeeping_completes (self : MultiLLMOrchestrator.t) (env : RunEnv)
    (tid : string) (cs : list SolverOutput) (arb : ArbiterOutput) (round : Z)
    (rate : R) (mode : string) (used : list string) (answer shown : json) :
  truncate_answer answer = Ok shown ->
  exists records res,
    MultiLLMOrchestrator.bookkeeping self env tid cs arb round rate mode used
      answer
    = mkM (map (fun w => UpdateReliability w 1) used
           ++ map (fun c => UpdateReliability (model_id c) 0)
                (filter (fun c => str_in (model_id c) used = false) cs)
           ++ map WriteRunRecord records)
          (Ok res)
    /\ map rr_solver_model_id records = map model_id cs
    /\ Forall (fun r =>
         rr_decision_mode r = mode
         /\ rr_used_candidates r = join_comma used
         /\ rr_round_number r = round
         /\ rr_final_answer r = shown) records
    /\ res_decision_mode res = mode
    /\ res_used_candidates res = used
    /\ res_final_answer res = answer.
Proof.
  intros Hshown. unfold MultiLLMOrchestrator.bookkeeping.
  rewrite for_each_emit, for_each_penalties.
  erewrite (for_each_imap pair _ (fun i candidate => WriteRunRecord _)).
  2:{ intros i c. cbv beta iota. rewrite Hshown. unfold lift.
      rewrite (bindM_ok _ _ shown) by reflexivity. reflexivity. }
  unfold mbind, M_bind, mret, M_ret. cbn [outcome trace].
  rewrite imap_records, !app_nil_r.
  eexists _, _. split; [reflexivity|].
  split; [|split; [|repeat split]].
  - apply map_imap_const. reflexivity.
  - apply Forall_imap. intros i c. repeat split.
Qed.

(** When the final answer cannot be shown, the first record already fails:
    the reliabilities have been updated and no record is written. *)
Lemma bookkeeping_fails (self : MultiLLMOrchestrator.t) (env : RunEnv)
    (tid : string) (cs : list SolverOutput) (arb : ArbiterOutput) (round : Z)
    (rate : R) (mode : string) (used : list string) (answer : json)
    (e : exn) :
  truncate_answer answer = Raise e ->
  cs <> [] ->
  MultiLLMOrchestrator.bookkeeping self env tid cs arb round rate mode used
    answer
  = mkM (map (fun w => UpdateReliability w 1) used
         ++ map (fun c => UpdateReliability (model_id c) 0)
              (filter (fun c => str_in (model_id c) used = false) cs))
        (Raise e).
Proof.
  intros Hshown Hne. unfold MultiLLMOrchestrator.bookkeeping.
  rewrite for_each_emit, for_each_penalties.
  rewrite (for_each_imap_raise pair _ e); [| |exact Hne].
  2:{ intros i c. cbv beta iota. rewrite Hshown. reflexivity. }
  unfold mbind, M_bind, mret, M_ret. cbn [outcome trace].
  now rewrite !app_nil_r.
Qed.

Lemma calls_only_quiet (p : Event -> bool) (tr : list Event) :
  (forall e, is_call e = true -> p e = false) ->
  forallb is_call tr = true -> existsb p tr = false.
Proof.
  intros Hp. induction tr as [|e tr IH]; [reflexivity|].
  cbn [forallb existsb]. intros [He Htr]%andb_true_iff.
  now rewrite (Hp e He), IH.
Qed.

(** The first two rounds only call models; when they complete, the
    candidates are the pool's outputs, there is at least one, and the
    arbiter has ranked them. *)
Lemma first_rounds_calls (env : RunEnv) (tid : string) :
  forallb is_call (trace (MultiLLMOrchestrator.first_rounds env tid)) = true
  /\ forall cs rate arb,
       outcome (MultiLLMOrchestrator.first_rounds env tid) = Ok (cs, rate, arb) ->
       cs <> [] /\ ao_ranking arb <> []
       /\ In (CallArbiter cs) (trace (MultiLLMOrchestrator.first_rounds env tid)).
Proof.
  unfold MultiLLMOrchestrator.first_rounds, mbind, M_bind, emit, lift.
  cbn [outcome trace].
  destruct (MultiLLMOrchestrator.disagreement_rate _) as [r|] eqn:Hrate;
    cbn [outcome trace app]; [|split; [reflexivity|discriminate]].
  assert (Hne : SolverPool.run_parallel tid (solver_futures env) <> []).
  { intros Hnil. rewrite Hnil in Hrate. discriminate. }
  destruct (arbiter_rank env 0 _) as [a|] eqn:Harb; cbn [outcome trace app];
    [|split; [reflexivity|discriminate]].
  destruct (index0 (ao_ranking a)) eqn:Hidx; cbn [outcome trace app];
    (split; [reflexivity|]); [|discriminate].
  intros cs rate arb [= <- <- <-]. split; [exact Hne|]. split.
  - intros Hnil. rewrite Hnil in Hidx. discriminate.
  - right. left. reflexivity.
Qed.

(** How the first two rounds can fail. *)
Lemma first_rounds_failure (env : RunEnv) (tid : string) (e : exn) :
  outcome (MultiLLMOrchestrator.first_rounds env tid) = Raise e ->
  let cs1 := SolverPool.run_parallel tid (solver_futures env) in
  (cs1 = [] /\ e = ZeroDivisionError)
  \/ arbiter_rank env 0 cs1 = Raise e
  \/ (exists arb,
        arbiter_rank env 0 cs1 = Ok arb /\ ao_ranking arb = []
        /\ e = IndexError).
Proof.
  unfold MultiLLMOrchestrator.first_rounds, mbind, M_bind, emit, lift.
  cbn [outcome trace].
  destruct (MultiLLMOrchestrator.disagreement_rate _) as [r|e'] eqn:Hrate;
    cbn [outcome trace app].
  - destruct (arbiter_rank env 0 _) as [a|e'] eqn:Harb; cbn [outcome trace app].
    + destruct (ao_ranking a) as [|first rest] eqn:Hrank;
        cbn [index0 outcome trace app]; [|discriminate].
      intros [= <-]. right. right. exists a. auto.
    + intros [= <-]. right. left. reflexivity.
  - intros [= <-]. left.
    unfold MultiLLMOrchestrator.disagreement_rate, int_truediv in Hrate.
    destruct (Z.eq_dec _ 0) as [Hlen|]; [|discriminate].
    injection Hrate as <-. split; [|reflexivity].
    destruct (SolverPool.run_parallel _ _); [reflexivity|].
    unfold len in Hlen. cbn in Hlen. lia.
Qed.

Lemma rebuttal_run_nonempty (env : RebuttalOracle) (tid : string)
    (cs : list SolverOutput) :
  cs <> [] -> RebuttalRound.run env tid cs <> [].
Proof.
  intros Hne Hnil. apply (f_equal length) in Hnil.
  unfold RebuttalRound.run in Hnil. rewrite length_imap in Hnil.
  destruct cs; [congruence|discriminate].
Qed.

(** The rebuttal block only calls models; its candidates are either the
    ones it received or the rebuttal round's, ranked by a second arbiter
    call; it can fail only in that call. *)
Lemma rebuttal_block_calls (env : RunEnv) (tid : string) (enable : bool)
    (threshold : R) (cs : list SolverOutput) (rate : R) (arb : ArbiterOutput) :
  cs <> [] ->
  let block :=
    MultiLLMOrchestrator.rebuttal_block env tid enable threshold cs rate arb in
  forallb is_call (trace block) = true
  /\ (forall cs' arb' round rate',
        outcome block = Ok (cs', arb', round, rate') ->
        cs' <> []
        /\ ((cs' = cs /\ arb' = arb /\ round = 1 /\ trace block = [])
            \/ (round = 2 /\ In (CallArbiter cs') (trace block))))
  /\ (forall e,
        outcome block = Raise e ->
        invoked is_rebuttal_call block = true
        /\ arbiter_rank env 1 (RebuttalRound.run (rebuttal_env env) tid cs)
           = Raise e).
Proof.
  intros Hne. cbv zeta. unfold MultiLLMOrchestrator.rebuttal_block.
  destruct (enable && float_ge rate threshold).
  2:{ split; [reflexivity|]. split; [|intros e He; cbn in He; discriminate He].
      intros cs' arb' round rate' He. cbn in He.
      injection He as <- <- <- <-. split; [exact Hne|]. left. auto. }
  pose proof (rebuttal_run_nonempty (rebuttal_env env) tid cs Hne) as Hne2.
  unfold invoked, mbind, M_bind, emit, lift. cbn [outcome trace].
  rewrite (disagreement_rate_nonempty _ Hne2). cbn [outcome trace app].
  destruct (arbiter_rank env 1 _) as [a|e'] eqn:Harb; cbn [outcome trace app].
  - split; [reflexivity|]. split; [|discriminate].
    intros cs' arb' round rate' [= <- <- <- <-]. split; [exact Hne2|].
    right. split; [reflexivity|]. right. left. reflexivity.
  - split; [reflexivity|]. split; [discriminate|].
    intros e [= <-]. auto.
Qed.

(** The consensus block only calls models and never raises; what it
    returns is the hard selection unless the synthesizer was called. *)
Lemma consensus_block_calls (env : RunEnv) (topk : Z) (epsilon : R)
    (cs : list SolverOutput) (arb : ArbiterOutput) :
  let block := MultiLLMOrchestrator.consensus_block env topk epsilon cs arb in
  forallb is_call (trace block) = true
  /\ exists r,
       outcome block = Ok r
       /\ (r = MultiLLMOrchestrator.hard_select arb
           \/ invoked is_consensus_call block = true).
Proof.
  cbv zeta. unfold MultiLLMOrchestrator.consensus_block.
  destruct (ao_ranking arb) as [|first [|second rest]];
    try (split; [reflexivity|]; eexists; split; [reflexivity|now left]).
  destruct (float_lt _ epsilon);
    [|split; [reflexivity|]; eexists; split; [reflexivity|now left]].
  unfold try_exceptM, MultiLLMOrchestrator.try_consensus, invoked,
    mbind, M_bind, emit, lift. cbn [outcome trace].
  destruct (ConsensusSynthesizer.synthesize _ _ _); cbn [outcome trace app];
    (split; [reflexivity|]); eexists; (split; [reflexivity|]); now right.
Qed.

Lemma forallb_app_true {A : Type} (p : A -> bool) (l1 l2 : list A) :
  forallb p l1 = true -> forallb p l2 = true -> forallb p (l1 ++ l2) = true.
Proof. intros H1 H2. rewrite forallb_app, H1, H2. reflexivity. Qed.

(** The shape of any single run: model calls, then the tail. *)
Lemma run_single_shape (self : MultiLLMOrchestrator.t) (env : RunEnv)
    (tid : string) (topk : Z) (epsilon : R) (enable : bool) (threshold : R) :
  let run :=
    MultiLLMOrchestrator.run_single self env tid topk epsilon enable
      threshold in
  (exists e,
     outcome run = Raise e
     /\ forallb is_call (trace run) = true
     /\ let cs1 := SolverPool.run_parallel tid (solver_futures env) in
        ((cs1 = [] /\ e = ZeroDivisionError)
         \/ arbiter_rank env 0 cs1 = Raise e
         \/ (exists arb,
               arbiter_rank env 0 cs1 = Ok arb /\ ao_ranking arb = []
               /\ e = IndexError)
         \/ (invoked is_rebuttal_call run = true
             /\ arbiter_rank env 1
                  (RebuttalRound.run (rebuttal_env env) tid cs1) = Raise e)))
  \/ (exists calls cs arb round rate mode used answer,
        forallb is_call calls = true
        /\ cs <> []
        /\ In (CallArbiter cs) calls
        /\ ((mode, used, answer) = MultiLLMOrchestrator.hard_select arb
            \/ existsb is_consensus_call calls = true)
        /\ run
           = mkM (calls
                  ++ trace (MultiLLMOrchestrator.bookkeeping self env tid cs
                              arb round rate mode used answer))
                 (outcome (MultiLLMOrchestrator.bookkeeping self env tid cs
                             arb round rate mode used answer))).
Proof.
  cbv zeta. unfold MultiLLMOrchestrator.run_single.
  destruct (first_rounds_calls env tid) as [Hcalls1 Hfirst].
  destruct (outcome (MultiLLMOrchestrator.first_rounds env tid))
    as [[[cs1 rate1] arb1]|e] eqn:H1.
  2:{ left. exists e. rewrite (bindM_raise _ _ e H1). cbn [outcome trace].
      split; [reflexivity|]. split; [exact Hcalls1|].
      pose proof (first_rounds_failure env tid e H1) as Hf. cbv zeta in Hf.
      tauto. }
  destruct (Hfirst _ _ _ eq_refl) as (Hne1 & _ & Hin1).
  destruct (first_rounds_outcome env tid _ _ _ H1) as (Hcs1 & _ & _).
  rewrite (bindM_ok _ _ _ H1). cbv beta iota.
  destruct (rebuttal_block_calls env tid enable threshold cs1 rate1 arb1 Hne1)
    as (Hcalls2 & Hblock & Hfail).
  destruct (outcome (MultiLLMOrchestrator.rebuttal_block _ _ _ _ _ _ _))
    as [[[[cs arb] round] rate]|e] eqn:H2.
  2:{ left. exists e. rewrite (bindM_raise _ _ e H2). cbn [outcome trace].
      split; [reflexivity|]. split; [now apply forallb_app_true|].
      destruct (Hfail e eq_refl) as [Hinv Harb]. right. right. right.
      rewrite <- Hcs1. split; [|exact Harb].
      unfold invoked in *. cbn [trace]. rewrite existsb_app, Hinv.
      apply orb_true_r. }
  destruct (Hblock _ _ _ _ eq_refl) as (Hne & Hwhich).
  rewrite (bindM_ok _ _ _ H2). cbv beta iota. cbn [trace outcome].
  destruct (consensus_block_calls env topk epsilon cs arb)
    as (Hcalls3 & [[mode used] answer] & H3 & Hsel).
  rewrite (bindM_ok _ _ _ H3). cbv beta iota. cbn [trace outcome].
  right.
  exists (trace (MultiLLMOrchestrator.first_rounds env tid)
          ++ trace (MultiLLMOrchestrator.rebuttal_block env tid enable
                      threshold cs1 rate1 arb1)
          ++ trace (MultiLLMOrchestrator.consensus_block env topk epsilon
                      cs arb)),
    cs, arb, round, rate, mode, used, answer.
  split; [now repeat apply forallb_app_true|].
  split; [exact Hne|]. split; [|split].
  - rewrite !in_app_iff.
    destruct Hwhich as [(-> & _)|[_ Hin]]; [now left|right; now left].
  - destruct Hsel as [Hsel|Hsel]; [left; now rewrite Hsel|right].
    unfold invoked in Hsel. rewrite !existsb_app, Hsel, !orb_true_r.
    reflexivity.
  - rewrite <- !app_assoc. reflexivity.
Qed.

Lemma existsb_map_false {A B : Type} (p : B -> bool) (f : A -> B)
    (l : list A) :
  (forall x, p (f x) = false) -> existsb p (map f l) = false.
Proof.
  intros Hp. induction l as [|x l IH]; [reflexivity|].
  cbn [map existsb]. now rewrite Hp, IH.
Qed.

(** X9.  A completed single run has done, in this order: model calls only
    (solver pool, arbiter, rebuttal, consensus); one reliability update with
    reward 1 for each entry of the returned [used_candidates]; one update
    with reward 0 for each final candidate whose worker is not among them;
    one run record per final candidate, each carrying the returned decision
    mode, the joined used candidates and the shown final answer.  The final
    candidates are a list the arbiter was called on. *)
Theorem run_single_effects (self : MultiLLMOrchestrator.t) (env : RunEnv)
    (tid : string) (topk : Z) (epsilon : R) (enable : bool) (threshold : R)
    (res : RunResult) :
  let run :=
    MultiLLMOrchestrator.run_single self env tid topk epsilon enable
      threshold in
  outcome run = Ok res ->
  let used := res_used_candidates res in
  exists calls cs records,
    trace run
    = calls
      ++ map (fun w => UpdateReliability w 1) used
      ++ map (fun c => UpdateReliability (model_id c) 0)
           (filter (fun c => str_in (model_id c) used = false) cs)
      ++ map WriteRunRecord records
    /\ forallb is_call calls = true
    /\ In (CallArbiter cs) calls
    /\ cs <> []
    /\ map rr_solver_model_id records = map model_id cs
    /\ Forall (fun r =>
         rr_decision_mode r = res_decision_mode res
         /\ rr_used_candidates r = join_comma used
         /\ truncate_answer (res_final_answer res) = Ok (rr_final_answer r))
         records.
Proof.
  cbv zeta. intros Hok.
  destruct (run_single_shape self env tid topk epsilon enable threshold)
    as [(e & He & _)
       |(calls & cs & arb & round & rate & mode & used & answer
         & Hcalls & Hne & Hin & _ & Hrun)]; [congruence|].
  rewrite Hrun in Hok |- *. cbn [outcome trace] in *.
  destruct (truncate_answer answer) as [shown|e] eqn:Hshown.
  - destruct (bookkeeping_completes self env tid cs arb round rate mode used
                answer shown Hshown)
      as (records & res' & Hbk & Hids & Hrecords & Hmode & Hused & Hanswer).
    rewrite Hbk in Hok |- *. cbn [outcome trace] in *.
    injection Hok as ->. rewrite Hmode, Hused, Hanswer.
    exists calls, cs, records. repeat split; try assumption.
    eapply Forall_impl; [exact Hrecords|].
    intros r (H1 & H2 & _ & H4). rewrite H4. auto.
  - rewrite (bookkeeping_fails self env tid cs arb round rate mode used
               answer e Hshown Hne) in Hok.
    discriminate Hok.
Qed.

Lemma run_single_effects_witness :
  exists res calls cs records,
    trace (MultiLLMOrchestrator.run_single science (two_worker_env 0.9 0.5)
             "task_001" 3 0.07 false 0.55)
    = calls
      ++ map (fun w => UpdateReliability w 1) (res_used_candidates res)
      ++ map (fun c => UpdateReliability (model_id c) 0)
           (filter (fun c =>
              str_in (model_id c) (res_used_candidates res) = false) cs)
      ++ map WriteRunRecord records
    /\ map rr_solver_model_id records = map model_id cs.
Proof.
  destruct two_worker_run_completes as (res & Hres & _).
  destruct (run_single_effects science (two_worker_env 0.9 0.5) "task_001"
              3 0.07 false 0.55 res Hres)
    as (calls & cs & records & Htrace & _ & _ & _ & Hids & _).
  exists res, calls, cs, records. auto.
Defined.

(** X10.  A single run that raises has written no run record.  Either it
    failed among the model calls, before any reliability update (no worker
    output: [ZeroDivisionError]; the first arbiter call raised: that
    exception; the first ranking is empty: [IndexError]; the arbiter call
    after the rebuttal round raised: that exception), or it failed at the
    first run record because the consensus reply's final answer is not a
    string that can be shown, after all reliability updates were made. *)
Theorem run_single_failure (self : MultiLLMOrchestrator.t) (env : RunEnv)
    (tid : string) (topk : Z) (epsilon : R) (enable : bool) (threshold : R)
    (e : exn) :
  let run :=
    MultiLLMOrchestrator.run_single self env tid topk epsilon enable
      threshold in
  let cs1 := SolverPool.run_parallel tid (solver_futures env) in
  outcome run = Raise e ->
  invoked is_record run = false
  /\ ((invoked is_update run = false
       /\ ((cs1 = [] /\ e = ZeroDivisionError)
           \/ arbiter_rank env 0 cs1 = Raise e
           \/ (exists arb,
                 arbiter_rank env 0 cs1 = Ok arb /\ ao_ranking arb = []
                 /\ e = IndexError)
           \/ (invoked is_rebuttal_call run = true
               /\ arbiter_rank env 1
                    (RebuttalRound.run (rebuttal_env env) tid cs1)
                  = Raise e)))
      \/ (exists calls used cs answer,
            trace run
            = calls
              ++ map (fun w => UpdateReliability w 1) used
              ++ map (fun c => UpdateReliability (model_id c) 0)
                   (filter (fun c => str_in (model_id c) used = false) cs)
            /\ forallb is_call calls = true
            /\ existsb is_consensus_call calls = true
            /\ truncate_answer answer = Raise e
            /\ forall s, answer <> JStr s)).
Proof.
  cbv zeta. intros Hraise.
  destruct (run_single_shape self env tid topk epsilon enable threshold)
    as [(e' & He & Hcalls & Hcases)
       |(calls & cs & arb & round & rate & mode & used & answer
         & Hcalls & Hne & Hin & Hsel & Hrun)].
  - assert (e' = e) as -> by congruence. unfold invoked.
    split; [apply calls_only_quiet; [now intros []|exact Hcalls]|].
    left. split; [apply calls_only_quiet; [now intros []|exact Hcalls]|].
    exact Hcases.
  - rewrite Hrun in Hraise |- *. cbn [outcome trace] in *.
    destruct (truncate_answer answer) as [shown|e'] eqn:Hshown.
    { destruct (bookkeeping_completes self env tid cs arb round rate mode
                  used answer shown Hshown) as (records & res' & Hbk & _).
      rewrite Hbk in Hraise. discriminate Hraise. }
    rewrite (bookkeeping_fails self env tid cs arb round rate mode used
               answer e' Hshown Hne) in Hraise |- *.
    cbn [outcome trace] in *. injection Hraise as ->.
    assert (Hanswer : forall s, answer <> JStr s).
    { intros s ->. destruct (truncate_answer_string s) as [shown Hs].
      congruence. }
    split.
    + unfold invoked. cbn [trace]. rewrite !existsb_app.
      rewrite (calls_only_quiet is_record calls) by (now intros [] || exact Hcalls).
      now rewrite !existsb_map_false.
    + right. exists calls, used, cs, answer. repeat split; try assumption.
      destruct Hsel as [Hsel|Hsel]; [|exact Hsel].
      injection Hsel as _ _ ->. now destruct (Hanswer (ao_final_answer arb)).
Qed.

Lemma run_single_failure_witness :
  invoked is_record
    (MultiLLMOrchestrator.run_single science no_worker_env "task_001"
       3 0.07 true 0.55) = false.
Proof.
  refine (proj1 (run_single_failure science no_worker_env "task_001"
                   3 0.07 true 0.55 ZeroDivisionError _)).
  unfold MultiLLMOrchestrator.run_single.
  rewrite (first_rounds_no_candidates no_worker_env "task_001"); reflexivity.
Defined.

(** ** The multi-run loop at its edges *)

(** X11.  With a repeat count of zero or less, [run_multi] executes no run
    and calls no component; the analyser accepts the empty list, and
    [results_per_run[-1]] then raises [IndexError]: nothing is written. *)
Theorem run_multi_no_repeats (self : MultiLLMOrchestrator.t)
    (envs : nat -> RunEnv) (tid : string) (repeats topk : Z) (epsilon : R)
    (enable : bool) :
  repeats <= 0 ->
  MultiLLMOrchestrator.run_multi self envs tid repeats topk epsilon enable
  = mkM [] (Raise IndexError).
Proof.
  intros Hrep. unfold MultiLLMOrchestrator.run_multi.
  replace (Z.to_nat repeats) with 0%nat by lia. reflexivity.
Qed.

Lemma run_multi_no_repeats_witness :
  MultiLLMOrchestrator.run_multi science (fun _ => two_worker_env 0.9 0.5)
    "task_001" 0 3 0.07 true
  = mkM [] (Raise IndexError).
Proof.
  apply (run_multi_no_repeats science (fun _ => two_worker_env 0.9 0.5)
           "task_001" 0 3 0.07 true).
  lia.
Defined.

(** A single run never writes the final JSON nor saves the model memory. *)
Lemma run_single_no_final_write (self : MultiLLMOrchestrator.t) (env : RunEnv)
    (tid : string) (topk : Z) (epsilon : R) (enable : bool) (threshold : R) :
  invoked is_final_write
    (MultiLLMOrchestrator.run_single self env tid topk epsilon enable threshold)
  = false.
Proof.
  destruct (run_single_shape self env tid topk epsilon enable threshold)
    as [(e & _ & Hcalls & _)
       |(calls & cs & arb & round & rate & mode & used & answer
         & Hcalls & _ & _ & _ & Hrun)].
  - apply calls_only_quiet; [now intros []|exact Hcalls].
  - rewrite Hrun. unfold invoked. cbn [trace]. rewrite existsb_app.
    rewrite (calls_only_quiet is_final_write calls)
      by (now intros [] || exact Hcalls).
    apply (bookkeeping_quiet is_final_write); reflexivity.
Qed.

Section LoopDetail.

Variable self : MultiLLMOrchestrator.t.
Variable envs : nat -> RunEnv.
Variable tid : string.
Variable topk : Z.
Variable epsilon : R.
Variable enable : bool.

Lemma run_loop_no_final_write (n i : nat) (acc : list RunOutcome) :
  invoked is_final_write
    (MultiLLMOrchestrator.run_loop self envs tid topk epsilon enable i n acc)
  = false.
Proof.
  revert i acc. induction n as [|n IH]; intros i acc;
    [reflexivity|].
  cbn [MultiLLMOrchestrator.run_loop].
  rewrite invoked_bind, run_single_no_final_write. cbn [orb].
  destruct (outcome _); [apply IH|reflexivity].
Qed.

(** The loop stops at the first run that raises. *)
Lemma run_loop_aborts (k n i : nat) (acc : list RunOutcome) (e : exn) :
  (k < n)%nat ->
  (forall j, (j < k)%nat ->
     exists res,
       outcome (MultiLLMOrchestrator.run_single self (envs (i + j)%nat) tid
                  topk epsilon enable
                  MultiLLMOrchestrator.default_disagreement_threshold)
       = Ok res) ->
  outcome (MultiLLMOrchestrator.run_single self (envs (i + k)%nat) tid topk
             epsilon enable
             MultiLLMOrchestrator.default_disagreement_threshold)
  = Raise e ->
  outcome (MultiLLMOrchestrator.run_loop self envs tid topk epsilon enable
             i n acc) = Raise e
  /\ runs_executed
       (MultiLLMOrchestrator.run_loop self envs tid topk epsilon enable
          i n acc) = S k.
Proof.
  revert n i acc. induction k as [|k IH]; intros n i acc Hk Hok Hfail.
  - destruct n as [|n]; [lia|]. cbn [MultiLLMOrchestrator.run_loop].
    rewrite Nat.add_0_r in Hfail.
    rewrite outcome_bind, runs_executed_bind, run_single_one_round, Hfail.
    split; reflexivity.
  - destruct n as [|n]; [lia|]. cbn [MultiLLMOrchestrator.run_loop].
    destruct (Hok 0%nat ltac:(lia)) as [res Hres].
    rewrite Nat.add_0_r in Hres.
    rewrite outcome_bind, runs_executed_bind, run_single_one_round, Hres.
    edestruct (IH n (S i)) as [Hout Hruns].
    + lia.
    + intros j Hj. replace (S i + j)%nat with (i + S j)%nat by lia.
      apply Hok. lia.
    + replace (S i + k)%nat with (i + S k)%nat by lia. exact Hfail.
    + rewrite Hout, Hruns. split; reflexivity.
Qed.

(** When every run returns, the loop collects one entry per run, in order. *)
Lemma run_loop_results (ress : nat -> RunResult) (n i : nat)
    (acc : list RunOutcome) :
  (forall j, (j < n)%nat ->
     outcome (MultiLLMOrchestrator.run_single self (envs (i + j)%nat) tid
                topk epsilon enable
                MultiLLMOrchestrator.default_disagreement_threshold)
     = Ok (ress (i + j)%nat)) ->
  outcome (MultiLLMOrchestrator.run_loop self envs tid topk epsilon enable
             i n acc)
  = Ok (acc ++ map (fun j => run_outcome (ress j)) (seq i n)).
Proof.
  revert i acc. induction n as [|n IH]; intros i acc Hok.
  - cbn. now rewrite app_nil_r.
  - cbn [MultiLLMOrchestrator.run_loop seq map].
    pose proof (Hok 0%nat ltac:(lia)) as Hres. rewrite Nat.add_0_r in Hres.
    rewrite outcome_bind, Hres, IH.
    + rewrite <- app_assoc. reflexivity.
    + intros j Hj. replace (S i + j)%nat with (i + S j)%nat by lia.
      apply Hok. lia.
Qed.

End LoopDetail.

(** X12.  When a run of [run_multi] raises, after any number of runs that
    returned, [run_multi] raises the same exception at once: the remaining
    runs are not executed, no stability analysis is made, the final JSON is
    not written and the model memory is not saved. *)
Theorem run_multi_aborts (self : MultiLLMOrchestrator.t)
    (envs : nat -> RunEnv) (tid : string) (repeats topk : Z) (epsilon : R)
    (enable : bool) (k : nat) (e : exn) :
  (k < Z.to_nat repeats)%nat ->
  (forall j, (j < k)%nat ->
     exists res,
       outcome (MultiLLMOrchestrator.run_single self (envs j) tid topk epsilon
                  enable MultiLLMOrchestrator.default_disagreement_threshold)
       = Ok res) ->
  outcome (MultiLLMOrchestrator.run_single self (envs k) tid topk epsilon
             enable MultiLLMOrchestrator.default_disagreement_threshold)
  = Raise e ->
  let multi :=
    MultiLLMOrchestrator.run_multi self envs tid repeats topk epsilon enable in
  outcome multi = Raise e
  /\ runs_executed multi = S k
  /\ invoked is_final_write multi = false.
Proof.
  intros Hk Hok Hfail. cbv zeta.
  destruct (run_loop_aborts self envs tid topk epsilon enable k
              (Z.to_nat repeats) 0 [] e Hk Hok Hfail) as [Hout Hruns].
  unfold MultiLLMOrchestrator.run_multi.
  rewrite outcome_bind, runs_executed_bind, invoked_bind, Hout, Hruns.
  rewrite run_loop_no_final_write.
  repeat split. lia.
Qed.

Lemma run_multi_aborts_witness :
  outcome (MultiLLMOrchestrator.run_multi science
             (fun i => match i with
                       | 0%nat => two_worker_env 0.9 0.5
                       | _ => no_worker_env
                       end)
             "task_001" 5 3 0.07 false)
  = Raise ZeroDivisionError.
Proof.
  refine (proj1 (run_multi_aborts science _ "task_001" 5 3 0.07 false 1
                   ZeroDivisionError _ _ _)).
  - vm_compute. lia.
  - intros j Hj. assert (j = 0%nat) as -> by lia.
    destruct two_worker_run_completes as (res & Hres & _). now exists res.
  - unfold MultiLLMOrchestrator.run_single.
    rewrite (first_rounds_no_candidates no_worker_env "task_001");
      reflexivity.
Defined.

(** The tail of [run_multi] after a loop that returned. *)
Lemma run_multi_eval (self : MultiLLMOrchestrator.t) (envs : nat -> RunEnv)
    (tid : string) (repeats topk : Z) (epsilon : R) (enable : bool)
    (results : list RunOutcome) (r : StabilityResult) (x : RunOutcome) :
  outcome (MultiLLMOrchestrator.run_loop self envs tid topk epsilon enable
             0 (Z.to_nat repeats) []) = Ok results ->
  StabilityAnalyzer.analyze results = Ok r ->
  index_last results = Ok x ->
  MultiLLMOrchestrator.run_multi self envs tid repeats topk epsilon enable
  = mkM (trace (MultiLLMOrchestrator.run_loop self envs tid topk epsilon
                  enable 0 (Z.to_nat repeats) [])
         ++ [WriteFinalJson; SaveModelMemory])
        (Ok {| fd_task_id := tid;
               fd_final_answer := ro_final_answer x;
               fd_decision_mode := ro_decision_mode x;
               fd_used_candidates := ro_used_candidates x;
               fd_stability := r;
               fd_config_pool := MultiLLMOrchestrator.pool_name self;
               fd_config_domain := MultiLLMOrchestrator.domain self;
               fd_config_repeats := repeats;
               fd_config_consensus_topk := topk;
               fd_config_epsilon := epsilon;
               fd_config_rebuttal := enable |}).
Proof.
  intros Hloop Hr Hlast. unfold MultiLLMOrchestrator.run_multi.
  rewrite (bindM_ok _ _ _ Hloop). cbn [outcome trace].
  unfold mbind, M_bind, lift, emit. cbn [outcome trace].
  rewrite Hr. cbn [outcome trace]. rewrite Hlast. cbn [outcome trace app].
  reflexivity.
Qed.

(** The entries of [n] returning runs end with the last run's. *)
Lemma results_snoc (ress : nat -> RunResult) (n : nat) :
  (0 < n)%nat ->
  let results := map (fun i => run_outcome (ress i)) (seq 0 n) in
  results <> []
  /\ index_last results = Ok (run_outcome (ress (n - 1)%nat)).
Proof.
  intros Hn. cbv zeta.
  assert (Hsnoc : map (fun i => run_outcome (ress i)) (seq 0 n)
                  = map (fun i => run_outcome (ress i)) (seq 0 (n - 1))
                    ++ [run_outcome (ress (n - 1)%nat)]).
  { replace n with (S (n - 1)) at 1 by lia. rewrite seq_S, map_app.
    reflexivity. }
  rewrite Hsnoc. split; [|apply index_last_snoc].
  intros H. now apply app_eq_nil in H as [_ H].
Qed.

(** X13.  When every run returns, the final data of [run_multi] carries the
    final answer, the decision mode and the used candidates of the LAST
    run, whatever the majority is, together with the stability result of
    all the runs' entries; the final JSON is written and the model memory
    saved once, as the last two effects. *)
Theorem run_multi_final_data (self : MultiLLMOrchestrator.t)
    (envs : nat -> RunEnv) (tid : string) (repeats topk : Z) (epsilon : R)
    (enable : bool) (ress : nat -> RunResult) :
  0 < repeats ->
  (forall i, (i < Z.to_nat repeats)%nat ->
     outcome (MultiLLMOrchestrator.run_single self (envs i) tid topk epsilon
                enable MultiLLMOrchestrator.default_disagreement_threshold)
     = Ok (ress i)) ->
  let results :=
    map (fun i => run_outcome (ress i)) (seq 0 (Z.to_nat repeats)) in
  let final := ress (Z.to_nat repeats - 1)%nat in
  exists final_data runs,
    MultiLLMOrchestrator.run_multi self envs tid repeats topk epsilon enable
    = mkM (runs ++ [WriteFinalJson; SaveModelMemory]) (Ok final_data)
    /\ existsb is_final_write runs = false
    /\ fd_final_answer final_data = res_final_answer final
    /\ fd_decision_mode final_data = res_decision_mode final
    /\ fd_used_candidates final_data = res_used_candidates final
    /\ StabilityAnalyzer.analyze results = Ok (fd_stability final_data)
    /\ fd_config_repeats final_data = repeats.
Proof.
  intros Hpos Hok. cbv zeta.
  set (n := Z.to_nat repeats) in *.
  pose proof (run_loop_results self envs tid topk epsilon enable ress n 0 []
                Hok) as Hloop.
  cbn [app] in Hloop.
  destruct (results_snoc ress n ltac:(lia)) as [Hne Hlast].
  destruct (analyze_total _ Hne) as (r & Hr & _).
  rewrite (run_multi_eval self envs tid repeats topk epsilon enable _ r _
             Hloop Hr Hlast).
  eexists _, _. split; [reflexivity|].
  split; [apply run_loop_no_final_write|].
  repeat split. exact Hr.
Qed.

Lemma run_multi_final_data_witness :
  exists final_data runs,
    MultiLLMOrchestrator.run_multi science (fun _ => two_worker_env 0.9 0.5)
      "task_001" 5 3 0.07 false
    = mkM (runs ++ [WriteFinalJson; SaveModelMemory]) (Ok final_data)
    /\ fd_config_repeats final_data = 5.
Proof.
  destruct two_worker_run_completes as (res & Hres & _).
  destruct (run_multi_final_data science (fun _ => two_worker_env 0.9 0.5)
              "task_001" 5 3 0.07 false (fun _ => res))
    as (fd & runs & Hrun & _ & _ & _ & _ & _ & Hrep).
  - lia.
  - intros i _. exact Hres.
  - exists fd, runs. auto.
Defined.

(** ** The arbiter *)

Lemma valid_ranking_item_schema (v : json) :
  valid ranking_item_schema v = true <-> is_ranking_item v.
Proof.
  unfold is_ranking_item. split.
  - destruct v as [| | | | | |m]; try discriminate.
    unfold ranking_item_schema. rewrite valid_object.
    rewrite !andb_true_iff. cbn [orb].
    intros [[Hreq Hadd] Hprops].
    rewrite required_present in Hreq. rewrite only_listed_keys in Hadd.
    exists m. split; [reflexivity|]. split.
    { intros k. split; [apply Hadd|apply Hreq]. }
    cbn [forallb fst snd] in Hprops. rewrite !andb_true_iff in Hprops.
    destruct Hprops as (H1 & H2 & _).
    split;
      (eapply property_check;
       [first [apply valid_string_schema | apply valid_unit_number_schema]
       | apply Hreq; cbn; tauto
       | eassumption]).
  - intros (m & -> & Hex & F1 & F2).
    unfold ranking_item_schema. rewrite valid_object.
    rewrite !andb_true_iff. cbn [orb]. split; [split|].
    + apply required_present. intros k Hk. now apply Hex.
    + apply only_listed_keys. intros k Hk. now apply Hex.
    + cbn [forallb fst snd]. rewrite !andb_true_iff.
      repeat split;
        (eapply property_check;
         [first [apply valid_string_schema | apply valid_unit_number_schema]
         | apply Hex; cbn; tauto
         | eassumption]).
Qed.

Lemma valid_ranking_schema (v : json) :
  valid ranking_schema v = true <-> is_ranking v.
Proof.
  unfold is_ranking. split.
  - destruct v as [| | | | |l|]; cbn; try discriminate.
    rewrite !andb_true_r. intros H. exists l. split; [reflexivity|].
    apply Forall_forall. intros x Hx%list_elem_of_In.
    rewrite forallb_forall in H. apply valid_ranking_item_schema.
    now apply H.
  - intros (l & -> & Hall). cbn. rewrite !andb_true_r.
    apply forallb_forall. intros x Hx%list_elem_of_In.
    rewrite Forall_forall in Hall. apply valid_ranking_item_schema.
    now apply Hall.
Qed.

Lemma field_is_Some (m : gmap string json) (k : string) (P : json -> Prop) :
  field_is m k P -> is_Some (m !! k).
Proof. intros (v & Hv & _). now exists v. Qed.

Lemma valid_arbiter_schema (obj : json) :
  valid ARBITER_SCHEMA obj = true <-> arbiter_contract obj.
Proof.
  unfold arbiter_contract. split.
  - destruct obj as [| | | | | |m]; try discriminate.
    unfold ARBITER_SCHEMA. rewrite valid_object.
    rewrite !andb_true_iff. cbn [orb].
    intros [[Hreq _] Hprops].
    rewrite required_present in Hreq.
    exists m. split; [reflexivity|].
    cbn [forallb fst snd] in Hprops. rewrite !andb_true_iff in Hprops.
    destruct Hprops as (H1 & H2 & H3 & H4 & H5 & _).
    repeat split;
      (eapply property_check;
       [first [apply valid_string_schema | apply valid_string_array_schema
              | apply valid_ranking_schema]
       | apply Hreq; cbn; tauto
       | eassumption]).
  - intros (m & -> & F1 & F2 & F3 & F4 & F5).
    unfold ARBITER_SCHEMA. rewrite valid_object.
    rewrite !andb_true_iff. cbn [orb]. split; [split; [|reflexivity]|].
    + apply required_present. intros k Hk. cbn in Hk.
      destruct Hk as [<-|[<-|[<-|[<-|[<-|[]]]]]];
        eapply field_is_Some; eassumption.
    + cbn [forallb fst snd]. rewrite !andb_true_iff.
      repeat split;
        (eapply property_check;
         [first [apply valid_string_schema | apply valid_string_array_schema
                | apply valid_ranking_schema]
         | eapply field_is_Some; eassumption
         | eassumption]).
Qed.

Lemma float_le_true (x y : R) : float_le x y = true <-> (x <= y)%R.
Proof. unfold float_le. destruct (Rle_dec x y); split; easy. Qed.

Lemma float_le_false (x y : R) : float_le x y = false <-> (y < x)%R.
Proof.
  unfold float_le. destruct (Rle_dec x y); split; try easy; intros; lra.
Qed.

Lemma insert_desc_perm (x : ArbiterRanking) (l : list ArbiterRanking) :
  Permutation (x :: l) (Arbiter.insert_desc x l).
Proof.
  induction l as [|y l IH]; [reflexivity|].
  cbn [Arbiter.insert_desc]. destruct (float_le _ _); [reflexivity|].
  rewrite perm_swap. now apply perm_skip.
Qed.

Lemma sort_desc_perm (l : list ArbiterRanking) :
  Permutation l (Arbiter.sort_desc l).
Proof.
  unfold Arbiter.sort_desc. induction l as [|x l IH]; [reflexivity|].
  cbn [foldr]. rewrite <- insert_desc_perm. now apply perm_skip.
Qed.

Lemma insert_desc_descending (x : ArbiterRanking) (l : list ArbiterRanking) :
  descending l -> descending (Arbiter.insert_desc x l).
Proof.
  induction l as [|y l IH]; intros Hl.
  - cbn. auto.
  - cbn [Arbiter.insert_desc]. destruct Hl as [Hy Hl].
    destruct (float_le (rk_score y) (rk_score x)) eqn:E.
    + apply float_le_true in E. cbn [descending]. split; [|split; assumption].
      constructor; [exact E|].
      eapply Forall_impl; [exact Hy|]. cbn. intros b Hb. lra.
    + apply float_le_false in E. cbn [descending]. split; [|now apply IH].
      rewrite <- insert_desc_perm. constructor; [lra|exact Hy].
Qed.

Lemma sort_desc_descending (l : list ArbiterRanking) :
  descending (Arbiter.sort_desc l).
Proof.
  unfold Arbiter.sort_desc. induction l as [|x l IH]; [exact I|].
  cbn [foldr]. now apply insert_desc_descending.
Qed.

Lemma insert_desc_stable (s : R) (x : ArbiterRanking)
    (l : list ArbiterRanking) :
  with_score s (Arbiter.insert_desc x l) = with_score s (x :: l).
Proof.
  unfold with_score. induction l as [|y l IH]; [reflexivity|].
  cbn [Arbiter.insert_desc].
  destruct (float_le (rk_score y) (rk_score x)) eqn:E; [reflexivity|].
  apply float_le_false in E.
  cbn [List.filter] in *. rewrite IH. unfold float_eq.
  destruct (Req_dec_T (rk_score y) s), (Req_dec_T (rk_score x) s);
    try reflexivity.
  lra.
Qed.

Lemma sort_desc_stable (s : R) (l : list ArbiterRanking) :
  with_score s (Arbiter.sort_desc l) = with_score s l.
Proof.
  unfold Arbiter.sort_desc. induction l as [|x l IH]; [reflexivity|].
  cbn [foldr]. rewrite insert_desc_stable. unfold with_score in *.
  cbn [List.filter]. now rewrite IH.
Qed.

(** After validation every ranking item gives an entry. *)
Lemma ranking_entries_ok (items : list json) :
  Forall is_ranking_item items ->
  exists entries,
    mapM Arbiter.ranking_entry items = Ok entries
    /\ Forall (fun r => (0 <= rk_score r <= 1)%R) entries
    /\ Forall2 (fun j r =>
         getitem j "model_id" = Ok (JStr (rk_model_id r))
         /\ (getitem j "score" ≫= py_float) = Ok (rk_score r)) items entries.
Proof.
  induction 1 as [|j items Hj _ (entries & Hmap & Hunit & Hall)].
  - exists []. repeat split; constructor.
  - destruct Hj as (m & -> & _ & (v1 & H1 & mid & ->)
                    & (v2 & H2 & x & Hx & Hrange)).
    assert (Hscore : py_float v2 = Ok x).
    { destruct v2; cbn in Hx; try discriminate; now injection Hx as <-. }
    exists ({| rk_model_id := mid; rk_score := x |} :: entries).
    split; [|split].
    + assert (Hentry : Arbiter.ranking_entry (JObj m)
                       = Ok {| rk_model_id := mid; rk_score := x |}).
      { unfold Arbiter.ranking_entry, getitem. rewrite H1, H2.
        cbn [mbind result_bind as_str]. now rewrite Hscore. }
      cbn [mapM]. rewrite Hentry. cbn [mbind result_bind].
      rewrite Hmap. reflexivity.
    + constructor; [exact Hrange|exact Hunit].
    + constructor; [|exact Hall]. cbn [getitem rk_model_id rk_score].
      rewrite H1, H2. cbn [mbind result_bind]. auto.
Qed.

(** What [rank] computes from a reply that satisfies the contract. *)
Lemma rank_eval (parsed : json) (tid stamp : string) :
  arbiter_contract parsed ->
  exists items entries selected answer notes mode,
    getitem parsed "ranking" = Ok (JArr items)
    /\ mapM Arbiter.ranking_entry items = Ok entries
    /\ Forall (fun r => (0 <= rk_score r <= 1)%R) entries
    /\ getitem parsed "selected_model_id" = Ok (JStr selected)
    /\ getitem parsed "final_answer" = Ok (JStr answer)
    /\ dict_get parsed "decision_mode" (JStr "hard_select") = Ok mode
    /\ Arbiter.rank (Ok parsed) tid stamp
       = Ok {| Arbiter.ar_task_id := tid;
               Arbiter.ar_selected_model_id := selected;
               Arbiter.ar_ranking := Arbiter.sort_desc entries;
               Arbiter.ar_final_answer := answer;
               Arbiter.ar_arbiter_notes := notes;
               Arbiter.ar_decision_mode := mode;
               Arbiter.ar_used_candidates := [selected];
               Arbiter.ar_timestamp := stamp |}.
Proof.
  intros Hc. pose proof Hc as Hvalid. apply valid_arbiter_schema in Hvalid.
  destruct Hc as (m & -> & _ & (v2 & H2 & sel & ->)
                  & (v3 & H3 & items & -> & Hitems)
                  & (v4 & H4 & fa & ->) & (v5 & H5 & l5 & -> & Hl5)).
  destruct (ranking_entries_ok items Hitems) as (entries & Hmap & Hunit & _).
  destruct (as_str_list_strings l5 Hl5) as [notes Hnotes].
  exists items, entries, sel, fa, notes,
    (default (JStr "hard_select") (m !! "decision_mode"%string)).
  cbn [getitem dict_get]. rewrite H2, H3, H4.
  repeat split; try reflexivity; try assumption.
  unfold Arbiter.rank.
  eapply bind_run; [reflexivity|cbv beta].
  eapply bind_run;
    [unfold validate_arbiter_json; rewrite Hvalid; reflexivity|cbv beta].
  eapply bind_run; [cbn [getitem]; rewrite H3; reflexivity|cbv beta].
  eapply bind_run; [exact Hmap|cbv beta zeta].
  eapply bind_run; [cbn [getitem]; rewrite H2; reflexivity|cbv beta].
  eapply bind_run; [cbn [getitem]; rewrite H4; reflexivity|cbv beta].
  eapply bind_run;
    [cbn [getitem]; rewrite H5; cbn [mbind result_bind]; exact Hnotes
    |cbv beta].
  eapply bind_run; [reflexivity|cbv beta].
  eapply bind_run; [cbn [getitem]; rewrite H2; reflexivity|cbv beta].
  reflexivity.
Qed.

(** X14.  [Arbiter.rank] returns exactly when the call produced a reply
    that satisfies the arbiter contract: a JSON object whose [task_id],
    [selected_model_id] and [final_answer] are strings, whose [ranking] is
    a list of objects with exactly a string [model_id] and a [score] in
    [[0,1]], and whose [arbiter_notes] is a list of strings; further fields
    are allowed.  A failed call re-raises its exception; any other reply
    raises [ValueError].  Scores are read as real numbers here: a reply
    with a NaN score, which passes the range check of the schema, is outside
    this reading. *)
Theorem arbiter_rank_returns (reply : result json) (tid stamp : string) :
  (forall e, reply = Raise e -> Arbiter.rank reply tid stamp = Raise e)
  /\ (forall parsed, reply = Ok parsed ->
        (arbiter_contract parsed ->
           exists out, Arbiter.rank reply tid stamp = Ok out)
        /\ (~ arbiter_contract parsed ->
              Arbiter.rank reply tid stamp
              = Raise (ValueError "Arbiter JSON validation error"))).
Proof.
  split; [now intros e ->|].
  intros parsed ->. split.
  - intros Hc.
    destruct (rank_eval parsed tid stamp Hc)
      as (items & entries & sel & fa & notes & mode & _ & _ & _ & _ & _ & _
          & Hrank).
    eexists. exact Hrank.
  - intros Hc. unfold Arbiter.rank.
    eapply bind_run; [reflexivity|cbv beta].
    unfold validate_arbiter_json.
    destruct (valid ARBITER_SCHEMA parsed) eqn:Hvalid; [|reflexivity].
    now apply valid_arbiter_schema in Hvalid.
Qed.

Lemma rank_inversion (reply : result json) (tid stamp : string)
    (out : Arbiter.Output) :
  Arbiter.rank reply tid stamp = Ok out ->
  exists parsed, reply = Ok parsed /\ arbiter_contract parsed.
Proof.
  destruct reply as [parsed|e]; [|discriminate]. intros Hrank.
  exists parsed. split; [reflexivity|].
  apply valid_arbiter_schema.
  unfold Arbiter.rank in Hrank. cbn [mbind result_bind] in Hrank.
  unfold validate_arbiter_json in Hrank.
  destruct (valid ARBITER_SCHEMA parsed); [reflexivity|discriminate].
Qed.

(** X15.  The ranking that [Arbiter.rank] returns is the reply's ranking,
    reordered: it has the same entries (a permutation), every score lies in
    [[0,1]], no entry has a smaller score than a later one, and entries of
    equal score keep the order of the reply.  The selected worker and the
    final answer are the reply's own, [used_candidates] is the selected
    worker alone, and the task id is the run's, not the reply's. *)
Theorem arbiter_rank_sorted (reply : result json) (tid stamp : string)
    (out : Arbiter.Output) :
  Arbiter.rank reply tid stamp = Ok out ->
  exists parsed items entries,
    reply = Ok parsed
    /\ getitem parsed "ranking" = Ok (JArr items)
    /\ mapM Arbiter.ranking_entry items = Ok entries
    /\ Permutation entries (Arbiter.ar_ranking out)
    /\ length (Arbiter.ar_ranking out) = length items
    /\ descending (Arbiter.ar_ranking out)
    /\ (forall s, with_score s (Arbiter.ar_ranking out) = with_score s entries)
    /\ Forall (fun r => (0 <= rk_score r <= 1)%R) (Arbiter.ar_ranking out)
    /\ getitem parsed "selected_model_id"
       = Ok (JStr (Arbiter.ar_selected_model_id out))
    /\ getitem parsed "final_answer" = Ok (JStr (Arbiter.ar_final_answer out))
    /\ Arbiter.ar_used_candidates out = [Arbiter.ar_selected_model_id out]
    /\ Arbiter.ar_task_id out = tid.
Proof.
  intros Hrank.
  destruct (rank_inversion reply tid stamp out Hrank) as (parsed & -> & Hc).
  destruct (rank_eval parsed tid stamp Hc)
    as (items & entries & sel & fa & notes & mode & Hitems & Hmap & Hunit
        & Hsel & Hfa & _ & Heval).
  rewrite Heval in Hrank. injection Hrank as <-.
  cbn [Arbiter.ar_ranking Arbiter.ar_selected_model_id Arbiter.ar_final_answer
       Arbiter.ar_used_candidates Arbiter.ar_task_id].
  exists parsed, items, entries.
  pose proof (sort_desc_perm entries) as Hperm.
  repeat split; try assumption; try reflexivity.
  - rewrite <- Hperm. clear -Hmap. revert entries Hmap.
    induction items as [|j items IH]; intros entries Hmap.
    + injection Hmap as <-. reflexivity.
    + cbn [mapM] in Hmap.
      destruct (Arbiter.ranking_entry j); [|discriminate].
      cbn [mbind result_bind] in Hmap.
      destruct (mapM Arbiter.ranking_entry items) as [rest|];
        [|discriminate].
      injection Hmap as <-. cbn [length]. f_equal. now apply IH.
  - apply sort_desc_descending.
  - intros s. apply sort_desc_stable.
  - rewrite <- Hperm. exact Hunit.
Qed.

Lemma ranking_item_literal (mid : string) (score : R) :
  (0 <= score <= 1)%R ->
  is_ranking_item
    (JObj (list_to_map [("model_id", JStr mid);
                        ("score", JFloat score)]%string)).
Proof.
  intros Hscore. eexists. split; [reflexivity|].
  split; [apply has_exactly_list_to_map|].
  split.
  - exists (JStr mid). split; [reflexivity|]. now exists mid.
  - exists (JFloat score). split; [reflexivity|]. now exists score.
Qed.

Lemma arbiter_json_contract : arbiter_contract arbiter_json.
Proof.
  eexists. split; [reflexivity|].
  split; [|split; [|split; [|split]]].
  - eexists. split; [vm_compute; reflexivity|]. eexists. reflexivity.
  - eexists. split; [vm_compute; reflexivity|]. eexists. reflexivity.
  - eexists. split; [vm_compute; reflexivity|].
    eexists. split; [reflexivity|].
    constructor; [apply ranking_item_literal; lra|].
    constructor; [apply ranking_item_literal; lra|constructor].
  - eexists. split; [vm_compute; reflexivity|]. eexists. reflexivity.
  - eexists. split; [vm_compute; reflexivity|].
    eexists. split; [reflexivity|constructor].
Qed.

Lemma arbiter_rank_sorted_witness :
  exists out,
    Arbiter.rank (Ok arbiter_json) "task_001" "t1" = Ok out
    /\ descending (Arbiter.ar_ranking out)
    /\ length (Arbiter.ar_ranking out) = 2%nat.
Proof.
  destruct (rank_eval arbiter_json "task_001" "t1" arbiter_json_contract)
    as (items0 & entries0 & sel & fa & notes & mode & _ & _ & _ & _ & _ & _
        & Hrank).
  eexists. split; [exact Hrank|].
  destruct (arbiter_rank_sorted _ _ _ _ Hrank)
    as (parsed & items & entries & Hreply & Hitems & _ & _ & Hlen & Hdesc & _).
  injection Hreply as <-. split; [exact Hdesc|].
  rewrite Hlen. vm_compute in Hitems. injection Hitems as <-. reflexivity.
Defined.

(** ** Hard selection only *)

Lemma rebuttal_block_arbiter (env : RunEnv) (tid : string) (enable : bool)
    (threshold : R) (cs : list SolverOutput) (rate : R) (arb : ArbiterOutput)
    (cs' : list SolverOutput) (arb' : ArbiterOutput) (round : Z) (rate' : R) :
  outcome (MultiLLMOrchestrator.rebuttal_block env tid enable threshold cs
             rate arb) = Ok (cs', arb', round, rate') ->
  arb' = arb \/ arbiter_rank env 1 cs' = Ok arb'.
Proof.
  unfold MultiLLMOrchestrator.rebuttal_block.
  destruct (enable && float_ge rate threshold).
  2:{ intros H. cbn in H. injection H as <- <- <- <-. now left. }
  unfold mbind, M_bind, emit, lift. cbn [outcome trace].
  destruct (MultiLLMOrchestrator.disagreement_rate _); cbn [outcome trace];
    [|discriminate].
  destruct (arbiter_rank env 1 _) as [arb2|] eqn:Harb; cbn [outcome trace];
    [|discriminate].
  intros H. injection H as <- <- <- <-. now right.
Qed.

(** With a descending ranking and a non-positive epsilon the gap test
    fails. *)
Lemma consensus_block_hard (env : RunEnv) (topk : Z) (epsilon : R)
    (cs : list SolverOutput) (arb : ArbiterOutput) :
  (epsilon <= 0)%R ->
  descending (ao_ranking arb) ->
  MultiLLMOrchestrator.consensus_block env topk epsilon cs arb
  = mret (MultiLLMOrchestrator.hard_select arb).
Proof.
  intros Heps Hdesc. unfold MultiLLMOrchestrator.consensus_block.
  destruct (ao_ranking arb) as [|first [|second rest]]; try reflexivity.
  destruct Hdesc as [Hfirst _]. apply Forall_cons_1 in Hfirst as [Hgap _].
  unfold float_lt. destruct (Rlt_dec _ _); [lra|reflexivity].
Qed.

(** Up to the consensus block, in a run with a non-positive epsilon. *)
Lemma run_single_hard (self : MultiLLMOrchestrator.t)
    (env : RunEnv) (tid : string) (topk : Z) (epsilon : R) (enable : bool)
    (threshold : R) :
  (epsilon <= 0)%R ->
  ranks_descending env ->
  let run :=
    MultiLLMOrchestrator.run_single self env tid topk epsilon enable
      threshold in
  invoked is_consensus_call run = false
  /\ forall res,
       outcome run = Ok res ->
       exists cs arb round rate,
         outcome (MultiLLMOrchestrator.bookkeeping self env tid cs arb round
                    rate "hard_select" [ao_selected_model_id arb]
                    (JStr (ao_final_answer arb))) = Ok res.
Proof.
  intros Heps Hsorted. cbv zeta. unfold MultiLLMOrchestrator.run_single.
  rewrite invoked_bind, first_rounds_quiet by reflexivity. cbn [orb].
  rewrite outcome_bind.
  destruct (outcome (MultiLLMOrchestrator.first_rounds env tid))
    as [[[cs rate] arb]|] eqn:H1; [|split; [reflexivity|discriminate]].
  destruct (first_rounds_outcome env tid cs rate arb H1) as (_ & _ & Harb).
  rewrite invoked_bind, rebuttal_block_no_consensus. cbn [orb].
  rewrite outcome_bind.
  destruct (outcome (MultiLLMOrchestrator.rebuttal_block _ _ _ _ _ _ _))
    as [[[[cs' arb'] round] rate']|] eqn:H2;
    [|split; [reflexivity|discriminate]].
  assert (Hdesc : descending (ao_ranking arb')).
  { destruct (rebuttal_block_arbiter _ _ _ _ _ _ _ _ _ _ _ H2) as [->|Harb'];
      eapply Hsorted; eassumption. }
  rewrite (consensus_block_hard env topk epsilon cs' arb' Heps Hdesc).
  rewrite invoked_bind, outcome_bind. cbn [outcome invoked trace existsb orb].
  unfold MultiLLMOrchestrator.hard_select.
  split.
  - apply bookkeeping_quiet; reflexivity.
  - intros res Hres. exists cs', arb', round, rate'. exact Hres.
Qed.

(** X16.  When epsilon is zero or negative and the arbiter's rankings are
    in descending order of score (as [Arbiter.rank] returns them), a single
    run never calls the Consensus Synthesizer, whatever [consensus_topk]
    is; if the run returns, its decision mode is [hard_select], its final
    answer is a string, and exactly one worker is used. *)
Theorem non_positive_epsilon_hard_select (self : MultiLLMOrchestrator.t)
    (env : RunEnv) (tid : string) (topk : Z) (epsilon : R) (enable : bool)
    (threshold : R) :
  (epsilon <= 0)%R ->
  ranks_descending env ->
  let run :=
    MultiLLMOrchestrator.run_single self env tid topk epsilon enable
      threshold in
  invoked is_consensus_call run = false
  /\ forall res,
       outcome run = Ok res ->
       res_decision_mode res = "hard_select"%string
       /\ exists selected answer,
            res_used_candidates res = [selected]
            /\ res_final_answer res = JStr answer
            /\ d_selected_model_id (res_arbiter_output res) = selected.
Proof.
  intros Heps Hsorted. cbv zeta.
  destruct (run_single_hard self env tid topk epsilon enable threshold
              Heps Hsorted) as [Hquiet Hres].
  split; [exact Hquiet|].
  intros res Hok. destruct (Hres res Hok) as (cs & arb & round & rate & Hbk).
  rewrite bookkeeping_outcome in Hbk. injection Hbk as <-.
  split; [reflexivity|]. eexists _, _. repeat split.
Qed.

Lemma ranks_descending_two_workers (s1 s2 : R) :
  (s2 <= s1)%R -> ranks_descending (two_worker_env s1 s2).
Proof.
  intros Hs n cs arb [= <-]. cbn.
  split; [constructor; [exact Hs|constructor]|].
  split; [constructor|exact I].
Qed.

Lemma non_positive_epsilon_hard_select_witness :
  invoked is_consensus_call
    (MultiLLMOrchestrator.run_single science (two_worker_env 0.9 0.9)
       "task_001" 3 0 true 0.55) = false.
Proof.
  refine (proj1 (non_positive_epsilon_hard_select science
                   (two_worker_env 0.9 0.9) "task_001" 3 0 true 0.55 _ _)).
  - lra.
  - apply ranks_descending_two_workers. lra.
Defined.

Section HardOnly.

Variable self : MultiLLMOrchestrator.t.
Variable envs : nat -> RunEnv.
Variable tid : string.
Variables repeats topk : Z.
Variable epsilon : R.
Variable enable : bool.

Hypothesis epsilon_non_positive : (epsilon <= 0)%R.
Hypothesis rankings_descending : forall i, ranks_descending (envs i).

Lemma run_loop_hard (n i : nat) (acc : list RunOutcome) :
  invoked is_consensus_call
    (MultiLLMOrchestrator.run_loop self envs tid topk epsilon enable i n acc)
  = false
  /\ (enable = false ->
      invoked is_rebuttal_call
        (MultiLLMOrchestrator.run_loop self envs tid topk epsilon enable
           i n acc) = false).
Proof.
  revert i acc. induction n as [|n IH]; intros i acc;
    [split; reflexivity|].
  cbn [MultiLLMOrchestrator.run_loop]. rewrite !invoked_bind.
  destruct (run_single_hard self (envs i) tid topk epsilon
              enable MultiLLMOrchestrator.default_disagreement_threshold
              epsilon_non_positive (rankings_descending i)) as [Hquiet _].
  rewrite Hquiet. cbn [orb].
  assert (Hreb : enable = false ->
            invoked is_rebuttal_call
              (MultiLLMOrchestrator.run_single self (envs i) tid topk epsilon
                 enable MultiLLMOrchestrator.default_disagreement_threshold)
            = false).
  { intros ->. unfold MultiLLMOrchestrator.run_single.
    rewrite invoked_bind, first_rounds_quiet by reflexivity. cbn [orb].
    destruct (outcome (MultiLLMOrchestrator.first_rounds _ _))
      as [[[cs rate] arb]|]; [|reflexivity].
    rewrite invoked_bind, rebuttal_block_calls_rebuttal. cbn [andb orb].
    destruct (outcome (MultiLLMOrchestrator.rebuttal_block _ _ _ _ _ _ _))
      as [[[[cs' arb'] round] rate']|]; [|reflexivity].
    rewrite invoked_bind, consensus_block_no_rebuttal. cbn [orb].
    destruct (outcome (MultiLLMOrchestrator.consensus_block _ _ _ _ _))
      as [[[mode used] answer]|]; [|reflexivity].
    apply bookkeeping_quiet; reflexivity. }
  destruct (outcome _) as [res|]; [|split; [reflexivity|]].
  - destruct (IH (S i) (acc ++
                [{| ro_decision_mode := res_decision_mode res;
                    ro_used_candidates := res_used_candidates res;
                    ro_final_answer := res_final_answer res |}]))
      as [Hc Hr].
    split; [exact Hc|]. intros He. now rewrite (Hreb He), (Hr He).
  - intros He. now rewrite (Hreb He).
Qed.

End HardOnly.

Lemma run_multi_tail_quiet (p : Event -> bool)
    (self : MultiLLMOrchestrator.t) (envs : nat -> RunEnv) (tid : string)
    (repeats topk : Z) (epsilon : R) (enable : bool) :
  p WriteFinalJson = false ->
  p SaveModelMemory = false ->
  invoked p
    (MultiLLMOrchestrator.run_multi self envs tid repeats topk epsilon enable)
  = invoked p
      (MultiLLMOrchestrator.run_loop self envs tid topk epsilon enable
         0 (Z.to_nat repeats) []).
Proof.
  intros Hfinal Hsave. unfold MultiLLMOrchestrator.run_multi.
  rewrite invoked_bind.
  destruct (outcome _) as [results|]; [|apply orb_false_r].
  unfold invoked at 2, mbind, M_bind, lift, emit. cbn [outcome trace].
  destruct (StabilityAnalyzer.analyze results); cbn [outcome trace];
    [|apply orb_false_r].
  destruct (index_last results); cbn [outcome trace app existsb];
    rewrite ?Hfinal, ?Hsave; apply orb_false_r.
Qed.

(** X17.  With [--hard-only] the command line passes [consensus_topk = 1],
    [epsilon = 0.0] and [enable_rebuttal = False].  Then, for an arbiter
    with descending rankings, [run_multi] never calls the Consensus
    Synthesizer nor the Rebuttal Round; and when every run returns, the
    decision mode of every run is [hard_select], so the reported stability
    is trivial: majority mode [hard_select] with majority rate 1. *)
Theorem hard_only_stability_trivial (self : MultiLLMOrchestrator.t)
    (envs : nat -> RunEnv) (tid : string) (repeats consensus_topk : Z)
    (epsilon : R) (rebuttal : bool) (topk : Z) (eps : R) (enable : bool) :
  cli_arguments consensus_topk epsilon rebuttal true = (topk, eps, enable) ->
  (forall i, ranks_descending (envs i)) ->
  let multi :=
    MultiLLMOrchestrator.run_multi self envs tid repeats topk eps enable in
  invoked is_consensus_call multi = false
  /\ invoked is_rebuttal_call multi = false
  /\ forall ress : nat -> RunResult,
       0 < repeats ->
       (forall i, (i < Z.to_nat repeats)%nat ->
          outcome (MultiLLMOrchestrator.run_single self (envs i) tid topk eps
                     enable MultiLLMOrchestrator.default_disagreement_threshold)
          = Ok (ress i)) ->
       exists final_data,
         outcome multi = Ok final_data
         /\ fd_decision_mode final_data = "hard_select"%string
         /\ majority_mode (fd_stability final_data)
            = Some "hard_select"%string
         /\ majority_rate (fd_stability final_data) = 1%R
         /\ total_runs (fd_stability final_data) = Some repeats.
Proof.
  intros [= <- <- <-] Hsorted. cbv zeta. cbn [negb andb].
  rewrite andb_false_r.
  assert (Heps : (0 <= 0)%R) by lra.
  destruct (run_loop_hard self envs tid 1 0%R false Heps Hsorted
              (Z.to_nat repeats) 0 []) as [Hc Hr].
  rewrite !run_multi_tail_quiet by reflexivity.
  split; [exact Hc|]. split; [now apply Hr|].
  intros ress Hpos Hok.
  set (n := Z.to_nat repeats) in *.
  pose proof (run_loop_results self envs tid 1 0%R false ress n 0 [] Hok)
    as Hloop.
  cbn [app] in Hloop.
  destruct (results_snoc ress n ltac:(lia)) as [Hne Hlast].
  assert (Hmodes : forall i, (i < n)%nat ->
            res_decision_mode (ress i) = "hard_select"%string).
  { intros i Hi.
    destruct (run_single_hard self (envs i) tid 1 0%R false
                MultiLLMOrchestrator.default_disagreement_threshold
                Heps (Hsorted i)) as [_ Hres].
    destruct (Hres _ (Hok i Hi)) as (cs & arb & round & rate & Hbk).
    rewrite bookkeeping_outcome in Hbk. now injection Hbk as <-. }
  assert (Hall : Forall (fun o => ro_decision_mode o = "hard_select"%string)
                   (map (fun i => run_outcome (ress i)) (seq 0 n))).
  { apply Forall_map, Forall_forall. intros i Hi%list_elem_of_In%in_seq.
    cbn [run_outcome ro_decision_mode]. apply Hmodes. lia. }
  destruct (analyze_unanimous _ "hard_select" Hne Hall)
    as (r & Hr' & Hrate & Hmode & _ & Htotal).
  rewrite (run_multi_eval self envs tid repeats 1 0%R false _ r _
             Hloop Hr' Hlast).
  eexists. split; [reflexivity|].
  cbn [fd_decision_mode fd_stability run_outcome ro_decision_mode].
  repeat split; try assumption.
  - apply Hmodes. lia.
  - rewrite Htotal. f_equal. unfold len. rewrite length_map, length_seq.
    lia.
Qed.

Lemma hard_only_stability_trivial_witness :
  invoked is_consensus_call
    (MultiLLMOrchestrator.run_multi science (fun _ => two_worker_env 0.9 0.9)
       "task_001" 5 1 0 false) = false.
Proof.
  refine (proj1 (hard_only_stability_trivial science
                   (fun _ => two_worker_env 0.9 0.9) "task_001" 5 3 0.07 true
                   1 0 false _ _)).
  - reflexivity.
  - intros i. apply ranks_descending_two_workers. lra.
Defined.

(** ** The model memory *)

Lemma to_float_number (parse : string -> option R) (v : json) (x : R) :
  number_value v = Some x -> to_float parse v = Ok x.
Proof. destruct v; cbn; try discriminate; now intros [= <-]. Qed.

(** One update of a seen, well-formed entry. *)
Lemma update_seen (parse : string -> option R) (state : ModelMemory.t)
    (w : string) (reward lr : R) (m : gmap string json) (n : Z) (v : json)
    (x : R) :
  state !! w = Some (JObj m) ->
  m !! "n"%string = Some (JInt n) ->
  m !! "reliability"%string = Some v ->
  number_value v = Some x ->
  ModelMemory.update_reliability parse state w reward lr
  = (<[w := JObj (<["reliability"%string := JFloat ((1 - lr) * x + lr * reward)]>
                    (<["n"%string := JInt (n + 1)]> m))]> state,
     Ok tt).
Proof.
  intros Hw Hn Hv Hx. unfold ModelMemory.update_reliability.
  rewrite Hw. cbv beta iota zeta. rewrite Hw. cbn [getitem]. rewrite Hn.
  cbn [mbind result_bind add_one setitem getitem].
  rewrite lookup_insert_ne by discriminate. rewrite Hv.
  cbn [mbind result_bind]. rewrite (to_float_number parse v x Hx).
  cbn [mbind result_bind setitem].
  now rewrite insert_insert_eq.
Qed.

(** One update of an unseen worker. *)
Lemma update_unseen (parse : string -> option R) (state : ModelMemory.t)
    (w : string) (reward lr : R) :
  state !! w = None ->
  ModelMemory.update_reliability parse state w reward lr
  = (<[w := JObj (<["reliability"%string := JFloat ((1 - lr) * 0.5 + lr * reward)]>
                    (<["n"%string := JInt 1]>
                       (<["n"%string := JInt 0]>
                          (<["reliability"%string := JFloat 0.5]> ∅))))]> state,
     Ok tt).
Proof.
  intros Hw.
  pose proof (update_seen parse (<[w := ModelMemory.fresh_entry]> state) w
                reward lr _ 0 (JFloat 0.5) 0.5
                (lookup_insert_eq _ _ _) eq_refl eq_refl eq_refl) as H.
  unfold ModelMemory.update_reliability in *. rewrite Hw.
  rewrite lookup_insert_eq in H. rewrite H.
  now rewrite insert_insert_eq.
Qed.

Lemma observers_ext (state state' : ModelMemory.t) (w : string) :
  state' !! w = state !! w ->
  reported state' w = reported state w
  /\ counted state' w = counted state w
  /\ (entry_ok state w -> entry_ok state' w).
Proof.
  intros H. unfold reported, counted, entry_ok, count_of, reliability_of.
  rewrite H. tauto.
Qed.

(** One update of a well-formed entry, through the observers. *)
Lemma update_step (parse : string -> option R) (state : ModelMemory.t)
    (w : string) (reward lr : R) :
  entry_ok state w ->
  exists state',
    ModelMemory.update_reliability parse state w reward lr = (state', Ok tt)
    /\ reported state' w = ((1 - lr) * reported state w + lr * reward)%R
    /\ counted state' w = counted state w + 1
    /\ entry_ok state' w
    /\ (forall w', w' <> w -> state' !! w' = state !! w')
    /\ ModelMemory.get_reliability parse state' w = Ok (reported state' w)
    /\ ModelMemory.get_reliability parse state w = Ok (reported state w).
Proof.
  intros [Hnone|[[n Hn] [x Hx]]].
  - rewrite (update_unseen parse state w reward lr Hnone).
    eexists. split; [reflexivity|].
    unfold reported, counted, entry_ok, count_of, reliability_of,
      ModelMemory.get_reliability.
    rewrite Hnone, !lookup_insert_eq. cbn [dict_get].
    rewrite !lookup_insert_eq.
    rewrite (lookup_insert_ne _ "reliability"%string "n"%string)
      by discriminate.
    rewrite !lookup_insert_eq. cbn.
    repeat split; eauto.
    intros w' Hw'. now rewrite lookup_insert_ne.
  - unfold count_of in Hn. unfold reliability_of in Hx.
    destruct (state !! w) as [[| | | | | |m]|] eqn:Hw; try discriminate.
    destruct (m !! "n"%string) as [[| |k| | | |]|] eqn:Hk; try discriminate.
    injection Hn as <-.
    destruct (m !! "reliability"%string) as [v|] eqn:Hv; [|discriminate].
    rewrite (update_seen parse state w reward lr m k v x Hw Hk Hv Hx).
    eexists. split; [reflexivity|].
    unfold reported, counted, entry_ok, count_of, reliability_of,
      ModelMemory.get_reliability.
    rewrite Hw, !lookup_insert_eq. cbn [dict_get].
    rewrite !lookup_insert_eq.
    rewrite (lookup_insert_ne _ "reliability"%string "n"%string)
      by discriminate.
    rewrite !lookup_insert_eq, Hk, Hv, Hx. cbn.
    rewrite (to_float_number parse v x Hx).
    repeat split; eauto.
    intros w' Hw'. now rewrite lookup_insert_ne.
Qed.






Lemma default_lr_unit :
  (0 <= ModelMemory.default_lr <= 1)%R.
Proof. unfold ModelMemory.default_lr. lra. Qed.

(** Replaying the updates of a trace on a well-formed memory. *)
Lemma replay_ok (parse : string -> option R) (events : list Event)
    (state : ModelMemory.t) :
  memory_ok state ->
  (forall w r, In (UpdateReliability w r) events -> (0 <= r <= 1)%R) ->
  exists state',
    ModelMemory.replay parse events state = (state', Ok tt)
    /\ memory_ok state'
    /\ forall w,
         ((forall r, In (UpdateReliability w r) events -> r = 1%R) ->
          (reported state w <= reported state' w)%R)
         /\ ((forall r, In (UpdateReliability w r) events -> r = 0%R) ->
             (reported state' w <= reported state w)%R)
         /\ ((forall r, ~ In (UpdateReliability w r) events) ->
             state' !! w = state !! w).
Proof.
  revert state. induction events as [|e events IH]; intros state Hok Hrewards.
  - exists state. cbn [ModelMemory.replay].
    repeat split; try apply Hok; try lra.
  - assert (Hrest : forall w r,
              In (UpdateReliability w r) events -> (0 <= r <= 1)%R).
    { intros w r Hin. apply (Hrewards w r). now right. }
    assert (Hskip : forall state0,
              memory_ok state0 ->
              (forall w r, e <> UpdateReliability w r) ->
              exists state',
                ModelMemory.replay parse events state0 = (state', Ok tt)
                /\ memory_ok state'
                /\ forall w,
                     ((forall r, In (UpdateReliability w r) (e :: events) ->
                                 r = 1%R) ->
                      (reported state0 w <= reported state' w)%R)
                     /\ ((forall r, In (UpdateReliability w r) (e :: events) ->
                                    r = 0%R) ->
                         (reported state' w <= reported state0 w)%R)
                     /\ ((forall r, ~ In (UpdateReliability w r) (e :: events)) ->
                         state' !! w = state0 !! w)).
    { intros state0 Hok0 Hne.
      destruct (IH state0 Hok0 Hrest) as (state' & Hrun & Hok' & Hmono).
      exists state'. split; [exact Hrun|]. split; [exact Hok'|].
      intros w. destruct (Hmono w) as (Hup & Hdown & Hsame).
      split; [|split]; intros H; [apply Hup|apply Hdown|apply Hsame];
        intros r Hin; apply (H r); now right. }
    destruct e as [|cs|cs|cs k|w0 r0|rec| |];
      try (cbn [ModelMemory.replay]; apply Hskip; [exact Hok|discriminate]).
    clear Hskip. cbn [ModelMemory.replay].
    destruct (Hok w0) as [Hentry Hrange].
    destruct (update_step parse state w0 r0 ModelMemory.default_lr Hentry)
      as (state1 & Hup & Hrel & _ & Hentry1 & Hframe & _).
    rewrite Hup.
    pose proof default_lr_unit as Hlr.
    assert (Hr0 : (0 <= r0 <= 1)%R) by (apply (Hrewards w0 r0); now left).
    assert (Hok1 : memory_ok state1).
    { intros w. destruct (String.eqb_spec w w0) as [->|Hne].
      - split; [exact Hentry1|]. rewrite Hrel. nra.
      - destruct (observers_ext state state1 w (Hframe w Hne))
          as (Hsame & _ & Hkeep).
        rewrite Hsame. split; [apply Hkeep|]; apply Hok. }
    destruct (IH state1 Hok1 Hrest) as (state' & Hrun & Hok' & Hmono).
    exists state'. split; [exact Hrun|]. split; [exact Hok'|].
    intros w. destruct (Hmono w) as (Hgrow & Hshrink & Hsame).
    destruct (String.eqb_spec w w0) as [->|Hne].
    + split; [|split].
      * intros H. assert (r0 = 1%R) as -> by (apply H; now left).
        etransitivity; [|apply Hgrow; intros r Hin; apply H; now right].
        rewrite Hrel. nra.
      * intros H. assert (r0 = 0%R) as -> by (apply H; now left).
        etransitivity; [apply Hshrink; intros r Hin; apply H; now right|].
        rewrite Hrel. nra.
      * intros H. exfalso. apply (H r0). now left.
    + destruct (observers_ext state state1 w (Hframe w Hne)) as (Heq & _).
      rewrite <- Heq. split; [|split].
      * intros H. apply Hgrow. intros r Hin. apply H. now right.
      * intros H. apply Hshrink. intros r Hin. apply H. now right.
      * intros H. rewrite Hsame, Hframe; [reflexivity|exact Hne|].
        intros r Hin. apply (H r). now right.
Qed.

(** Which updates a completed run makes. *)
Lemma run_single_updates (self : MultiLLMOrchestrator.t) (env : RunEnv)
    (tid : string) (topk : Z) (epsilon : R) (enable : bool) (threshold : R)
    (res : RunResult) (w : string) (r : R) :
  outcome (MultiLLMOrchestrator.run_single self env tid topk epsilon enable
             threshold) = Ok res ->
  In (UpdateReliability w r)
    (trace (MultiLLMOrchestrator.run_single self env tid topk epsilon enable
              threshold)) ->
  (r = 1%R /\ In w (res_used_candidates res))
  \/ (r = 0%R /\ ~ In w (res_used_candidates res)).
Proof.
  intros Hok.
  destruct (run_single_shape self env tid topk epsilon enable threshold)
    as [(e & He & _)
       |(calls & cs & arb & round & rate & mode & used & answer
         & Hcalls & Hne & _ & _ & Hrun)]; [congruence|].
  rewrite Hrun in Hok |- *. cbn [outcome trace] in *.
  destruct (truncate_answer answer) as [shown|e] eqn:Hshown.
  2:{ rewrite (bookkeeping_fails self env tid cs arb round rate mode used
                 answer e Hshown Hne) in Hok. discriminate Hok. }
  destruct (bookkeeping_completes self env tid cs arb round rate mode used
              answer shown Hshown)
    as (records & res' & Hbk & _ & _ & _ & Hused & _).
  rewrite Hbk in Hok |- *. cbn [outcome trace] in *.
  injection Hok as ->. rewrite Hused.
  rewrite !in_app_iff, !in_map_iff.
  intros [Hin|[(w' & [= -> <-] & Hin)|[(c & [= <- <-] & Hin)
                                      |(rec & Hrec & _)]]].
  - rewrite forallb_forall in Hcalls. apply Hcalls in Hin. discriminate Hin.
  - left. auto.
  - right. split; [reflexivity|].
    apply list_elem_of_In, list_elem_of_filter in Hin as [Hout _].
    intros Hw%str_in_In. congruence.
  - discriminate Hrec.
Qed.

(** X20.  The reliability updates of a completed single run, applied with
    the default learning rate 0.05 to a memory whose entries are well
    formed with reliabilities in [[0,1]], never raise and keep the memory
    so; the reliability of every worker among the returned
    [used_candidates] does not decrease, that of every other worker does
    not increase, and a worker is never both rewarded and penalised in the
    same run. *)
Theorem run_updates_memory (parse : string -> option R)
    (self : MultiLLMOrchestrator.t) (env : RunEnv) (tid : string) (topk : Z)
    (epsilon : R) (enable : bool) (threshold : R) (res : RunResult)
    (state : ModelMemory.t) :
  let run :=
    MultiLLMOrchestrator.run_single self env tid topk epsilon enable
      threshold in
  outcome run = Ok res ->
  memory_ok state ->
  exists state',
    ModelMemory.replay parse (trace run) state = (state', Ok tt)
    /\ memory_ok state'
    /\ (forall w, In w (res_used_candidates res) ->
          In (UpdateReliability w 1) (trace run)
          /\ ~ In (UpdateReliability w 0) (trace run)
          /\ (reported state w <= reported state' w)%R)
    /\ (forall w, ~ In w (res_used_candidates res) ->
          ~ In (UpdateReliability w 1) (trace run)
          /\ (reported state' w <= reported state w)%R).
Proof.
  cbv zeta. intros Hok Hmem.
  pose proof (run_single_updates self env tid topk epsilon enable threshold
                res) as Hupd.
  destruct (replay_ok parse
              (trace (MultiLLMOrchestrator.run_single self env tid topk
                        epsilon enable threshold)) state Hmem)
    as (state' & Hrun & Hmem' & Hmono).
  { intros w r Hin. destruct (Hupd w r Hok Hin) as [[-> _]|[-> _]]; lra. }
  exists state'. split; [exact Hrun|]. split; [exact Hmem'|]. split.
  - intros w Hw. destruct (Hmono w) as (Hgrow & _ & _). split; [|split].
    + destruct (run_single_shape self env tid topk epsilon enable threshold)
        as [(e & He & _)
           |(calls & cs & arb & round & rate & mode & used & answer
             & Hcalls & Hne & _ & _ & Hshape)]; [congruence|].
      rewrite Hshape in Hok |- *. cbn [outcome trace] in *.
      destruct (truncate_answer answer) as [shown|e] eqn:Hshown.
      2:{ rewrite (bookkeeping_fails self env tid cs arb round rate mode used
                     answer e Hshown Hne) in Hok. discriminate Hok. }
      destruct (bookkeeping_completes self env tid cs arb round rate mode
                  used answer shown Hshown)
        as (records & res' & Hbk & _ & _ & _ & Hused & _).
      rewrite Hbk in Hok |- *. cbn [outcome trace] in *.
      injection Hok as ->. rewrite Hused in Hw.
      rewrite !in_app_iff, !in_map_iff. right. left. now exists w.
    + intros Hin. destruct (Hupd w _ Hok Hin) as [[H _]|[_ H]]; [lra|tauto].
    + apply Hgrow. intros r Hin.
      destruct (Hupd w r Hok Hin) as [[-> _]|[_ H]]; [reflexivity|tauto].
  - intros w Hw. destruct (Hmono w) as (_ & Hshrink & _). split.
    + intros Hin. destruct (Hupd w _ Hok Hin) as [[_ H]|[H _]]; [tauto|lra].
    + apply Hshrink. intros r Hin.
      destruct (Hupd w r Hok Hin) as [[_ H]|[-> _]]; [tauto|reflexivity].
Qed.

Lemma memory_ok_empty : memory_ok ∅.
Proof.
  intros w. split; [left; reflexivity|].
  unfold reported. rewrite lookup_empty. lra.
Qed.

Lemma run_updates_memory_witness :
  exists state',
    ModelMemory.replay (fun _ => None)
      (trace (MultiLLMOrchestrator.run_single science (two_worker_env 0.9 0.5)
                "task_001" 3 0.07 false 0.55)) ∅
    = (state', Ok tt)
    /\ memory_ok state'.
Proof.
  destruct two_worker_run_completes as (res & Hres & _).
  destruct (run_updates_memory (fun _ => None) science (two_worker_env 0.9 0.5)
              "task_001" 3 0.07 false 0.55 res ∅ Hres memory_ok_empty)
    as (state' & Hrun & Hmem & _).
  exists state'. auto.
Defined.

(** ** The solver pool *)

(** What the constructor call builds from a reply that satisfies the
    contract. *)
Lemma build_solver_output_eval (mid tid : string) (parsed : json)
    (latency : Z) (stamp : string) :
  solver_contract parsed ->
  exists fa conf asm rsk evd chk,
    build_solver_output mid tid parsed latency stamp
    = Ok {| model_id := mid; task_id := tid; final_answer := fa;
            confidence := conf; assumptions := asm; risks := rsk;
            evidence := evd; self_checks := chk; latency_ms := latency;
            timestamp := stamp |}
    /\ getitem parsed "final_answer" = Ok (JStr fa)
    /\ (0 <= conf <= 1)%R.
Proof.
  intros (m & -> & _ & _ & _ & (fa & Hfa & s & ->) & (c & Hc & x & Hx & Hrange)
          & (a1 & H1 & l1 & -> & Hl1) & (a2 & H2 & l2 & -> & Hl2)
          & (a3 & H3 & l3 & -> & Hl3) & (a4 & H4 & l4 & -> & Hl4)).
  destruct (as_str_list_strings l1 Hl1) as [s1 E1].
  destruct (as_str_list_strings l2 Hl2) as [s2 E2].
  destruct (as_str_list_strings l3 Hl3) as [s3 E3].
  destruct (as_str_list_strings l4 Hl4) as [s4 E4].
  assert (Hconf : py_float c = Ok x).
  { destruct c; cbn in Hx; try discriminate; now injection Hx as <-. }
  exists s, x, s1, s2, s3, s4.
  unfold build_solver_output, getitem.
  rewrite Hfa, Hc, H1, H2, H3, H4. cbn [mbind result_bind as_str].
  rewrite Hconf, E1, E2, E3, E4. repeat split; try reflexivity; lra.
Qed.

Lemma call_solver_accepted (tid : string) (r : SolverReply) :
  accepted r = true ->
  exists out parsed,
    SolverPool.call_solver tid r = Ok out
    /\ sr_parsed r = Ok parsed
    /\ solver_contract parsed
    /\ model_id out = sr_model_id r
    /\ task_id out = tid
    /\ latency_ms out = sr_latency_ms r
    /\ getitem parsed "final_answer" = Ok (JStr (final_answer out))
    /\ (0 <= confidence out <= 1)%R.
Proof.
  unfold accepted, SolverPool.call_solver.
  destruct (sr_parsed r) as [parsed|e]; [|discriminate].
  intros Hvalid. pose proof Hvalid as Hc. apply valid_solver_schema in Hc.
  destruct (build_solver_output_eval (sr_model_id r) tid parsed
              (sr_latency_ms r) (sr_timestamp r) Hc)
    as (fa & conf & asm & rsk & evd & chk & Hbuild & Hfa & Hrange).
  eexists _, parsed. cbn [mbind result_bind].
  unfold validate_solver_json. rewrite Hvalid. cbn [mbind result_bind].
  split; [exact Hbuild|]. repeat split; try assumption; apply Hrange.
Qed.

Lemma call_solver_rejected (tid : string) (r : SolverReply) :
  accepted r = false -> exists e, SolverPool.call_solver tid r = Raise e.
Proof.
  unfold accepted, SolverPool.call_solver.
  destruct (sr_parsed r) as [parsed|e]; [|intros _; now exists e].
  intros Hvalid. cbn [mbind result_bind].
  unfold validate_solver_json. rewrite Hvalid. eexists. reflexivity.
Qed.

(** ** The consensus path *)

Lemma filter_ext_in {A : Type} (P1 P2 : A -> Prop)
    `{!forall x, Decision (P1 x)} `{!forall x, Decision (P2 x)} (l : list A) :
  (forall x, In x l -> (P1 x <-> P2 x)) -> filter P1 l = filter P2 l.
Proof.
  induction l as [|x l IH]; intros Hiff; [reflexivity|].
  rewrite !filter_cons.
  assert (Hx : P1 x <-> P2 x) by (apply Hiff; now left).
  rewrite IH by (intros y Hy; apply Hiff; now right).
  destruct (decide (P1 x)), (decide (P2 x)); tauto.
Qed.

(** The second selection of [top_candidates] changes nothing: they are the
    candidates whose worker is among the ranked ones. *)
Lemma top_candidates_filter (ranked : list string) (cs : list SolverOutput) :
  filter (fun c =>
    str_in (model_id c)
      (map model_id
         (filter (fun c' => str_in (model_id c') ranked = true) cs)) = true) cs
  = filter (fun c => str_in (model_id c) ranked = true) cs.
Proof.
  apply filter_ext_in. intros c Hc. rewrite !str_in_In, in_map_iff. split.
  - intros (c' & Hid & Hin%list_elem_of_In%list_elem_of_filter).
    destruct Hin as [Hranked _]. apply str_in_In in Hranked. congruence.
  - intros Hranked. exists c. split; [reflexivity|].
    apply list_elem_of_In, list_elem_of_filter. split.
    + now apply str_in_In.
    + now apply list_elem_of_In.
Qed.

Lemma slice_to_In {A : Type} (k : Z) (l : list A) (x : A) :
  In x (slice_to k l) -> In x l.
Proof.
  unfold slice_to. destruct (0 <=? k);
    intros H%list_elem_of_In%elem_of_take; destruct H as (i & Hi & _);
    apply list_elem_of_In; eapply list_elem_of_lookup_2; exact Hi.
Qed.

Lemma slice_to_length {A : Type} (k : Z) (l : list A) :
  0 <= k -> len (slice_to k l) <= k.
Proof.
  intros Hk. unfold slice_to, len.
  destruct (Z.leb_spec 0 k); [|lia]. rewrite length_take. lia.
Qed.

(** The try body: one synthesizer call on the selected candidates. *)
Lemma try_consensus_eval (env : RunEnv) (topk : Z) (cs : list SolverOutput)
    (arb : ArbiterOutput) :
  let top_k := Z.min topk (len cs) in
  let ranked := map rk_model_id (slice_to top_k (ao_ranking arb)) in
  let top := filter (fun c => str_in (model_id c) ranked = true) cs in
  MultiLLMOrchestrator.try_consensus env topk cs arb
  = mkM [CallConsensus top top_k]
        (match ConsensusSynthesizer.synthesize (consensus_reply env) top
                 top_k with
         | Ok r =>
             Ok (String.append "consensus_top" (str_of_int top_k),
                 cr_sources r, cr_final_answer r)
         | Raise e => Raise e
         end).
Proof.
  cbv zeta. unfold MultiLLMOrchestrator.try_consensus.
  rewrite top_candidates_filter.
  unfold mbind, M_bind, emit, lift. cbn [outcome trace].
  destruct (ConsensusSynthesizer.synthesize _ _ _); reflexivity.
Qed.

(** X22.  What the consensus block returns is either the hard selection
    or, when the synthesizer was called and returned, the consensus
    result: with [top_k = min(consensus_topk, len(candidates))], the mode
    is [consensus_top<top_k>], the used candidates are the first [top_k]
    (in candidate order) of the candidates whose worker is among the first
    [top_k] ranking entries, and the final answer is the reply's
    [final_answer] ([""] when the reply has none).  So every used candidate
    is a current candidate that the arbiter ranked among the first [top_k],
    and there are at most [top_k] of them when [top_k] is not negative. *)
Theorem consensus_block_result (env : RunEnv) (topk : Z) (epsilon : R)
    (cs : list SolverOutput) (arb : ArbiterOutput)
    (mode : string) (used : list string) (answer : json) :
  outcome (MultiLLMOrchestrator.consensus_block env topk epsilon cs arb)
  = Ok (mode, used, answer) ->
  (mode, used, answer) = MultiLLMOrchestrator.hard_select arb
  \/ (let top_k := Z.min topk (len cs) in
      let ranked := map rk_model_id (slice_to top_k (ao_ranking arb)) in
      let top :=
        filter (fun c => str_in (model_id c) ranked = true) cs in
      invoked is_consensus_call
        (MultiLLMOrchestrator.consensus_block env topk epsilon cs arb) = true
      /\ mode = String.append "consensus_top" (str_of_int top_k)
      /\ used = map model_id (slice_to top_k top)
      /\ (forall w, In w used -> In w (map model_id cs) /\ In w ranked)
      /\ (0 <= top_k -> len used <= top_k)
      /\ exists parsed,
           consensus_reply env (slice_to top_k top) top_k = Ok parsed
           /\ dict_get parsed "final_answer" (JStr "") = Ok answer).
Proof.
  rewrite consensus_block_calls_consensus.
  unfold MultiLLMOrchestrator.consensus_block.
  destruct (ao_ranking arb) as [|first [|second rest]] eqn:Hranking;
    try (intros H; cbn in H; injection H as <- <- <-; now left).
  destruct (float_lt _ epsilon);
    [|intros H; cbn in H; injection H as <- <- <-; now left].
  pose proof (try_consensus_eval env topk cs arb) as Htry. cbv zeta in Htry.
  rewrite Hranking in Htry. rewrite Htry. clear Htry.
  set (top_k := Z.min topk (len cs)).
  set (ranked := map rk_model_id (slice_to top_k (first :: second :: rest))).
  set (top := filter (fun c => str_in (model_id c) ranked = true) cs).
  unfold try_exceptM, ConsensusSynthesizer.synthesize. cbn [outcome trace].
  destruct (consensus_reply env (slice_to top_k top) top_k)
    as [parsed|e] eqn:Hreply; cbn [mbind result_bind outcome trace];
    [|intros H; cbn in H; injection H as <- <- <-; now left].
  destruct (dict_get parsed "final_answer" (JStr "")) as [fa|e] eqn:Hfa;
    cbn [mbind result_bind outcome trace];
    [|intros H; cbn in H; injection H as <- <- <-; now left].
  destruct (dict_get parsed "synthesis_notes" (JArr [])) as [notes|e];
    cbn [mbind result_bind outcome trace cr_sources cr_final_answer];
    [|intros H; cbn in H; injection H as <- <- <-; now left].
  intros H. injection H as <- <- <-. right.
  split; [reflexivity|]. split; [reflexivity|]. split; [reflexivity|].
  split; [|split].
  - intros w (c & <- & Hc%slice_to_In)%in_map_iff.
    apply list_elem_of_In, list_elem_of_filter in Hc as [Hr Hc].
    split; [|now apply str_in_In].
    apply in_map. now apply list_elem_of_In.
  - intros Hk. unfold len. rewrite length_map. now apply slice_to_length.
  - exists parsed. auto.
Qed.

Lemma consensus_block_result_witness :
  exists mode used answer,
    outcome (MultiLLMOrchestrator.consensus_block (two_worker_env 0.91 0.85)
               3 0.07
               [candidate "solver_01" "yes"; candidate "solver_02" "no"]
               (verdict (two_worker_ranking 0.91 0.85) "solver_01" "yes"))
    = Ok (mode, used, answer)
    /\ ((mode, used, answer)
        = MultiLLMOrchestrator.hard_select
            (verdict (two_worker_ranking 0.91 0.85) "solver_01" "yes")
        \/ mode = String.append "consensus_top" (str_of_int 2)).
Proof.
  destruct (consensus_block_returns (two_worker_env 0.91 0.85) 3 0.07
              [candidate "solver_01" "yes"; candidate "solver_02" "no"]
              (verdict (two_worker_ranking 0.91 0.85) "solver_01" "yes"))
    as [[[mode used] answer] Hr].
  exists mode, used, answer. split; [exact Hr|].
  destruct (consensus_block_result _ _ _ _ _ _ _ _ Hr)
    as [Hhard|(_ & Hmode & _)]; [now left|right; exact Hmode].
Defined.

(** ** The disagreement rate at its bounds *)

Lemma size_list_to_set_le (l : list string) :
  (size (list_to_set l : gset string) <= length l)%nat.
Proof.
  induction l as [|x l IH]; [now rewrite list_to_set_nil, size_empty|].
  rewrite list_to_set_cons, size_union_alt, size_singleton. cbn [length].
  pose proof (subseteq_size (list_to_set l ∖ {[x]} : gset string)
                (list_to_set l) ltac:(apply subseteq_difference_l; reflexivity)).
  lia.
Qed.

Lemma size_list_to_set_pos (l : list string) :
  l <> [] -> (1 <= size (list_to_set l : gset string))%nat.
Proof.
  destruct l as [|x l]; [congruence|]. intros _.
  rewrite list_to_set_cons.
  pose proof (subseteq_size ({[x]} : gset string) ({[x]} ∪ list_to_set l)
                ltac:(apply union_subseteq_l)) as H.
  now rewrite size_singleton in H.
Qed.

Lemma unique_count_bounds (cs : list SolverOutput) :
  cs <> [] -> 1 <= unique_count cs <= len cs.
Proof.
  intros Hne. unfold unique_count, len.
  pose proof (size_list_to_set_le (map final_answer cs)) as Hle.
  rewrite length_map in Hle.
  pose proof (size_list_to_set_pos (map final_answer cs)) as Hpos.
  assert (map final_answer cs <> []) by (destruct cs; [congruence|discriminate]).
  specialize (Hpos H). lia.
Qed.

(** The rate of a non-empty candidate list. *)
Lemma disagreement_rate_bounds_aux (cs : list SolverOutput) :
  cs <> [] ->
  exists rate,
    MultiLLMOrchestrator.disagreement_rate cs = Ok rate
    /\ (1 / IZR (len cs) <= rate)%R
    /\ (len cs = 1 -> rate = 1%R).
Proof.
  intros Hne. pose proof (unique_count_bounds cs Hne) as [Hlo Hhi].
  pose proof (len_nonempty cs Hne) as Hlen.
  rewrite (disagreement_rate_nonempty cs Hne). eexists. split; [reflexivity|].
  assert (Hn : (0 < IZR (len cs))%R) by (apply IZR_lt in Hlen; exact Hlen).
  apply IZR_le in Hlo, Hhi.
  assert (Hinv : (0 < / IZR (len cs))%R) by now apply Rinv_0_lt_compat.
  unfold Rdiv. split.
  - apply Rmult_le_compat_r; [lra|exact Hlo].
  - intros H1. rewrite H1 in *. assert (unique_count cs = 1) as -> by
      (apply eq_IZR; lra). lra.
Qed.

(** X23.  On a non-empty candidate list the disagreement rate is computed
    without error and lies between [1 / len(candidates)] and 1: it is never
    0, even when every candidate gives the same answer, and it is exactly 1
    for a single candidate. *)
Theorem disagreement_rate_bounds (cs : list SolverOutput) :
  cs <> [] ->
  exists rate,
    MultiLLMOrchestrator.disagreement_rate cs = Ok rate
    /\ (1 / IZR (len cs) <= rate <= 1)%R
    /\ (0 < rate)%R
    /\ (len cs = 1 -> rate = 1%R).
Proof.
  intros Hne. pose proof (unique_count_bounds cs Hne) as [Hlo Hhi].
  pose proof (len_nonempty cs Hne) as Hlen.
  rewrite (disagreement_rate_nonempty cs Hne). eexists. split; [reflexivity|].
  assert (Hn : (0 < IZR (len cs))%R) by (apply IZR_lt in Hlen; exact Hlen).
  apply IZR_le in Hlo, Hhi.
  assert (Hinv : (0 < / IZR (len cs))%R) by now apply Rinv_0_lt_compat.
  unfold Rdiv. repeat split.
  - apply Rmult_le_compat_r; [lra|exact Hlo].
  - apply (Rmult_le_reg_r (IZR (len cs))); [exact Hn|].
    rewrite Rmult_assoc, Rinv_l by lra. lra.
  - apply Rmult_lt_0_compat; [lra|exact Hinv].
  - intros H1. rewrite H1 in *. assert (unique_count cs = 1) as -> by
      (apply eq_IZR; lra). lra.
Qed.

Lemma disagreement_rate_bounds_witness :
  exists rate,
    MultiLLMOrchestrator.disagreement_rate [candidate "solver_01" "yes"]
    = Ok rate
    /\ (0 < rate)%R.
Proof.
  destruct (disagreement_rate_bounds [candidate "solver_01" "yes"])
    as (rate & Hrate & _ & Hpos & _); [discriminate|].
  exists rate. auto.
Defined.

(** X24.  When the disagreement threshold is at most [1 / len(candidates)],
    an enabled rebuttal round is always called once the first two rounds
    complete.  In particular, with the default threshold 0.55, a run in
    which a single worker produced an output always goes to the rebuttal
    round, although there is nothing to disagree with. *)
Theorem lone_candidate_goes_to_rebuttal (self : MultiLLMOrchestrator.t)
    (env : RunEnv) (tid : string) (topk : Z) (epsilon : R) (threshold : R)
    (cs : list SolverOutput) (rate : R) (arb : ArbiterOutput) :
  outcome (MultiLLMOrchestrator.first_rounds env tid) = Ok (cs, rate, arb) ->
  (threshold * IZR (len cs) <= 1)%R ->
  invoked is_rebuttal_call
    (MultiLLMOrchestrator.run_single self env tid topk epsilon true threshold)
  = true
  /\ (len cs = 1 ->
      invoked is_rebuttal_call
        (MultiLLMOrchestrator.run_single self env tid topk epsilon true
           MultiLLMOrchestrator.default_disagreement_threshold) = true).
Proof.
  intros Hfirst Hthr.
  destruct (first_rounds_calls env tid) as [_ Hcs].
  destruct (Hcs cs rate arb Hfirst) as (Hne & _ & _).
  destruct (first_rounds_outcome env tid cs rate arb Hfirst)
    as (_ & Hrate & _).
  destruct (disagreement_rate_bounds_aux cs Hne) as (rate' & Hrate' & Hlo & Hone).
  assert (rate' = rate) as -> by congruence.
  pose proof (len_nonempty cs Hne) as Hlen.
  assert (Hn : (0 < IZR (len cs))%R) by (apply IZR_lt in Hlen; exact Hlen).
  split.
  - rewrite (run_single_calls_rebuttal self env tid topk epsilon true
               threshold cs rate arb Hfirst).
    cbn [andb]. apply float_ge_true. apply Rle_ge.
    apply Rle_trans with (1 / IZR (len cs))%R; [|exact Hlo].
    apply (Rmult_le_reg_r (IZR (len cs))); [exact Hn|].
    unfold Rdiv. rewrite Rmult_assoc, Rinv_l by lra. lra.
  - intros H1.
    rewrite (run_single_calls_rebuttal self env tid topk epsilon true
               MultiLLMOrchestrator.default_disagreement_threshold
               cs rate arb Hfirst).
    cbn [andb]. apply float_ge_true. rewrite (Hone H1).
    unfold MultiLLMOrchestrator.default_disagreement_threshold. lra.
Qed.

Lemma lone_candidate_goes_to_rebuttal_witness :
  invoked is_rebuttal_call
    (MultiLLMOrchestrator.run_single science (two_worker_env 0.9 0.5)
       "task_001" 3 0.07 true 0.5) = true.
Proof.
  refine (proj1 (lone_candidate_goes_to_rebuttal science
                   (two_worker_env 0.9 0.5) "task_001" 3 0.07 0.5
                   [candidate "solver_01" "yes"; candidate "solver_02" "no"]
                   1%R (verdict (two_worker_ranking 0.9 0.5) "solver_01" "yes")
                   _ _)).
  - rewrite two_worker_first_rounds. reflexivity.
  - change (IZR (len [candidate "solver_01" "yes";
                      candidate "solver_02" "no"])) with 2%R.
    lra.
Defined.

(** ** Ties between labels *)

(** [max_from] returns the first maximal entry: every entry in front of it
    has a strictly smaller count. *)
Lemma max_from_first (best : string * Z) (c : Counter.t) :
  exists c1 c2,
    best :: c = c1 ++ Counter.max_from best c :: c2
    /\ forall kv, In kv c1 -> snd kv < snd (Counter.max_from best c).
Proof.
  revert best. induction c as [|kv c IH]; intros best; cbn [Counter.max_from].
  - exists [], []. split; [reflexivity|]. intros kv [].
  - destruct (Z.ltb_spec (snd best) (snd kv)) as [Hlt|Hge].
    + destruct (IH kv) as (c1 & c2 & Hsplit & Hsmall).
      exists (best :: c1), c2. split; [cbn; now rewrite Hsplit|].
      pose proof (max_from_bounds kv c) as [Hb _].
      intros x [<-|Hx]; [lia|now apply Hsmall].
    + destruct (IH best) as (c1 & c2 & Hsplit & Hsmall).
      destruct c1 as [|b c1].
      * exists [], (kv :: c2). cbn in Hsplit. injection Hsplit as Hb Hc.
        split; [cbn; now rewrite <- Hb, Hc|]. intros x [].
      * cbn in Hsplit. injection Hsplit as <- Hc.
        exists (best :: kv :: c1), c2.
        split; [cbn [app]; do 2 f_equal; exact Hc|].
        assert (Hbest : snd best < snd (Counter.max_from best c))
          by (apply Hsmall; now left).
        intros x [<-|[<-|Hx]]; [exact Hbest|lia|apply Hsmall; now right].
Qed.

(** Counting never reorders the keys: a new label goes to the end. *)
Lemma incr_keys (c : Counter.t) (x : string) :
  map fst (Counter.incr c x)
  = map fst c ++ (if str_in x (map fst c) then [] else [x]).
Proof.
  induction c as [|[k n] c IH]; [reflexivity|].
  cbn [Counter.incr map fst]. unfold str_in in *. cbn [existsb].
  rewrite (String.eqb_sym x k).
  destruct (String.eqb k x); cbn [map fst orb].
  - now rewrite app_nil_r.
  - now rewrite IH.
Qed.

Lemma fold_incr_keys (l : list string) (c : Counter.t) :
  exists rest, map fst (fold_left Counter.incr l c) = map fst c ++ rest.
Proof.
  revert c. induction l as [|x l IH]; intros c.
  - exists []. now rewrite app_nil_r.
  - cbn [fold_left]. destruct (IH (Counter.incr c x)) as [rest Hrest].
    rewrite Hrest, incr_keys, <- app_assoc. eauto.
Qed.

Lemma of_list_keys (l : list string) (y : string) :
  In y (map fst (Counter.of_list l)) <-> In y l.
Proof.
  destruct (fold_incr_invariant l [] (Forall_nil_2 _)) as (Hpos & _ & _).
  fold (Counter.of_list l) in Hpos.
  rewrite (counter_key_counted _ y Hpos), counter_get_of_list.
  unfold occurrences. rewrite (count_occ_In string_dec). lia.
Qed.

Lemma first_occurrence (l : list string) (x : string) :
  In x l -> exists pre post, l = pre ++ x :: post /\ ~ In x pre.
Proof.
  induction l as [|y l IH]; [intros []|].
  destruct (string_dec y x) as [->|Hne].
  - intros _. exists [], l. split; [reflexivity|]. intros [].
  - intros [E|Hin]; [congruence|].
    destruct (IH Hin) as (pre & post & -> & Hpre).
    exists (y :: pre), post. split; [reflexivity|].
    intros [E|H]; [congruence|tauto].
Qed.

Lemma split_unique (k : string) (a a' b b' : list string) :
  ~ In k a -> ~ In k a' -> a ++ k :: b = a' ++ k :: b' -> a = a'.
Proof.
  revert a'. induction a as [|x a IH]; intros [|x' a'] Ha Ha' Heq;
    cbn in *; try reflexivity.
  - injection Heq as <- _. tauto.
  - injection Heq as -> _. tauto.
  - injection Heq as <- Heq. f_equal. apply (IH a'); tauto.
Qed.

(** The labels seen before the first occurrence of the dominant label are
    strictly less frequent than it. *)
Lemma dominant_first (l : list string) :
  l <> [] ->
  exists pre post,
    l = pre ++ fst (dominant l) :: post
    /\ ~ In (fst (dominant l)) pre
    /\ forall y, In y pre -> occurrences l y < occurrences l (fst (dominant l)).
Proof.
  intros Hne.
  destruct (dominant_counts l Hne) as (Hin & Hcount & _).
  destruct (first_occurrence l _ Hin) as (pre & post & Hl & Hpre).
  exists pre, post. split; [exact Hl|]. split; [exact Hpre|].
  pose proof (of_list_keys_nodup l) as Hnd.
  rewrite <- Hcount. unfold dominant in *.
  destruct (Counter.of_list l) as [|kv c] eqn:Hc.
  { exfalso. apply (of_list_keys l) in Hin. rewrite Hc in Hin. exact Hin. }
  destruct (max_from_first kv c) as (c1 & c2 & Hsplit & Hsmall).
  set (res := Counter.max_from kv c) in *.
  (* the keys in front of the dominant entry are those of [pre] *)
  assert (Hkeys : map fst c1 = map fst (Counter.of_list pre)).
  { assert (Hfold : exists rest,
              map fst (kv :: c)
              = map fst (Counter.of_list pre) ++ fst res :: rest).
    { assert (Hof : kv :: c = Counter.of_list (pre ++ fst res :: post))
        by (rewrite <- Hc; f_equal; exact Hl).
      rewrite Hof. unfold Counter.of_list.
      rewrite fold_left_app. cbn [fold_left].
      destruct (fold_incr_keys post
                  (Counter.incr (fold_left Counter.incr pre []) (fst res)))
        as [rest Hrest].
      rewrite Hrest, incr_keys.
      assert (Hnot : str_in (fst res)
                       (map fst (fold_left Counter.incr pre [])) = false).
      { destruct (str_in _ _) eqn:E; [|reflexivity].
        apply str_in_In, (of_list_keys pre) in E. tauto. }
      rewrite Hnot, <- app_assoc. eauto. }
    destruct Hfold as [rest Hfold].
    rewrite Hsplit, map_app in Hfold. cbn [map] in Hfold.
    rewrite Hsplit, map_app in Hnd. cbn [map] in Hnd.
    apply (split_unique (fst res) _ _ _ _) in Hfold; [exact Hfold| |].
    - apply NoDup_app in Hnd as (_ & Hdisj & _).
      intros Hk. apply (Hdisj (fst res)); [now apply list_elem_of_In|].
      now left.
    - intros Hk. apply (of_list_keys pre) in Hk. tauto. }
  intros y Hy.
  assert (Hy1 : In y (map fst c1))
    by (rewrite Hkeys; now apply (of_list_keys pre)).
  apply in_map_iff in Hy1 as ([y' n] & Hfst & Hentry). cbn in Hfst. subst y'.
  pose proof (Hsmall _ Hentry) as Hlt. cbn [snd] in Hlt.
  assert (Hget : counter_get (kv :: c) y = n).
  { apply counter_get_entry; [rewrite <- Hc; exact (of_list_keys_nodup l)|].
    rewrite Hsplit. apply in_app_iff. now left. }
  rewrite <- Hc, counter_get_of_list in Hget. lia.
Qed.

(** X25.  Ties go to the label seen first.  The majority mode that
    [analyze] reports, and likewise the dominant answer that [record_run]
    reports for the stopper's history, is the most frequent label whose
    first occurrence is earliest: no label is more frequent, and every
    label that occurs before its first occurrence is strictly less
    frequent. *)
Theorem majority_tie_goes_to_first (labels : list string) :
  labels <> [] ->
  exists label pre post,
    labels = pre ++ label :: post
    /\ ~ In label pre
    /\ (forall y, In y pre -> occurrences labels y < occurrences labels label)
    /\ (forall y, occurrences labels y <= occurrences labels label)
    /\ (forall results,
          map ro_decision_mode results = labels ->
          exists r,
            StabilityAnalyzer.analyze results = Ok r
            /\ majority_mode r = Some label)
    /\ (forall st answer,
          EarlyStopper.run_history st
          ++ [EarlyStopper._get_answer_signature answer] = labels ->
          exists st' d,
            EarlyStopper.record_run st answer = Ok (st', d)
            /\ EarlyStopper.run_history st' = labels
            /\ dominant_answer d = Some label).
Proof.
  intros Hne.
  destruct (dominant_first labels Hne) as (pre & post & Hsplit & Hpre & Hlt).
  destruct (dominant_counts labels Hne) as (_ & Hcount & Hmax).
  exists (fst (dominant labels)), pre, post.
  split; [exact Hsplit|]. split; [exact Hpre|]. split; [exact Hlt|].
  split; [|split].
  - intros y. rewrite <- Hcount. apply Hmax.
  - intros results Hmodes.
    assert (Hres : results <> []).
    { intros ->. cbn in Hmodes. congruence. }
    pose proof (analyze_eval results Hres) as Hr. cbv zeta in Hr.
    rewrite Hmodes in Hr. eexists. split; [exact Hr|reflexivity].
  - intros st answer Hhist. rewrite record_run_spec.
    eexists _, _. split; [reflexivity|].
    unfold next_state, next_decision, next_history.
    cbn [EarlyStopper.run_history dominant_answer]. rewrite Hhist. auto.
Qed.

Lemma majority_tie_goes_to_first_witness :
  exists label pre post,
    ["hard_select"; "consensus_top2"; "consensus_top2"; "hard_select"]%string
    = pre ++ label :: post
    /\ ~ In label pre.
Proof.
  destruct (majority_tie_goes_to_first
              ["hard_select"; "consensus_top2"; "consensus_top2";
               "hard_select"]%string)
    as (label & pre & post & Hsplit & Hpre & _); [discriminate|].
  exists label, pre, post. auto.
Defined.

(** ** Unwrapping a fenced reply *)

Lemma str_app_nil (t : string) : EmptyString +:+ t = t.
Proof. reflexivity. Qed.

Lemma str_app_cons (c : ascii) (s t : string) :
  String c s +:+ t = String c (s +:+ t).
Proof. reflexivity. Qed.

Lemma str_app_assoc (s1 s2 s3 : string) :
  (s1 +:+ s2) +:+ s3 = s1 +:+ (s2 +:+ s3).
Proof.
  induction s1 as [|c s1 IH]; [reflexivity|].
  rewrite !str_app_cons. f_equal. exact IH.
Qed.

Lemma str_length_app (s t : string) :
  String.length (s +:+ t) = (String.length s + String.length t)%nat.
Proof.
  induction s as [|c s IH]; [reflexivity|].
  rewrite str_app_cons. cbn [String.length Nat.add]. f_equal. exact IH.
Qed.

Lemma substring_all (s : string) : String.substring 0 (String.length s) s = s.
Proof.
  induction s as [|c s IH]; cbn [String.length String.substring];
    [reflexivity|].
  f_equal. exact IH.
Qed.

Lemma substring_app (s t : string) :
  String.substring 0 (String.length s) (s +:+ t) = s.
Proof.
  induction s as [|c s IH].
  - rewrite str_app_nil. now destruct t.
  - rewrite str_app_cons. cbn [String.length String.substring].
    f_equal. exact IH.
Qed.

Lemma str_drop_last_app (s t : string) :
  str_drop_last (String.length t) (s +:+ t) = s.
Proof.
  unfold str_drop_last. rewrite str_length_app.
  replace (String.length s + String.length t - String.length t)%nat
    with (String.length s) by lia.
  apply substring_app.
Qed.

Lemma lstrip_blank (ws s : string) :
  is_blank ws = true -> lstrip (ws +:+ s) = lstrip s.
Proof.
  induction ws as [|c ws IH]; [reflexivity|].
  cbn [is_blank]. intros [Hc Hws]%andb_true_iff.
  rewrite str_app_cons. cbn [lstrip]. rewrite Hc. now apply IH.
Qed.

Lemma rstrip_blank_only (ws : string) :
  is_blank ws = true -> rstrip ws = EmptyString.
Proof.
  induction ws as [|c ws IH]; [reflexivity|].
  cbn [is_blank]. intros [Hc Hws]%andb_true_iff.
  now rewrite rstrip_cons, (IH Hws), Hc.
Qed.

Lemma rstrip_blank (s ws : string) :
  is_blank ws = true -> rstrip (s +:+ ws) = rstrip s.
Proof.
  intros Hws. induction s as [|c s IH].
  - rewrite str_app_nil. now apply rstrip_blank_only.
  - rewrite str_app_cons, !rstrip_cons, IH. reflexivity.
Qed.

Lemma rstrip_solid_end (s : string) (b : ascii) :
  is_space b = false ->
  rstrip (s +:+ String b EmptyString) = s +:+ String b EmptyString.
Proof.
  intros Hb. induction s as [|c s IH].
  - rewrite str_app_nil, rstrip_cons. cbn [rstrip]. now rewrite Hb.
  - rewrite str_app_cons, rstrip_cons, IH.
    destruct s; reflexivity.
Qed.

(** Stripping a text with solid ends, padded with whitespace. *)
Lemma str_strip_padded (w0 w1 mid : string) (a b : ascii) :
  is_blank w0 = true -> is_blank w1 = true ->
  is_space a = false -> is_space b = false ->
  str_strip (w0 +:+ String a (mid +:+ String b EmptyString) +:+ w1)
  = String a (mid +:+ String b EmptyString).
Proof.
  intros H0 H1 Ha Hb. unfold str_strip.
  rewrite (lstrip_blank w0 _ H0).
  rewrite str_app_cons. cbn [lstrip]. rewrite Ha.
  rewrite <- str_app_cons, (rstrip_blank _ w1 H1).
  rewrite <- str_app_cons. now apply rstrip_solid_end.
Qed.

Lemma str_app_nil_r (s : string) : s +:+ EmptyString = s.
Proof.
  induction s as [|c s IH]; [reflexivity|].
  rewrite str_app_cons. f_equal. exact IH.
Qed.

Lemma str_strip_solid (mid : string) (a b : ascii) :
  is_space a = false -> is_space b = false ->
  str_strip (String a (mid +:+ String b EmptyString))
  = String a (mid +:+ String b EmptyString).
Proof.
  intros Ha Hb.
  pose proof (str_strip_padded EmptyString EmptyString mid a b
                eq_refl eq_refl Ha Hb) as H.
  now rewrite str_app_nil, str_app_nil_r in H.
Qed.

Lemma endswith_app (s suffix : string) : endswith suffix (s +:+ suffix) = true.
Proof.
  induction s as [|c s IH].
  - rewrite str_app_nil. destruct suffix; cbn [endswith];
      now rewrite String.eqb_refl.
  - rewrite str_app_cons. cbn [endswith]. rewrite IH. apply orb_true_r.
Qed.

(** A text that does not end with a backquote does not end with a fence. *)
Lemma endswith_fence_false (s : string) (b : ascii) :
  b <> "`"%char -> endswith "```" (s +:+ String b EmptyString) = false.
Proof.
  intros Hb.
  assert (Hneq : forall t, t +:+ String b EmptyString <> "```"%string).
  { intros [|c1 [|c2 [|c3 [|c4 t]]]]; rewrite ?str_app_cons, ?str_app_nil;
      intros H; injection H; intros; subst; try congruence;
      try discriminate. }
  induction s as [|c s IH].
  - rewrite str_app_nil. cbn [endswith]. rewrite orb_false_r.
    apply String.eqb_neq. apply (Hneq EmptyString).
  - rewrite str_app_cons. cbn [endswith]. rewrite IH, orb_false_r.
    apply String.eqb_neq. rewrite <- str_app_cons. apply Hneq.
Qed.

Lemma blank_not_backquote (c : ascii) : is_space c = true -> c <> "`"%char.
Proof. intros Hc ->. discriminate Hc. Qed.

(** A text that starts with whitespace, a brace or a bracket starts with
    no fence. *)
Lemma startswith_fence_false (w s : string) (a : ascii) (p : string) :
  is_blank w = true -> (a = "{" \/ a = "[")%char ->
  p = "```"%string \/ p = "```json"%string ->
  startswith p (w +:+ String a s) = false.
Proof.
  intros Hw Ha Hp. unfold startswith.
  destruct w as [|c w].
  - rewrite str_app_nil. destruct Ha as [->| ->], Hp as [->| ->]; reflexivity.
  - cbn [is_blank] in Hw. apply andb_true_iff in Hw as [Hc _].
    apply blank_not_backquote in Hc. rewrite str_app_cons.
    destruct Hp as [->| ->]; cbn [String.prefix];
      destruct (ascii_dec "`" c); congruence.
Qed.

Lemma opens_solid (a : ascii) : (a = "{" \/ a = "[")%char -> is_space a = false.
Proof. intros [->| ->]; reflexivity. Qed.

Lemma closes_solid (b : ascii) :
  (b = "}" \/ b = "]")%char -> is_space b = false /\ b <> "`"%char.
Proof. intros [->| ->]; split; (reflexivity || discriminate). Qed.

Lemma str_drop_prefix (p s : string) : str_drop (String.length p) (p +:+ s) = s.
Proof.
  unfold str_drop. rewrite str_length_app.
  replace (String.length p + String.length s - String.length p)%nat
    with (String.length s) by lia.
  induction p as [|c p IH].
  - rewrite str_app_nil. apply substring_all.
  - rewrite str_app_cons. cbn [String.length String.substring]. exact IH.
Qed.

Lemma startswith_app (p s : string) : startswith p (p +:+ s) = true.
Proof.
  unfold startswith. induction p as [|c p IH];
    [rewrite str_app_nil; now destruct s|].
  rewrite str_app_cons. cbn [String.prefix].
  destruct (ascii_dec c c); [exact IH|congruence].
Qed.

(** The two fenced forms, already stripped of the outer whitespace. *)
Lemma unwrap_fenced (opening w1 w2 body : string) :
  opening = "```"%string \/ opening = "```json"%string ->
  json_delimited body ->
  is_blank w1 = true -> is_blank w2 = true ->
  strip_fences (opening +:+ w1 +:+ body +:+ w2 +:+ "```") = body.
Proof.
  intros Hopen (a & mid & b & Hbody & Ha & Hb) H1 H2.
  destruct (closes_solid b Hb) as [Hbs Hbq].
  pose proof (opens_solid a Ha) as Has.
  set (inner := w1 +:+ body +:+ w2).
  assert (Hinner : w1 +:+ body +:+ w2 +:+ "```" = inner +:+ "```").
  { unfold inner. now rewrite !str_app_assoc. }
  rewrite Hinner.
  assert (Hstart : forall p, p = "```"%string \/ p = "```json"%string ->
            startswith p (inner +:+ "```") = false).
  { intros p Hp. unfold inner. rewrite Hbody, str_app_assoc, !str_app_cons.
    now apply startswith_fence_false. }
  assert (Hend : str_drop_last 3 (inner +:+ "```") = inner)
    by apply (str_drop_last_app inner "```").
  assert (Hstrip : str_strip inner = body).
  { unfold inner. rewrite Hbody. now apply str_strip_padded. }
  assert (Houter : str_strip (opening +:+ inner +:+ "```")
                   = opening +:+ inner +:+ "```").
  { assert (Hshape : exists m,
              opening +:+ inner +:+ "```"
              = String "`" (m +:+ String "`" EmptyString)).
    { exists (match opening with
              | String _ rest => rest
              | EmptyString => EmptyString
              end +:+ inner +:+ "``").
      destruct Hopen as [->| ->]; rewrite !str_app_cons, !str_app_assoc;
        reflexivity. }
    destruct Hshape as [m ->].
    apply (str_strip_solid m "`" "`" eq_refl eq_refl). }
  unfold strip_fences. rewrite Houter.
  destruct Hopen as [->| ->].
  - assert (H7 : startswith "```json" ("```" +:+ inner +:+ "```") = false).
    { unfold inner, startswith. rewrite Hbody.
      destruct w1 as [|c w1].
      - rewrite str_app_nil. destruct Ha as [->| ->]; reflexivity.
      - cbn [is_blank] in H1. apply andb_true_iff in H1 as [Hc _].
        rewrite !str_app_cons, str_app_nil. cbn [String.prefix].
        destruct (ascii_dec "`" "`"); [|congruence].
        destruct (ascii_dec "j" c) as [<-|]; [discriminate Hc|reflexivity]. }
    rewrite H7, (startswith_app "```"), (str_drop_prefix "```").
    rewrite endswith_app, Hend. exact Hstrip.
  - rewrite (startswith_app "```json"), (str_drop_prefix "```json").
    rewrite (Hstart "```"%string) by now left.
    rewrite endswith_app, Hend. exact Hstrip.
Qed.

(** The clean-up sees its input only through the first [strip]. *)
Lemma strip_fences_strip (raw raw' : string) :
  str_strip raw = str_strip raw' -> strip_fences raw = strip_fences raw'.
Proof. unfold strip_fences. now intros ->. Qed.

(** X26.  [safe_parse_json] unwraps a fenced reply: for the text of a JSON
    object or array (it opens with a brace or a bracket and closes with
    one), surrounded by any whitespace, the string handed to [json.loads]
    is that text itself, whether the reply is bare, wrapped between
    [```json] and [```], or wrapped between [```] and [```]; so all three
    forms parse to the same value or raise [ValueError] together. *)
Theorem safe_parse_json_unwraps (loads : string -> option json)
    (body w0 w1 w2 w3 : string) :
  json_delimited body ->
  is_blank w0 = true -> is_blank w1 = true ->
  is_blank w2 = true -> is_blank w3 = true ->
  let bare := w0 +:+ body +:+ w3 in
  let fenced := w0 +:+ ("```" +:+ w1 +:+ body +:+ w2 +:+ "```") +:+ w3 in
  let tagged := w0 +:+ ("```json" +:+ w1 +:+ body +:+ w2 +:+ "```") +:+ w3 in
  strip_fences bare = body
  /\ strip_fences fenced = body
  /\ strip_fences tagged = body
  /\ safe_parse_json loads fenced = safe_parse_json loads bare
  /\ safe_parse_json loads tagged = safe_parse_json loads bare
  /\ safe_parse_json loads bare
     = match loads body with
       | Some parsed => Ok parsed
       | None => Raise (ValueError "Failed to parse JSON")
       end.
Proof.
  intros Hbody H0 H1 H2 H3. cbv zeta.
  assert (Hbare : strip_fences (w0 +:+ body +:+ w3) = body).
  { destruct Hbody as (a & mid & b & -> & Ha & Hb).
    destruct (closes_solid b Hb) as [Hbs Hbq].
    pose proof (opens_solid a Ha) as Has.
    unfold strip_fences.
    rewrite (str_strip_padded w0 w3 mid a b H0 H3 Has Hbs).
    pose proof (startswith_fence_false EmptyString
                  (mid +:+ String b EmptyString) a "```json" eq_refl Ha
                  (or_intror eq_refl)) as H7.
    pose proof (startswith_fence_false EmptyString
                  (mid +:+ String b EmptyString) a "```" eq_refl Ha
                  (or_introl eq_refl)) as H3'.
    rewrite str_app_nil in H7, H3'. rewrite H7, H3'.
    pose proof (endswith_fence_false (String a mid) b Hbq) as Hend.
    rewrite str_app_cons in Hend. rewrite Hend.
    apply (str_strip_solid mid a b Has Hbs). }
  assert (Hwrapped : forall opening,
            opening = "```"%string \/ opening = "```json"%string ->
            strip_fences
              (w0 +:+ (opening +:+ w1 +:+ body +:+ w2 +:+ "```") +:+ w3)
            = body).
  { intros opening Hopen.
    pose proof (unwrap_fenced opening w1 w2 body Hopen Hbody H1 H2) as Hun.
    set (block := opening +:+ w1 +:+ body +:+ w2 +:+ "```") in *.
    assert (Hblock : exists mid,
              block = String "`" (mid +:+ String "`" EmptyString)).
    { unfold block.
      exists (match opening with
              | String _ rest => rest
              | EmptyString => EmptyString
              end +:+ w1 +:+ body +:+ w2 +:+ "``").
      destruct Hopen as [->| ->]; cbn [String.append];
        rewrite !str_app_assoc; reflexivity. }
    destruct Hblock as [mid Hmid].
    rewrite <- Hun. apply strip_fences_strip. rewrite Hmid.
    rewrite (str_strip_padded w0 w3 mid "`" "`" H0 H3 eq_refl eq_refl).
    symmetry. apply (str_strip_solid mid "`" "`" eq_refl eq_refl). }
  pose proof (Hwrapped "```"%string (or_introl eq_refl)) as Hfenced.
  pose proof (Hwrapped "```json"%string (or_intror eq_refl)) as Htagged.
  unfold safe_parse_json. rewrite Hbare, Hfenced, Htagged.
  repeat split; reflexivity.
Qed.

Lemma safe_parse_json_unwraps_witness :
  strip_fences
    (String "010" ("```json" +:+ String "010" "{}" +:+ String "010" "```"))
  = "{}"%string.
Proof.
  refine (proj1 (proj2 (proj2 (safe_parse_json_unwraps (fun _ => None)
            "{}" (String "010" EmptyString) (String "010" EmptyString)
            (String "010" EmptyString) EmptyString _ _ _ _ _)))).
  - exists "{"%char, EmptyString, "}"%char. auto.
  - reflexivity.
  - reflexivity.
  - reflexivity.
  - reflexivity.
Defined.

(** ** Unanimous answers *)

(** One more run with the same signature. *)
Lemma unanimous_step (sig : string) (st : EarlyStopper.t) (answer : string) :
  unanimous_state sig st ->
  EarlyStopper._get_answer_signature answer = sig ->
  let n := len (EarlyStopper.run_history st) + 1 in
  unanimous_state sig (next_state st answer)
  /\ len (EarlyStopper.run_history (next_state st answer)) = n
  /\ dominant_answer (next_decision st answer) = Some sig
  /\ dominant_count (next_decision st answer) = n
  /\ current_run (next_decision st answer) = n
  /\ convergence_score (next_decision st answer) = 1%R
  /\ should_stop (next_decision st answer)
     = fst (stopping_rule (EarlyStopper.config st) n
              (fst (wilson_interval n n)) 1 n).
Proof.
  intros (Hall & Hstreak & Hlast) Hsig. cbv zeta.
  set (h := next_history st answer).
  assert (Hh : Forall (eq sig) h).
  { unfold h, next_history. rewrite Hsig. apply Forall_app. split; [exact Hall|].
    now constructor. }
  assert (Hne : h <> []).
  { unfold h, next_history. intros H. now apply app_eq_nil in H as [_ H]. }
  assert (Hlen : len h = len (EarlyStopper.run_history st) + 1).
  { unfold h, next_history, len. rewrite length_app. cbn [length]. lia. }
  assert (Hdom : dominant h = (sig, len h)).
  { unfold dominant. now rewrite (of_list_constant sig h Hne Hh). }
  assert (Hnext : fst (next_streak st sig) = len h
                  /\ snd (next_streak st sig) = Some sig).
  { unfold next_streak. destruct (decide _) as [E|E]; cbn [fst snd].
    - split; [lia|now symmetry].
    - split; [|reflexivity].
      destruct (EarlyStopper.run_history st) as [|x l] eqn:Hhist.
      + rewrite Hlen. reflexivity.
      + exfalso. apply E. symmetry. apply Hlast. discriminate. }
  destruct Hnext as [Hs Hl].
  pose proof (len_nonempty h Hne) as Hpos.
  assert (Hconv : (IZR (len h) / IZR (len h))%R = 1%R).
  { apply IZR_lt in Hpos. field. lra. }
  unfold next_state, next_decision. fold h. rewrite Hdom. cbn [fst snd].
  cbn [EarlyStopper.run_history EarlyStopper.stability_streak
       EarlyStopper.last_dominant dominant_answer dominant_count current_run
       convergence_score should_stop].
  rewrite Hs, Hconv, <- Hlen.
  repeat split; try assumption; try reflexivity.
  intros _. exact Hl.
Qed.

Lemma unanimous_runs (sig : string) (answers : list string)
    (st : EarlyStopper.t) (dec : option StoppingDecision) :
  unanimous_state sig st ->
  Forall (fun a => EarlyStopper._get_answer_signature a = sig) answers ->
  answers <> [] ->
  let n := len (EarlyStopper.run_history st) + len answers in
  exists st' d,
    record_runs st answers dec = Ok (st', Some d)
    /\ EarlyStopper.stability_streak st' = n
    /\ dominant_answer d = Some sig
    /\ dominant_count d = n
    /\ current_run d = n
    /\ convergence_score d = 1%R
    /\ should_stop d
       = fst (stopping_rule (EarlyStopper.config st) n
                (fst (wilson_interval n n)) 1 n).
Proof.
  revert st dec. induction answers as [|a rest IH]; intros st dec Hst Hall Hne;
    [congruence|].
  apply Forall_cons_1 in Hall as [Ha Hrest].
  destruct (unanimous_step sig st a Hst Ha)
    as (Hst' & Hlen & Hdom & Hcount & Hrun & Hconv & Hstop).
  cbn [record_runs]. rewrite record_run_spec. cbn [mbind result_bind].
  destruct rest as [|b rest'].
  - cbn [record_runs]. exists (next_state st a), (next_decision st a).
    change (len [a]) with 1. split; [reflexivity|].
    destruct Hst' as (_ & Hstreak & _). rewrite Hstreak, Hlen.
    repeat split; assumption.
  - destruct (IH (next_state st a) (Some (next_decision st a)) Hst' Hrest
                ltac:(discriminate))
      as (st' & d & Hruns & Hrest').
    exists st', d. split; [exact Hruns|].
    rewrite Hlen in Hrest'.
    replace (len (EarlyStopper.run_history st) + len (a :: b :: rest'))
      with (len (EarlyStopper.run_history st) + 1 + len (b :: rest'))
      by (unfold len; cbn [length]; lia).
    exact Hrest'.
Qed.

(** X27.  A fresh stopper fed answers that all have the same signature
    reports full convergence after every run, with a streak equal to the
    number of runs; if the convergence threshold is at most 1 and the
    stability window is at most [min_runs] (as in the default
    configuration), it signals stop exactly from run [min_runs] on. *)
Theorem unanimous_stops_at_floor (cfg : EarlyStoppingConfig.t)
    (answers : list string) (sig : string) :
  answers <> [] ->
  Forall (fun a => EarlyStopper._get_answer_signature a = sig) answers ->
  (EarlyStoppingConfig.convergence_threshold cfg <= 1)%R ->
  EarlyStoppingConfig.stability_window cfg
  <= EarlyStoppingConfig.min_runs cfg ->
  exists st d,
    record_runs (EarlyStopper.init cfg) answers None = Ok (st, Some d)
    /\ dominant_answer d = Some sig
    /\ dominant_count d = len answers
    /\ convergence_score d = 1%R
    /\ EarlyStopper.stability_streak st = len answers
    /\ should_stop d
       = (EarlyStoppingConfig.min_runs cfg <=? len answers).
Proof.
  intros Hne Hall Hct Hwin.
  assert (Hinit : unanimous_state sig (EarlyStopper.init cfg)).
  { repeat split; [constructor|]. intros H. now destruct H. }
  destruct (unanimous_runs sig answers (EarlyStopper.init cfg) None Hinit
              Hall Hne)
    as (st & d & Hrun & Hstreak & Hdom & Hcount & _ & Hconv & Hstop).
  cbn [EarlyStopper.init EarlyStopper.run_history EarlyStopper.config] in *.
  change (len (@nil string)) with 0 in *. rewrite Z.add_0_l in *.
  exists st, d. repeat split; try assumption.
  rewrite Hstop. unfold stopping_rule.
  destruct (Z.ltb_spec (len answers) (EarlyStoppingConfig.min_runs cfg));
    destruct (Z.leb_spec (EarlyStoppingConfig.min_runs cfg) (len answers));
    try lia; [reflexivity|].
  destruct (float_ge _ (EarlyStoppingConfig.confidence_threshold cfg));
    [reflexivity|].
  assert (Hge : float_ge 1 (EarlyStoppingConfig.convergence_threshold cfg)
                = true) by (apply float_ge_true; lra).
  rewrite Hge.
  destruct (Z.leb_spec (EarlyStoppingConfig.stability_window cfg)
              (len answers)); [reflexivity|lia].
Qed.

Lemma unanimous_stops_at_floor_witness :
  exists st d,
    record_runs (EarlyStopper.init EarlyStoppingConfig.default)
      ["Yes"; "yes "; " YES"]%string None = Ok (st, Some d)
    /\ should_stop d = true.
Proof.
  destruct (unanimous_stops_at_floor EarlyStoppingConfig.default
              ["Yes"; "yes "; " YES"]%string "yes")
    as (st & d & Hrun & _ & _ & _ & _ & Hstop).
  - discriminate.
  - repeat constructor.
  - cbn. lra.
  - cbn. lia.
  - exists st, d. split; [exact Hrun|]. rewrite Hstop. reflexivity.
Defined.

(** ** A successful rebuttal *)

Lemma solver_json_valid (answer : string) :
  valid SOLVER_SCHEMA (solver_json answer) = true.
Proof.
  apply valid_solver_schema. eexists. split; [reflexivity|].
  split; [apply has_exactly_list_to_map|].
  unfold field_is, is_string, is_string_list, is_unit_number.
  repeat split; eexists; (split; [vm_compute; reflexivity|]);
    check_field.
Qed.

(** * Properties of the code over doubles *)

Section Doubles.

Import B64.

(** ** Comparisons of doubles *)


(** Swapping the operands of a comparison swaps its outcome. *)
Lemma SFcompare_swap (a b : SpecFloat.spec_float) :
  SpecFloat.SFcompare b a = option_map CompOpp (SpecFloat.SFcompare a b).
Proof.
  destruct a as [sa|sa| |sa ma ea], b as [sb|sb| |sb mb eb];
    try reflexivity; try (now destruct sa); try (now destruct sb);
    try (now destruct sa, sb).
  cbn. rewrite (Z.compare_antisym ea eb), !Pos.compare_cont_spec.
  rewrite (Pos.compare_antisym ma mb). cbn [Pos.switch_Eq].
  destruct sa, sb; try reflexivity;
    destruct (ea ?= eb); cbn; try reflexivity;
    now destruct (ma ?= mb)%positive.
Qed.

(** Only NaN is not equal to itself. *)
Lemma SFcompare_self (a : SpecFloat.spec_float) :
  SpecFloat.SFcompare a a = None \/ SpecFloat.SFcompare a a = Some Eq.
Proof.
  destruct a as [s|s| |s m e]; cbn; auto.
  - right. now destruct s.
  - right. rewrite Z.compare_refl, Pos.compare_cont_refl. now destruct s.
Qed.

Lemma SFcompare_unordered (a b : SpecFloat.spec_float) :
  SpecFloat.SFcompare a b = None ->
  SpecFloat.SFcompare a a = None \/ SpecFloat.SFcompare b b = None.
Proof.
  destruct a as [sa|sa| |sa ma ea], b as [sb|sb| |sb mb eb];
    cbn; auto; discriminate.
Qed.

(** [x < y] is false exactly when one of the two is NaN or [y <= x]. *)
Lemma float_ltb_false (x y : float) :
  (x <? y)%float = false
  <-> is_nan x = true \/ is_nan y = true \/ (y <=? x)%float = true.
Proof.
  unfold is_nan.
  rewrite FloatAxioms.ltb_spec, FloatAxioms.leb_spec, !FloatAxioms.eqb_spec.
  unfold SpecFloat.SFltb, SpecFloat.SFleb, SpecFloat.SFeqb.
  rewrite (SFcompare_swap (FloatOps.Prim2SF x) (FloatOps.Prim2SF y)).
  destruct (SpecFloat.SFcompare (FloatOps.Prim2SF x) (FloatOps.Prim2SF y))
    as [[]|] eqn:Hxy; cbn [option_map CompOpp].
  - tauto.
  - split; [discriminate|].
    destruct (SFcompare_self (FloatOps.Prim2SF x)) as [Hx|Hx];
      destruct (SFcompare_self (FloatOps.Prim2SF y)) as [Hy|Hy];
      rewrite ?Hx, ?Hy; cbn.
    + revert Hxy. destruct (FloatOps.Prim2SF x); discriminate.
    + revert Hxy. destruct (FloatOps.Prim2SF x); discriminate.
    + revert Hxy.
      destruct (FloatOps.Prim2SF x), (FloatOps.Prim2SF y); discriminate.
    + intuition discriminate.
  - tauto.
  - split; [|reflexivity]. intros _.
    destruct (SFcompare_unordered _ _ Hxy) as [H|H]; rewrite H; cbn; tauto.
Qed.

(** A double passes the range check exactly when it is NaN or lies between
    0 and 1. *)
Lemma unit_or_nan_spec (x : float) :
  unit_or_nan x
  <-> is_nan x = true \/ ((0 <=? x)%float = true /\ (x <=? 1)%float = true).
Proof.
  unfold unit_or_nan. rewrite !float_ltb_false.
  change (is_nan 0) with false. change (is_nan 1) with false.
  intuition discriminate.
Qed.




(** ** The Wilson interval *)











(** With no success in 12 trials the lower bound of [WilsonCI.calculate]
    is above the rate 0. *)
Example wilson_lower_above_rate :
  exists lo hi,
    WilsonCI.calculate 0 12 default_confidence = Ok (lo, hi)
    /\ int_truediv 0 12 = Ok 0%float
    /\ (0 <? lo)%float = true.
Proof. eexists _, _. repeat split; vm_compute; reflexivity. Qed.

(** The two functions disagree in the last place already on one success in
    one trial. *)
Example wilson_functions_differ :
  WilsonCI.calculate 1 1 default_confidence
  = Ok (0.2065432914738929, 1)%float
  /\ EarlyStopper._wilson_ci 1 1 default_confidence
     = Ok (0.20654329147389294, 1)%float
  /\ (0.2065432914738929 <? 0.20654329147389294)%float = true.
Proof. repeat split; vm_compute; reflexivity. Qed.

(** The stopper's function loses the rate as well: 12 successes in 12
    trials. *)
Example wilson_ci_upper_below_rate :
  exists lo hi,
    EarlyStopper._wilson_ci 12 12 default_confidence = Ok (lo, hi)
    /\ int_truediv 12 12 = Ok 1%float
    /\ (hi <? 1)%float = true.
Proof. eexists _, _. repeat split; vm_compute; reflexivity. Qed.

(** ** The solver schema *)

Lemma of_int_0 : of_int 0 = 0%float.
Proof. reflexivity. Qed.

Lemma of_int_1 : of_int 1 = 1%float.
Proof. reflexivity. Qed.

Lemma valid_string_schema64 (v : json) :
  valid string_schema v = true <-> is_string v.
Proof.
  unfold is_string. split.
  - destruct v; cbn; try discriminate. eauto.
  - intros [s ->]. reflexivity.
Qed.

Lemma valid_string_array_schema64 (v : json) :
  valid string_array_schema v = true <-> is_string_list v.
Proof.
  unfold is_string_list. split.
  - destruct v as [| | | | |l|]; cbn; try discriminate.
    rewrite !andb_true_r. intros H. exists l. split; [reflexivity|].
    apply Forall_forall. intros x Hx%list_elem_of_In.
    rewrite forallb_forall in H. apply valid_string_schema64. now apply H.
  - intros (l & -> & Hall). cbn. rewrite !andb_true_r.
    apply forallb_forall. intros x Hx%list_elem_of_In.
    rewrite Forall_forall in Hall. apply valid_string_schema64. now apply Hall.
Qed.

(** The range check passes the ints 0 and 1 and every double that is
    neither below 0 nor above 1. *)
Lemma valid_unit_number_schema64 (v : json) :
  valid unit_number_schema v = true <-> is_unit_number v.
Proof.
  unfold unit_number_schema, valid, is_unit_number, unit_or_nan.
  destruct v as [| |n|x| | |]; cbn [has_type below above andb negb];
    try (split; [discriminate|tauto]).
  - rewrite !andb_true_iff, !negb_true_iff, !Z.ltb_ge. tauto.
  - rewrite of_int_0, of_int_1, !andb_true_iff, !negb_true_iff. tauto.
Qed.

(** The object keywords, with the property loop written as [forallb]. *)
Lemma valid_object64 (required : list string) (additional : bool)
    (properties : list (string * schema)) (m : gmap string json) :
  valid (Schema (Some TObject) required additional properties None None None)
    (JObj m)
  = forallb (fun k => bool_decide (is_Some (m !! k))) required
    && (additional
        || forallb (fun k => str_in k (map fst properties))
             (map fst (map_to_list m)))
    && forallb (fun ks => match m !! fst ks with
                          | Some v => valid (snd ks) v
                          | None => true
                          end) properties.
Proof.
  cbn. rewrite !andb_true_r. f_equal.
  induction properties as [|[k sub] ps IH]; [reflexivity|].
  cbn [forallb fst snd]. now rewrite IH.
Qed.

Lemma required_present64 (m : gmap string json) (names : list string) :
  forallb (fun k => bool_decide (is_Some (m !! k))) names = true
  <-> forall k, In k names -> is_Some (m !! k).
Proof.
  rewrite forallb_forall. split; intros H k Hk.
  - eapply bool_decide_eq_true_1. now apply H.
  - apply bool_decide_eq_true_2. now apply H.
Qed.

Lemma only_listed_keys64 (m : gmap string json) (names : list string) :
  forallb (fun k => str_in k names) (map fst (map_to_list m)) = true
  <-> forall k, is_Some (m !! k) -> In k names.
Proof.
  rewrite forallb_forall. split.
  - intros H k [v Hv]. apply str_in_In, H.
    apply in_map_iff. exists (k, v). split; [reflexivity|].
    apply list_elem_of_In, elem_of_map_to_list. exact Hv.
  - intros H k Hk. apply str_in_In, H.
    apply in_map_iff in Hk as ([k' v] & <- & Hin).
    apply list_elem_of_In, elem_of_map_to_list in Hin. now exists v.
Qed.

(** A present, required property passes its sub-schema. *)
Lemma property_check64 (m : gmap string json) (k : string) (sub : schema)
    (P : json -> Prop) :
  (forall v, valid sub v = true <-> P v) ->
  is_Some (m !! k) ->
  (match m !! k with Some v => valid sub v | None => true end = true
   <-> field_is m k P).
Proof.
  intros Hsub [v Hv]. unfold field_is. rewrite Hv. split.
  - intros H. exists v. split; [reflexivity|now apply Hsub].
  - intros (v' & [= <-] & HP). now apply Hsub.
Qed.

(** [SOLVER_SCHEMA] accepts exactly the objects of the solver contract. *)
Lemma valid_solver_schema64 (obj : json) :
  valid SOLVER_SCHEMA obj = true <-> solver_contract obj.
Proof.
  unfold solver_contract. split.
  - destruct obj as [| | | | | |m]; try discriminate.
    unfold SOLVER_SCHEMA. rewrite valid_object64.
    rewrite !andb_true_iff. cbn [orb].
    intros [[Hreq Hadd] Hprops].
    rewrite required_present64 in Hreq. rewrite only_listed_keys64 in Hadd.
    change (map fst _) with solver_fields in Hadd.
    exists m. split; [reflexivity|]. split.
    { intros k. split; [apply Hadd|apply Hreq]. }
    cbn [forallb fst snd] in Hprops. rewrite !andb_true_iff in Hprops.
    destruct Hprops as (H1 & H2 & H3 & H4 & H5 & H6 & H7 & H8 & _).
    repeat split;
      (eapply property_check64;
       [first [apply valid_string_schema64
              | apply valid_string_array_schema64
              | apply valid_unit_number_schema64]
       | apply Hreq; cbn; tauto
       | eassumption]).
  - intros (m & -> & Hex & F1 & F2 & F3 & F4 & F5 & F6 & F7 & F8).
    unfold SOLVER_SCHEMA. rewrite valid_object64.
    rewrite !andb_true_iff. cbn [orb]. split; [split|].
    + apply required_present64. intros k Hk. now apply Hex.
    + apply only_listed_keys64. intros k Hk. now apply Hex.
    + cbn [forallb fst snd]. rewrite !andb_true_iff.
      repeat split;
        (eapply property_check64;
         [first [apply valid_string_schema64
                | apply valid_string_array_schema64
                | apply valid_unit_number_schema64]
         | apply Hex; cbn; tauto
         | eassumption]).
Qed.

Lemma has_exactly_list_to_map64 (l : list (string * json)) :
  has_exactly (list_to_map l) (map fst l).
Proof.
  intros k. rewrite <- elem_of_dom, dom_list_to_map_L, elem_of_list_to_set.
  apply list_elem_of_In.
Qed.

(** C9, as the code has it.  [validate_solver_json] accepts exactly the JSON
    objects that carry the eight fields of [SOLVER_SCHEMA] and nothing else:
    [model_id], [task_id] and [final_answer] strings, [confidence] a number
    that is neither below 0 nor above 1 (the int 0 or 1, a double between 0
    and 1, or NaN), and [assumptions], [risks], [evidence], [self_checks]
    lists of strings.  An object with only the six contract fields is
    rejected. *)
Theorem validate_solver_json_accepts (obj : json) :
  (validate_solver_json obj = Ok tt <-> solver_contract obj)
  /\ (forall m, obj = JObj m -> has_exactly m contract_fields ->
      validate_solver_json obj <> Ok tt).
Proof.
  assert (Hiff : validate_solver_json obj = Ok tt <-> solver_contract obj).
  { rewrite <- valid_solver_schema64. unfold validate_solver_json.
    destruct (valid SOLVER_SCHEMA obj); split; congruence. }
  split; [exact Hiff|].
  intros m -> Hsix Hok. apply Hiff in Hok as (m' & [= <-] & Hall & _).
  assert (Hin : In "model_id"%string contract_fields).
  { apply Hsix, Hall. cbn. tauto. }
  cbn in Hin. intuition discriminate.
Qed.

(** Decides [is_string], [is_unit_number] and [is_string_list] on a
    literal. *)
Ltac check_field64 :=
  first
    [ eexists; reflexivity
    | split; reflexivity
    | eexists; split;
      [reflexivity|repeat constructor; eexists; reflexivity] ].

(** C9 fails on both sides.  The reply with exactly the six fields
    [final_answer], [confidence], [assumptions], [risks], [evidence] and
    [self_checks], all of the right kind, is rejected; and the reply of
    eight fields whose confidence is NaN, which is no number of [[0,1]], is
    accepted. *)
Lemma six_field_reply_rejected :
  ((exists m,
      six_field_reply = JObj m
      /\ has_exactly m contract_fields
      /\ field_is m "final_answer" is_string
      /\ field_is m "confidence" is_unit_number
      /\ field_is m "assumptions" is_string_list
      /\ field_is m "risks" is_string_list
      /\ field_is m "evidence" is_string_list
      /\ field_is m "self_checks" is_string_list)
   /\ validate_solver_json six_field_reply
      = Raise (ValueError "Solver JSON validation error"))
  /\ (validate_solver_json (reply_with_confidence (JFloat nan)) = Ok tt
      /\ (0 <=? nan)%float = false /\ (nan <=? 1)%float = false).
Proof.
  split; [split|]; [|vm_compute; reflexivity
                    |repeat split; vm_compute; reflexivity].
  eexists. split; [reflexivity|].
  split; [apply has_exactly_list_to_map64|].
  unfold field_is, is_string, is_string_list.
  repeat split; eexists; (split; [vm_compute; reflexivity|]);
    check_field64.
Qed.

(** The reply of the repository's schema test is accepted, and so are the
    ints 0 and 1 as confidence; an infinite confidence and one above 1 are
    rejected. *)
Example confidence_values :
  validate_solver_json eight_field_reply = Ok tt
  /\ validate_solver_json (reply_with_confidence (JInt 1)) = Ok tt
  /\ validate_solver_json (reply_with_confidence (JFloat infinity))
     = Raise (ValueError "Solver JSON validation error")
  /\ validate_solver_json (reply_with_confidence (JFloat 1.5))
     = Raise (ValueError "Solver JSON validation error")
  /\ validate_solver_json (reply_with_confidence (JBool true))
     = Raise (ValueError "Solver JSON validation error").
Proof. repeat split; vm_compute; reflexivity. Qed.


(** ** Which components a single run calls *)

Lemma bindM_ok64 {A B : Type} (m : M A) (k : A -> M B) (a : A) :
  outcome m = Ok a ->
  m ≫= k = mkM (trace m ++ trace (k a)) (outcome (k a)).
Proof. intros H. unfold mbind, M_bind. now rewrite H. Qed.

Lemma invoked_bind64 {A B : Type} (p : Event -> bool) (m : M A)
    (k : A -> M B) :
  invoked p (m ≫= k)
  = invoked p m
    || match outcome m with
       | Ok a => invoked p (k a)
       | Raise _ => false
       end.
Proof.
  unfold invoked, mbind, M_bind.
  destruct (outcome m) as [a|e]; cbn [trace].
  - apply existsb_app.
  - now rewrite orb_false_r.
Qed.

Lemma for_each_quiet64 {A : Type} (p : Event -> bool) (l : list A)
    (body : A -> M unit) :
  (forall x, invoked p (body x) = false) ->
  invoked p (for_each l body) = false.
Proof.
  intros Hbody. induction l as [|x l IH]; [reflexivity|].
  cbn [for_each]. rewrite invoked_bind64, Hbody.
  destruct (outcome (body x)); [exact IH|reflexivity].
Qed.

Section Quiet64.

Variable p : Event -> bool.
Hypothesis p_solver_pool : p CallSolverPool = false.
Hypothesis p_arbiter : forall cs, p (CallArbiter cs) = false.
Hypothesis p_reliability : forall w r, p (UpdateReliability w r) = false.
Hypothesis p_record : forall r, p (WriteRunRecord r) = false.

Lemma first_rounds_quiet64 (env : RunEnv) (tid : string) :
  invoked p (MultiLLMOrchestrator.first_rounds env tid) = false.
Proof.
  unfold MultiLLMOrchestrator.first_rounds, invoked, mbind, M_bind, emit, lift.
  cbn [outcome trace].
  destruct (MultiLLMOrchestrator.disagreement_rate _); cbn;
    rewrite ?p_solver_pool; [|reflexivity].
  destruct (arbiter_rank env 0 _) as [arb|]; cbn; rewrite ?p_arbiter;
    [|reflexivity].
  destruct (index0 (ao_ranking arb)); cbn; rewrite ?p_arbiter; reflexivity.
Qed.

Lemma bookkeeping_quiet64 (self : MultiLLMOrchestrator.t) (env : RunEnv)
    (tid : string) (cs : list SolverOutput) (arb : ArbiterOutput) (round : Z)
    (rate : float) (mode : string) (used : list string) (answer : json) :
  invoked p (MultiLLMOrchestrator.bookkeeping self env tid cs arb round rate
               mode used answer) = false.
Proof.
  unfold MultiLLMOrchestrator.bookkeeping.
  rewrite invoked_bind64, for_each_quiet64.
  2:{ intros x. cbn. now rewrite p_reliability. }
  destruct (outcome (for_each used _)); [|reflexivity].
  rewrite invoked_bind64, for_each_quiet64.
  2:{ intros x. destruct (str_in _ _); cbn; now rewrite ?p_reliability. }
  destruct (outcome (for_each cs _)); [|reflexivity].
  rewrite invoked_bind64, for_each_quiet64.
  2:{ intros [i c]. unfold invoked, mbind, M_bind, lift, emit. cbn.
      destruct (truncate_answer answer); cbn; now rewrite ?p_record. }
  destruct (outcome (for_each _ _)); reflexivity.
Qed.

End Quiet64.

Lemma rebuttal_block_calls_rebuttal64 (env : RunEnv) (tid : string)
    (enable : bool) (threshold : float) (cs : list SolverOutput)
    (rate : float) (arb : ArbiterOutput) :
  invoked is_rebuttal_call
    (MultiLLMOrchestrator.rebuttal_block env tid enable threshold cs rate arb)
  = enable && float_ge rate threshold.
Proof.
  unfold MultiLLMOrchestrator.rebuttal_block.
  destruct (enable && float_ge rate threshold); reflexivity.
Qed.

Lemma rebuttal_block_no_consensus64 (env : RunEnv) (tid : string)
    (enable : bool) (threshold : float) (cs : list SolverOutput)
    (rate : float) (arb : ArbiterOutput) :
  invoked is_consensus_call
    (MultiLLMOrchestrator.rebuttal_block env tid enable threshold cs rate arb)
  = false.
Proof.
  unfold MultiLLMOrchestrator.rebuttal_block.
  destruct (enable && float_ge rate threshold); [|reflexivity].
  unfold invoked, mbind, M_bind, emit, lift. cbn [outcome trace].
  destruct (MultiLLMOrchestrator.disagreement_rate _); cbn; [|reflexivity].
  destruct (arbiter_rank env 1 _); reflexivity.
Qed.

(** The test of the consensus block on the current ranking. *)
Lemma consensus_block_calls_consensus64 (env : RunEnv) (topk : Z)
    (epsilon : float) (cs : list SolverOutput) (arb : ArbiterOutput) :
  invoked is_consensus_call
    (MultiLLMOrchestrator.consensus_block env topk epsilon cs arb)
  = match ao_ranking arb with
    | first :: second :: _ =>
        float_lt (rk_score first - rk_score second) epsilon
    | _ => false
    end.
Proof.
  unfold MultiLLMOrchestrator.consensus_block.
  destruct (ao_ranking arb) as [|first [|second rest]]; try reflexivity.
  destruct (float_lt _ epsilon); [|reflexivity].
  unfold try_exceptM, MultiLLMOrchestrator.try_consensus, invoked,
    mbind, M_bind, emit, lift. cbn [outcome trace].
  destruct (ConsensusSynthesizer.synthesize _ _ _); reflexivity.
Qed.

Lemma consensus_block_no_rebuttal64 (env : RunEnv) (topk : Z)
    (epsilon : float) (cs : list SolverOutput) (arb : ArbiterOutput) :
  invoked is_rebuttal_call
    (MultiLLMOrchestrator.consensus_block env topk epsilon cs arb) = false.
Proof.
  unfold MultiLLMOrchestrator.consensus_block.
  destruct (ao_ranking arb) as [|first [|second rest]]; try reflexivity.
  destruct (float_lt _ epsilon); [|reflexivity].
  unfold try_exceptM, MultiLLMOrchestrator.try_consensus, invoked,
    mbind, M_bind, emit, lift. cbn [outcome trace].
  destruct (ConsensusSynthesizer.synthesize _ _ _); reflexivity.
Qed.

(** In a run whose first two rounds complete, the rebuttal round is called
    exactly when it is enabled and the rate reaches the threshold. *)
Lemma run_single_calls_rebuttal64 (self : MultiLLMOrchestrator.t)
    (env : RunEnv) (tid : string) (topk : Z) (epsilon : float)
    (enable : bool) (threshold : float)
    (cs : list SolverOutput) (rate : float) (arb : ArbiterOutput) :
  outcome (MultiLLMOrchestrator.first_rounds env tid) = Ok (cs, rate, arb) ->
  invoked is_rebuttal_call
    (MultiLLMOrchestrator.run_single self env tid topk epsilon enable threshold)
  = enable && float_ge rate threshold.
Proof.
  intros Hfirst. unfold MultiLLMOrchestrator.run_single.
  rewrite invoked_bind64, Hfirst, first_rounds_quiet64 by reflexivity.
  cbn [orb]. rewrite invoked_bind64, rebuttal_block_calls_rebuttal64.
  destruct (outcome (MultiLLMOrchestrator.rebuttal_block _ _ _ _ _ _ _))
    as [[[[cs' arb'] round] rate']|]; [|now rewrite orb_false_r].
  rewrite invoked_bind64, consensus_block_no_rebuttal64.
  destruct (outcome (MultiLLMOrchestrator.consensus_block _ _ _ _ _))
    as [[[mode used] answer]|]; [|now rewrite orb_false_r].
  rewrite bookkeeping_quiet64 by reflexivity. now rewrite orb_false_r.
Qed.

(** In a run that gets past the rebuttal block, the consensus synthesizer is
    called exactly when the current ranking has two entries whose score
    gap, as the doubles give it, is below epsilon. *)
Lemma run_single_calls_consensus64 (self : MultiLLMOrchestrator.t)
    (env : RunEnv) (tid : string) (topk : Z) (epsilon : float)
    (enable : bool) (threshold : float)
    (cs : list SolverOutput) (rate : float) (arb : ArbiterOutput)
    (cs' : list SolverOutput) (arb' : ArbiterOutput) (round : Z)
    (rate' : float) :
  outcome (MultiLLMOrchestrator.first_rounds env tid) = Ok (cs, rate, arb) ->
  outcome (MultiLLMOrchestrator.rebuttal_block env tid enable threshold
             cs rate arb) = Ok (cs', arb', round, rate') ->
  invoked is_consensus_call
    (MultiLLMOrchestrator.run_single self env tid topk epsilon enable threshold)
  = match ao_ranking arb' with
    | first :: second :: _ =>
        float_lt (rk_score first - rk_score second) epsilon
    | _ => false
    end.
Proof.
  intros Hfirst Hblock. unfold MultiLLMOrchestrator.run_single.
  rewrite invoked_bind64, Hfirst, first_rounds_quiet64 by reflexivity.
  cbn [orb]. rewrite invoked_bind64, Hblock, rebuttal_block_no_consensus64.
  cbn [orb]. rewrite invoked_bind64, consensus_block_calls_consensus64.
  destruct (outcome (MultiLLMOrchestrator.consensus_block _ _ _ _ _))
    as [[[mode used] answer]|]; [|now rewrite orb_false_r].
  rewrite bookkeeping_quiet64 by reflexivity. now rewrite orb_false_r.
Qed.

(** What a completed pair of first rounds has computed. *)
Lemma first_rounds_outcome64 (env : RunEnv) (tid : string)
    (cs : list SolverOutput) (rate : float) (arb : ArbiterOutput) :
  outcome (MultiLLMOrchestrator.first_rounds env tid) = Ok (cs, rate, arb) ->
  cs = SolverPool.run_parallel tid (solver_futures env)
  /\ MultiLLMOrchestrator.disagreement_rate cs = Ok rate
  /\ arbiter_rank env 0 cs = Ok arb.
Proof.
  unfold MultiLLMOrchestrator.first_rounds, mbind, M_bind, emit, lift.
  cbn [outcome trace].
  destruct (MultiLLMOrchestrator.disagreement_rate _) as [r|] eqn:Hrate;
    cbn [outcome trace]; [|discriminate].
  destruct (arbiter_rank env 0 _) as [a|] eqn:Harb; cbn [outcome trace];
    [|discriminate].
  destruct (index0 (ao_ranking a)); cbn [outcome trace]; [|discriminate].
  intros [= <- <- <-]. auto.
Qed.

(** C4, as the code has it.  In a single run whose solver round and first
    arbitration complete, the Rebuttal Round is invoked if and only if
    rebuttal is enabled and the disagreement rate of the first-round
    candidates, the double [unique / n], compares [>=] to the threshold;
    and, once the rebuttal block is passed, the Consensus Synthesizer is
    invoked if and only if the current ranking has at least two entries and
    the difference of the scores of its first and second entry, as the
    subtraction of doubles gives it, compares [<] to epsilon. *)
Theorem escalation_and_tie_break (self : MultiLLMOrchestrator.t)
    (env : RunEnv) (tid : string) (topk : Z) (epsilon : float)
    (enable : bool) (threshold : float)
    (cs : list SolverOutput) (rate : float) (arb : ArbiterOutput) :
  outcome (MultiLLMOrchestrator.first_rounds env tid) = Ok (cs, rate, arb) ->
  rate = (of_int (unique_count cs) / of_int (len cs))%float
  /\ (invoked is_rebuttal_call
        (MultiLLMOrchestrator.run_single self env tid topk epsilon enable
           threshold) = true
      <-> enable = true /\ (threshold <=? rate)%float = true)
  /\ (forall cs' arb' round rate',
        outcome (MultiLLMOrchestrator.rebuttal_block env tid enable threshold
                   cs rate arb) = Ok (cs', arb', round, rate') ->
        (invoked is_consensus_call
           (MultiLLMOrchestrator.run_single self env tid topk epsilon enable
              threshold) = true
         <-> exists first second rest,
               ao_ranking arb' = first :: second :: rest
               /\ (rk_score first - rk_score second <? epsilon)%float
                  = true)).
Proof.
  intros Hfirst. split; [|split].
  - apply first_rounds_outcome64 in Hfirst as (_ & Hrate & _).
    unfold MultiLLMOrchestrator.disagreement_rate, int_truediv in Hrate.
    destruct (Z.eq_dec (len cs) 0); [discriminate|].
    now injection Hrate as <-.
  - rewrite (run_single_calls_rebuttal64 _ _ _ _ _ _ _ _ _ _ Hfirst).
    now rewrite andb_true_iff.
  - intros cs' arb' round rate' Hblock.
    rewrite (run_single_calls_consensus64 _ _ _ _ _ _ _ _ _ _ _ _ _ _
               Hfirst Hblock).
    destruct (ao_ranking arb') as [|first [|second rest]].
    + split; [discriminate|]. now intros (? & ? & ? & [=] & _).
    + split; [discriminate|]. now intros (? & ? & ? & [=] & _).
    + unfold float_lt. split.
      * intros Hgap. now exists first, second, rest.
      * now intros (? & ? & ? & [= <- <- <-] & Hgap).
Qed.

Lemma two_worker_first_rounds64 (s1 s2 : float) :
  MultiLLMOrchestrator.first_rounds (two_worker_env s1 s2) "task_001"
  = mkM [CallSolverPool;
         CallArbiter [candidate "solver_01" "yes"; candidate "solver_02" "no"]]
      (Ok ([candidate "solver_01" "yes"; candidate "solver_02" "no"], 1%float,
           verdict (two_worker_ranking s1 s2) "solver_01" "yes")).
Proof. vm_compute. reflexivity. Qed.

(** Two disagreeing workers with the scores 0.87 and 0.80 and the default
    settings: the rate 1.0 reaches 0.55, and the doubles give the gap
    0.06999999999999995, below the double 0.07, so that both the rebuttal
    round and the consensus synthesizer are called. *)
Lemma escalation_and_tie_break_witness :
  invoked is_rebuttal_call
    (MultiLLMOrchestrator.run_single science (two_worker_env 0.87 0.80)
       "task_001" 3 0.07 true 0.55) = true
  /\ invoked is_consensus_call
       (MultiLLMOrchestrator.run_single science (two_worker_env 0.87 0.80)
          "task_001" 3 0.07 true 0.55) = true
  /\ (0.87 - 0.80)%float = 0.06999999999999995%float.
Proof.
  destruct (escalation_and_tie_break science (two_worker_env 0.87 0.80)
              "task_001" 3 0.07 true 0.55
              [candidate "solver_01" "yes"; candidate "solver_02" "no"]
              1%float (verdict (two_worker_ranking 0.87 0.80) "solver_01" "yes"))
    as (_ & Hreb & Hcons).
  - rewrite two_worker_first_rounds64. reflexivity.
  - split; [|split].
    + apply Hreb. split; reflexivity.
    + eapply Hcons; [vm_compute; reflexivity|].
      eexists _, _, _. split; reflexivity.
    + reflexivity.
Defined.

(** With the scores 0.08 and 0.01 the doubles give the gap
    0.07 exactly, which is not below epsilon: no consensus call. *)
Example gap_at_epsilon :
  invoked is_consensus_call
    (MultiLLMOrchestrator.run_single science (two_worker_env 0.08 0.01)
       "task_001" 3 0.07 true 0.55) = false
  /\ (0.08 - 0.01)%float = 0.07%float.
Proof. split; vm_compute; reflexivity. Qed.

(** C4 fails when rebuttal is switched off: the two workers disagree
    completely (rate 1.0, above the threshold 0.55), the run completes, and
    the rebuttal round is not called. *)
Lemma rebuttal_disabled_not_invoked :
  MultiLLMOrchestrator.disagreement_rate
    (SolverPool.run_parallel "task_001"
       (solver_futures (two_worker_env 0.9 0.5))) = Ok 1%float
  /\ (0.55 <=? 1)%float = true
  /\ (exists res,
        outcome (MultiLLMOrchestrator.run_single science
                   (two_worker_env 0.9 0.5) "task_001" 3 0.07 false 0.55)
        = Ok res)
  /\ invoked is_rebuttal_call
       (MultiLLMOrchestrator.run_single science (two_worker_env 0.9 0.5)
          "task_001" 3 0.07 false 0.55) = false.
Proof.
  split; [|split; [|split]]; try (vm_compute; reflexivity).
  eexists. vm_compute. reflexivity.
Qed.


(** ** The solver pool and the rebuttal round *)

Lemma as_str_list_strings64 (l : list json) :
  Forall is_string l -> exists ss, as_str_list (JArr l) = Ok ss.
Proof.
  cbn [as_str_list]. induction 1 as [|j l [s ->] _ [ss IH]].
  - now exists [].
  - exists (s :: ss). cbn. cbn in IH. now rewrite IH.
Qed.

(** [float(x)] of a number that passed the range check. *)
Lemma py_float_unit (c : json) :
  is_unit_number c -> exists x, py_float c = Ok x /\ unit_or_nan x.
Proof.
  destruct c as [| |n|x| | |]; cbn [is_unit_number]; try tauto.
  - intros Hn. exists (of_int n). split; [reflexivity|].
    assert (Hcase : n = 0 \/ n = 1) by lia.
    destruct Hcase as [-> | ->]; split; reflexivity.
  - intros Hx. now exists x.
Qed.

(** What the constructor call builds from a reply that satisfies the
    contract. *)
Lemma build_solver_output_eval64 (mid tid : string) (parsed : json)
    (latency : Z) (stamp : string) :
  solver_contract parsed ->
  exists fa conf asm rsk evd chk,
    build_solver_output mid tid parsed latency stamp
    = Ok {| model_id := mid; task_id := tid; final_answer := fa;
            confidence := conf; assumptions := asm; risks := rsk;
            evidence := evd; self_checks := chk; latency_ms := latency;
            timestamp := stamp |}
    /\ getitem parsed "final_answer" = Ok (JStr fa)
    /\ (getitem parsed "confidence" ≫= py_float) = Ok conf
    /\ unit_or_nan conf.
Proof.
  intros (m & -> & _ & _ & _ & (fa & Hfa & s & ->) & (c & Hc & Hunit)
          & (a1 & H1 & l1 & -> & Hl1) & (a2 & H2 & l2 & -> & Hl2)
          & (a3 & H3 & l3 & -> & Hl3) & (a4 & H4 & l4 & -> & Hl4)).
  destruct (as_str_list_strings64 l1 Hl1) as [s1 E1].
  destruct (as_str_list_strings64 l2 Hl2) as [s2 E2].
  destruct (as_str_list_strings64 l3 Hl3) as [s3 E3].
  destruct (as_str_list_strings64 l4 Hl4) as [s4 E4].
  destruct (py_float_unit c Hunit) as (x & Hconf & Hx).
  exists s, x, s1, s2, s3, s4.
  unfold build_solver_output, getitem.
  rewrite Hfa, Hc, H1, H2, H3, H4. cbn [mbind result_bind as_str].
  rewrite Hconf, E1, E2, E3, E4. repeat split; try reflexivity; apply Hx.
Qed.

Lemma call_solver_accepted64 (tid : string) (r : SolverReply) :
  accepted r = true ->
  exists out parsed,
    SolverPool.call_solver tid r = Ok out
    /\ sr_parsed r = Ok parsed
    /\ solver_contract parsed
    /\ model_id out = sr_model_id r
    /\ task_id out = tid
    /\ latency_ms out = sr_latency_ms r
    /\ getitem parsed "final_answer" = Ok (JStr (final_answer out))
    /\ (getitem parsed "confidence" ≫= py_float) = Ok (confidence out)
    /\ unit_or_nan (confidence out).
Proof.
  unfold accepted, SolverPool.call_solver.
  destruct (sr_parsed r) as [parsed|e]; [|discriminate].
  intros Hvalid. pose proof Hvalid as Hc. apply valid_solver_schema64 in Hc.
  destruct (build_solver_output_eval64 (sr_model_id r) tid parsed
              (sr_latency_ms r) (sr_timestamp r) Hc)
    as (fa & conf & asm & rsk & evd & chk & Hbuild & Hfa & Hconf & Hrange).
  eexists _, parsed. cbn [mbind result_bind].
  unfold validate_solver_json. rewrite Hvalid. cbn [mbind result_bind].
  split; [exact Hbuild|]. repeat split; try assumption; apply Hrange.
Qed.

Lemma call_solver_rejected64 (tid : string) (r : SolverReply) :
  accepted r = false -> exists e, SolverPool.call_solver tid r = Raise e.
Proof.
  unfold accepted, SolverPool.call_solver.
  destruct (sr_parsed r) as [parsed|e]; [|intros _; now exists e].
  intros Hvalid. cbn [mbind result_bind].
  unfold validate_solver_json. rewrite Hvalid. eexists. reflexivity.
Qed.

(** X21.  The solver round returns one candidate for every worker call
    whose reply was parsed and passes [SOLVER_SCHEMA], in completion order,
    and nothing for the other calls.  Each candidate carries the worker id
    of the pool's roster (the reply's own [model_id] and [task_id] fields
    are checked but not used), the task id of the run, the measured
    latency, the reply's final answer, and as confidence the reply's
    number as a double, which is neither below 0 nor above 1: a double
    between 0 and 1, or NaN. *)
Theorem run_parallel_outputs (tid : string) (futures : list SolverReply) :
  let outputs := SolverPool.run_parallel tid futures in
  map model_id outputs
  = map sr_model_id (List.filter accepted futures)
  /\ map latency_ms outputs
     = map sr_latency_ms (List.filter accepted futures)
  /\ Forall2 (fun out r =>
       exists parsed,
         sr_parsed r = Ok parsed
         /\ solver_contract parsed
         /\ getitem parsed "final_answer" = Ok (JStr (final_answer out))
         /\ (getitem parsed "confidence" ≫= py_float)
            = Ok (confidence out))
       outputs (List.filter accepted futures)
  /\ Forall (fun out =>
       task_id out = tid
       /\ (confidence out <? 0)%float = false
       /\ (1 <? confidence out)%float = false) outputs.
Proof.
  cbv zeta. induction futures as [|r futures (IH1 & IH2 & IH3 & IH4)].
  - repeat split; constructor.
  - cbn [SolverPool.run_parallel List.filter].
    destruct (accepted r) eqn:Hacc.
    + destruct (call_solver_accepted64 tid r Hacc)
        as (out & parsed & Hcall & Hparsed & Hc & Hid & Htid & Hlat & Hfa
            & Hconf & Hrange).
      rewrite Hcall. cbn [map]. rewrite IH1, IH2, Hid, Hlat.
      repeat split; try reflexivity.
      * constructor; [|exact IH3]. now exists parsed.
      * constructor; [|exact IH4]. split; [exact Htid|exact Hrange].
    + destruct (call_solver_rejected64 tid r Hacc) as [e Hcall].
      rewrite Hcall. auto.
Qed.

(** A worker whose reply carries the confidence NaN is a candidate of the
    round, with that confidence. *)
Example nan_candidate :
  map confidence
    (SolverPool.run_parallel "task_001"
       [{| sr_model_id := "solver_01";
           sr_parsed := Ok (reply_with_confidence (JFloat nan));
           sr_latency_ms := 120; sr_timestamp := "t0" |}])
  = [nan].
Proof. vm_compute. reflexivity. Qed.

Lemma solver_json_valid64 (answer : string) :
  valid SOLVER_SCHEMA (solver_json answer) = true.
Proof.
  apply valid_solver_schema64. eexists. split; [reflexivity|].
  split; [apply has_exactly_list_to_map64|].
  unfold field_is, is_string, is_string_list.
  repeat split; eexists; (split; [vm_compute; reflexivity|]);
    check_field64.
Qed.

(** X28.  At a position where the worker's rebuttal reply passes
    [SOLVER_SCHEMA], the rebuttal round replaces the candidate: the new
    candidate keeps the worker id and the latency of the old one, carries
    the run's task id, the reply's final answer and, as confidence, the
    reply's number as a double, which is neither below 0 nor above 1 (a
    double between 0 and 1, or NaN); the reply's own [model_id] and
    [task_id] are not used. *)
Theorem rebuttal_improved_candidate (env : RebuttalOracle) (tid : string)
    (all_outputs : list SolverOutput) (i : nat) (own : SolverOutput)
    (parsed : json) :
  all_outputs !! i = Some own ->
  rebuttal_reply env i own (RebuttalRound.other_outputs all_outputs own)
  = Ok parsed ->
  valid SOLVER_SCHEMA parsed = true ->
  exists out,
    RebuttalRound.run env tid all_outputs !! i = Some out
    /\ model_id out = model_id own
    /\ latency_ms out = latency_ms own
    /\ task_id out = tid
    /\ timestamp out = rebuttal_clock env i
    /\ getitem parsed "final_answer" = Ok (JStr (final_answer out))
    /\ (getitem parsed "confidence" ≫= py_float) = Ok (confidence out)
    /\ (confidence out <? 0)%float = false
    /\ (1 <? confidence out)%float = false.
Proof.
  intros Hown Hreply Hvalid.
  pose proof Hvalid as Hc. apply valid_solver_schema64 in Hc.
  destruct (build_solver_output_eval64 (model_id own) tid parsed
              (latency_ms own) (rebuttal_clock env i) Hc)
    as (fa & conf & asm & rsk & evd & chk & Hbuild & Hfa & Hconf & Hrange).
  eexists. split.
  - unfold RebuttalRound.run. rewrite list_lookup_imap, Hown.
    cbn [fmap option_fmap option_map].
    unfold RebuttalRound.step, RebuttalRound.attempt. rewrite Hreply.
    cbn [mbind result_bind]. unfold validate_solver_json. rewrite Hvalid.
    cbn [mbind result_bind]. rewrite Hbuild. reflexivity.
  - repeat split; try assumption; apply Hrange.
Qed.

Lemma rebuttal_improved_candidate_witness :
  exists out,
    RebuttalRound.run (agreeing_rebuttal "maybe") "task_001"
      [candidate "solver_01" "yes"; candidate "solver_02" "no"] !! 1%nat
    = Some out
    /\ model_id out = "solver_02"%string
    /\ final_answer out = "maybe"%string.
Proof.
  destruct (rebuttal_improved_candidate (agreeing_rebuttal "maybe") "task_001"
              [candidate "solver_01" "yes"; candidate "solver_02" "no"] 1
              (candidate "solver_02" "no") (solver_json "maybe"))
    as (out & Hout & Hid & _ & _ & _ & Hfa & _).
  - reflexivity.
  - reflexivity.
  - apply solver_json_valid64.
  - exists out. split; [exact Hout|]. split; [exact Hid|].
    vm_compute in Hfa. now injection Hfa.
Defined.


End Doubles.
